(* ===== verification/_CoqProject ===== *)
-Q . S2P
Prelude.v
GoStrings.v
GoFloat.v
Config.v
CircuitBreaker.v
ScoreTracker.v
AutoTuner.v
BlockCache.v
Upstream.v
Selector.v
PoolOrder.v
Pool.v
PoolState.v
Health.v
MemoryStore.v
Regexp.v
Cache.v
ApiPath.v
Paths.v
Historical.v
Url.v
CacheKey.v
HeadWatcher.v
Consensus.v
Session.v
Routing.v
ConfigFile.v
RedisStore.v
Headers.v
Exec.v
Ownership.v
ExecSafety.v
ExecBounds.v
Hedge.v
HedgeContext.v
Serve.v
ServeSafety.v
Warm.v
SSE.v
SSESafety.v
Watch.v
Proxy.v
ProxySafety.v
Cors.v
DebugLog.v
Status.v
Main.v
MainSafety.v
Harness.v
LoadTest.v
LoadTestSafety.v
Reliability.v
ReliabilitySafety.v
UpstreamGauges.v
ActiveGauge.v
Metrics.v
FailureLog.v
Bodies.v
EndToEnd.v
