(* ===== verification/Prelude.v ===== *)
(** * eBeacon: a verification development

    eBeacon is a reverse proxy in front of Ethereum beacon nodes ("upstreams"). Per network it
    keeps a pool of upstreams with health, circuit breakers, scores and rate limits, decides
    which of them may answer a request, caches responses under rules that follow the chain's
    slots and finality, and watches the upstreams' event streams to keep both up to date.

    ** The parts and the files that model them

    The language and its libraries:
    - [Prelude] (this file): machine integers with their wrap-around, stable sorting and orders of
      views, boolean filters, the tactics [b2p] and [bool_destruct] and the hint database [go].
    - [GoStrings], [GoFloat], [Regexp], [Url]: what the code uses of Go's [strings], [strconv],
      [hash/fnv], [float64], [regexp] and [net/url].  Strings are bytes.  Floats are the executable
      IEEE binary64 of [SpecFloat].  [RegexpLib] is a class, because operators configure
      patterns; [MiniRegexp] is an instance for the syntax of the built-in patterns.

    Configuration:
    - [Config], [ConfigFile]: [config/config.go]; failsafe settings and their merging, and the whole file:
      defaults, secrets, validation ([Load]).

    Upstreams:
    - [CircuitBreaker], [ScoreTracker], [AutoTuner], [Upstream], [Selector]: one upstream
      ([upstream/upstream.go], [scoring.go], [ratelimit.go], [selector.go]).  The breaker's state
      is the record [CB]; a request holds a [CBToken] between [CBTryAcquire] and its settlement.
      The token bucket of [golang.org/x/time/rate] is the class [RateLib] with its laws.
    - [BlockCache]: recent blocks, votes, the canonical head and fork status
      ([upstream/blockcache.go]), with the shared [*Block] pointers as a heap.
    - [PoolOrder], [Pool], [PoolState]: the four load-balancing orders, selection, and the
      finalized epoch with its compare-and-swap loop and its copy in shared state
      ([upstream/pool.go], [state/redis.go]).
    - [Health]: the probes of [upstream/health.go]; the replies are arguments.

    Cached responses:
    - [MemoryStore], [Cache], [RedisStore]: the LRU store, the policy-driven cache and the store in a
      Redis database ([cache/memory.go], [cache/cache.go], [cache/redis.go]).
    - [CacheKey]: cache keys, their parser, query canonicalisation and content negotiation
      ([network/network.go], [head_cache.go]).

    Requests:
    - [ApiPath], [Paths], [Historical]: what the code reads out of a request path: the route
      template, slots, epochs, named identifiers, finality, lexical cleanliness, the lifetime of
      a cached response, archive targets and pruning-shaped answers ([network/api_path.go],
      [network.go], [historical_target.go], [pruning_error.go]).
    - [Consensus], [Session], [Routing]: reads answered by the largest agreeing group, client
      addresses and sticky sessions, and client prefixes with route rules
      ([network/consensus.go], [session.go], [routing.go]).
    - [Headers], [Exec], [Hedge]: the request sent upstream, its sequential, selected, consensus, archive and
      hedged execution over the shared pool ([network/network.go], [executeFS] and what it calls).
      The state is [World], the pool with the bodies that are open; what upstreams answer is a script, and
      hedged goroutines are a transition system run by an arbitrary schedule.
    - [HedgeContext]: the contexts of hedged attempts along the same schedules.
    - [Serve]: [network.New] and [Network.ServeHTTP], from the guards to the delivered response.
    - [Ownership], [ExecSafety], [ExecBounds], [ServeSafety]: who holds which breaker token and open
      body ([holding]), and what follows for each function of the pipeline.

    Event streams:
    - [HeadWatcher], [Watch]: the events of an upstream's stream with their effect on pool and cache, and
      the subscription that reads them ([network/head_watcher.go]).
    - [Warm]: the requests that refill the cache after a head event ([network/head_cache.go]).
    - [SSE], [SSESafety]: the relay of event streams to clients ([network/sse.go]).

    The service:
    - [Proxy], [ProxySafety], [Cors]: routing to networks, credentials and their limits, CORS
      ([proxy/]).
    - [DebugLog]: the debug log and the sanitising of errors ([debuglog/debuglog.go],
      [upstream/errors.go]).
    - [Status]: the dashboard's endpoints ([api/status.go]).
    - [Main], [MainSafety]: the program ([main.go]).  [start] loads, builds and registers; [App_ServeHTTP] is
      the handler of the server; [step] is the transition relation of the running program: one answered
      request, one health probe, one stream event, one head of another instance, one session sweep, one warming or one
      relay.  [http.ServeMux] is modelled for literal patterns.
    - [Metrics]: what a request writes to the Prometheus series of requests, cache and scores, and the
      identity in its context ([network/request_metrics.go], [upstream/pool.go], [reqctx/]).
    - [FailureLog]: what the execution of a request reports to the debug log and to the counters of archive
      promotions ([logFailure], [network/archive_metrics.go]).
    - [UpstreamGauges], [ActiveGauge], [Bodies]: the series of an upstream, its gauge of active connections step by step, and the wrappers around a response's body
      ([upstream/upstream.go], [network/network.go]).

    The test drivers:
    - [Harness]: what both drivers use of Go, and interleavings of goroutines.
    - [LoadTest], [LoadTestSafety]: the load tester ([scripts/loadtest]).
    - [Reliability], [ReliabilitySafety]: the reliability test ([scripts/reliability]).
    - [EndToEnd]: the reliability test's leak check on the metrics of the program of [Main].

    Components interact as in the code: [Upstream] contains a breaker, a score tracker and a
    limiter; [Pool] contains upstreams and a block cache; [HeadWatcher] drives a pool and a
    cache; [Consensus], [Exec] and [Hedge] send requests through [Upstream_Do] and settle their tokens;
    [Serve] composes guards, cache, execution and delivery; [Warm] uses the same execution; [Proxy]
    and [Status] run on the networks that [Network_New] builds from a loaded configuration; [Main] composes
    all of them; [EndToEnd] joins the program with the driver that tests it.

    ** What the theorems show

    - Circuit breaker: at most one recovery probe is outstanding in every execution, a token settles
      once, stale tokens are inert, the breaker opens exactly at its threshold, recovers after enough
      probes, and a refusal is temporary.
    - Block cache: every reachable cache is well formed, the canonical head is the majority block of
      the newest slot within bounds, and fork status is what the votes say.
    - Selection: results come from the best non-empty tier, without duplicates, in priority order;
      round robin is exactly proportional to the weights; head requests go to upstreams that
      have the head.
    - Finality: the pool's epoch is the maximum of all reports under every interleaving of memory
      accesses, stays plausible, and the shared copy never decreases.
    - Cache: the store refines a bounded recency list; cached responses respect their lifetime;
      in every run of stores, reads and chain events, permanent entries hold finalized data only;
      a reorg leaves no orphaned entry; keys can be read back and are canonical; what a
      client fetched, or warming stored, is served to that client again; the Redis store reads back
      what it stored, and networks that share a database do not meet.
    - Paths: route templates form a fixed finite set; finality, archive routing and cleanliness
      are characterised in unbounded arithmetic and on segments.
    - Requests: every probe token and every body is given back, whatever the network does and however
      hedged attempts are scheduled; executions end, dispatch to no upstream twice and at
      most as often as configured; a hedged execution cancels every attempt but the one it returns; no credential, hop-by-hop header or internal parameter goes
      upstream; guards answer in order and before anything changes; with trusted
      proxies a client cannot forge its address; the handlers do not panic.
    - Streams: a subscription is a run of the event handlers on the framed events, and events on
      the wire are read back exactly; a client is sent no event twice and nothing over the cap;
      reconnection delays are bounded.
    - Service: a configuration that loads is sound and its networks start; with an auth section exactly the
      configured credentials are let in, to the proxy and to the dashboard; CORS headers are
      set for allowed origins only; the debug log is independent of credentials; views do not depend on
      the order of Go's maps.
    - Program: a configuration that loads starts a server; in every reachable state, whatever the interleaving of
      requests and background steps, nothing is leaked, every network keeps its invariant and no request
      panics; without a credential nothing changes and nothing is disclosed.
    - Metrics and log: every request is counted once under the status it is answered with; a failed request is reported
      once, a failed attempt of a sequential execution once and with its own number; the series by route are
      bounded by the configuration; the gauges of an upstream show its fields; a response body gives back its connection exactly once, whatever is called on it.
    - Drivers: the report of the load tester accounts for every request under every interleaving of its workers; the
      reliability test succeeds exactly if no issue that counts was logged, no fetch failed and every checker was active;
      its stream monitor counts exactly; the program passes its leak check.

    ** Bounds and fuel

    Integers are [Z] with [wrap64], [wrap32] or [wrap_i64] where the code's width matters; a
    theorem that needs the absence of overflow says so.  Loops that are not structural carry
    fuel computed from their input: [head_fuel] and [behind_fuel] count the slots a walk in the block
    cache can visit; [evict_loop] gets the length of the recency list; weighted sampling
    draws once per upstream; glob and pattern parsers get a multiple of the pattern's length; a
    decimal number has at most 20 digits; [seq_loop] and [candidates_loop] run over their
    candidates; [capped_loop] and [read_lines] get the length of the body, of which each round but the last
    consumes a part.  The refinement and shape theorems show that the fuel
    suffices: they state what is returned, not only what holds if something is.  Loops that only an
    event ends (hedging, a stream, reconnecting) run along a schedule, and the theorems
    quantify over all schedules.

    ** What is not modelled

    HTTP transport, JSON and gob encoding, YAML decoding, the Redis server, timers, goroutine scheduling and
    compression: their outcomes are arguments of the definitions ([participant_io], [HeadJSON],
    [NetLib], [RedisLib], scripts, schedules and probe replies).  SHA-256 and [strconv.ParseFloat] are
    arguments too.  [ToLower] and [ToUpper] work on ASCII bytes.  Of the log everything but the
    debug log is left out: nothing reads it back.  The request handler works on the in-memory store.  The text of the drivers'
    reports, and in [main.go] the listening socket, the signals, the profiler and the log level are left out; the replies and the moments
    at which a driver is stopped are a script. *)

From stdpp Require Export base option list list_numbers gmap strings sorting.
From Stdlib Require Export ZArith Lia.

Declare Scope go_scope.
Delimit Scope go_scope with go.
#[local] Open Scope Z_scope.

(** ** Machine integers

    Go's [uint64] and [int64] (the width of [int] on the supported targets) are
    modelled as [Z]; an operation whose overflow matters is written with its
    wrap-around. *)

Definition u64_modulus : Z := 2 ^ 64.

Definition u32_modulus : Z := 2 ^ 32.

Definition wrap64 (z : Z) : Z := z mod u64_modulus.

Definition wrap32 (z : Z) : Z := z mod u32_modulus.

(** Two's-complement reading of the low 64 bits. *)
Definition wrap_i64 (z : Z) : Z :=
  let w := z mod u64_modulus in
  if w <? 2 ^ 63 then w else w - u64_modulus.

Definition u64_add (a b : Z) : Z := wrap64 (a + b).

Definition u64_sub (a b : Z) : Z := wrap64 (a - b).

Definition u64_mul (a b : Z) : Z := wrap64 (a * b).

Definition is_u64 (z : Z) : Prop := 0 <= z < u64_modulus.

Notation "a +u b" := (u64_add a b) (at level 50, left associativity) : go_scope.
Notation "a -u b" := (u64_sub a b) (at level 50, left associativity) : go_scope.
Notation "a *u b" := (u64_mul a b) (at level 40, left associativity) : go_scope.

(** ** Sorting

    [sort.SliceStable] returns the stable sort of its slice by [less].  Insertion
    of each element in front of the first one that is not [less] than it is that
    stable sort; [sort.Slice] gives the same slice when elements that compare
    equal are equal. *)

Section sorting_def.
Context {A : Type} (less : A → A → bool).

Fixpoint insert_stable (x : A) (l : list A) : list A :=
  match l with
  | [] => [x]
  | y :: l' => if less y x then y :: insert_stable x l' else x :: y :: l'
  end.

Definition stable_sort (l : list A) : list A := foldr insert_stable [] l.

End sorting_def.

(** [for _, x := range l { if f(x) { out = append(out, x) } }] *)
Fixpoint bfilter {A} (f : A → bool) (l : list A) : list A :=
  match l with
  | [] => []
  | x :: l' => if f x then x :: bfilter f l' else bfilter f l'
  end.

(** [for i, x := range l { if f(x) { return i, x } }] *)
Fixpoint find_first {A} (f : A → bool) (l : list A) : option A :=
  match l with
  | [] => None
  | x :: l' => if f x then Some x else find_first f l'
  end.

(** The longest prefix that satisfies [f], and the rest. *)
Fixpoint span {A} (f : A → bool) (l : list A) : list A * list A :=
  match l with
  | [] => ([], [])
  | x :: l' => if f x then let '(a, b) := span f l' in (x :: a, b) else ([], l)
  end.

(** ** Automation *)

Create HintDb go.
Create Rewrite HintDb go.

(** Split every boolean test of the goal and of the hypotheses. *)
Ltac bool_destruct :=
  repeat match goal with
  | H : context [if ?b then _ else _] |- _ => destruct b eqn:?
  | |- context [if ?b then _ else _] => destruct b eqn:?
  end.

(** Turn boolean comparisons into propositions. *)
Ltac b2p :=
  repeat match goal with
  | H : (_ && _) = true |- _ => apply andb_true_iff in H as [? ?]
  | H : (_ || _) = false |- _ => apply orb_false_iff in H as [? ?]
  | H : negb _ = true |- _ => apply negb_true_iff in H
  | H : negb _ = false |- _ => apply negb_false_iff in H
  | H : (_ <? _) = true |- _ => apply Z.ltb_lt in H
  | H : (_ <? _) = false |- _ => apply Z.ltb_ge in H
  | H : (_ <=? _) = true |- _ => apply Z.leb_le in H
  | H : (_ <=? _) = false |- _ => apply Z.leb_gt in H
  | H : (_ =? _) = true |- _ => apply Z.eqb_eq in H
  | H : Nat.ltb _ _ = true |- _ => apply Nat.ltb_lt in H
  | H : Nat.ltb _ _ = false |- _ => apply Nat.ltb_ge in H
  | H : Nat.leb _ _ = true |- _ => apply Nat.leb_le in H
  | H : Nat.leb _ _ = false |- _ => apply Nat.leb_gt in H
  | H : Nat.eqb _ _ = true |- _ => apply Nat.eqb_eq in H
  | H : Nat.eqb _ _ = false |- _ => apply Nat.eqb_neq in H
  | H : (_ =? _) = false |- _ => apply Z.eqb_neq in H
  | H : String.eqb _ _ = true |- _ => apply String.eqb_eq in H
  | H : String.eqb _ _ = false |- _ => apply String.eqb_neq in H
  | H : bool_decide _ = true |- _ => apply bool_decide_eq_true in H
  | H : bool_decide _ = false |- _ => apply bool_decide_eq_false in H
  end.

(** ** Lemmas on machine integers *)

Lemma u64_modulus_pos : 0 < u64_modulus.
Proof. reflexivity. Qed.

Lemma wrap64_range z : is_u64 (wrap64 z).
Proof. apply Z.mod_pos_bound, u64_modulus_pos. Qed.

Lemma wrap64_small z : is_u64 z → wrap64 z = z.
Proof. intros; by apply Z.mod_small. Qed.

Lemma u64_sub_small a b : is_u64 a → 0 <= b <= a → u64_sub a b = a - b.
Proof. unfold u64_sub, is_u64. intros. apply wrap64_small. unfold is_u64; lia. Qed.

(** An unsigned subtraction that underflows lands just below the modulus. *)
Lemma u64_sub_underflow a b :
  is_u64 a → a < b <= a + u64_modulus → u64_sub a b = a - b + u64_modulus.
Proof.
  unfold u64_sub, wrap64, is_u64. intros Ha Hb.
  symmetry. apply Z.mod_unique with (q := -1); lia.
Qed.

Lemma u64_add_small a b : is_u64 (a + b) → u64_add a b = a + b.
Proof. intros; by apply wrap64_small. Qed.

Lemma u64_mul_small a b : is_u64 (a * b) → u64_mul a b = a * b.
Proof. intros; by apply wrap64_small. Qed.

#[export] Hint Resolve wrap64_range u64_modulus_pos : go.

Lemma wrap_i64_small z : - 2 ^ 63 <= z < 2 ^ 63 → wrap_i64 z = z.
Proof.
  intros Hz. unfold wrap_i64, u64_modulus.
  destruct (Z.lt_ge_cases z 0).
  - replace (z mod 2 ^ 64) with (z + 2 ^ 64).
    + destruct (Z.ltb_spec (z + 2 ^ 64) (2 ^ 63)); lia.
    + apply Z.mod_unique with (q := -1); lia.
  - rewrite Z.mod_small by lia.
    destruct (Z.ltb_spec z (2 ^ 63)); lia.
Qed.

Lemma wrap_i64_mod a b : a mod u64_modulus = b mod u64_modulus → wrap_i64 a = wrap_i64 b.
Proof. unfold wrap_i64. by intros ->. Qed.

Lemma wrap_i64_congr a : wrap_i64 a mod u64_modulus = a mod u64_modulus.
Proof.
  unfold wrap_i64. cbv zeta. destruct (_ <? _).
  - apply Z.mod_mod. discriminate.
  - rewrite <- (Z_mod_plus_full _ 1). replace (_ + 1 * u64_modulus) with (a mod u64_modulus) by lia.
    apply Z.mod_mod. discriminate.
Qed.

(** ** Lemmas on lists *)

Section list_lemmas.
Context {A : Type}.
Implicit Types (l : list A) (f g : A → bool).

Lemma elem_of_bfilter f l x : x ∈ bfilter f l ↔ x ∈ l ∧ f x = true.
Proof.
  induction l as [|y l IH]; simpl.
  { rewrite elem_of_nil. tauto. }
  destruct (f y) eqn:Hy; rewrite ?elem_of_cons, IH.
  - split; [intros [->|[??]]; auto|intros [[->|?] ?]; auto].
  - split; [intros [??]; auto|]. intros [[->|?] ?]; [congruence|done].
Qed.

Lemma bfilter_sublist f l : sublist (bfilter f l) l.
Proof.
  induction l as [|y l IH]; simpl; [constructor|].
  destruct (f y); by constructor.
Qed.

Lemma bfilter_nil f l : bfilter f l = [] ↔ ∀ x, x ∈ l → f x = false.
Proof.
  split.
  - intros Hnil x Hx. destruct (f x) eqn:Hfx; [|done].
    assert (x ∈ bfilter f l) as Hin by by apply elem_of_bfilter.
    rewrite Hnil in Hin. set_solver.
  - induction l as [|y l IH]; intros Hall; simpl; [done|].
    rewrite Hall by set_solver. apply IH. set_solver.
Qed.

Lemma bfilter_all f l : (∀ x, x ∈ l → f x = true) → bfilter f l = l.
Proof.
  induction l as [|y l IH]; intros Hall; simpl; [done|].
  rewrite Hall by set_solver. f_equal. apply IH. set_solver.
Qed.

Lemma bfilter_bfilter f g l : bfilter f (bfilter g l) = bfilter (λ x, g x && f x) l.
Proof.
  induction l as [|y l IH]; simpl; [done|].
  destruct (g y); simpl; by rewrite IH.
Qed.

Lemma bfilter_NoDup f l : NoDup l → NoDup (bfilter f l).
Proof. intros Hl. eapply sublist_NoDup; [done|apply bfilter_sublist]. Qed.

Lemma length_bfilter f l : (length (bfilter f l) <= length l)%nat.
Proof. apply sublist_length, bfilter_sublist. Qed.

Lemma bfilter_app f l k : bfilter f (l ++ k) = bfilter f l ++ bfilter f k.
Proof.
  induction l as [|y l IH]; simpl; [done|]. rewrite IH. by destruct (f y).
Qed.

Lemma bfilter_ext f g l : (∀ x, x ∈ l → f x = g x) → bfilter f l = bfilter g l.
Proof.
  induction l as [|y l IH]; intros Hall; simpl; [done|].
  rewrite (Hall y) by set_solver.
  assert (bfilter f l = bfilter g l) as -> by (apply IH; set_solver). done.
Qed.

Lemma bfilter_Permutation f l k : l ≡ₚ k → bfilter f l ≡ₚ bfilter f k.
Proof.
  induction 1 as [|x l k _ IH|x y l|l k m _ IH1 _ IH2]; simpl.
  - done.
  - destruct (f x); [by constructor|done].
  - destruct (f x), (f y); done || constructor.
  - by etrans.
Qed.

Lemma find_first_Some f l x :
  find_first f l = Some x → x ∈ l ∧ f x = true.
Proof.
  induction l as [|y l IH]; simpl; [done|].
  destruct (f y) eqn:Hy; [intros [= ->]; set_solver|set_solver].
Qed.

Lemma find_first_None f l :
  find_first f l = None ↔ ∀ x, x ∈ l → f x = false.
Proof.
  induction l as [|y l IH]; simpl; [set_solver|].
  destruct (f y) eqn:Hy; [|set_solver].
  split; [done|]. intros Hall. specialize (Hall y ltac:(set_solver)). congruence.
Qed.

(** The result is the first match: everything before it fails the test. *)
Lemma find_first_split f l x :
  find_first f l = Some x →
  ∃ l1 l2, l = l1 ++ x :: l2 ∧ f x = true ∧ ∀ y, y ∈ l1 → f y = false.
Proof.
  induction l as [|y l IH]; simpl; [done|].
  destruct (f y) eqn:Hy.
  - intros [= ->]. exists [], l. set_solver.
  - intros (l1 & l2 & -> & Hx & Hl1)%IH. exists (y :: l1), l2. set_solver.
Qed.

Lemma span_app f l : let '(a, b) := span f l in l = a ++ b.
Proof.
  induction l as [|x l IH]; simpl; [done|].
  destruct (f x); [|done]. destruct (span f l). by rewrite IH.
Qed.

Lemma span_all f l a b : span f l = (a, b) → Forall (λ x, f x = true) a.
Proof.
  revert a b. induction l as [|x l IH]; simpl; intros a b.
  - intros [= <- <-]. constructor.
  - destruct (f x) eqn:Hx; [|intros [= <- <-]; constructor].
    destruct (span f l) as [a' b'] eqn:Hs. intros [= <- <-].
    constructor; [done|]. by eapply IH.
Qed.

Lemma span_rest f l a b x : span f l = (a, b) → head b = Some x → f x = false.
Proof.
  revert a b. induction l as [|y l IH]; simpl; intros a b.
  - intros [= <- <-]. done.
  - destruct (f y) eqn:Hy.
    + destruct (span f l) as [a' b'] eqn:Hs. intros [= <- <-]. by eapply IH.
    + intros [= <- <-] [= ->]. done.
Qed.

End list_lemmas.

#[export] Hint Resolve bfilter_sublist bfilter_NoDup : go.

(** ** Lexicographic comparison

    [cmp.Or(cmp.Compare(..), ..)]: the first key that differs decides. *)

Definition lex_less {A K} (lt : K → K → bool) (key : A → K) (next : A → A → bool) (x y : A) : bool :=
  if lt (key x) (key y) then true else if lt (key y) (key x) then false else next x y.

Definition no_less {A} (x y : A) : bool := false.

(** A strict total order, and the strict part of a total preorder. *)
Record total_lt {K} (lt : K → K → bool) : Prop := {
  lt_irrefl x : lt x x = false;
  lt_trans x y z : lt x y = true → lt y z = true → lt x z = true;
  lt_total x y : lt x y = false → lt y x = false → x = y;
}.

Record weak_order {A} (less : A → A → bool) : Prop := {
  wo_trans x y z : less x y = false → less y z = false → less x z = false;
  wo_asym x y : less x y = true → less y x = false;
}.

Lemma no_less_weak {A} : weak_order (@no_less A).
Proof. by constructor. Qed.

Lemma lt_asym {K} (lt : K → K → bool) x y : total_lt lt → lt x y = true → lt y x = false.
Proof. intros H E. destruct (lt y x) eqn:E'; [|done]. by rewrite <- (lt_irrefl _ H x), (lt_trans _ H _ _ _ E E'). Qed.

Lemma lex_weak {A K} (lt : K → K → bool) (key : A → K) next : total_lt lt → weak_order next → weak_order (lex_less lt key next).
Proof.
  intros Hl [Ht Ha]. constructor; unfold lex_less.
  - intros x y z H1 H2. destruct (lt (key x) (key y)) eqn:E1; [done|]. destruct (lt (key y) (key z)) eqn:E2; [done|].
    destruct (lt (key y) (key x)) eqn:E3.
    + destruct (lt (key z) (key y)) eqn:E4.
      * pose proof (lt_trans _ Hl _ _ _ E4 E3) as E. by rewrite (lt_asym _ _ _ Hl E), E.
      * rewrite (lt_total _ Hl _ _ E2 E4) in *. by rewrite (lt_asym _ _ _ Hl E3), E3.
    + rewrite (lt_total _ Hl _ _ E1 E3) in *. rewrite E2. destruct (lt (key z) (key y)) eqn:E4; [done|]. by eapply Ht.
  - intros x y H. destruct (lt (key x) (key y)) eqn:E1; [by rewrite (lt_asym _ _ _ Hl E1)|].
    destruct (lt (key y) (key x)) eqn:E2; [done|]. by apply Ha.
Qed.

Lemma lex_equal {A K} (lt : K → K → bool) (key : A → K) next x y :
  total_lt lt → lex_less lt key next x y = false → lex_less lt key next y x = false →
  key x = key y ∧ next x y = false ∧ next y x = false.
Proof.
  intros Hl. unfold lex_less. destruct (lt (key x) (key y)) eqn:E1; [done|]. destruct (lt (key y) (key x)) eqn:E2; [done|].
  intros H1 H2. split_and!; [by apply (lt_total _ Hl)|done|done].
Qed.

(** ** Lemmas on sorting *)

Section sorting_lemmas.
Context {A : Type} (less : A → A → bool).

Lemma insert_stable_perm x l : insert_stable less x l ≡ₚ x :: l.
Proof.
  induction l as [|y l IH]; simpl; [done|].
  destruct (less y x); [|done]. rewrite IH. constructor.
Qed.

Lemma stable_sort_perm l : stable_sort less l ≡ₚ l.
Proof.
  induction l as [|x l IH]; simpl; [done|].
  by rewrite insert_stable_perm, IH.
Qed.

(** [less] is the strict part of a total preorder. *)
Context (less_trans : ∀ x y z, less x y = false → less y z = false → less x z = false)
  (less_asym : ∀ x y, less x y = true → less y x = false).

(** Each element is not [less] than any element before it. *)
Definition sorted_by (l : list A) : Prop := StronglySorted (λ x y, less y x = false) l.

Lemma insert_stable_sorted x l : sorted_by l → sorted_by (insert_stable less x l).
Proof.
  unfold sorted_by. induction 1 as [|y l Hl IH Hy]; simpl.
  - repeat constructor.
  - destruct (less y x) eqn:Hyx.
    + constructor; [done|]. rewrite insert_stable_perm. constructor; [|done].
      by apply less_asym.
    + constructor; [by constructor|]. constructor; [done|].
      eapply Forall_impl; [exact Hy|]. simpl. intros z Hz. by eapply less_trans.
Qed.

Lemma stable_sort_sorted l : sorted_by (stable_sort less l).
Proof.
  induction l as [|x l IH]; simpl; [constructor|]. by apply insert_stable_sorted.
Qed.

(** When elements that compare equal are equal, every sort of the same elements gives the same
    list. *)
Lemma sort_perm_unique l k :
  l ≡ₚ k → (∀ x y, x ∈ l → y ∈ l → less x y = false → less y x = false → x = y) → stable_sort less l = stable_sort less k.
Proof.
  intros Hp Hanti. apply (StronglySorted_unique_strong (λ x y, less y x = false)); [|apply stable_sort_sorted..|].
  - intros x y Hx Hy H1 H2. rewrite stable_sort_perm in Hx, Hy. rewrite <- Hp in Hy. by apply Hanti.
  - by rewrite !stable_sort_perm.
Qed.

(** Stability: elements of one equivalence class keep their order. *)
Lemma insert_stable_filter (f : A → bool) x l :
  (∀ y, f x = true → f y = true → less y x = false) →
  bfilter f (insert_stable less x l) = bfilter f (x :: l).
Proof.
  intros Hf. induction l as [|y l IH]; simpl; [done|].
  destruct (less y x) eqn:Hyx; [|done].
  simpl in *. rewrite IH. destruct (f x) eqn:Hfx, (f y) eqn:Hfy; try done.
  rewrite Hf in Hyx; done.
Qed.

Lemma stable_sort_stable (f : A → bool) l :
  (∀ x y, f x = true → f y = true → less y x = false) →
  bfilter f (stable_sort less l) = bfilter f l.
Proof.
  intros Hf. induction l as [|x l IH]; simpl; [done|].
  rewrite insert_stable_filter by auto. simpl. by rewrite IH.
Qed.

End sorting_lemmas.
