(* ===== verification/GoStrings.v ===== *)
(** * Go's [strings], [strconv] and [hash/fnv], as far as eBeacon uses them

    A Go string is a sequence of bytes, which is what [string] (a list of 8-bit
    [ascii]) is.  Case mapping covers the ASCII letters only: the strings it is
    applied to are HTTP methods, header names, media types, identifiers and
    client names. *)
From S2P Require Import Prelude.
From Stdlib Require Import Ascii.
#[local] Open Scope Z_scope.

(** ** Bytes *)

Definition byte_val (c : ascii) : Z := Z.of_N (N_of_ascii c).

Definition is_digit (c : ascii) : bool := (48 <=? byte_val c) && (byte_val c <=? 57).

Definition lower_byte (c : ascii) : ascii :=
  if (65 <=? byte_val c) && (byte_val c <=? 90)
  then ascii_of_N (Z.to_N (byte_val c + 32)) else c.

Definition upper_byte (c : ascii) : ascii :=
  if (97 <=? byte_val c) && (byte_val c <=? 122)
  then ascii_of_N (Z.to_N (byte_val c - 32)) else c.

(** ** Slicing *)

Fixpoint str_take (n : nat) (s : string) : string :=
  match n, s with
  | S n', String c s' => String c (str_take n' s')
  | _, _ => ""
  end.

Fixpoint str_drop (n : nat) (s : string) : string :=
  match n, s with
  | O, _ => s
  | S n', String _ s' => str_drop n' s'
  | S _, "" => ""
  end.

Definition str_len (s : string) : Z := Z.of_nat (String.length s).

Fixpoint str_map (f : ascii → ascii) (s : string) : string :=
  match s with "" => "" | String c s' => String (f c) (str_map f s') end.

(** ** The [strings] package *)

Definition HasPrefix (s p : string) : bool := String.prefix p s.

Definition TrimPrefix (s p : string) : string :=
  if HasPrefix s p then str_drop (String.length p) s else s.

Definition CutPrefix (s p : string) : option string :=
  if HasPrefix s p then Some (str_drop (String.length p) s) else None.

Definition HasSuffix (s p : string) : bool :=
  (String.length p <=? String.length s)%nat &&
  String.eqb (str_drop (String.length s - String.length p) s) p.

Definition TrimSuffix (s p : string) : string :=
  if HasSuffix s p then str_take (String.length s - String.length p) s else s.

Fixpoint Index (s sub : string) : option nat :=
  if String.prefix sub s then Some O else
  match s with
  | "" => None
  | String _ s' => S <$> Index s' sub
  end.

Definition Contains (s sub : string) : bool := bool_decide (is_Some (Index s sub)).

Fixpoint has_byte (f : ascii → bool) (s : string) : bool :=
  match s with "" => false | String c s' => f c || has_byte f s' end.

Definition in_set (chars : string) (c : ascii) : bool := has_byte (Ascii.eqb c) chars.

Definition ContainsAny (s chars : string) : bool := has_byte (in_set chars) s.

(** [strings.Cut] at a single byte, and [IndexByte] with the two slices it is
    used for. *)
Fixpoint CutByte (c : ascii) (s : string) : option (string * string) :=
  match s with
  | "" => None
  | String d s' =>
      if Ascii.eqb d c then Some ("", s') else
      match CutByte c s' with
      | Some (a, b) => Some (String d a, b)
      | None => None
      end
  end.

(** [strings.Split] with a one-byte separator. *)
Fixpoint Split (s : string) (c : ascii) : list string :=
  match s with
  | "" => [""]
  | String d s' =>
      if Ascii.eqb d c then "" :: Split s' c else
      match Split s' c with
      | x :: l => String d x :: l
      | [] => [String d ""]
      end
  end.

Fixpoint Join (l : list string) (sep : string) : string :=
  match l with
  | [] => ""
  | [x] => x
  | x :: l' => x +:+ sep +:+ Join l' sep
  end.

Fixpoint trim_left (f : ascii → bool) (s : string) : string :=
  match s with
  | "" => ""
  | String c s' => if f c then trim_left f s' else s
  end.

Fixpoint trim_right (f : ascii → bool) (s : string) : string :=
  match s with
  | "" => ""
  | String c s' =>
      match trim_right f s' with
      | "" => if f c then "" else String c ""
      | r => String c r
      end
  end.

Definition TrimRight (s cutset : string) : string := trim_right (in_set cutset) s.

Definition Trim (s cutset : string) : string := TrimRight (trim_left (in_set cutset) s) cutset.

(** The UTF-8 encodings of the runes for which [unicode.IsSpace] holds. *)
Definition bytes (l : list nat) : string :=
  foldr (λ n s, String (ascii_of_nat n) s) "" l.

Definition space_runes : list string :=
  map bytes
    ([[9]; [10]; [11]; [12]; [13]; [32]; [194; 133]; [194; 160]; [225; 154; 128]]%nat
     ++ map (λ n, [226; 128; n]%nat) (seq 128 11)
     ++ [[226; 128; 168]; [226; 128; 169]; [226; 128; 175]; [226; 129; 159]; [227; 128; 128]]%nat).

Fixpoint trim_space_left (fuel : nat) (s : string) : string :=
  match fuel with
  | O => s
  | S fuel' =>
      match find_first (HasPrefix s) space_runes with
      | Some r => trim_space_left fuel' (TrimPrefix s r)
      | None => s
      end
  end.

Fixpoint trim_space_right (fuel : nat) (s : string) : string :=
  match fuel with
  | O => s
  | S fuel' =>
      match find_first (HasSuffix s) space_runes with
      | Some r => trim_space_right fuel' (TrimSuffix s r)
      | None => s
      end
  end.

Definition TrimSpace (s : string) : string :=
  let l := trim_space_left (String.length s) s in
  trim_space_right (String.length l) l.

Definition ToLower (s : string) : string := str_map lower_byte s.

Definition ToUpper (s : string) : string := str_map upper_byte s.

Definition EqualFold (a b : string) : bool := String.eqb (ToLower a) (ToLower b).

(** ** [strconv] *)

Fixpoint parse_digits (acc : Z) (s : string) : option Z :=
  match s with
  | "" => Some acc
  | String c s' =>
      if is_digit c then parse_digits (acc * 10 + (byte_val c - 48)) s' else None
  end.

(** [strconv.ParseUint(s, 10, 64)]: [None] stands for either error. *)
Definition ParseUint (s : string) : option Z :=
  if String.eqb s "" then None else
  match parse_digits 0 s with
  | Some n => if n <? u64_modulus then Some n else None
  | None => None
  end.

(** Decimal rendering of a natural number ([%d], [strconv.Itoa]). *)
Fixpoint format_nat_fuel (fuel : nat) (z : Z) (acc : string) : string :=
  match fuel with
  | O => acc
  | S fuel' =>
      let acc' := String (ascii_of_N (Z.to_N (48 + z mod 10))) acc in
      if z / 10 =? 0 then acc' else format_nat_fuel fuel' (z / 10) acc'
  end.

Definition FormatUint (z : Z) : string := format_nat_fuel 20 z "".

(** ** [hash/fnv]: 32-bit FNV-1a *)

Definition fnv_offset32 : Z := 2166136261.

Definition fnv_prime32 : Z := 16777619.

Fixpoint fnv32a_from (h : Z) (s : string) : Z :=
  match s with
  | "" => h
  | String c s' => fnv32a_from (wrap32 (Z.lxor h (byte_val c) * fnv_prime32)) s'
  end.

Definition fnv32a (s : string) : Z := fnv32a_from fnv_offset32 s.

(** ** Lemmas *)

Lemma str_app_cons c s t : String c s +:+ t = String c (s +:+ t).
Proof. done. Qed.

Lemma str_app_nil_r s : s +:+ "" = s.
Proof. induction s as [|c s IH]; [done|]. rewrite str_app_cons. by f_equal. Qed.

Lemma str_app_assoc s t u : (s +:+ t) +:+ u = s +:+ t +:+ u.
Proof.
  induction s as [|c s IH]; [done|]. rewrite !str_app_cons. by f_equal.
Qed.

Lemma str_length_app s t :
  String.length (s +:+ t) = (String.length s + String.length t)%nat.
Proof. induction s as [|c s IH]; [done|]. rewrite str_app_cons. simpl. lia. Qed.

Lemma str_app_inj_l s t u : s +:+ t = s +:+ u → t = u.
Proof. induction s as [|c s IH]; [done|]. rewrite !str_app_cons. intros [= ?]; auto. Qed.

Lemma str_drop_app s t : str_drop (String.length s) (s +:+ t) = t.
Proof. induction s as [|c s IH]; [by destruct t|]. done. Qed.

Lemma str_take_app s t : str_take (String.length s) (s +:+ t) = s.
Proof. induction s as [|c s IH]; [by destruct t|]. rewrite str_app_cons. simpl. by f_equal. Qed.

Lemma str_take_drop n s : str_take n s +:+ str_drop n s = s.
Proof.
  revert s. induction n as [|n IH]; intros [|c s]; simpl; try done.
  rewrite str_app_cons. by f_equal.
Qed.

Lemma str_take_len n s : (String.length (str_take n s) <= n)%nat.
Proof. revert s. induction n as [|n IH]; intros [|c s]; cbn; [lia..|]. specialize (IH s). lia. Qed.

Lemma str_drop_len n s : String.length (str_drop n s) = (String.length s - n)%nat.
Proof. revert s. induction n as [|n IH]; intros [|c s]; cbn; [done..|]. apply IH. Qed.

Lemma str_take_all s : str_take (String.length s) s = s.
Proof. induction s as [|c s IH]; simpl; [done|]. by f_equal. Qed.

Lemma str_drop_all s : str_drop (String.length s) s = "".
Proof. by induction s. Qed.

Lemma prefix_app p s : String.prefix p (p +:+ s) = true.
Proof.
  induction p as [|c p IH]; [by destruct s|]. rewrite str_app_cons. simpl.
  destruct (ascii_dec c c); [done|congruence].
Qed.

Lemma prefix_spec p s : String.prefix p s = true ↔ ∃ t, s = p +:+ t.
Proof.
  split; [|intros [t ->]; apply prefix_app].
  revert s. induction p as [|c p IH]; intros s Hp; [by exists s|].
  destruct s as [|d s]; simpl in Hp; [done|].
  destruct (ascii_dec c d) as [->|]; [|done].
  destruct (IH _ Hp) as [t ->]. by exists t.
Qed.

Lemma HasPrefix_spec s p : HasPrefix s p = true ↔ ∃ t, s = p +:+ t.
Proof. apply prefix_spec. Qed.

Lemma HasPrefix_app p s : HasPrefix (p +:+ s) p = true.
Proof. apply prefix_app. Qed.

Lemma TrimPrefix_app p s : TrimPrefix (p +:+ s) p = s.
Proof. unfold TrimPrefix. by rewrite HasPrefix_app, str_drop_app. Qed.

Lemma HasSuffix_spec s p : HasSuffix s p = true ↔ ∃ t, s = t +:+ p.
Proof.
  unfold HasSuffix. split.
  - intros [Hle Heq%String.eqb_eq]%andb_true_iff.
    exists (str_take (String.length s - String.length p) s).
    rewrite <-Heq at 2. by rewrite str_take_drop.
  - intros [t ->]. rewrite str_length_app.
    replace (String.length t + String.length p - String.length p)%nat
      with (String.length t) by lia.
    rewrite str_drop_app, String.eqb_refl.
    rewrite (proj2 (Nat.leb_le _ _)); [done|lia].
Qed.

Lemma TrimSuffix_app s p : TrimSuffix (s +:+ p) p = s.
Proof.
  unfold TrimSuffix. rewrite (proj2 (HasSuffix_spec _ _)) by eauto.
  rewrite str_length_app.
  replace (String.length s + String.length p - String.length p)%nat
    with (String.length s) by lia.
  apply str_take_app.
Qed.

#[export] Hint Rewrite str_app_nil_r str_drop_app str_take_app TrimPrefix_app
  TrimSuffix_app HasPrefix_app : go.

(** [no_byte c s]: the byte [c] does not occur in [s]. *)
Definition no_byte (c : ascii) (s : string) : Prop := has_byte (Ascii.eqb c) s = false.

#[export] Instance no_byte_dec c s : Decision (no_byte c s).
Proof. unfold no_byte. apply _. Defined.

Lemma no_byte_cons c d s : no_byte c (String d s) ↔ c ≠ d ∧ no_byte c s.
Proof.
  unfold no_byte. simpl. rewrite orb_false_iff, Ascii.eqb_neq. done.
Qed.

Lemma no_byte_nil c : no_byte c "".
Proof. done. Qed.

Lemma no_byte_app c s t : no_byte c (s +:+ t) ↔ no_byte c s ∧ no_byte c t.
Proof.
  induction s as [|d s IH].
  - split; [intros; split; [apply no_byte_nil|done]|by intros [_ ?]].
  - rewrite str_app_cons, !no_byte_cons, IH. tauto.
Qed.

Lemma CutByte_app c a b : no_byte c a → CutByte c (a +:+ String c b) = Some (a, b).
Proof.
  induction a as [|d a IH]; intros Ha.
  - change ("" +:+ String c b) with (String c b). simpl. by rewrite Ascii.eqb_refl.
  - apply no_byte_cons in Ha as [Hne Ha]. rewrite str_app_cons. simpl.
    rewrite (proj2 (Ascii.eqb_neq d c)) by congruence. by rewrite IH.
Qed.

Lemma CutByte_spec c s a b :
  CutByte c s = Some (a, b) → s = a +:+ String c b ∧ no_byte c a.
Proof.
  revert a b. induction s as [|d s IH]; intros a b; simpl; [done|].
  destruct (Ascii.eqb d c) eqn:Hd.
  - apply Ascii.eqb_eq in Hd as ->. intros [= <- <-]. done.
  - destruct (CutByte c s) as [[a' b']|]; [|done]. intros [= <- <-].
    destruct (IH a' b' eq_refl) as [-> Ha]. split; [done|].
    apply no_byte_cons. split; [|done]. apply Ascii.eqb_neq in Hd. congruence.
Qed.

Lemma CutByte_None c s : CutByte c s = None ↔ no_byte c s.
Proof.
  induction s as [|d s IH]; simpl; [done|]. rewrite no_byte_cons.
  destruct (Ascii.eqb d c) eqn:Hd.
  - apply Ascii.eqb_eq in Hd. split; [done|]. intros [? _]. congruence.
  - apply Ascii.eqb_neq in Hd. destruct (CutByte c s) as [[??]|].
    + split; [done|]. intros [_ ?%IH]. done.
    + split; [|done]. intros _. split; [congruence|]. by apply IH.
Qed.

(** *** Splitting and joining *)

Lemma Split_nonempty s c : Split s c ≠ [].
Proof.
  destruct s as [|d s]; simpl; [done|]. destruct (Ascii.eqb d c); [done|].
  by destruct (Split s c).
Qed.

Lemma Split_no_byte s c : Forall (no_byte c) (Split s c).
Proof.
  induction s as [|d s IH]; simpl; [by repeat constructor|].
  destruct (Ascii.eqb d c) eqn:Hd; [by constructor|].
  apply Ascii.eqb_neq in Hd. destruct (Split s c) as [|x l].
  - repeat constructor. apply no_byte_cons. split; [congruence|done].
  - inversion IH; subst. constructor; [|done]. apply no_byte_cons. split; [congruence|done].
Qed.

Lemma Join_cons x l sep : l ≠ [] → Join (x :: l) sep = x +:+ sep +:+ Join l sep.
Proof. by destruct l. Qed.

Lemma Join_Split s c : Join (Split s c) (String c "") = s.
Proof.
  induction s as [|d s IH]; simpl; [done|].
  pose proof (Split_nonempty s c) as Hne.
  destruct (Ascii.eqb d c) eqn:Hd.
  - apply Ascii.eqb_eq in Hd as ->. rewrite Join_cons by done. by rewrite IH.
  - destruct (Split s c) as [|x l]; [done|].
    destruct l as [|y l]; simpl in *; [by rewrite IH|]. by rewrite <-IH.
Qed.

Lemma Split_no_sep s c : no_byte c s → Split s c = [s].
Proof.
  induction s as [|d s IH]; [done|]. intros [Hne Hs]%no_byte_cons. simpl.
  rewrite (proj2 (Ascii.eqb_neq d c)) by congruence. by rewrite IH.
Qed.

Lemma Split_app s t c : no_byte c s → Split (s +:+ String c t) c = s :: Split t c.
Proof.
  induction s as [|d s IH]; intros Hs.
  - change ("" +:+ String c t) with (String c t). simpl. by rewrite Ascii.eqb_refl.
  - apply no_byte_cons in Hs as [Hne Hs]. rewrite str_app_cons. simpl.
    rewrite (proj2 (Ascii.eqb_neq d c)) by congruence. by rewrite IH.
Qed.

Lemma Split_Join l c :
  l ≠ [] → Forall (no_byte c) l → Split (Join l (String c "")) c = l.
Proof.
  intros Hne Hl. induction Hl as [|x l Hx Hl IH]; [done|].
  destruct l as [|y l]; [by apply Split_no_sep|].
  rewrite Join_cons by done.
  change (String c "" +:+ ?t) with (String c t).
  rewrite Split_app by done. by rewrite IH.
Qed.

(** *** Substring search *)

Lemma Index_app_here s t : Index (s +:+ t) s = Some O.
Proof.
  pose proof (prefix_app s t) as Hp. destruct (s +:+ t); cbn [Index]; by rewrite Hp.
Qed.

Lemma Index_le s sub n : Index s sub = Some n → (n <= String.length s)%nat.
Proof.
  revert n. induction s as [|c s IH]; intros n; cbn [Index].
  - destruct (String.prefix sub ""); intros [= <-]; lia.
  - destruct (String.prefix sub (String c s)); [intros [= <-]; lia|].
    destruct (Index s sub) as [m|]; [|done]. intros [= <-]. specialize (IH m eq_refl). simpl. lia.
Qed.

Lemma Index_sound s sub n :
  Index s sub = Some n → ∃ t, s = str_take n s +:+ sub +:+ t.
Proof.
  revert n. induction s as [|c s IH]; intros n; cbn [Index].
  - destruct (String.prefix sub "") eqn:Hp; intros [= <-].
    apply prefix_spec in Hp as [t ->]. by exists t.
  - destruct (String.prefix sub (String c s)) eqn:Hp.
    + intros [= <-]. apply prefix_spec in Hp as [t ->]. by exists t.
    + destruct (Index s sub) as [m|]; [|done]. intros [= <-].
      destruct (IH m eq_refl) as [t Ht]. exists t. simpl. rewrite str_app_cons.
      by f_equal.
Qed.

Lemma ParseUint_range s n : ParseUint s = Some n → 0 <= n < u64_modulus.
Proof.
  unfold ParseUint. destruct (String.eqb s ""); [done|].
  assert (∀ s acc n, 0 <= acc → parse_digits acc s = Some n → 0 <= n) as Hpos.
  { clear. intros s. induction s as [|c s IH]; intros acc n Hacc; simpl.
    - by intros [= <-].
    - destruct (is_digit c) eqn:Hc; [|done]. unfold is_digit in Hc. b2p.
      apply IH. lia. }
  destruct (parse_digits 0 s) as [m|] eqn:Hm; [|done].
  destruct (m <? u64_modulus) eqn:Hlt; intros [= <-]. b2p.
  specialize (Hpos _ _ _ (Z.le_refl 0) Hm). lia.
Qed.

(** A parsed number consists of digits only. *)
Lemma parse_digits_bytes acc s n : parse_digits acc s = Some n → has_byte (λ c, negb (is_digit c)) s = false.
Proof.
  revert acc. induction s as [|c s IH]; intros acc; simpl; [done|].
  destruct (is_digit c); [|done]. intros H. by eapply IH.
Qed.

Lemma ParseUint_head s n :
  ParseUint s = Some n → ∃ c s', s = String c s' ∧ is_digit c = true.
Proof.
  unfold ParseUint. destruct s as [|c s]; [done|]. simpl.
  destruct (is_digit c) eqn:Hc; [|done]. eauto.
Qed.

Lemma fnv32a_range s : 0 <= fnv32a s < u32_modulus.
Proof.
  unfold fnv32a. assert (0 <= fnv_offset32 < u32_modulus) as Hh by (cbv; split; congruence).
  revert Hh. generalize fnv_offset32 as h. induction s as [|c s IH]; intros h Hh; simpl; [done|].
  apply IH. unfold wrap32. apply Z.mod_pos_bound. reflexivity.
Qed.

(** ** The byte-wise order of strings *)

Lemma str_ltb_irrefl s : String.ltb s s = false.
Proof.
  unfold String.ltb. induction s as [|a s IH]; [done|]. simpl.
  unfold Ascii.compare. by rewrite N.compare_refl.
Qed.

Lemma str_ltb_trans x y z : String.ltb x y = true → String.ltb y z = true → String.ltb x z = true.
Proof.
  unfold String.ltb. revert y z.
  induction x as [|a x IH]; intros [|b y] [|c z]; simpl; try done.
  unfold Ascii.compare.
  destruct (N.compare_spec (N_of_ascii a) (N_of_ascii b)) as [Hab|Hab|Hab]; try done;
    destruct (N.compare_spec (N_of_ascii b) (N_of_ascii c)) as [Hbc|Hbc|Hbc]; try done;
    destruct (N.compare_spec (N_of_ascii a) (N_of_ascii c)) as [Hac|Hac|Hac]; try done; try lia.
  apply IH.
Qed.

Lemma str_ltb_total x y : String.ltb x y = false → String.ltb y x = false → x = y.
Proof.
  unfold String.ltb. rewrite (String.compare_antisym y x).
  destruct (String.compare x y) eqn:E; try done. intros _ _. by apply String.compare_eq_iff.
Qed.

#[export] Hint Resolve str_ltb_irrefl str_ltb_trans : go.
