(* ===== verification/GoFloat.v ===== *)
(** * Go's [float64]

    IEEE 754 binary64 with rounding to nearest even, from the Standard Library's
    executable specification [SpecFloat]; no operation is approximated. *)
From S2P Require Import Prelude.
From Stdlib Require Import SpecFloat.
#[local] Open Scope Z_scope.

Abbreviation float64 := spec_float.

Definition f64_prec : Z := 53.

Definition f64_emax : Z := 1024.

Definition f64_add (x y : float64) : float64 := SFadd f64_prec f64_emax x y.

Definition f64_sub (x y : float64) : float64 := SFsub f64_prec f64_emax x y.

Definition f64_mul (x y : float64) : float64 := SFmul f64_prec f64_emax x y.

Definition f64_div (x y : float64) : float64 := SFdiv f64_prec f64_emax x y.

Definition f64_ltb (x y : float64) : bool := SFltb x y.

Definition f64_leb (x y : float64) : bool := SFleb x y.

Definition f64_eqb (x y : float64) : bool := SFeqb x y.

(** The conversion [float64(n)] of an integer. *)
Definition f64_of_Z (z : Z) : float64 := binary_normalize f64_prec f64_emax z 0 false.

(** A decimal literal [n/d]: both parts are exact, so the quotient is the
    correctly rounded constant. *)
Definition f64_lit (n d : Z) : float64 := f64_div (f64_of_Z n) (f64_of_Z d).

Definition f64_zero : float64 := S754_zero false.

Definition f64_one : float64 := f64_of_Z 1.

Definition f64_is_nan (x : float64) : bool := match x with S754_nan => true | _ => false end.

Definition f64_is_inf (x : float64) : bool := match x with S754_infinity _ => true | _ => false end.

(** [m * 2^e], rounded down (up for [f64_ceil_pos]). *)
Definition scale_floor (m : positive) (e : Z) : Z :=
  if 0 <=? e then Zpos m * 2 ^ e else Zpos m / 2 ^ (- e).

Definition scale_ceil (m : positive) (e : Z) : Z :=
  if 0 <=? e then Zpos m * 2 ^ e else (Zpos m + 2 ^ (- e) - 1) / 2 ^ (- e).

(** [int(x)]: truncation toward zero, for the finite values in range that the
    code converts. *)
Definition f64_to_int (x : float64) : Z :=
  match x with
  | S754_finite false m e => scale_floor m e
  | S754_finite true m e => - scale_floor m e
  | _ => 0
  end.

(** [int(math.Ceil(x))]. *)
Definition f64_ceil_int (x : float64) : Z :=
  match x with
  | S754_finite false m e => scale_ceil m e
  | S754_finite true m e => - scale_floor m e
  | _ => 0
  end.

(** ** Order lemmas *)

Definition f64_num (x : float64) : Prop := x ≠ S754_nan.

Lemma f64_ltb_irrefl x : f64_ltb x x = false.
Proof.
  unfold f64_ltb, SFltb.
  destruct x as [s|s| |s m e]; try destruct s; simpl; try done;
    rewrite Z.compare_refl; change (Pos.compare_cont Eq m m) with (Pos.compare m m);
    by rewrite Pos.compare_refl.
Qed.

Lemma SFcompare_antisym x y : SFcompare y x = CompOpp <$> SFcompare x y.
Proof.
  destruct x as [s|s| |s m e], y as [s'|s'| |s' m' e']; try done;
    destruct s, s'; simpl; try done;
    rewrite (Z.compare_antisym e e'); destruct (Z.compare e e'); simpl; try done;
    change (Pos.compare_cont Eq ?a ?b) with (Pos.compare a b);
    rewrite (Pos.compare_antisym m m'); try done; by rewrite CompOpp_involutive.
Qed.

Lemma f64_ltb_asym x y : f64_ltb x y = true → f64_ltb y x = false.
Proof.
  unfold f64_ltb, SFltb. rewrite (SFcompare_antisym x y).
  by destruct (SFcompare x y) as [[]|].
Qed.

(** On numbers, [!(x < y)] is [y <= x]. *)
Lemma f64_ltb_ge x y : f64_num x → f64_num y → f64_ltb x y = false → f64_leb y x = true.
Proof.
  unfold f64_ltb, f64_leb, SFltb, SFleb, f64_num. rewrite (SFcompare_antisym x y).
  intros Hx Hy. destruct (SFcompare x y) as [[]|] eqn:E; try done.
  destruct x, y; try done.
Qed.

Lemma f64_leb_refl x : f64_num x → f64_leb x x = true.
Proof. intros. apply f64_ltb_ge; [done..|apply f64_ltb_irrefl]. Qed.

Lemma f64_leb_ltb x y : f64_leb x y = true → f64_ltb y x = false.
Proof.
  unfold f64_ltb, f64_leb, SFltb, SFleb. rewrite (SFcompare_antisym x y).
  by destruct (SFcompare x y) as [[]|].
Qed.

Lemma f64_ltb_num x y : f64_ltb x y = true → f64_num x ∧ f64_num y.
Proof. unfold f64_num. by destruct x, y. Qed.

#[local] Ltac cmp_cases :=
  repeat match goal with
  | |- context [Z.compare ?a ?b] => destruct (Z.compare_spec a b); subst; simpl
  | H : context [Z.compare ?a ?b] |- _ =>
      destruct (Z.compare_spec a b); subst; simpl in H
  | |- context [Pos.compare ?a ?b] => destruct (Pos.compare_spec a b); subst; simpl
  | H : context [Pos.compare ?a ?b] |- _ =>
      destruct (Pos.compare_spec a b); subst; simpl in H
  end; try done; try lia.

(** [!(x < y)] is transitive through a number. *)
Lemma f64_ltb_false_trans x y z :
  f64_num y → f64_ltb x y = false → f64_ltb y z = false → f64_ltb x z = false.
Proof.
  unfold f64_ltb, SFltb, f64_num.
  destruct x as [s|s| |s m e], y as [s'|s'| |s' m' e'], z as [s''|s''| |s'' m'' e''];
    try done;
    destruct s; try destruct s'; try destruct s''; simpl; try done;
    change (Pos.compare_cont Eq ?a ?b) with (Pos.compare a b); intros _; cmp_cases.
Qed.

#[export] Hint Resolve f64_ltb_irrefl f64_ltb_asym : go.

Lemma scale_ceil_pos m e : 0 < scale_ceil m e.
Proof.
  unfold scale_ceil. destruct (Z.leb_spec 0 e).
  - apply Z.mul_pos_pos; [lia|]. apply Z.pow_pos_nonneg; lia.
  - apply Z.div_str_pos. pose proof (Z.pow_pos_nonneg 2 (- e)). lia.
Qed.
