(* ===== verification/Config.v ===== *)
(** * Configuration: the data of [config/config.go], its defaults and its merges

    A pointer to an optional section is an [option]; a [time.Duration] is a number
    of nanoseconds.  Sections are values: the Go code copies a section before it
    changes one that another configuration level also points to. *)
From S2P Require Import Prelude GoStrings GoFloat.
#[local] Open Scope Z_scope.

(** ** Durations *)

Definition Millisecond : Z := 1000000.

Definition Second : Z := 1000 * Millisecond.

Definition Minute : Z := 60 * Second.

Definition Hour : Z := 60 * Minute.

(** ** Failsafe sections *)

Record TimeoutConfig := { to_Duration : Z }.

Record RetryConfig := {
  rt_MaxAttempts : Z;
  rt_Delay : Z;
  rt_Backoff : float64;
  rt_Jitter : Z;
  rt_MaxDelay : Z;
}.

Record HedgeConfig := { hg_Delay : Z; hg_MaxCount : Z }.

Record CircuitBreakerConfig := {
  FailureThreshold : Z;
  SuccessThreshold : Z;
  HalfOpenAfter : Z;
}.

Record ConsensusConfig := {
  cs_Enabled : bool;
  cs_MaxParticipants : Z;
  cs_AgreementThreshold : Z;
}.

Record FailsafeConfig := {
  fs_Timeout : option TimeoutConfig;
  fs_Retry : option RetryConfig;
  fs_Hedge : option HedgeConfig;
  fs_CircuitBreaker : option CircuitBreakerConfig;
  fs_Consensus : option ConsensusConfig;
}.

(** ** Routing, health, rate limits *)

Record ScoreWeightsConfig := {
  sw_ErrorRate : float64;
  sw_Latency : float64;
  sw_HeadLag : float64;
  sw_SyncDistance : float64;
}.

Record ClientRouteConfig := { cr_PathPrefix : string; cr_UpstreamID : string }.

Record RouteRuleConfig := {
  rr_PathPattern : string;
  rr_Methods : list string;
  rr_UpstreamID : string;
  rr_Deny : bool;
}.

Record RoutingConfig := {
  ro_LoadBalancing : string;
  ro_StickySession : bool;
  ro_StickyTimeout : Z;
  ro_BlockedPaths : list string;
  ro_RebalanceInterval : Z;
  ro_RebalanceThreshold : float64;
  ro_RebalanceMaxSweep : Z;
  ro_ScoreWeights : option ScoreWeightsConfig;
  ro_ScoreWindowSize : Z;
  ro_ClientRoutes : list ClientRouteConfig;
  ro_RouteRules : list RouteRuleConfig;
}.

Record RateLimitConfig := { rl_Limit : float64; rl_Burst : Z }.

Record RateLimitingConfig := {
  rl_PerIP : option RateLimitConfig;
  rl_Global : option RateLimitConfig;
}.

Record HealthConfig := {
  h_CheckInterval : Z;
  h_FinalityInterval : Z;
  h_MaxSyncDistance : Z;
  h_FollowDistance : Z;
  h_MaxHeadDistance : Z;
}.

Record UpstreamRateLimitConfig := {
  ur_AutoTune : bool;
  ur_InitialRate : float64;
  ur_MinRate : float64;
  ur_MaxRate : float64;
  ur_AdjustmentPeriod : Z;
  ur_ErrorRateThreshold : float64;
}.

Record UpstreamConfig := {
  uc_ID : string;
  uc_URL : string;
  uc_Headers : gmap string string;
  uc_Failsafe : option FailsafeConfig;
  uc_Priority : Z;
  uc_Weight : Z;
  uc_Archive : bool;
  uc_RateLimiting : option UpstreamRateLimitConfig;
}.

(** ** Attempt budget *)

Definition MaxAttempts (f : FailsafeConfig) : Z :=
  match fs_Retry f with None => 1 | Some r => rt_MaxAttempts r end.

(** ** Merging a section with the level above it *)

(** [if override != 0 { out = override }] for an integer field. *)
Definition or_base (override base : Z) : Z := if override =? 0 then base else override.

(** The same for a [float64] field. *)
Definition or_base_f (override base : float64) : float64 :=
  if f64_eqb override f64_zero then base else override.

Definition mergeTimeoutConfig (base override : option TimeoutConfig) : option TimeoutConfig :=
  match override with
  | None => base
  | Some o =>
      let out := default {| to_Duration := 0 |} base in
      Some {| to_Duration := or_base (to_Duration o) (to_Duration out) |}
  end.

Definition zero_RetryConfig : RetryConfig :=
  {| rt_MaxAttempts := 0; rt_Delay := 0; rt_Backoff := f64_zero; rt_Jitter := 0; rt_MaxDelay := 0 |}.

Definition mergeRetryConfig (base override : option RetryConfig) : option RetryConfig :=
  match override with
  | None => base
  | Some o =>
      let out := default zero_RetryConfig base in
      Some {| rt_MaxAttempts := or_base (rt_MaxAttempts o) (rt_MaxAttempts out);
              rt_Delay := or_base (rt_Delay o) (rt_Delay out);
              rt_Backoff := or_base_f (rt_Backoff o) (rt_Backoff out);
              rt_Jitter := or_base (rt_Jitter o) (rt_Jitter out);
              rt_MaxDelay := or_base (rt_MaxDelay o) (rt_MaxDelay out) |}
  end.

Definition mergeHedgeConfig (base override : option HedgeConfig) : option HedgeConfig :=
  match override with
  | None => base
  | Some o =>
      let out := default {| hg_Delay := 0; hg_MaxCount := 0 |} base in
      Some {| hg_Delay := or_base (hg_Delay o) (hg_Delay out);
              hg_MaxCount := or_base (hg_MaxCount o) (hg_MaxCount out) |}
  end.

Definition defaultCircuitBreaker : CircuitBreakerConfig :=
  {| FailureThreshold := 5; SuccessThreshold := 2; HalfOpenAfter := 30 * Second |}.

Definition mergeCircuitBreakerConfig
    (base override : option CircuitBreakerConfig) : option CircuitBreakerConfig :=
  match override with
  | None => base
  | Some o =>
      let out := default {| FailureThreshold := 0; SuccessThreshold := 0; HalfOpenAfter := 0 |} base in
      Some {| FailureThreshold := or_base (FailureThreshold o) (FailureThreshold out);
              SuccessThreshold := or_base (SuccessThreshold o) (SuccessThreshold out);
              HalfOpenAfter := or_base (HalfOpenAfter o) (HalfOpenAfter out) |}
  end.

(** The breaker of one upstream.  The merge of a present base is present, so the
    dereference of its result never fails. *)
Definition UpstreamCircuitBreaker (base override : option CircuitBreakerConfig) : CircuitBreakerConfig :=
  let base := default defaultCircuitBreaker base in
  default base (mergeCircuitBreakerConfig (Some base) override).

(** ** Defaults *)

Definition default_timeout (t : option TimeoutConfig) : option TimeoutConfig :=
  match t with
  | None => Some {| to_Duration := 30 * Second |}
  | Some t => Some {| to_Duration := or_base (to_Duration t) (30 * Second) |}
  end.

Definition default_retry (r : RetryConfig) : RetryConfig :=
  {| rt_MaxAttempts := or_base (rt_MaxAttempts r) 3;
     rt_Delay := or_base (rt_Delay r) (100 * Millisecond);
     rt_Backoff := or_base_f (rt_Backoff r) (f64_of_Z 2);
     rt_Jitter := rt_Jitter r;
     rt_MaxDelay := or_base (rt_MaxDelay r) (5 * Second) |}.

Definition default_cb (c : CircuitBreakerConfig) : CircuitBreakerConfig :=
  {| FailureThreshold := or_base (FailureThreshold c) (FailureThreshold defaultCircuitBreaker);
     SuccessThreshold := or_base (SuccessThreshold c) (SuccessThreshold defaultCircuitBreaker);
     HalfOpenAfter := or_base (HalfOpenAfter c) (HalfOpenAfter defaultCircuitBreaker) |}.

Definition applyFailsafeDefaults (fs : FailsafeConfig) : FailsafeConfig :=
  {| fs_Timeout := default_timeout (fs_Timeout fs);
     fs_Retry := default_retry <$> fs_Retry fs;
     fs_Hedge := fs_Hedge fs;
     fs_CircuitBreaker := default_cb <$> fs_CircuitBreaker fs;
     fs_Consensus := fs_Consensus fs |}.

(** The failsafe part of [Config.EffectiveFailsafe]: the global section merged with
    the network's, then defaulted. *)
Definition EffectiveFailsafe (global : FailsafeConfig) (net : option FailsafeConfig) : FailsafeConfig :=
  let merged :=
    match net with
    | None => global
    | Some n =>
        {| fs_Timeout := match fs_Timeout n with
             None => fs_Timeout global | o => mergeTimeoutConfig (fs_Timeout global) o end;
           fs_Retry := match fs_Retry n with
             None => fs_Retry global | o => mergeRetryConfig (fs_Retry global) o end;
           fs_Hedge := match fs_Hedge n with
             None => fs_Hedge global | o => mergeHedgeConfig (fs_Hedge global) o end;
           fs_CircuitBreaker := match fs_CircuitBreaker n with
             None => fs_CircuitBreaker global
             | o => mergeCircuitBreakerConfig (fs_CircuitBreaker global) o end;
           fs_Consensus := match fs_Consensus n with
             None => fs_Consensus global | o => o end |}
    end in
  applyFailsafeDefaults merged.

(** [network.mergeFailsafe]: a path override replaces whole sections. *)
Definition mergeFailsafe (base override : FailsafeConfig) : FailsafeConfig :=
  applyFailsafeDefaults
    {| fs_Timeout := match fs_Timeout override with None => fs_Timeout base | o => o end;
       fs_Retry := match fs_Retry override with None => fs_Retry base | o => o end;
       fs_Hedge := match fs_Hedge override with None => fs_Hedge base | o => o end;
       fs_CircuitBreaker :=
         match fs_CircuitBreaker override with None => fs_CircuitBreaker base | o => o end;
       fs_Consensus := fs_Consensus base |}.

Definition EffectiveHealth (global : HealthConfig) (net : option HealthConfig) : HealthConfig :=
  match net with
  | None => global
  | Some n =>
      {| h_CheckInterval := or_base (h_CheckInterval n) (h_CheckInterval global);
         h_FinalityInterval := or_base (h_FinalityInterval n) (h_FinalityInterval global);
         h_MaxSyncDistance := or_base (h_MaxSyncDistance n) (h_MaxSyncDistance global);
         h_FollowDistance := or_base (h_FollowDistance n) (h_FollowDistance global);
         h_MaxHeadDistance := or_base (h_MaxHeadDistance n) (h_MaxHeadDistance global) |}
  end.

Definition EffectiveRateLimiting (global : RateLimitingConfig) (net : option RateLimitingConfig)
    : RateLimitingConfig := default global net.

(** ** Chain timing defaults *)

Definition DefaultSecondsPerSlot : Z := 12.

Definition DefaultSlotsPerEpoch : Z := 32.

(** ** Validation of the failsafe sections *)

Definition validateRetry (r : RetryConfig) : bool :=
  (0 <=? rt_MaxAttempts r) &&
  (0 <=? rt_Delay r) && (0 <=? rt_Jitter r) && (0 <=? rt_MaxDelay r) &&
  negb (f64_ltb (rt_Backoff r) f64_zero ||
        (f64_ltb f64_zero (rt_Backoff r) && f64_ltb (rt_Backoff r) f64_one)).

Definition validateCB (c : CircuitBreakerConfig) : bool :=
  (0 <=? FailureThreshold c) && (0 <=? SuccessThreshold c) && (0 <=? HalfOpenAfter c).

Definition validateConsensus (c : ConsensusConfig) : bool :=
  negb (cs_Enabled c) ||
  ((1 <=? cs_MaxParticipants c) && (1 <=? cs_AgreementThreshold c) &&
   (cs_AgreementThreshold c <=? cs_MaxParticipants c)).

Definition opt_all {A} (f : A → bool) (o : option A) : bool :=
  match o with None => true | Some x => f x end.

(** [validateFailsafe(fs, ctx) == nil]. *)
Definition validateFailsafe (fs : option FailsafeConfig) : bool :=
  match fs with
  | None => true
  | Some f =>
      opt_all (λ t, 0 <=? to_Duration t) (fs_Timeout f) &&
      opt_all validateRetry (fs_Retry f) &&
      opt_all (λ h, (0 <=? hg_Delay h) && (0 <=? hg_MaxCount h)) (fs_Hedge f) &&
      opt_all validateCB (fs_CircuitBreaker f) &&
      opt_all validateConsensus (fs_Consensus f)
  end.

(** ** Lemmas *)

Lemma or_base_pos o b : 0 <= o → 0 < b → 0 < or_base o b.
Proof. unfold or_base. destruct (Z.eqb_spec o 0); lia. Qed.

Lemma or_base_id o b : or_base (or_base o b) b = or_base o b.
Proof. unfold or_base. destruct (Z.eqb_spec o 0); destruct (_ =? 0) eqn:E; b2p; congruence. Qed.

Lemma or_base_f_id o b : or_base_f (or_base_f o b) b = or_base_f o b.
Proof.
  unfold or_base_f. destruct (f64_eqb o f64_zero) eqn:E; [|by rewrite E].
  by destruct (f64_eqb b f64_zero).
Qed.

Lemma validateFailsafe_retry f r :
  validateFailsafe (Some f) = true → fs_Retry f = Some r → validateRetry r = true.
Proof. simpl. intros H Hr. b2p. by rewrite Hr in *. Qed.

Lemma validateFailsafe_cb f c :
  validateFailsafe (Some f) = true → fs_CircuitBreaker f = Some c → validateCB c = true.
Proof. simpl. intros H Hr. b2p. by rewrite Hr in *. Qed.

(** Thresholds that the circuit breaker can rely on. *)
Definition cb_sane (c : CircuitBreakerConfig) : Prop :=
  0 < FailureThreshold c ∧ 0 < SuccessThreshold c ∧ 0 < HalfOpenAfter c.

Lemma default_cb_sane c : validateCB c = true → cb_sane (default_cb c).
Proof.
  unfold validateCB, cb_sane. intros H. b2p. simpl.
  repeat split; apply or_base_pos; done || lia.
Qed.

Lemma mergeCB_valid b o c :
  opt_all validateCB b = true → opt_all validateCB o = true →
  mergeCircuitBreakerConfig b o = Some c → validateCB c = true.
Proof.
  unfold mergeCircuitBreakerConfig, validateCB, opt_all.
  destruct o as [o|]; [|intros Hb _ ->; done].
  intros Hb Ho [= <-]. simpl. b2p. unfold or_base.
  destruct b as [b|]; simpl; b2p;
  repeat match goal with |- context [?x =? 0] => destruct (Z.eqb_spec x 0) end;
  rewrite !andb_true_iff, !Z.leb_le; lia.
Qed.

(** ** Properties *)

(** The breaker section of the merged (not yet defaulted) settings is valid. *)
Lemma merged_cb_valid global n c :
  validateFailsafe (Some global) = true → validateFailsafe (Some n) = true →
  match fs_CircuitBreaker n with
  | None => fs_CircuitBreaker global
  | o => mergeCircuitBreakerConfig (fs_CircuitBreaker global) o end = Some c →
  validateCB c = true.
Proof.
  intros Hg Hn. destruct (fs_CircuitBreaker n) as [o|] eqn:Ho.
  - apply mergeCB_valid; [|by simpl; eapply validateFailsafe_cb].
    destruct (fs_CircuitBreaker global) eqn:E; [by eapply (validateFailsafe_cb global)|done].
  - intros Hc. by eapply (validateFailsafe_cb global).
Qed.

Lemma or_base_default o g d : or_base (or_base o (or_base g d)) d = or_base (or_base o g) d.
Proof.
  unfold or_base. destruct (o =? 0) eqn:E; [|by rewrite E].
  destruct (g =? 0) eqn:E2; [by destruct (d =? 0)|by rewrite E2].
Qed.

Lemma or_base_f_default o g d :
  or_base_f (or_base_f o (or_base_f g d)) d = or_base_f (or_base_f o g) d.
Proof.
  unfold or_base_f. destruct (f64_eqb o f64_zero) eqn:E; [|by rewrite E].
  destruct (f64_eqb g f64_zero) eqn:E2; [by destruct (f64_eqb d f64_zero)|by rewrite E2].
Qed.

(** ** Properties *)

(** A validated configuration yields a breaker with positive thresholds and a positive
    half-open delay, whichever of the global and the network section sets them. *)
Lemma EffectiveFailsafe_cb_sane global net c :
  validateFailsafe (Some global) = true → validateFailsafe net = true →
  fs_CircuitBreaker (EffectiveFailsafe global net) = Some c → cb_sane c.
Proof.
  intros Hg Hn Hc. apply fmap_Some_1 in Hc as (c' & Hc' & ->).
  apply default_cb_sane. destruct net as [n|].
  - exact (merged_cb_valid global n c' Hg Hn Hc').
  - exact (validateFailsafe_cb global c' Hg Hc').
Qed.

(** Defaulting the global section in place when the configuration is loaded changes no
    effective setting of any network: a network override still wins over a global value, and
    a global value still wins over a default. *)
Lemma EffectiveFailsafe_load_defaults global net :
  EffectiveFailsafe (applyFailsafeDefaults global) net = EffectiveFailsafe global net.
Proof.
  destruct global as [t r h c k], net as [[t' r' h' c' k']|];
    unfold EffectiveFailsafe, applyFailsafeDefaults; simpl; f_equal.
  - destruct t' as [t'|], t as [t|]; simpl; unfold default_timeout; simpl;
      rewrite ?or_base_default, ?or_base_id; try done.
    unfold or_base. destruct (to_Duration t' =? 0) eqn:E; [done|by rewrite E].
  - destruct r' as [r'|], r as [r|]; simpl; unfold default_retry; simpl;
      by rewrite ?or_base_default, ?or_base_f_default, ?or_base_id, ?or_base_f_id.
  - destruct c' as [c'|], c as [c|]; simpl; unfold default_cb; simpl;
      by rewrite ?or_base_default, ?or_base_id.
  - destruct t as [t|]; simpl; [|done]. by rewrite or_base_id.
  - destruct r as [r|]; simpl; [|done]. unfold default_retry; simpl.
    by rewrite !or_base_id, or_base_f_id.
  - destruct c as [c|]; simpl; [|done]. unfold default_cb; simpl. by rewrite !or_base_id.
Qed.

(** ** Witnesses *)

Definition cfg_demo_global : FailsafeConfig :=
  {| fs_Timeout := None; fs_Retry := None; fs_Hedge := None;
     fs_CircuitBreaker := Some {| FailureThreshold := 0; SuccessThreshold := 0; HalfOpenAfter := Second |};
     fs_Consensus := None |}.

Lemma EffectiveFailsafe_cb_sane_witness :
  cb_sane {| FailureThreshold := 5; SuccessThreshold := 2; HalfOpenAfter := Second |}.
Proof. apply (EffectiveFailsafe_cb_sane cfg_demo_global None); reflexivity. Defined.
