(* ===== verification/CircuitBreaker.v ===== *)
(** * The per-upstream circuit breaker

    [upstream/upstream.go]: the breaker fields of [Upstream] ([cbState], [cbFails],
    [cbSuccess], [cbLastErr], [cbCfg], [cbProbeInFlight], [cbProbeGen], [cbEpoch]) as the
    record [CB], the admission token as [CBToken], and every operation of the breaker as a
    function on [CB].  Each operation of the source runs under [cbMu], so a concurrent
    execution is a sequence of these operations: [cb_step] is that step relation, over a
    world that remembers the tokens handed out and those already settled.

    [time.Now()] is an argument in nanoseconds and the zero [time.Time] of [cbLastErr] is
    [None].  Generation, epoch and failure counters keep their machine width. *)

From S2P Require Import Prelude Config.
#[local] Open Scope Z_scope.
#[local] Open Scope go_scope.

(** ** Data *)

Inductive CBState := CBClosed | CBOpen | CBHalfOpen.

#[export] Instance CBState_eq_dec : EqDecision CBState.
Proof. solve_decision. Defined.

Record CB := {
  cbState : CBState;
  cbFails : Z;
  cbSuccess : Z;
  cbLastErr : option Z;
  cbCfg : CircuitBreakerConfig;
  cbProbeInFlight : bool;
  cbProbeGen : Z;
  cbEpoch : Z;
}.

(** [tok_u] is the upstream the token belongs to; [None] is the nil pointer of the zero
    token. *)
Record CBToken := {
  tok_u : option string;
  tok_probe : bool;
  tok_gen : Z;
  tok_epoch : Z;
}.

#[export] Instance CBToken_eq_dec : EqDecision CBToken.
Proof. solve_decision. Defined.

Definition zero_token : CBToken :=
  {| tok_u := None; tok_probe := false; tok_gen := 0; tok_epoch := 0 |}.

Inductive cbOutcome := cbSettleSuccess | cbSettleFailure | cbSettleRelease.

(** The breaker part of [New]. *)
Definition cb_init (cfg : CircuitBreakerConfig) : CB :=
  {| cbState := CBClosed; cbFails := 0; cbSuccess := 0; cbLastErr := None; cbCfg := cfg;
     cbProbeInFlight := false; cbProbeGen := 0; cbEpoch := 0 |}.

(** Field updates. *)
Definition set_cbState (s : CBState) (e : Z) (c : CB) : CB :=
  {| cbState := s; cbFails := cbFails c; cbSuccess := cbSuccess c; cbLastErr := cbLastErr c;
     cbCfg := cbCfg c; cbProbeInFlight := cbProbeInFlight c; cbProbeGen := cbProbeGen c;
     cbEpoch := e |}.
Definition set_cbFails (n : Z) (c : CB) : CB :=
  {| cbState := cbState c; cbFails := n; cbSuccess := cbSuccess c; cbLastErr := cbLastErr c;
     cbCfg := cbCfg c; cbProbeInFlight := cbProbeInFlight c; cbProbeGen := cbProbeGen c;
     cbEpoch := cbEpoch c |}.
Definition set_cbSuccess (n : Z) (c : CB) : CB :=
  {| cbState := cbState c; cbFails := cbFails c; cbSuccess := n; cbLastErr := cbLastErr c;
     cbCfg := cbCfg c; cbProbeInFlight := cbProbeInFlight c; cbProbeGen := cbProbeGen c;
     cbEpoch := cbEpoch c |}.
Definition set_cbLastErr (t : Z) (c : CB) : CB :=
  {| cbState := cbState c; cbFails := cbFails c; cbSuccess := cbSuccess c; cbLastErr := Some t;
     cbCfg := cbCfg c; cbProbeInFlight := cbProbeInFlight c; cbProbeGen := cbProbeGen c;
     cbEpoch := cbEpoch c |}.
Definition set_cbProbe (b : bool) (g : Z) (c : CB) : CB :=
  {| cbState := cbState c; cbFails := cbFails c; cbSuccess := cbSuccess c;
     cbLastErr := cbLastErr c; cbCfg := cbCfg c; cbProbeInFlight := b; cbProbeGen := g;
     cbEpoch := cbEpoch c |}.

(** ** Operations *)

(** [x++] on an [int] field. *)
Definition incr_int (x : Z) : Z := wrap_i64 (x + 1).

Definition cbTransitionLocked (s : CBState) (c : CB) : CB :=
  if decide (cbState c = s) then c else set_cbState s (cbEpoch c +u 1) c.

Definition cbOpenLocked (c : CB) : CB := set_cbSuccess 0 (cbTransitionLocked CBOpen c).

Definition cbRecordFailureLocked (now : Z) (c : CB) : CB :=
  let c := set_cbLastErr now (set_cbFails (incr_int (cbFails c)) c) in
  if FailureThreshold (cbCfg c) <=? cbFails c then cbOpenLocked c else c.

Definition cbFailAndOpenLocked (now : Z) (c : CB) : CB :=
  cbOpenLocked (set_cbLastErr now (set_cbFails (incr_int (cbFails c)) c)).

(** The branch of [settle] for a token that owns the live probe, after its guard. *)
Definition settle_probe (o : cbOutcome) (now : Z) (c : CB) : CB :=
  let c := set_cbProbe false (cbProbeGen c) c in
  match o with
  | cbSettleSuccess =>
      let c := set_cbSuccess (incr_int (cbSuccess c)) c in
      if SuccessThreshold (cbCfg c) <=? cbSuccess c
      then set_cbFails 0 (cbTransitionLocked CBClosed c) else c
  | cbSettleFailure => cbFailAndOpenLocked now c
  | cbSettleRelease => c
  end.

(** [CBToken.settle]. *)
Definition settle (t : CBToken) (o : cbOutcome) (now : Z) (c : CB) : CB :=
  match tok_u t with
  | None => c
  | Some _ =>
      if tok_probe t then
        if negb (cbProbeInFlight c) || negb (cbProbeGen c =? tok_gen t) then c
        else settle_probe o now c
      else if negb (cbEpoch c =? tok_epoch t) || negb (bool_decide (cbState c = CBClosed)) then c
      else match o with
           | cbSettleSuccess => set_cbFails 0 c
           | cbSettleFailure => cbRecordFailureLocked now c
           | cbSettleRelease => c
           end
  end.

Definition Token_Success (t : CBToken) := settle t cbSettleSuccess.
Definition Token_Failure (t : CBToken) := settle t cbSettleFailure.
Definition Token_Release (t : CBToken) := settle t cbSettleRelease.

(** [Upstream.CBFailure]. *)
Definition CBFailure (now : Z) (c : CB) : CB :=
  match cbState c with
  | CBClosed => cbRecordFailureLocked now c
  | CBHalfOpen => if negb (cbProbeInFlight c) then cbFailAndOpenLocked now c else c
  | CBOpen => c
  end.

(** [time.Since(cbLastErr) >= cbCfg.HalfOpenAfter]; the duration since the zero time
    saturates at the largest duration. *)
Definition since (now : Z) (t : option Z) : Z :=
  match t with None => 2 ^ 63 - 1 | Some t => now - t end.
Definition cbWindowElapsed (now : Z) (c : CB) : bool :=
  HalfOpenAfter (cbCfg c) <=? since now (cbLastErr c).

Definition cbGrantProbeLocked (uid : string) (c : CB) : CB * CBToken :=
  let c := set_cbProbe true (cbProbeGen c +u 1) c in
  (c, {| tok_u := Some uid; tok_probe := true; tok_gen := cbProbeGen c; tok_epoch := cbEpoch c |}).

Definition plain_token (uid : string) (c : CB) : CBToken :=
  {| tok_u := Some uid; tok_probe := false; tok_gen := 0; tok_epoch := cbEpoch c |}.

(** [Upstream.CBTryAcquire]: the new state, the token and whether the request is admitted. *)
Definition CBTryAcquire (uid : string) (now : Z) (c : CB) : CB * CBToken * bool :=
  match cbState c with
  | CBOpen =>
      if cbWindowElapsed now c
      then (cbGrantProbeLocked uid (set_cbSuccess 0 (cbTransitionLocked CBHalfOpen c)), true)
      else (c, plain_token uid c, true)
  | CBHalfOpen =>
      if cbProbeInFlight c then (c, zero_token, false)
      else (cbGrantProbeLocked uid c, true)
  | CBClosed => (c, plain_token uid c, true)
  end.

(** [Upstream.cbCanRoute]. *)
Definition cbCanRoute (now : Z) (c : CB) : bool :=
  match cbState c with
  | CBOpen => cbWindowElapsed now c
  | CBHalfOpen => negb (cbProbeInFlight c)
  | CBClosed => true
  end.

(** ** Executions *)

(** A world: the breaker, the tokens it has handed out (newest first), and those on which a
    settlement has been called. *)
Record CBWorld := { w_cb : CB; w_issued : list CBToken; w_settled : list CBToken }.

Inductive cb_step (uid : string) : CBWorld → CBWorld → Prop :=
  | step_acquire w now c t ok :
      CBTryAcquire uid now (w_cb w) = (c, t, ok) →
      cb_step uid w {| w_cb := c; w_issued := t :: w_issued w; w_settled := w_settled w |}
  | step_settle w now t o :
      t ∈ w_issued w →
      cb_step uid w {| w_cb := settle t o now (w_cb w); w_issued := w_issued w;
                       w_settled := t :: w_settled w |}
  | step_failure w now :
      cb_step uid w {| w_cb := CBFailure now (w_cb w); w_issued := w_issued w;
                       w_settled := w_settled w |}.

(** [cb_steps uid n w w']: [n] operations lead from [w] to [w']. *)
Inductive cb_steps (uid : string) : nat → CBWorld → CBWorld → Prop :=
  | steps_refl w : cb_steps uid 0 w w
  | steps_snoc n w w' w'' :
      cb_steps uid n w w' → cb_step uid w' w'' → cb_steps uid (S n) w w''.

Definition cb_world0 (cfg : CircuitBreakerConfig) : CBWorld :=
  {| w_cb := cb_init cfg; w_issued := []; w_settled := [] |}.

(** ** Invariant *)

(** The breaker on its own; [n] bounds the number of operations so far: below [2^63] of
    them no counter wraps. *)
Record cb_ok (cfg : CircuitBreakerConfig) (n : Z) (c : CB) : Prop := {
  ok_cfg : cbCfg c = cfg;
  ok_gen : 0 <= cbProbeGen c <= n;
  ok_epoch : 0 <= cbEpoch c <= n;
  ok_fails : 0 <= cbFails c <= n;
  ok_success : 0 <= cbSuccess c <= n;
  ok_probe : cbProbeInFlight c = true → cbState c = CBHalfOpen;
  ok_closed : cbState c = CBClosed → cbFails c < FailureThreshold cfg;
  ok_half : cbState c = CBHalfOpen → cbSuccess c < SuccessThreshold cfg;
  ok_open : cbState c = CBOpen → is_Some (cbLastErr c);
}.

(** The token owns the outstanding recovery probe. *)
Definition live (c : CB) (t : CBToken) : Prop :=
  cbProbeInFlight c = true ∧ tok_probe t = true ∧ tok_gen t = cbProbeGen c.

(** The breaker together with the tokens it has handed out. *)
Record tok_ok (w : CBWorld) : Prop := {
  tk_gen t : t ∈ w_issued w → tok_probe t = true →
    is_Some (tok_u t) ∧ 0 < tok_gen t <= cbProbeGen (w_cb w);
  tk_epoch t : t ∈ w_issued w → 0 <= tok_epoch t <= cbEpoch (w_cb w);
  tk_live : cbProbeInFlight (w_cb w) = true → ∃ t, t ∈ w_issued w ∧ live (w_cb w) t;
  tk_uniq t t' : t ∈ w_issued w → t' ∈ w_issued w → tok_probe t = true →
    tok_probe t' = true → tok_gen t = tok_gen t' → t = t';
  tk_settled t : t ∈ w_settled w → t ∈ w_issued w ∧ ¬ live (w_cb w) t;
}.

(** ** Lemmas *)

Lemma incr_int_small x : 0 <= x < 2 ^ 63 - 1 → incr_int x = x + 1.
Proof. intros H. unfold incr_int. apply wrap_i64_small. lia. Qed.

Lemma u64_incr_small x : 0 <= x < 2 ^ 63 - 1 → x +u 1 = x + 1.
Proof. intros H. unfold u64_add. apply wrap64_small. unfold is_u64, u64_modulus. lia. Qed.

(** Case analysis on the breaker's state and counters, which leaves arithmetic. *)
Ltac cb_unfold :=
  unfold CBTryAcquire, cbCanRoute, cbGrantProbeLocked, settle, settle_probe, CBFailure,
    cbRecordFailureLocked, cbFailAndOpenLocked, cbOpenLocked, cbTransitionLocked,
    set_cbState, set_cbFails, set_cbSuccess, set_cbLastErr, set_cbProbe, plain_token in *.

Ltac cb_split :=
  repeat (simpl in *; match goal with
  | |- context [decide ?P] => destruct (decide P)
  | |- context [if ?b then _ else _] => destruct b eqn:?
  | |- context [match ?x with _ => _ end] => destruct x eqn:?
  end); simpl in *; b2p; simplify_eq.

Section ok.
Context (cfg : CircuitBreakerConfig) (Hcfg : cb_sane cfg).
Context (n : Z) (Hn : n < 2 ^ 63 - 1).

Lemma cb_init_ok : cb_ok cfg 0 (cb_init cfg).
Proof. destruct Hcfg as (? & ? & ?). split; simpl; done || lia. Qed.

Lemma cb_ok_mono c : cb_ok cfg n c → cb_ok cfg (n + 1) c.
Proof. intros []. split; done || lia. Qed.

Ltac ok_solve :=
  split; simpl; intros; rewrite ?incr_int_small, ?u64_incr_small in * by lia;
  try done; try lia; try congruence; try (by eexists); naive_solver (congruence || lia).

Lemma cbRecordFailureLocked_ok now c :
  cb_ok cfg n c → cbState c = CBClosed → cb_ok cfg (n + 1) (cbRecordFailureLocked now c).
Proof.
  intros [] Hs. cb_unfold. cb_split; ok_solve.
Qed.

Lemma cbFailAndOpenLocked_ok now c :
  cb_ok cfg n c → cbProbeInFlight c = false → cb_ok cfg (n + 1) (cbFailAndOpenLocked now c).
Proof. intros [] Hp. cb_unfold. cb_split; ok_solve. Qed.

Lemma settle_probe_ok o now c :
  cb_ok cfg n c → cbState c = CBHalfOpen → cb_ok cfg (n + 1) (settle_probe o now c).
Proof.
  intros [] Hs. destruct Hcfg as (? & ? & ?). destruct o; [| |cb_unfold; cb_split; ok_solve].
  - cb_unfold. cb_split; ok_solve.
  - apply cbFailAndOpenLocked_ok; [|done]. ok_solve.
Qed.

Lemma settle_ok t o now c : cb_ok cfg n c → cb_ok cfg (n + 1) (settle t o now c).
Proof.
  intros Hc. pose proof (cb_ok_mono _ Hc). unfold settle.
  destruct (tok_u t); [|done]. destruct (tok_probe t).
  - destruct (_ || _) eqn:E; [done|]. b2p. apply settle_probe_ok; [done|].
    apply (ok_probe _ _ _ Hc). by destruct (cbProbeInFlight c).
  - destruct (_ || _) eqn:E; [done|]. b2p.
    destruct o; [destruct Hc, Hcfg; ok_solve|by apply cbRecordFailureLocked_ok|done].
Qed.

Lemma CBFailure_ok now c : cb_ok cfg n c → cb_ok cfg (n + 1) (CBFailure now c).
Proof.
  intros Hc. pose proof (cb_ok_mono _ Hc). unfold CBFailure.
  destruct (cbState c) eqn:?; [by apply cbRecordFailureLocked_ok|done|].
  destruct (cbProbeInFlight c) eqn:?; [done|by apply cbFailAndOpenLocked_ok].
Qed.

Lemma CBTryAcquire_ok uid now c c' t ok :
  cb_ok cfg n c → CBTryAcquire uid now c = (c', t, ok) → cb_ok cfg (n + 1) c'.
Proof.
  intros [] H. destruct Hcfg as (? & ? & ?). revert H. cb_unfold.
  cb_split; intros; simplify_eq; ok_solve.
Qed.

End ok.

(** What a settlement can do to the probe and the epoch. *)
Lemma settle_frame t o now c :
  cbProbeGen (settle t o now c) = cbProbeGen c ∧
  (cbProbeInFlight (settle t o now c) = true → cbProbeInFlight c = true ∧
     (live c t → tok_u t = None)).
Proof.
  unfold live. cb_unfold.
  cb_split; (split; [done|]); intros; try done; (split; [done|]); intros (? & ? & ?);
  repeat match goal with H : (_ || _) = true |- _ => apply orb_true_iff in H as [?|?] end;
  b2p; congruence.
Qed.

(** Settling the live probe ends it. *)
Lemma settle_ends t o now c : is_Some (tok_u t) → ¬ live (settle t o now c) t.
Proof.
  intros [u Hu] (H1 & H2 & H3). destruct (settle_frame t o now c) as [Hg Hp].
  destruct (Hp H1) as [? Hl]. rewrite Hg in H3. by specialize (Hl (conj H (conj H2 H3))); congruence.
Qed.

(** A settlement of a probe token that is not live changes nothing. *)
Lemma settle_stale t o now c : tok_probe t = true → ¬ live c t → settle t o now c = c.
Proof.
  intros Hp Hl. unfold settle. destruct (tok_u t); [|done]. rewrite Hp.
  destruct (cbProbeInFlight c) eqn:E; [|done]. simpl.
  destruct (Z.eqb_spec (cbProbeGen c) (tok_gen t)); [|done]. destruct Hl. by split_and!.
Qed.

Lemma CBFailure_frame now c :
  cbProbeGen (CBFailure now c) = cbProbeGen c ∧
  cbProbeInFlight (CBFailure now c) = cbProbeInFlight c.
Proof. cb_unfold. cb_split; done. Qed.

(** The epoch counts state changes. *)
Definition epoch_move (c c' : CB) : Prop :=
  cbEpoch c' = cbEpoch c ∧ cbState c' = cbState c ∨ cbEpoch c' = cbEpoch c +u 1.

Lemma settle_epoch t o now c : epoch_move c (settle t o now c).
Proof. unfold epoch_move. cb_unfold. cb_split; auto. Qed.

Lemma CBFailure_epoch now c : epoch_move c (CBFailure now c).
Proof. unfold epoch_move. cb_unfold. cb_split; auto. Qed.

Lemma CBTryAcquire_epoch uid now c c' t ok :
  CBTryAcquire uid now c = (c', t, ok) → epoch_move c c'.
Proof. unfold epoch_move. cb_unfold. cb_split; intros; simplify_eq; auto. Qed.

Lemma epoch_move_mono c c' :
  epoch_move c c' → 0 <= cbEpoch c < 2 ^ 63 - 1 →
  cbEpoch c <= cbEpoch c' ∧ (cbState c' ≠ cbState c → cbEpoch c < cbEpoch c').
Proof. intros [[-> ->]| ->] H; [|rewrite u64_incr_small by done]; split; done || lia. Qed.

(** What an admission hands out. *)
Lemma CBTryAcquire_cases uid now c c' t ok :
  CBTryAcquire uid now c = (c', t, ok) →
  cbProbeInFlight c' = cbProbeInFlight c ∧ cbProbeGen c' = cbProbeGen c ∧
    cbEpoch c' = cbEpoch c ∧ tok_probe t = false ∧ (tok_epoch t = 0 ∨ tok_epoch t = cbEpoch c)
  ∨ ok = true ∧ cbProbeInFlight c' = true ∧ cbProbeGen c' = cbProbeGen c +u 1 ∧
    t = {| tok_u := Some uid; tok_probe := true; tok_gen := cbProbeGen c'; tok_epoch := cbEpoch c' |} ∧
    (cbProbeInFlight c = false ∨ cbState c = CBOpen).
Proof. cb_unfold. cb_split; intros; simplify_eq/=; auto 10. Qed.

Lemma tok_ok_settle cfg n w t o now :
  cb_ok cfg n (w_cb w) → n < 2 ^ 63 - 1 → tok_ok w → t ∈ w_issued w →
  tok_ok {| w_cb := settle t o now (w_cb w); w_issued := w_issued w; w_settled := t :: w_settled w |}.
Proof.
  intros Hc Hn [Hg He Hl Hu Hs] Ht. destruct (settle_frame t o now (w_cb w)) as [Hgen Hfl].
  destruct (epoch_move_mono _ _ (settle_epoch t o now (w_cb w))) as [Hep _];
    [destruct Hc; lia|].
  split; simpl.
  - rewrite Hgen. auto.
  - intros t' Ht'. specialize (He t' Ht'). lia.
  - intros Hfl'. destruct (Hfl Hfl') as [Hi _]. destruct (Hl Hi) as (t' & ? & ? & ? & ?).
    exists t'. split; [done|]. split_and!; congruence.
  - exact Hu.
  - intros t' [->|Ht']%elem_of_cons.
    + split; [done|]. intros Hlive. destruct (Hg t Ht) as [Hsome _]; [apply Hlive|].
      by eapply settle_ends.
    + destruct (Hs t' Ht') as [? Hnl]. split; [done|]. intros (H1 & H2 & H3).
      apply Hnl. destruct (Hfl H1) as [? _]. split_and!; congruence.
Qed.

Lemma tok_ok_failure cfg n w now :
  cb_ok cfg n (w_cb w) → n < 2 ^ 63 - 1 → tok_ok w →
  tok_ok {| w_cb := CBFailure now (w_cb w); w_issued := w_issued w; w_settled := w_settled w |}.
Proof.
  intros Hc Hn [Hg He Hl Hu Hs]. destruct (CBFailure_frame now (w_cb w)) as [Hgen Hfl].
  destruct (epoch_move_mono _ _ (CBFailure_epoch now (w_cb w))) as [Hep _]; [destruct Hc; lia|].
  split; simpl; unfold live in *; rewrite ?Hgen, ?Hfl; auto.
  intros t' Ht'. specialize (He t' Ht'). lia.
Qed.

Lemma tok_ok_acquire cfg n uid w now c t ok :
  cb_ok cfg n (w_cb w) → n < 2 ^ 63 - 1 → tok_ok w →
  CBTryAcquire uid now (w_cb w) = (c, t, ok) →
  tok_ok {| w_cb := c; w_issued := t :: w_issued w; w_settled := w_settled w |}.
Proof.
  intros Hc Hn [Hg He Hl Hu Hs] Ha.
  destruct (epoch_move_mono _ _ (CBTryAcquire_epoch _ _ _ _ _ _ Ha)) as [Hep _];
    [destruct Hc; lia|].
  pose proof (ok_gen _ _ _ Hc) as Hgn. pose proof (ok_epoch _ _ _ Hc) as Hen.
  destruct (CBTryAcquire_cases _ _ _ _ _ _ Ha)
    as [(Hfl & Hgen & Hepo & Hpr & Hte)|(-> & Hfl & Hgen & -> & Hold)].
  - split; simpl; unfold live in *; rewrite ?Hgen, ?Hfl, ?Hepo.
    + intros t' [->|?]%elem_of_cons; [congruence|auto].
    + intros t' [->|?]%elem_of_cons; [lia|auto].
    + intros Hi. destruct (Hl Hi) as (t' & ? & ?). exists t'. split; [set_solver|done].
    + intros t' t'' [->|?]%elem_of_cons [->|?]%elem_of_cons; (congruence || auto).
    + intros t' Ht'. destruct (Hs t' Ht'). split; [set_solver|done].
  - rewrite u64_incr_small in Hgen by lia. split; simpl; unfold live; rewrite ?Hgen, ?Hfl.
    + intros t' [->|Ht']%elem_of_cons Hp; simpl; [split; [done|lia]|].
      destruct (Hg t' Ht' Hp). split; [done|lia].
    + intros t' [->|Ht']%elem_of_cons; simpl; [lia|]. specialize (He t' Ht'). lia.
    + intros _. eexists. split; [apply elem_of_cons; by left|]. simpl. done.
    + intros t' t'' [->|H1]%elem_of_cons [->|H2]%elem_of_cons Hp1 Hp2 Heq; simpl in *; auto.
      * destruct (Hg _ H2 Hp2). lia.
      * destruct (Hg _ H1 Hp1). lia.
    + intros t' Ht'. destruct (Hs t' Ht') as [Hi _]. split; [set_solver|].
      intros (_ & Hp & Heq). destruct (Hg _ Hi Hp). lia.
Qed.

(** ** Reachable worlds *)

Section reach.
Context (uid : string) (cfg : CircuitBreakerConfig) (Hcfg : cb_sane cfg).

Lemma cb_step_inv n w w' :
  n < 2 ^ 63 - 1 → cb_ok cfg n (w_cb w) → tok_ok w → cb_step uid w w' →
  cb_ok cfg (n + 1) (w_cb w') ∧ tok_ok w'.
Proof.
  intros Hn Hc Ht Hstep. destruct Hstep; simpl; split.
  - by eapply CBTryAcquire_ok.
  - by eapply tok_ok_acquire.
  - by apply settle_ok.
  - by eapply tok_ok_settle.
  - by apply CBFailure_ok.
  - by eapply tok_ok_failure.
Qed.

Lemma cb_world0_inv : cb_ok cfg 0 (w_cb (cb_world0 cfg)) ∧ tok_ok (cb_world0 cfg).
Proof. split; [by apply cb_init_ok|]. split; simpl; set_solver. Qed.

Lemma cb_steps_inv n m w w' :
  n + Z.of_nat m < 2 ^ 63 → cb_ok cfg n (w_cb w) → tok_ok w → cb_steps uid m w w' →
  cb_ok cfg (n + Z.of_nat m) (w_cb w') ∧ tok_ok w'.
Proof.
  intros Hm Hc Ht Hs. induction Hs as [w|m w w1 w2 Hs IH Hstep].
  - by replace (n + Z.of_nat 0) with n by lia.
  - destruct IH as [Hc' Ht']; [lia|done|done|].
    replace (n + Z.of_nat (S m)) with (n + Z.of_nat m + 1) by lia.
    eapply cb_step_inv; [|exact Hc'|exact Ht'|exact Hstep]. lia.
Qed.

Lemma cb_step_epoch w w' :
  cb_step uid w w' → epoch_move (w_cb w) (w_cb w').
Proof.
  intros []; simpl; [by eapply CBTryAcquire_epoch|apply settle_epoch|apply CBFailure_epoch].
Qed.

End reach.

(** ** Runs used by the properties *)

(** A token that settles as a failure at each of the times [ts], in order. *)
Definition fail_run (t : CBToken) (ts : list Z) (c : CB) : CB :=
  foldl (λ c now, Token_Failure t now c) c ts.

(** A caller that acquires, succeeds and settles at each of the times [ts]; the flag says
    whether every acquisition was admitted. *)
Definition recovery_run (uid : string) (ts : list Z) (c : CB) : CB * bool :=
  foldl (λ '(c, b) now,
    let '(c1, t, ok) := CBTryAcquire uid now c in (Token_Success t now c1, b && ok)) (c, true) ts.

Lemma plain_failure_closed uid now c :
  cbState c = CBClosed → 0 <= cbFails c < 2 ^ 63 - 1 →
  Token_Failure (plain_token uid c) now c = cbRecordFailureLocked now c.
Proof.
  intros Hs Hf. unfold Token_Failure, settle. simpl.
  by rewrite Z.eqb_refl, Hs, bool_decide_true.
Qed.

Lemma fail_run_open t ts c :
  tok_probe t = false → cbState c ≠ CBClosed → fail_run t ts c = c.
Proof.
  intros Hp Hs. induction ts as [|now ts IH]; [done|]. simpl. 
  replace (Token_Failure t now c) with c; [done|].
  unfold Token_Failure, settle. destruct (tok_u t); [|done].
  by rewrite Hp, (bool_decide_false (cbState c = CBClosed)), orb_true_r.
Qed.

(** Below the threshold a run of failures only counts. *)
Lemma fail_run_below uid ts c :
  cbState c = CBClosed → 0 <= cbFails c → FailureThreshold (cbCfg c) < 2 ^ 63 - 1 →
  cbFails c + Z.of_nat (length ts) < FailureThreshold (cbCfg c) →
  let c' := fail_run (plain_token uid c) ts c in
  cbState c' = CBClosed ∧ cbFails c' = cbFails c + Z.of_nat (length ts) ∧
  cbEpoch c' = cbEpoch c ∧ cbCfg c' = cbCfg c.
Proof.
  intros Hs Hf Hw. revert c Hs Hf Hw. induction ts as [|now ts IH]; intros c Hs Hf Hw Hlt;
    [simpl; split_and!; done || lia|].
  simpl in *. rewrite (plain_failure_closed uid now c) by (done || lia).
  assert (cbRecordFailureLocked now c = set_cbLastErr now (set_cbFails (cbFails c + 1) c)) as ->.
  { unfold cbRecordFailureLocked. simpl. rewrite incr_int_small by lia.
    by rewrite (proj2 (Z.leb_gt _ _)) by lia. }
  destruct (IH (set_cbLastErr now (set_cbFails (cbFails c + 1) c))) as (H1 & H2 & H3 & H4);
    simpl; try done; try lia.
  unfold plain_token in *. simpl in *. split_and!; done || lia.
Qed.

(** One admitted and successful probe of a half-open breaker. *)
Lemma probe_success uid now c :
  cbState c = CBHalfOpen → cbProbeInFlight c = false → 0 <= cbSuccess c < 2 ^ 63 - 1 →
  ∃ c1 t, CBTryAcquire uid now c = (c1, t, true) ∧
    let c' := Token_Success t now c1 in
    cbProbeInFlight c' = false ∧ cbCfg c' = cbCfg c ∧ cbSuccess c' = cbSuccess c + 1 ∧
    (cbState c' = CBHalfOpen ∧ cbSuccess c + 1 < SuccessThreshold (cbCfg c) ∨
     cbState c' = CBClosed ∧ cbFails c' = 0 ∧ SuccessThreshold (cbCfg c) <= cbSuccess c + 1).
Proof.
  intros Hs Hp Hr. unfold CBTryAcquire. rewrite Hs, Hp. do 2 eexists. split; [done|].
  unfold Token_Success, settle. simpl. rewrite Z.eqb_refl. simpl. rewrite incr_int_small by lia.
  destruct (Z.leb_spec (SuccessThreshold (cbCfg c)) (cbSuccess c + 1)); simpl.
  - unfold cbTransitionLocked. simpl. rewrite Hs. simpl. split_and!; auto.
  - split_and!; auto.
Qed.

Lemma recovery_run_cons uid now ts c c1 t :
  CBTryAcquire uid now c = (c1, t, true) →
  recovery_run uid (now :: ts) c = recovery_run uid ts (Token_Success t now c1).
Proof. intros H. unfold recovery_run. simpl. by rewrite H. Qed.

Lemma recovery_run_half uid ts c :
  cbState c = CBHalfOpen → cbProbeInFlight c = false → 0 <= cbSuccess c →
  SuccessThreshold (cbCfg c) < 2 ^ 63 - 1 → ts ≠ [] →
  cbSuccess c + Z.of_nat (length ts) = SuccessThreshold (cbCfg c) →
  ∃ c', recovery_run uid ts c = (c', true) ∧ cbState c' = CBClosed ∧ cbFails c' = 0.
Proof.
  revert c. induction ts as [|now ts IH]; intros c Hs Hp H0 Hw Hne Hlen; [done|].
  simpl in Hlen.
  destruct (probe_success uid now c) as (c1 & t & Ha & Hp' & Hcfg' & Hsu & Hcase); [done|done|lia|].
  rewrite (recovery_run_cons _ _ _ _ _ _ Ha).
  destruct Hcase as [[Hs' Hlt]|(Hs' & Hf' & Hge)].
  - destruct ts as [|now' ts]; [simpl in *; lia|].
    apply IH; rewrite ?Hcfg', ?Hsu; done || lia.
  - destruct ts as [|now' ts]; [eexists; done|simpl in *; lia].
Qed.

Lemma cb_steps_settled uid n w w' :
  cb_steps uid n w w' → w_issued w ⊆ w_issued w' ∧ w_settled w ⊆ w_settled w'.
Proof.
  induction 1 as [|n w w1 w2 _ [H1 H2] Hs]; [done|].
  destruct Hs; simpl; (split; [|]); set_solver.
Qed.

(** Along a run the epoch never decreases, and it has grown if the state differs. *)
Lemma cb_steps_epoch uid cfg n m w w' :
  cb_sane cfg → n + Z.of_nat m < 2 ^ 63 → cb_ok cfg n (w_cb w) → tok_ok w →
  cb_steps uid m w w' →
  cbEpoch (w_cb w) <= cbEpoch (w_cb w') ∧
  (cbState (w_cb w') ≠ cbState (w_cb w) → cbEpoch (w_cb w) < cbEpoch (w_cb w')).
Proof.
  intros Hcfg Hm Hc Ht Hs. induction Hs as [w|m w w1 w2 Hs IH Hstep]; [split; [lia|done]|].
  destruct IH as [Hle Hlt]; [lia|done|done|].
  destruct (cb_steps_inv uid cfg Hcfg n m w w1) as [Hc1 Ht1]; [lia|done..|].
  destruct (epoch_move_mono _ _ (cb_step_epoch uid w1 w2 Hstep)) as [Hle' Hlt'];
    [destruct Hc1; lia|].
  split; [lia|]. intros Hne.
  destruct (decide (cbState (w_cb w1) = cbState (w_cb w))) as [Heq|Hne1].
  - assert (cbEpoch (w_cb w1) < cbEpoch (w_cb w2)) by (apply Hlt'; congruence). lia.
  - specialize (Hlt Hne1). lia.
Qed.

(** ** Properties *)

(** C3: in every execution of fewer than [2^63] operations at most one token owns the
    recovery probe; a probe is outstanding only in the half-open state, and then its token
    has been handed out and not been settled; a closed breaker is below its failure
    threshold and a half-open one below its success threshold. *)
Theorem cb_single_probe uid cfg n w :
  cb_sane cfg → Z.of_nat n < 2 ^ 63 → cb_steps uid n (cb_world0 cfg) w →
  (∀ t t', t ∈ w_issued w → t' ∈ w_issued w → live (w_cb w) t → live (w_cb w) t' → t = t') ∧
  (cbProbeInFlight (w_cb w) = true →
     cbState (w_cb w) = CBHalfOpen ∧ ∃ t, t ∈ w_issued w ∧ (t ∉ w_settled w) ∧ live (w_cb w) t) ∧
  (cbState (w_cb w) = CBClosed → 0 <= cbFails (w_cb w) < FailureThreshold cfg) ∧
  (cbState (w_cb w) = CBHalfOpen → 0 <= cbSuccess (w_cb w) < SuccessThreshold cfg).
Proof.
  intros Hcfg Hn Hs. destruct (cb_world0_inv cfg Hcfg) as [Hc0 Ht0].
  destruct (cb_steps_inv uid cfg Hcfg 0 n _ _ ltac:(lia) Hc0 Ht0 Hs) as [Hc Ht].
  split_and!.
  - intros t t' H1 H2 (_ & ? & ?) (_ & ? & ?). apply (tk_uniq _ Ht); congruence || done.
  - intros Hi. split; [by apply (ok_probe _ _ _ Hc)|].
    destruct (tk_live _ Ht Hi) as (t & ? & Hl). exists t. split_and!; [done| |done].
    intros Hset. by apply (tk_settled _ Ht t Hset).
  - intros Hst. pose proof (ok_closed _ _ _ Hc Hst). destruct Hc; lia.
  - intros Hst. pose proof (ok_half _ _ _ Hc Hst). destruct Hc; lia.
Qed.

(** Once a probe token has been settled, every later settlement of it, in any later
    world and with any outcome, leaves the breaker exactly as it is; in particular it cannot
    disturb a newer probe. *)
Theorem cb_settled_probe_inert uid cfg n m w w' t o now :
  cb_sane cfg → Z.of_nat n + Z.of_nat m < 2 ^ 63 →
  cb_steps uid n (cb_world0 cfg) w → t ∈ w_settled w → tok_probe t = true →
  cb_steps uid m w w' →
  settle t o now (w_cb w') = w_cb w'.
Proof.
  intros Hcfg Hn Hs Ht Hp Hs'. destruct (cb_world0_inv cfg Hcfg) as [Hc0 Ht0].
  destruct (cb_steps_inv uid cfg Hcfg 0 n _ _ ltac:(lia) Hc0 Ht0 Hs) as [Hc1 Ht1].
  destruct (cb_steps_inv uid cfg Hcfg (0 + Z.of_nat n) m _ _ ltac:(lia) Hc1 Ht1 Hs') as [_ Ht2].
  apply settle_stale; [done|]. apply (tk_settled _ Ht2).
  by apply (cb_steps_settled _ _ _ _ Hs').
Qed.

(** A token without a probe that was handed out before the breaker left the closed state
    never touches the breaker again: neither its success nor its failure counts after an
    open or a complete open-and-recover cycle. *)
Theorem cb_old_token_inert uid cfg n m k w w1 w2 t o now :
  cb_sane cfg → Z.of_nat n + Z.of_nat m + Z.of_nat k < 2 ^ 63 →
  cb_steps uid n (cb_world0 cfg) w → t ∈ w_issued w → tok_probe t = false →
  cb_steps uid m w w1 → cbState (w_cb w1) ≠ CBClosed → cb_steps uid k w1 w2 →
  settle t o now (w_cb w2) = w_cb w2.
Proof.
  intros Hcfg Hn Hs Ht Hp Hs1 Hopen Hs2. destruct (cb_world0_inv cfg Hcfg) as [Hc0 Ht0].
  destruct (cb_steps_inv uid cfg Hcfg 0 n _ _ ltac:(lia) Hc0 Ht0 Hs) as [Hc1 Ht1].
  destruct (cb_steps_inv uid cfg Hcfg (0 + Z.of_nat n) m _ _ ltac:(lia) Hc1 Ht1 Hs1) as [Hc2 Ht2].
  destruct (cb_steps_epoch uid cfg (0 + Z.of_nat n) m w w1 Hcfg ltac:(lia) Hc1 Ht1 Hs1) as [Hle1 _].
  destruct (cb_steps_epoch uid cfg (0 + Z.of_nat n + Z.of_nat m) k w1 w2 Hcfg ltac:(lia) Hc2 Ht2 Hs2) as [_ Hlt2].
  pose proof (tk_epoch _ Ht1 t Ht) as Hte. unfold settle. destruct (tok_u t); [|done].
  rewrite Hp. destruct (decide (cbState (w_cb w2) = CBClosed)) as [Hcl|Hcl].
  - assert (cbEpoch (w_cb w1) < cbEpoch (w_cb w2)) by (apply Hlt2; congruence).
    by rewrite (proj2 (Z.eqb_neq _ _)) by lia.
  - by rewrite (bool_decide_false (cbState (w_cb w2) = CBClosed)), orb_true_r.
Qed.

(** Failures reported by requests admitted in the current closed period open the breaker
    exactly when their number reaches the threshold: before that it stays closed and counts
    them, the failure that reaches the threshold opens it with the recovery clock at that
    failure's time, and the later ones change nothing, the clock included. *)
Theorem cb_opens_at_threshold uid c ts1 now ts2 :
  cb_sane (cbCfg c) → FailureThreshold (cbCfg c) < 2 ^ 63 - 1 →
  cbState c = CBClosed → 0 <= cbFails c →
  cbFails c + Z.of_nat (length ts1) + 1 = FailureThreshold (cbCfg c) →
  let t := plain_token uid c in
  cbState (fail_run t ts1 c) = CBClosed ∧
  cbFails (fail_run t ts1 c) = cbFails c + Z.of_nat (length ts1) ∧
  cbState (fail_run t (ts1 ++ now :: ts2) c) = CBOpen ∧
  cbLastErr (fail_run t (ts1 ++ now :: ts2) c) = Some now ∧
  cbFails (fail_run t (ts1 ++ now :: ts2) c) = FailureThreshold (cbCfg c).
Proof.
  intros Hcfg Hw Hs H0 Hlen t.
  destruct (fail_run_below uid ts1 c) as (Hs1 & Hf1 & He1 & Hc1); [done..|lia|].
  fold t in Hs1, Hf1, He1, Hc1. split_and!; [done|done|..].
  all: unfold fail_run; rewrite foldl_app; simpl; fold (fail_run t ts1 c);
    fold (fail_run t ts2 (Token_Failure t now (fail_run t ts1 c))).
  all: set (c1 := fail_run t ts1 c) in *.
  all: assert (t = plain_token uid c1) as Ht by (unfold t, plain_token; by rewrite He1).
  all: rewrite Ht, (plain_failure_closed uid now c1) by (done || lia).
  all: assert (cbRecordFailureLocked now c1 =
         cbOpenLocked (set_cbLastErr now (set_cbFails (cbFails c1 + 1) c1))) as ->
    by (unfold cbRecordFailureLocked; simpl; rewrite incr_int_small by lia;
        by rewrite (proj2 (Z.leb_le _ _)) by (rewrite Hc1; lia)).
  all: unfold cbOpenLocked, cbTransitionLocked; simpl; rewrite Hs1; simpl.
  all: rewrite fail_run_open by done; simpl; done || lia.
Qed.

(** C36: recovery: once the half-open delay has passed since the last failure, callers that
    acquire, succeed and settle one after another are all admitted, and exactly
    [SuccessThreshold] of them close the breaker with the failure count at zero. *)
Theorem cb_recovers uid c ts :
  cb_sane (cbCfg c) → SuccessThreshold (cbCfg c) < 2 ^ 63 - 1 →
  cbState c = CBOpen → Forall (λ now, cbWindowElapsed now c = true) ts →
  Z.of_nat (length ts) = SuccessThreshold (cbCfg c) →
  ∃ c', recovery_run uid ts c = (c', true) ∧ cbState c' = CBClosed ∧ cbFails c' = 0.
Proof.
  intros (Hf & Hsu & Hh) Hw Hs Hel Hlen. destruct ts as [|now ts]; [simpl in *; lia|].
  inversion Hel as [|?? Hnow _]; subst.
  set (c0 := set_cbSuccess 0 (set_cbState CBHalfOpen (cbEpoch c +u 1) (set_cbProbe false (cbProbeGen c) c))).
  assert (CBTryAcquire uid now c = CBTryAcquire uid now c0) as Heq.
  { unfold CBTryAcquire, c0. rewrite Hs, Hnow. simpl. unfold cbTransitionLocked. by rewrite Hs. }
  destruct (probe_success uid now c0) as (c1 & t & Ha & _); [done|done|simpl; lia|].
  rewrite (recovery_run_cons _ _ _ c c1 t) by congruence.
  rewrite <- (recovery_run_cons _ _ _ c0 c1 t) by done.
  apply recovery_run_half; simpl in *; done || lia.
Qed.

(** A request is refused only while another token owns the recovery probe, the refusal
    changes nothing and hands out a token that can do no harm, and whatever that owner
    reports, the next request is admitted: the breaker never locks its upstream out. *)
Theorem cb_refusal_is_temporary uid cfg n w now c t :
  cb_sane cfg → Z.of_nat n < 2 ^ 63 → cb_steps uid n (cb_world0 cfg) w →
  CBTryAcquire uid now (w_cb w) = (c, t, false) →
  c = w_cb w ∧ (∀ o now' c', settle t o now' c' = c') ∧
  ∃ owner, owner ∈ w_issued w ∧ live (w_cb w) owner ∧
    ∀ o now1 now2, (CBTryAcquire uid now2 (settle owner o now1 (w_cb w))).2 = true.
Proof.
  intros Hcfg Hn Hs Ha. destruct (cb_world0_inv cfg Hcfg) as [Hc0 Ht0].
  destruct (cb_steps_inv uid cfg Hcfg 0 n _ _ ltac:(lia) Hc0 Ht0 Hs) as [Hc Ht].
  assert (cbState (w_cb w) = CBHalfOpen ∧ cbProbeInFlight (w_cb w) = true ∧
          c = w_cb w ∧ t = zero_token) as (Hst & Hi & -> & ->).
  { revert Ha. cb_unfold. cb_split; intros; by simplify_eq. }
  split_and!; [done|done|]. destruct (tk_live _ Ht Hi) as (ow & How & Hl).
  exists ow. split_and!; [done|done|]. intros o now1 now2.
  destruct (tk_gen _ Ht ow How) as [Hu _]; [apply Hl|].
  assert (cbProbeInFlight (settle ow o now1 (w_cb w)) = false) as Hfree.
  { destruct (cbProbeInFlight (settle ow o now1 (w_cb w))) eqn:E; [|done].
    destruct (settle_frame ow o now1 (w_cb w)) as [_ Hf]. destruct (Hf E) as [_ Hx].
    rewrite (Hx Hl) in Hu. by destruct Hu. }
  revert Hfree. generalize (settle ow o now1 (w_cb w)). intros c Hfree. unfold CBTryAcquire.
  rewrite Hfree. destruct (cbState c); [done|by destruct (cbWindowElapsed _ _)|done].
Qed.

(** ** Witnesses *)

Definition cb_demo_cfg : CircuitBreakerConfig :=
  {| FailureThreshold := 1; SuccessThreshold := 2; HalfOpenAfter := 10 |}.

Lemma cb_demo_sane : cb_sane cb_demo_cfg.
Proof. unfold cb_sane, cb_demo_cfg; simpl; lia. Qed.

(** A concrete execution: admit, fail (opens), probe, settle, probe again. *)
Definition cb_demo_1 : CBWorld :=
  let '(c, t, _) := CBTryAcquire "a" 0 (cb_init cb_demo_cfg) in
  {| w_cb := c; w_issued := [t]; w_settled := [] |}.
Definition cb_demo_2 : CBWorld :=
  let t := {| tok_u := Some "a"%string; tok_probe := false; tok_gen := 0; tok_epoch := 0 |} in
  {| w_cb := settle t cbSettleFailure 5 (w_cb cb_demo_1); w_issued := [t]; w_settled := [t] |}.
Definition cb_demo_3 : CBWorld :=
  let '(c, t, _) := CBTryAcquire "a" 20 (w_cb cb_demo_2) in
  {| w_cb := c; w_issued := t :: w_issued cb_demo_2; w_settled := w_settled cb_demo_2 |}.
Definition cb_demo_probe : CBToken :=
  {| tok_u := Some "a"%string; tok_probe := true; tok_gen := 1; tok_epoch := 2 |}.
Definition cb_demo_4 : CBWorld :=
  {| w_cb := settle cb_demo_probe cbSettleSuccess 21 (w_cb cb_demo_3);
     w_issued := w_issued cb_demo_3; w_settled := cb_demo_probe :: w_settled cb_demo_3 |}.

Lemma cb_demo_steps_1 : cb_steps "a" 1 (cb_world0 cb_demo_cfg) cb_demo_1.
Proof.
  eapply steps_snoc; [apply steps_refl|].
  exact (step_acquire "a" (cb_world0 cb_demo_cfg) 0 (w_cb cb_demo_1) _ true eq_refl).
Qed.

Lemma cb_demo_steps_2 : cb_steps "a" 2 (cb_world0 cb_demo_cfg) cb_demo_2.
Proof.
  eapply steps_snoc; [apply cb_demo_steps_1|].
  apply (step_settle "a" cb_demo_1 5 _ cbSettleFailure). vm_compute. left.
Qed.

Lemma cb_demo_steps_3 : cb_steps "a" 3 (cb_world0 cb_demo_cfg) cb_demo_3.
Proof.
  eapply steps_snoc; [apply cb_demo_steps_2|].
  exact (step_acquire "a" cb_demo_2 20 (w_cb cb_demo_3) cb_demo_probe true eq_refl).
Qed.

Lemma cb_demo_steps_4 : cb_steps "a" 4 (cb_world0 cb_demo_cfg) cb_demo_4.
Proof.
  eapply steps_snoc; [apply cb_demo_steps_3|].
  apply (step_settle "a" cb_demo_3 21 cb_demo_probe cbSettleSuccess). vm_compute. left.
Qed.

Lemma cb_single_probe_witness :
  cbProbeInFlight (w_cb cb_demo_3) = true ∧ cbState (w_cb cb_demo_3) = CBHalfOpen.
Proof.
  split; [reflexivity|].
  apply (cb_single_probe "a" cb_demo_cfg 3 cb_demo_3 cb_demo_sane ltac:(lia) cb_demo_steps_3).
  reflexivity.
Defined.

Lemma cb_settled_probe_inert_witness :
  settle cb_demo_probe cbSettleFailure 99 (w_cb cb_demo_4) = w_cb cb_demo_4.
Proof.
  apply (cb_settled_probe_inert "a" cb_demo_cfg 4 0 cb_demo_4 cb_demo_4 cb_demo_probe
    cbSettleFailure 99 cb_demo_sane ltac:(lia) cb_demo_steps_4);
    [vm_compute; left|reflexivity|apply steps_refl].
Defined.

Lemma cb_old_token_inert_witness :
  settle {| tok_u := Some "a"%string; tok_probe := false; tok_gen := 0; tok_epoch := 0 |}
    cbSettleFailure 99 (w_cb cb_demo_2) = w_cb cb_demo_2.
Proof.
  refine (cb_old_token_inert "a" cb_demo_cfg 2 0 0 cb_demo_2 cb_demo_2 cb_demo_2 _
    cbSettleFailure 99 cb_demo_sane _ cb_demo_steps_2 _ _ (steps_refl _ _) _ (steps_refl _ _));
    [lia|vm_compute; left|reflexivity|discriminate].
Defined.

Lemma cb_opens_at_threshold_witness :
  cbState (fail_run (plain_token "a" (cb_init defaultCircuitBreaker)) [1; 2; 3; 4; 5; 6]
             (cb_init defaultCircuitBreaker)) = CBOpen.
Proof.
  apply (cb_opens_at_threshold "a" (cb_init defaultCircuitBreaker) [1; 2; 3; 4] 5 [6]);
    [vm_compute; repeat split|vm_compute; reflexivity|reflexivity|vm_compute; discriminate|reflexivity].
Defined.

Lemma cb_recovers_witness :
  ∃ c', recovery_run "a" [20; 21] (w_cb cb_demo_2) = (c', true) ∧ cbState c' = CBClosed ∧
        cbFails c' = 0.
Proof.
  apply (cb_recovers "a" (w_cb cb_demo_2) [20; 21]);
    [exact cb_demo_sane|vm_compute; reflexivity|reflexivity| |reflexivity].
  repeat constructor.
Defined.

Lemma cb_refusal_is_temporary_witness :
  ∃ owner, owner ∈ w_issued cb_demo_3 ∧ live (w_cb cb_demo_3) owner ∧
    ∀ o now1 now2, (CBTryAcquire "a" now2 (settle owner o now1 (w_cb cb_demo_3))).2 = true.
Proof.
  apply (cb_refusal_is_temporary "a" cb_demo_cfg 3 cb_demo_3 22 (w_cb cb_demo_3) zero_token
    cb_demo_sane ltac:(lia) cb_demo_steps_3). reflexivity.
Defined.
