(* ===== verification/ScoreTracker.v ===== *)
(** * Rolling score inputs of an upstream

    [upstream/scoring.go]: the ring buffer of request outcomes, the cached snapshot and the
    composite score.  [s.pos] only grows, by one per recorded request; it is kept as an
    unbounded integer ([int] would overflow after 2^63 requests). *)

From S2P Require Import Prelude GoFloat.
#[local] Open Scope Z_scope.

(** ** Data *)

Record ScoreSnapshot := { Samples : Z; ErrorRate : float64; P90Latency : Z }.

Definition zero_snapshot : ScoreSnapshot :=
  {| Samples := 0; ErrorRate := f64_zero; P90Latency := 0 |}.

Record ScoreTracker := {
  windowSize : nat;
  latencies : list Z;
  errors : list bool;
  pos : nat;
  count : nat;
  snapshot : ScoreSnapshot;
  snapshotValid : bool;
}.

Definition NewScoreTracker (w : Z) : ScoreTracker :=
  let w := Z.to_nat (if w <=? 0 then 100 else w) in
  {| windowSize := w; latencies := replicate w 0; errors := replicate w false;
     pos := 0; count := 0; snapshot := zero_snapshot; snapshotValid := false |}.

(** ** Operations *)

Definition record (d : Z) (isErr : bool) (s : ScoreTracker) : ScoreTracker :=
  let idx := (pos s `mod` windowSize s)%nat in
  {| windowSize := windowSize s;
     latencies := <[idx := d]> (latencies s);
     errors := <[idx := isErr]> (errors s);
     pos := S (pos s);
     count := if (count s <? windowSize s)%nat then S (count s) else count s;
     snapshot := snapshot s;
     snapshotValid := false |}.

Definition ScoreTracker_RecordSuccess (d : Z) := record d false.
Definition ScoreTracker_RecordError := record 0 true.

(** The loop of [computeSnapshot] over the first [count] cells: the number of errors and
    the positive latencies of the successes, in cell order. *)
Fixpoint scan_samples (errs : list bool) (lats : list Z) : Z * list Z :=
  match errs, lats with
  | e :: errs, l :: lats =>
      let '(n, ok) := scan_samples errs lats in
      if e then (n + 1, ok) else if 0 <? l then (n, l :: ok) else (n, ok)
  | _, _ => (0, [])
  end.

(** [int(math.Ceil(float64(n)*0.9)) - 1], clamped to the slice of length [n]. *)
Definition p90_index (n : nat) : nat :=
  let idx := f64_ceil_int (f64_mul (f64_of_Z (Z.of_nat n)) (f64_lit 9 10)) - 1 in
  let idx := if idx <? 0 then 0 else idx in
  let idx := if Z.of_nat n <=? idx then Z.of_nat n - 1 else idx in
  Z.to_nat idx.

Definition computeSnapshot (s : ScoreTracker) : ScoreSnapshot :=
  if (count s =? 0)%nat then {| Samples := 0; ErrorRate := f64_zero; P90Latency := 0 |}
  else
    let '(errCount, successful) := scan_samples (take (count s) (errors s)) (take (count s) (latencies s)) in
    let rate := f64_div (f64_of_Z errCount) (f64_of_Z (Z.of_nat (count s))) in
    if (length successful =? 0)%nat
    then {| Samples := Z.of_nat (count s); ErrorRate := rate; P90Latency := 0 |}
    else
      let sorted := stable_sort Z.ltb successful in
      {| Samples := Z.of_nat (count s); ErrorRate := rate;
         P90Latency := default 0 (sorted !! p90_index (length successful)) |}.

(** [Snapshot]: the tracker with its cache filled, and the result. *)
Definition ScoreTracker_Snapshot (s : ScoreTracker) : ScoreTracker * ScoreSnapshot :=
  let s' :=
    if snapshotValid s then s
    else {| windowSize := windowSize s; latencies := latencies s; errors := errors s;
            pos := pos s; count := count s; snapshot := computeSnapshot s;
            snapshotValid := true |} in
  (s', snapshot s').

(** [time.Duration.Seconds]. *)
Definition Seconds (d : Z) : float64 :=
  f64_add (f64_of_Z (Z.quot d 1000000000))
          (f64_div (f64_of_Z (Z.rem d 1000000000)) (f64_of_Z 1000000000)).

Definition inv1p (x : float64) : float64 := f64_div f64_one (f64_add f64_one x).

Definition calculateScore (errorWeight latencyWeight headLagWeight syncDistWeight errRate : float64)
    (p90Latency headLag syncDist : Z) : float64 :=
  let errorScore := f64_mul (f64_sub f64_one errRate) errorWeight in
  let p90 := Seconds p90Latency in
  let latencyScore :=
    if f64_ltb f64_zero p90 then f64_mul (inv1p p90) latencyWeight else latencyWeight in
  let headLagScore := f64_mul (inv1p (f64_of_Z headLag)) headLagWeight in
  let syncDistScore := f64_mul (inv1p (f64_of_Z syncDist)) syncDistWeight in
  f64_add (f64_add (f64_add errorScore latencyScore) headLagScore) syncDistScore.

(** ** Specification: the snapshot of a list of samples *)

(** A sample is [(isErr, latency)]. *)
Abbreviation sample := (bool * Z)%type.

Definition err_count (l : list sample) : Z := Z.of_nat (length (bfilter fst l)).
Definition good_latencies (l : list sample) : list Z :=
  snd <$> bfilter (λ x, negb x.1 && (0 <? x.2)) l.

Definition spec_snapshot (l : list sample) : ScoreSnapshot :=
  match l with
  | [] => zero_snapshot
  | _ =>
    {| Samples := Z.of_nat (length l);
       ErrorRate := f64_div (f64_of_Z (err_count l)) (f64_of_Z (Z.of_nat (length l)));
       P90Latency :=
         default 0 (stable_sort Z.ltb (good_latencies l) !! p90_index (length (good_latencies l))) |}
  end.

(** The last [w] elements of a log. *)
Definition last_n {A} (w : nat) (l : list A) : list A := drop (length l - w) l.

(** A request recorded, or a snapshot taken. *)
Inductive score_op := OpSuccess (d : Z) | OpError | OpSnapshot.

Definition run_op (op : score_op) (s : ScoreTracker) : ScoreTracker :=
  match op with
  | OpSuccess d => ScoreTracker_RecordSuccess d s
  | OpError => ScoreTracker_RecordError s
  | OpSnapshot => (ScoreTracker_Snapshot s).1
  end.
Definition run_ops (ops : list score_op) (s : ScoreTracker) : ScoreTracker :=
  foldl (λ s op, run_op op s) s ops.

(** The samples a list of operations records, oldest first. *)
Definition op_samples (ops : list score_op) : list sample :=
  omap (λ op, match op with
              | OpSuccess d => Some (false, d) | OpError => Some (true, 0) | OpSnapshot => None
              end) ops.

(** ** Lemmas *)

Lemma last_n_snoc {A} w (l : list A) x :
  (0 < w)%nat → (w <= length l)%nat → last_n w (l ++ [x]) = drop 1 (last_n w l) ++ [x].
Proof.
  intros Hw Hl. unfold last_n. rewrite length_app. simpl. rewrite drop_drop.
  rewrite drop_app_le by lia. do 2 f_equal. lia.
Qed.

Lemma last_n_all {A} w (l : list A) : (length l <= w)%nat → last_n w l = l.
Proof. intros. unfold last_n. by replace (length l - w)%nat with 0%nat by lia. Qed.

Lemma length_last_n {A} w (l : list A) : length (last_n w l) = min w (length l).
Proof. unfold last_n. rewrite length_drop. lia. Qed.

Lemma S_mod n w :
  (0 < w)%nat → (S n `mod` w = if S (n `mod` w) =? w then 0 else S (n `mod` w))%nat.
Proof.
  intros Hw. pose proof (Nat.mod_upper_bound n w ltac:(lia)).
  destruct (Nat.eqb_spec (S (n `mod` w)) w) as [E|E].
  - replace (S n) with (w + (n `div` w) * w)%nat by (pose proof (Nat.div_mod_eq n w); lia).
    by rewrite Nat.Div0.mod_add, Nat.Div0.mod_same.
  - replace (S n) with (S (n `mod` w) + (n `div` w) * w)%nat
      by (pose proof (Nat.div_mod_eq n w); lia).
    rewrite Nat.Div0.mod_add, Nat.mod_small by lia. done.
Qed.

(** The ring [cells] holds the log: the part [A] written in the current lap, then [B]. *)
Definition ring_rep {A} (w : nat) (cells log : list A) : Prop :=
  length cells = w ∧
  ∃ X Y, cells = X ++ Y ∧ length X = (length log `mod` w)%nat ∧
         if (length log <? w)%nat then log = X else last_n w log = Y ++ X.

Lemma ring_rep_write {A} w (cells log : list A) x :
  (0 < w)%nat → ring_rep w cells log →
  ring_rep w (<[(length log `mod` w)%nat := x]> cells) (log ++ [x]).
Proof.
  intros Hw (Hlen & X & Y & -> & HX & Hlog).
  rewrite length_app in Hlen. pose proof (Nat.mod_upper_bound (length log) w ltac:(lia)) as Hr.
  destruct Y as [|y Y]; [simpl in Hlen; lia|]. simpl in Hlen.
  split; [rewrite length_insert, length_app; simpl; lia|].
  rewrite <- HX, insert_app_r_alt, Nat.sub_diag by lia. simpl.
  assert (length (log ++ [x]) = S (length log)) as HS by (rewrite length_app; simpl; lia).
  assert (X ++ x :: Y = (X ++ [x]) ++ Y) as -> by by rewrite <- app_assoc.
  rewrite HS. destruct (Nat.ltb_spec (length log) w) as [Hlt|Hge].
  - subst X. rewrite Nat.mod_small in * by lia.
    destruct (Nat.ltb_spec (S (length log)) w) as [Hlt'|Hge'].
    + exists (log ++ [x]), Y. split_and!; [done| |done]. rewrite Nat.mod_small by lia. done.
    + assert (S (length log) = w) as Hw' by lia. assert (Y = []) as -> by (apply nil_length_inv; lia).
      exists [], (log ++ [x]). rewrite Hw', Nat.Div0.mod_same. split_and!; [by rewrite app_nil_r|done|].
      rewrite app_nil_r. apply last_n_all. lia.
  - assert ((S (length log) <? w)%nat = false) as -> by (apply Nat.ltb_ge; lia).
    assert (last_n w (log ++ [x]) = Y ++ X ++ [x]) as Hl.
    { rewrite last_n_snoc by lia. rewrite Hlog. simpl. by rewrite drop_0, app_assoc. }
    assert (S (length log) `mod` w = if (S (length X) =? w)%nat then 0 else S (length X))%nat as Hmod.
    { rewrite HX. apply S_mod. lia. }
    destruct (Nat.eqb_spec (S (length X)) w) as [E|E].
    + assert (Y = []) as -> by (apply nil_length_inv; lia).
      exists [], (X ++ [x]). rewrite Hmod. split_and!; [by rewrite app_nil_r|done|].
      rewrite Hl. by rewrite app_nil_r.
    + exists (X ++ [x]), Y. rewrite Hmod. split_and!; [done| |done].
      rewrite length_app. simpl. lia.
Qed.

(** The first [count] cells are the retained samples, up to their order. *)
Lemma ring_rep_perm {A} w (cells log : list A) :
  ring_rep w cells log → take (min (length log) w) cells ≡ₚ last_n w log.
Proof.
  intros (Hlen & X & Y & -> & HX & Hlog). destruct (Nat.ltb_spec (length log) w).
  - subst. rewrite last_n_all, Nat.min_l, take_app_length by lia. done.
  - rewrite Hlog, take_ge by lia. apply Permutation_app_comm.
Qed.

(** The tracker holds the log [log]: its ring, its counters, and a cache that is either
    marked stale or the snapshot of the current contents. *)
Record st_rep (w : nat) (log : list sample) (s : ScoreTracker) : Prop := {
  st_w : windowSize s = w;
  st_pos : pos s = length log;
  st_count : count s = min (length log) w;
  st_len : length (errors s) = length (latencies s);
  st_ring : ring_rep w (zip (errors s) (latencies s)) log;
  st_cache : snapshotValid s = true → snapshot s = computeSnapshot s;
}.

Definition window_of (w : Z) : nat := Z.to_nat (if w <=? 0 then 100 else w).

Lemma window_of_pos w : (0 < window_of w)%nat.
Proof. unfold window_of. destruct (Z.leb_spec w 0); lia. Qed.

Lemma NewScoreTracker_rep w : st_rep (window_of w) [] (NewScoreTracker w).
Proof.
  split; simpl; rewrite ?length_replicate; try done. 
  split; [rewrite length_zip_with, !length_replicate; unfold window_of; lia|].
  eexists [], _. split_and!; [done|by rewrite Nat.Div0.mod_0_l|].
  pose proof (window_of_pos w). by rewrite (proj2 (Nat.ltb_lt _ _)) by (simpl; lia).
Qed.

Lemma zip_insert {A B} (i : nat) (a : A) (b : B) l k :
  <[i := (a, b)]> (zip l k) = zip (<[i := a]> l) (<[i := b]> k).
Proof. revert i k. induction l; intros [|i] [|? k]; simpl; try done. by f_equal. Qed.

Lemma record_rep w log d e s :
  (0 < w)%nat → st_rep w log s → st_rep w (log ++ [(e, d)]) (record d e s).
Proof.
  intros Hw [Hsw Hp Hc Hl Hr Hs]. subst w. split; simpl; try done.
  - rewrite Hp, length_app. simpl. lia.
  - rewrite Hc, length_app. simpl. destruct (Nat.ltb_spec (length log `min` windowSize s) (windowSize s)); lia.
  - by rewrite !length_insert.
  - rewrite <- zip_insert, Hp. by apply ring_rep_write.
Qed.

Lemma Snapshot_rep w log s : st_rep w log s → st_rep w log (ScoreTracker_Snapshot s).1.
Proof.
  intros H. unfold ScoreTracker_Snapshot. destruct (snapshotValid s) eqn:E; [done|].
  destruct H. by split.
Qed.

Lemma scan_samples_spec errs lats :
  length errs = length lats →
  scan_samples errs lats = (err_count (zip errs lats), good_latencies (zip errs lats)).
Proof.
  revert lats. induction errs as [|e errs IH]; intros [|l lats] Hl; try done.
  simpl in Hl. simpl. rewrite IH by lia. unfold err_count, good_latencies. simpl.
  destruct e; simpl; [|by destruct (0 <? l)].
  f_equal. lia.
Qed.

Lemma Zltb_sort_sorted l : StronglySorted Z.le (stable_sort Z.ltb l).
Proof.
  apply Sorted_StronglySorted; [intros x y z; lia|].
  induction l as [|x l IH]; simpl; [constructor|].
  induction (stable_sort Z.ltb l) as [|y m IHm]; simpl; [repeat constructor|].
  destruct (Z.ltb_spec y x).
  - inversion IH as [|?? H1 H2]; subst. constructor; [by apply IHm|].
    destruct m as [|z m]; simpl; [constructor; lia|]. inversion H2; subst.
    destruct (Z.ltb_spec z x); constructor; lia.
  - constructor; [done|constructor; lia].
Qed.

(** Sorting integers forgets the order of the input. *)
Lemma Zltb_sort_perm l k : l ≡ₚ k → stable_sort Z.ltb l = stable_sort Z.ltb k.
Proof.
  intros Hp. apply (StronglySorted_unique Z.le); [apply Zltb_sort_sorted..|].
  by rewrite !stable_sort_perm.
Qed.

Lemma spec_snapshot_perm l k : l ≡ₚ k → spec_snapshot l = spec_snapshot k.
Proof.
  intros Hp. assert (good_latencies l ≡ₚ good_latencies k) as Hg.
  { unfold good_latencies. apply fmap_Permutation. by apply bfilter_Permutation. }
  assert (err_count l = err_count k) as He.
  { unfold err_count. by rewrite (bfilter_Permutation fst l k Hp). }
  pose proof (Permutation_length Hp) as Hlen. pose proof (Permutation_length Hg) as Hglen.
  unfold spec_snapshot. rewrite He, (Zltb_sort_perm _ _ Hg), Hglen, Hlen.
  by destruct l, k.
Qed.

Lemma computeSnapshot_spec s w log :
  st_rep w log s → computeSnapshot s = spec_snapshot (last_n w log).
Proof.
  intros [Hw Hp Hc Hl Hr _]. pose proof (ring_rep_perm _ _ _ Hr) as Hperm.
  rewrite <- Hc in Hperm. rewrite <- (spec_snapshot_perm _ _ Hperm). clear Hperm.
  destruct Hr as [Hlen _]. rewrite length_zip_with in Hlen.
  unfold computeSnapshot, spec_snapshot. rewrite scan_samples_spec by (rewrite !length_take; lia).
  assert (zip (take (count s) (errors s)) (take (count s) (latencies s)) =
          take (count s) (zip (errors s) (latencies s))) as -> by by rewrite zip_with_take.
  assert (length (take (count s) (zip (errors s) (latencies s))) = count s) as Hk
    by (rewrite length_take, length_zip_with; lia).
  destruct (take (count s) (zip (errors s) (latencies s))) as [|x l] eqn:E; simpl in Hk;
    [by rewrite <- Hk|].
  rewrite <- Hk. simpl (S _ =? 0)%nat. cbv iota.
  destruct (Nat.eqb_spec (length (good_latencies (x :: l))) 0) as [H0|H0]; [|done].
  apply nil_length_inv in H0. rewrite H0. done.
Qed.

Lemma Snapshot_spec s w log :
  st_rep w log s → (ScoreTracker_Snapshot s).2 = spec_snapshot (last_n w log).
Proof.
  intros H. rewrite <- (computeSnapshot_spec _ _ _ H). unfold ScoreTracker_Snapshot.
  destruct (snapshotValid _) eqn:E; [|done]. simpl. by apply (st_cache _ _ _ H).
Qed.

Lemma run_ops_rep w ops log s :
  (0 < w)%nat → st_rep w log s → st_rep w (log ++ op_samples ops) (run_ops ops s).
Proof.
  intros Hw. revert log s. induction ops as [|op ops IH]; intros log s Hs; simpl;
    [by rewrite app_nil_r|].
  destruct op; simpl.
  - rewrite cons_middle, app_assoc. apply IH. by apply record_rep.
  - rewrite cons_middle, app_assoc. apply IH. by apply record_rep.
  - apply IH. by apply Snapshot_rep.
Qed.

(** ** Properties *)

(** Whatever mix of recorded requests and snapshots came before, a snapshot equals the
    reference computation on the last [windowSize] recorded requests: the ring buffer keeps
    exactly those, and the cached result is never stale. *)
Theorem Snapshot_is_window w ops :
  (ScoreTracker_Snapshot (run_ops ops (NewScoreTracker w))).2 =
  spec_snapshot (last_n (window_of w) (op_samples ops)).
Proof.
  pose proof (run_ops_rep _ ops _ _ (window_of_pos w) (NewScoreTracker_rep w)) as H.
  simpl in H. by apply Snapshot_spec.
Qed.

(** The number of elements at most (below) [p]. *)
Definition count_le (p : Z) (l : list Z) : nat := length (bfilter (λ x, x <=? p) l).
Definition count_lt (p : Z) (l : list Z) : nat := length (bfilter (λ x, x <? p) l).

Lemma sorted_rank l i p :
  StronglySorted Z.le l → l !! i = Some p → (count_lt p l <= i < count_le p l)%nat.
Proof.
  intros Hs. revert i. induction Hs as [|x l Hs IH Hx]; intros i Hi; [done|].
  unfold count_lt, count_le in *. simpl. destruct i as [|i]; simpl in Hi; simplify_eq.
  - rewrite (proj2 (Z.ltb_ge p p)), (proj2 (Z.leb_le p p)) by lia. simpl.
    assert (bfilter (λ y, y <? p) l = []) as ->; [|simpl; lia].
    apply bfilter_nil. intros y Hy. rewrite Forall_forall in Hx. specialize (Hx y Hy).
    apply Z.ltb_ge. lia.
  - assert (x <= p) as Hxp. 
    { rewrite Forall_forall in Hx. apply Hx. by eapply list_elem_of_lookup_2. }
    rewrite (proj2 (Z.leb_le x p)) by lia. specialize (IH i Hi). simpl.
    destruct (x <? p); simpl; lia.
Qed.

(** The float computation of the rank agrees with the exact 90th percentile rank for every
    window up to ten times the default. *)
Lemma p90_index_exact n :
  (1 <= n <= 1000)%nat → (10 * p90_index n < 9 * n <= 10 * (p90_index n + 1) ∧ p90_index n < n)%nat.
Proof.
  intros Hn.
  assert (forallb (λ n, (10 * p90_index n <? 9 * n)%nat && (9 * n <=? 10 * (p90_index n + 1))%nat
                        && (p90_index n <? n)%nat) (seq 1 1000) = true) as H
    by (vm_compute; reflexivity).
  rewrite forallb_forall in H. specialize (H n ltac:(apply in_seq; lia)).
  rewrite !andb_true_iff, !Nat.ltb_lt, Nat.leb_le in H. lia.
Qed.

(** The reported latency is the 90th percentile of the retained successes: it is one of
    them, at least nine tenths of them are at most as slow, and fewer than nine tenths are
    strictly faster (windows of up to 1000 successes; the default window is 100). *)
Theorem Snapshot_p90 w ops :
  let lats := good_latencies (last_n (window_of w) (op_samples ops)) in
  let p := P90Latency (ScoreTracker_Snapshot (run_ops ops (NewScoreTracker w))).2 in
  (1 <= length lats <= 1000)%nat →
  p ∈ lats ∧ (9 * length lats <= 10 * count_le p lats)%nat ∧
  (10 * count_lt p lats < 9 * length lats)%nat.
Proof.
  intros lats p Hl. destruct (p90_index_exact _ Hl) as [Hex Hin].
  pose proof (run_ops_rep _ ops _ _ (window_of_pos w) (NewScoreTracker_rep w)) as H. simpl in H.
  assert (stable_sort Z.ltb lats !! p90_index (length lats) = Some p) as Hp.
  { destruct (lookup_lt_is_Some_2 (stable_sort Z.ltb lats) (p90_index (length lats))) as [q Hq];
      [by rewrite stable_sort_perm|]. rewrite Hq. f_equal. unfold p.
    assert ((ScoreTracker_Snapshot (run_ops ops (NewScoreTracker w))).2 =
            spec_snapshot (last_n (window_of w) (op_samples ops))) as ->.
    { by apply Snapshot_spec. }
    unfold spec_snapshot. fold lats. rewrite Hq.
    destruct (last_n _ _) eqn:E; [|done]. exfalso. unfold lats in Hl. simpl in Hl. lia. }
  pose proof (sorted_rank _ _ _ (Zltb_sort_sorted lats) Hp) as Hrank.
  unfold count_le, count_lt in *.
  rewrite !(bfilter_Permutation _ _ _ (stable_sort_perm Z.ltb lats)) in Hrank.
  split; [|lia]. rewrite <- (stable_sort_perm Z.ltb lats). by eapply list_elem_of_lookup_2.
Qed.

(** ** Witnesses *)

Lemma Snapshot_p90_witness :
  P90Latency (ScoreTracker_Snapshot (run_ops [OpSuccess 5; OpSnapshot; OpError; OpSuccess 7]
    (NewScoreTracker 2))).2 ∈ [7].
Proof. refine (proj1 (Snapshot_p90 2 [OpSuccess 5; OpSnapshot; OpError; OpSuccess 7] _)). vm_compute. lia. Defined.
