(* ===== verification/AutoTuner.v ===== *)
(** * The per-upstream rate auto-tuner

    [upstream/ratelimit.go].  The token bucket is [golang.org/x/time/rate], which is not part
    of the repository: it is the class [RateLib], with the documented behaviour of its
    getters and setters as the laws [RateLaws]. *)

From S2P Require Import Prelude GoFloat Config.
#[local] Open Scope Z_scope.

(** ** The token-bucket library *)

Class RateLib := {
  limiter : Type;
  NewLimiter : float64 → Z → limiter;
  lim_Tokens : limiter → Z → float64;
  lim_Allow : limiter → Z → bool * limiter;
  lim_SetLimit : limiter → Z → float64 → limiter;
  lim_SetBurst : limiter → Z → Z → limiter;
  lim_Limit : limiter → float64;
  lim_Burst : limiter → Z;
}.

Class RateLaws `{!RateLib} : Prop := {
  New_Limit r b : lim_Limit (NewLimiter r b) = r;
  New_Burst r b : lim_Burst (NewLimiter r b) = b;
  Allow_Limit l now : lim_Limit (lim_Allow l now).2 = lim_Limit l;
  Allow_Burst l now : lim_Burst (lim_Allow l now).2 = lim_Burst l;
  SetLimit_Limit l now r : lim_Limit (lim_SetLimit l now r) = r;
  SetLimit_Burst l now r : lim_Burst (lim_SetLimit l now r) = lim_Burst l;
  SetBurst_Limit l now b : lim_Limit (lim_SetBurst l now b) = lim_Limit l;
  SetBurst_Burst l now b : lim_Burst (lim_SetBurst l now b) = b;
}.

(** ** Data and operations *)

Section tuner.
Context `{RL : RateLib}.

Record AutoTuner := {
  at_limiter : limiter;
  at_totalCount : Z;
  at_throttleCount : Z;
  at_lastAdjust : Z;
  at_adjustmentPeriod : Z;
  at_errorRateThreshold : float64;
  at_increaseFactor : float64;
  at_decreaseFactor : float64;
  at_minRate : float64;
  at_maxRate : float64;
  at_currentRate : float64;
}.

(** [if x <= 0 { x = d }] *)
Definition default_nonpos (x d : float64) : float64 := if f64_leb x f64_zero then d else x.

Definition NewAutoTuner (now : Z) (initialRate minRate maxRate : float64)
    (adjustmentPeriod : Z) (errorRateThreshold : float64) : AutoTuner :=
  let initialRate := default_nonpos initialRate (f64_of_Z 100) in
  let minRate := default_nonpos minRate (f64_of_Z 1) in
  let maxRate := default_nonpos maxRate (f64_of_Z 10000) in
  let adjustmentPeriod := if adjustmentPeriod <=? 0 then Minute else adjustmentPeriod in
  let errorRateThreshold := default_nonpos errorRateThreshold (f64_lit 1 10) in
  {| at_limiter := NewLimiter initialRate (Z.max (f64_to_int initialRate) 1);
     at_totalCount := 0; at_throttleCount := 0; at_lastAdjust := now;
     at_adjustmentPeriod := adjustmentPeriod; at_errorRateThreshold := errorRateThreshold;
     at_increaseFactor := f64_lit 105 100; at_decreaseFactor := f64_lit 9 10;
     at_minRate := minRate; at_maxRate := maxRate; at_currentRate := initialRate |}.

Definition AutoTuner_HasCapacity (now : Z) (a : AutoTuner) : bool :=
  f64_leb f64_one (lim_Tokens (at_limiter a) now).

Definition at_set_limiter (l : limiter) (a : AutoTuner) : AutoTuner :=
  {| at_limiter := l; at_totalCount := at_totalCount a; at_throttleCount := at_throttleCount a;
     at_lastAdjust := at_lastAdjust a; at_adjustmentPeriod := at_adjustmentPeriod a;
     at_errorRateThreshold := at_errorRateThreshold a; at_increaseFactor := at_increaseFactor a;
     at_decreaseFactor := at_decreaseFactor a; at_minRate := at_minRate a;
     at_maxRate := at_maxRate a; at_currentRate := at_currentRate a |}.

Definition at_set_counts (total throttle last : Z) (a : AutoTuner) : AutoTuner :=
  {| at_limiter := at_limiter a; at_totalCount := total; at_throttleCount := throttle;
     at_lastAdjust := last; at_adjustmentPeriod := at_adjustmentPeriod a;
     at_errorRateThreshold := at_errorRateThreshold a; at_increaseFactor := at_increaseFactor a;
     at_decreaseFactor := at_decreaseFactor a; at_minRate := at_minRate a;
     at_maxRate := at_maxRate a; at_currentRate := at_currentRate a |}.

Definition at_set_rate (r : float64) (a : AutoTuner) : AutoTuner :=
  {| at_limiter := at_limiter a; at_totalCount := at_totalCount a;
     at_throttleCount := at_throttleCount a;
     at_lastAdjust := at_lastAdjust a; at_adjustmentPeriod := at_adjustmentPeriod a;
     at_errorRateThreshold := at_errorRateThreshold a; at_increaseFactor := at_increaseFactor a;
     at_decreaseFactor := at_decreaseFactor a; at_minRate := at_minRate a;
     at_maxRate := at_maxRate a; at_currentRate := r |}.

Definition AutoTuner_Consume (now : Z) (a : AutoTuner) : AutoTuner :=
  at_set_limiter (lim_Allow (at_limiter a) now).2 a.

(** The new rate [adjust] computes from the throttling ratio. *)
Definition adjusted_rate (a : AutoTuner) : float64 :=
  let errRate := f64_div (f64_of_Z (at_throttleCount a)) (f64_of_Z (at_totalCount a)) in
  if f64_ltb (at_errorRateThreshold a) errRate then
    let r := f64_mul (at_currentRate a) (at_decreaseFactor a) in
    if f64_ltb r (at_minRate a) then at_minRate a else r
  else
    let r := f64_mul (at_currentRate a) (at_increaseFactor a) in
    if f64_ltb (at_maxRate a) r then at_maxRate a else r.

Definition AutoTuner_adjust (now : Z) (a : AutoTuner) : AutoTuner :=
  if at_totalCount a =? 0 then at_set_counts (at_totalCount a) (at_throttleCount a) now a
  else
    let a := at_set_rate (adjusted_rate a) a in
    let l := lim_SetLimit (at_limiter a) now (at_currentRate a) in
    let l := lim_SetBurst l now (Z.max (f64_to_int (at_currentRate a)) 1) in
    at_set_counts 0 0 now (at_set_limiter l a).

Definition AutoTuner_RecordResponse (now statusCode : Z) (a : AutoTuner) : AutoTuner :=
  let throttle := if statusCode =? 429 then at_throttleCount a + 1 else at_throttleCount a in
  let a := at_set_counts (at_totalCount a + 1) throttle (at_lastAdjust a) a in
  if at_adjustmentPeriod a <=? now - at_lastAdjust a then AutoTuner_adjust now a else a.

(** One use of the tuner: a capacity check does not change it. *)
Inductive tuner_op := TConsume (now : Z) | TResponse (now statusCode : Z).

Definition tuner_run (a : AutoTuner) (ops : list tuner_op) : AutoTuner :=
  foldl (λ a op, match op with
                 | TConsume now => AutoTuner_Consume now a
                 | TResponse now sc => AutoTuner_RecordResponse now sc a end) a ops.

(** The bucket enforces the current rate; the counters stay consistent; the rate is the
    initial one or was clamped by the last adjustment. *)
Record tuner_inv (init : float64) (a : AutoTuner) : Prop := {
  ti_limit : lim_Limit (at_limiter a) = at_currentRate a;
  ti_burst : lim_Burst (at_limiter a) = Z.max (f64_to_int (at_currentRate a)) 1;
  ti_counts : 0 <= at_throttleCount a <= at_totalCount a;
  ti_rate : at_currentRate a = init ∨ f64_ltb (at_currentRate a) (at_minRate a) = false ∨
            f64_ltb (at_maxRate a) (at_currentRate a) = false;
}.

Lemma adjusted_rate_clamped a :
  f64_ltb (adjusted_rate a) (at_minRate a) = false ∨
  f64_ltb (at_maxRate a) (adjusted_rate a) = false.
Proof.
  unfold adjusted_rate. destruct (f64_ltb (at_errorRateThreshold a) _); [left|right];
    match goal with |- context [if ?b then _ else _] => destruct b eqn:E end;
    done || apply f64_ltb_irrefl.
Qed.

Context `{!RateLaws}.

Lemma NewAutoTuner_inv now i mn mx p e :
  tuner_inv (at_currentRate (NewAutoTuner now i mn mx p e)) (NewAutoTuner now i mn mx p e).
Proof. split; simpl; [apply New_Limit|apply New_Burst|lia|by left]. Qed.

Lemma Consume_inv i now a : tuner_inv i a → tuner_inv i (AutoTuner_Consume now a).
Proof. intros []. split; simpl; rewrite ?Allow_Limit, ?Allow_Burst; done. Qed.

Lemma adjust_inv i now a : tuner_inv i a → tuner_inv i (AutoTuner_adjust now a).
Proof.
  intros []. unfold AutoTuner_adjust. destruct (_ =? 0) eqn:E; [by split|].
  split; simpl; rewrite ?SetBurst_Limit, ?SetLimit_Limit, ?SetBurst_Burst; try done; try lia.
  right. apply adjusted_rate_clamped.
Qed.

Lemma RecordResponse_inv i now sc a :
  tuner_inv i a → tuner_inv i (AutoTuner_RecordResponse now sc a).
Proof.
  intros [H1 H2 H3 H4]. unfold AutoTuner_RecordResponse. simpl.
  destruct (_ <=? _); [apply adjust_inv|]; (split; simpl; [done|done|destruct (sc =? 429); lia|done]).
Qed.

Lemma tuner_run_inv i a ops : tuner_inv i a → tuner_inv i (tuner_run a ops).
Proof.
  revert a. induction ops as [|op ops IH]; intros a Ha; [done|].
  apply IH. destruct op; [by apply Consume_inv|by apply RecordResponse_inv].
Qed.

(** Whatever sequence of sends and responses the tuner sees, its token bucket enforces
    exactly the tuner's current rate with a burst of at least one, the throttled responses
    never outnumber the responses counted, and a rate that was ever adjusted respects the
    minimum (after a decrease) or the maximum (after an increase). *)
Theorem tuner_bucket_in_sync now i mn mx p e ops :
  let a0 := NewAutoTuner now i mn mx p e in
  let a := tuner_run a0 ops in
  lim_Limit (at_limiter a) = at_currentRate a ∧
  lim_Burst (at_limiter a) = Z.max (f64_to_int (at_currentRate a)) 1 ∧
  0 <= at_throttleCount a <= at_totalCount a ∧
  (at_currentRate a = at_currentRate a0 ∨ f64_ltb (at_currentRate a) (at_minRate a) = false ∨
   f64_ltb (at_maxRate a) (at_currentRate a) = false).
Proof.
  intros a0 a. destruct (tuner_run_inv _ a0 ops (NewAutoTuner_inv now i mn mx p e)). done.
Qed.

End tuner.

Arguments AutoTuner _ : clear implicits.

(** ** A bucket that satisfies the laws

    It refills whenever the clock moves; used to instantiate the parameter. *)

Record toy_limiter := { toy_rate : float64; toy_burst : Z; toy_tokens : Z; toy_last : Z }.

Definition toy_refill (l : toy_limiter) (now : Z) : Z :=
  if toy_last l <? now then toy_burst l else toy_tokens l.

#[export] Instance ToyRate : RateLib := {|
  limiter := toy_limiter;
  NewLimiter r b := {| toy_rate := r; toy_burst := b; toy_tokens := b; toy_last := 0 |};
  lim_Tokens l now := f64_of_Z (toy_refill l now);
  lim_Allow l now :=
    let t := toy_refill l now in
    (0 <? t, {| toy_rate := toy_rate l; toy_burst := toy_burst l;
                toy_tokens := if 0 <? t then t - 1 else t; toy_last := now |});
  lim_SetLimit l now r :=
    {| toy_rate := r; toy_burst := toy_burst l; toy_tokens := toy_refill l now; toy_last := now |};
  lim_SetBurst l now b :=
    {| toy_rate := toy_rate l; toy_burst := b; toy_tokens := toy_refill l now; toy_last := now |};
  lim_Limit := toy_rate;
  lim_Burst := toy_burst;
|}.

#[export] Instance ToyRate_laws : @RateLaws ToyRate.
Proof. by split. Qed.

Lemma tuner_bucket_in_sync_witness :
  let a := tuner_run (NewAutoTuner (RL := ToyRate) 0 (f64_of_Z 50) f64_one (f64_of_Z 100) Minute (f64_lit 1 10))
             [TConsume 1; TResponse (2 * Minute) 429] in
  lim_Limit (at_limiter a) = at_currentRate a.
Proof.
  apply (tuner_bucket_in_sync (RL := ToyRate) 0 (f64_of_Z 50) f64_one (f64_of_Z 100) Minute
    (f64_lit 1 10) [TConsume 1; TResponse (2 * Minute) 429]).
Defined.
