(* ===== verification/BlockCache.v ===== *)
(** * Fork detection

    [upstream/blockcache.go].  Go's [slotMap] and [rootMap] hold pointers to the same
    [Block]s, and [AddBlock] updates a block's voters through [rootMap] while the head vote
    reads them through [slotMap].  The model keeps that sharing: both maps hold addresses of
    one [heap] of blocks.  [SeenBy map[string]bool] only ever stores [true], so it is the set
    of its keys.  Slots are [uint64]; the wall clock is an argument, in Unix seconds. *)

From S2P Require Import Prelude GoStrings Config.
#[local] Open Scope Z_scope.
#[local] Open Scope go_scope.

(** ** Data *)

Record Block := {
  b_Slot : Z;
  b_Root : string;
  b_ParentRoot : string;
  b_SeenBy : gset string;
  b_FirstSeen : Z;
}.

Definition remoteVoter : string := "@remote".

Record BlockCache := {
  heap : gmap nat Block;
  next_ptr : nat;
  slotMap : gmap Z (list nat);
  rootMap : gmap string nat;
  maxSlot : Z;
  followDistance : Z;
  maxHeadDistance : Z;
  genesisTime : Z;
  secondsPerSlot : Z;
  canonSlot : Z;
  canonRoot : string;
}.

Definition NewBlockCache (fd mhd : Z) : BlockCache :=
  {| heap := ∅; next_ptr := 0; slotMap := ∅; rootMap := ∅; maxSlot := 0;
     followDistance := fd; maxHeadDistance := mhd; genesisTime := 0; secondsPerSlot := 0;
     canonSlot := 0; canonRoot := "" |}.

Definition SetSlotTiming (g sps : Z) (bc : BlockCache) : BlockCache :=
  {| heap := heap bc; next_ptr := next_ptr bc; slotMap := slotMap bc; rootMap := rootMap bc;
     maxSlot := maxSlot bc; followDistance := followDistance bc;
     maxHeadDistance := maxHeadDistance bc; genesisTime := g; secondsPerSlot := sps;
     canonSlot := canonSlot bc; canonRoot := canonRoot bc |}.

Definition bc_set_blocks (h : gmap nat Block) (n : nat) (sm : gmap Z (list nat))
    (rm : gmap string nat) (bc : BlockCache) : BlockCache :=
  {| heap := h; next_ptr := n; slotMap := sm; rootMap := rm;
     maxSlot := maxSlot bc; followDistance := followDistance bc;
     maxHeadDistance := maxHeadDistance bc; genesisTime := genesisTime bc;
     secondsPerSlot := secondsPerSlot bc; canonSlot := canonSlot bc; canonRoot := canonRoot bc |}.

Definition bc_set_maxSlot (m : Z) (bc : BlockCache) : BlockCache :=
  {| heap := heap bc; next_ptr := next_ptr bc; slotMap := slotMap bc; rootMap := rootMap bc;
     maxSlot := m; followDistance := followDistance bc;
     maxHeadDistance := maxHeadDistance bc; genesisTime := genesisTime bc;
     secondsPerSlot := secondsPerSlot bc; canonSlot := canonSlot bc; canonRoot := canonRoot bc |}.

Definition bc_set_canon (c : Z * string) (bc : BlockCache) : BlockCache :=
  {| heap := heap bc; next_ptr := next_ptr bc; slotMap := slotMap bc; rootMap := rootMap bc;
     maxSlot := maxSlot bc; followDistance := followDistance bc;
     maxHeadDistance := maxHeadDistance bc; genesisTime := genesisTime bc;
     secondsPerSlot := secondsPerSlot bc; canonSlot := c.1; canonRoot := c.2 |}.

(** The blocks [bc.slotMap[s]], through their pointers. *)
Definition slot_blocks (bc : BlockCache) (s : Z) : list Block :=
  omap (λ p, heap bc !! p) (default [] (slotMap bc !! s)).

(** ** Canonical head *)

(** [len(b.SeenBy)], less the remote voter unless [countRemote]. *)
Definition votes (countRemote : bool) (b : Block) : Z :=
  let count := Z.of_nat (size (b_SeenBy b)) in
  if negb countRemote && bool_decide (remoteVoter ∈ b_SeenBy b) then count - 1 else count.

(** The inner loop of [canonicalHead]: one block against the best so far. *)
Definition better (countRemote : bool) (best : option (Block * Z)) (b : Block) : option (Block * Z) :=
  let count := votes countRemote b in
  if count =? 0 then best
  else match best with
       | None => Some (b, count)
       | Some (bb, bestCount) =>
           if (bestCount <? count) || ((count =? bestCount) && String.ltb (b_Root b) (b_Root bb))
           then Some (b, count) else best
       end.
Definition pick_best (countRemote : bool) (l : list Block) : option Block :=
  fst <$> foldl (better countRemote) None l.

(** The outer loop, from slot [s] down while [s > 0 && s > bound]. *)
Fixpoint head_loop (fuel : nat) (bc : BlockCache) (countRemote : bool) (s bound : Z) : Z * string :=
  match fuel with
  | O => (0, "")
  | S fuel =>
      if (0 <? s) && (bound <? s) then
        match pick_best countRemote (slot_blocks bc s) with
        | Some best => (b_Slot best, b_Root best)
        | None => head_loop fuel bc countRemote (s -u 1) bound
        end
      else (0, "")
  end.

Definition head_fuel (bc : BlockCache) : nat :=
  S (Z.to_nat (Z.min (maxSlot bc) (maxHeadDistance bc + 1))).

Definition canonicalHead (countRemote : bool) (bc : BlockCache) : Z * string :=
  if maxSlot bc =? 0 then (0, "")
  else head_loop (head_fuel bc) bc countRemote (maxSlot bc)
         (maxSlot bc -u maxHeadDistance bc -u 1).

Definition canonicalHeadLocked (bc : BlockCache) : Z * string := (canonSlot bc, canonRoot bc).

Definition refreshCanonicalHeadLocked (bc : BlockCache) : BlockCache :=
  bc_set_canon (canonicalHead true bc) bc.

Definition CanonicalHead (bc : BlockCache) : Z * string := canonicalHeadLocked bc.
Definition LocalCanonicalHead (bc : BlockCache) : Z * string := canonicalHead false bc.

(** ** Wall clock *)

Definition currentWallClockSlotLocked (now : Z) (bc : BlockCache) : option Z :=
  if genesisTime bc <=? 0 then None
  else if now <=? genesisTime bc then None
  else
    let slotSeconds := if secondsPerSlot bc <=? 0 then DefaultSecondsPerSlot else secondsPerSlot bc in
    let elapsed := wrap_i64 (now - genesisTime bc + 600) in
    Some (wrap64 elapsed / wrap64 slotSeconds).

Definition CurrentWallClockSlot := currentWallClockSlotLocked.

(** ** Updates *)

Definition see_block (p : nat) (id : string) (bc : BlockCache) : BlockCache :=
  let upd b := {| b_Slot := b_Slot b; b_Root := b_Root b; b_ParentRoot := b_ParentRoot b;
                  b_SeenBy := {[ id ]} ∪ b_SeenBy b; b_FirstSeen := b_FirstSeen b |} in
  bc_set_blocks (alter upd p (heap bc)) (next_ptr bc) (slotMap bc) (rootMap bc) bc.

Definition new_block (id : string) (slot : Z) (root parent : string) (now : Z) (bc : BlockCache)
    : BlockCache :=
  let p := next_ptr bc in
  let b := {| b_Slot := slot; b_Root := root; b_ParentRoot := parent; b_SeenBy := {[ id ]};
              b_FirstSeen := now |} in
  bc_set_blocks (<[p := b]> (heap bc)) (S p)
    (<[slot := default [] (slotMap bc !! slot) ++ [p]]> (slotMap bc)) (<[root := p]> (rootMap bc)) bc.

Definition slot_in_future (now slot : Z) (bc : BlockCache) : bool :=
  match currentWallClockSlotLocked now bc with
  | Some c => c <? slot
  | None => false
  end.

Definition AddBlock (now : Z) (upstreamID : string) (slot : Z) (root parentRoot : string)
    (bc : BlockCache) : BlockCache :=
  if slot_in_future now slot bc then bc
  else
    let bc := if maxSlot bc <? slot then bc_set_maxSlot slot bc else bc in
    let bc := match rootMap bc !! root with
              | Some p => see_block p upstreamID bc
              | None => new_block upstreamID slot root parentRoot now bc
              end in
    refreshCanonicalHeadLocked bc.

(** [Cleanup]: the old slots' blocks leave [rootMap] and the slots leave [slotMap].  Go visits
    the slots in no particular order; the deletions commute. *)
Definition Cleanup (bc : BlockCache) : BlockCache :=
  if maxSlot bc <=? followDistance bc then bc
  else
    let cutoff := maxSlot bc -u followDistance bc in
    let old := bfilter (λ '(slot, _), slot <? cutoff) (map_to_list (slotMap bc)) in
    let roots := b_Root <$> omap (λ p, heap bc !! p) (mjoin (snd <$> old)) in
    refreshCanonicalHeadLocked
      (bc_set_blocks (heap bc) (next_ptr bc)
         (foldr (λ '(slot, _) m, delete slot m) (slotMap bc) old)
         (foldr delete (rootMap bc) roots) bc).

Definition MaxSlot (bc : BlockCache) : Z := maxSlot bc.

(** ** Queries *)

Definition seen (id : string) (b : Block) : bool := bool_decide (id ∈ b_SeenBy b).

Inductive fork_status := FCanonical | FForked | FLagging.

#[export] Instance fork_status_eq_dec : EqDecision fork_status.
Proof. solve_decision. Defined.

(** The string the code returns. *)
Definition fork_status_name (f : fork_status) : string :=
  match f with FCanonical => "canonical" | FForked => "forked" | FLagging => "lagging" end.

(** [for s := canonSlot-1; s > 0 && canonSlot-s <= maxHeadDistance; s--]: is there a block the
    upstream has seen? *)
Fixpoint behind_loop (fuel : nat) (bc : BlockCache) (id : string) (s : Z) : bool :=
  match fuel with
  | O => false
  | S fuel =>
      if (0 <? s) && (canonSlot bc -u s <=? maxHeadDistance bc) then
        if existsb (seen id) (slot_blocks bc s) then true
        else behind_loop fuel bc id (s -u 1)
      else false
  end.

Definition behind_fuel (bc : BlockCache) : nat :=
  S (Z.to_nat (Z.min (canonSlot bc) (maxHeadDistance bc))).

Definition ForkStatus (id : string) (bc : BlockCache) : fork_status :=
  let '(cs, cr) := canonicalHeadLocked bc in
  if cs =? 0 then FCanonical
  else
    let saw_head :=
      match rootMap bc !! cr ≫= (λ p, heap bc !! p) with Some b => seen id b | None => false end in
    if saw_head then FCanonical
    else if existsb (seen id) (slot_blocks bc cs) then FForked
    else if behind_loop (behind_fuel bc) bc id (cs -u 1) then FCanonical
    else FLagging.

Definition IsOnCanonicalFork (id : string) (bc : BlockCache) : bool :=
  bool_decide (ForkStatus id bc = FCanonical).
Definition IsForked (id : string) (bc : BlockCache) : bool :=
  bool_decide (ForkStatus id bc = FForked).

(** [None] is the nil map. *)
Definition CanonicalHeadSeenBy (bc : BlockCache) : option (gset string) :=
  let '(_, cr) := canonicalHeadLocked bc in
  if String.eqb cr "" then None
  else match rootMap bc !! cr ≫= (λ p, heap bc !! p) with
       | None => None
       | Some b =>
           let out := b_SeenBy b ∖ {[ remoteVoter ]} in
           if decide (out = ∅) then None else Some out
       end.

(** ** Executions *)

Inductive bc_op :=
  | BAdd (now : Z) (id : string) (slot : Z) (root parent : string)
  | BCleanup.

Definition bc_run_op (bc : BlockCache) (op : bc_op) : BlockCache :=
  match op with
  | BAdd now id slot root parent => AddBlock now id slot root parent bc
  | BCleanup => Cleanup bc
  end.
Definition bc_run (bc : BlockCache) (ops : list bc_op) : BlockCache := foldl bc_run_op bc ops.

(** A cache as the pool creates it: [NewBlockCache], then [SetSlotTiming]. *)
Definition bc_start (fd mhd g sps : Z) : BlockCache := SetSlotTiming g sps (NewBlockCache fd mhd).

(** ** Invariant *)

Definition bc_op_ok (op : bc_op) : Prop :=
  match op with BAdd _ _ slot _ _ => is_u64 slot | BCleanup => True end.

(** The two maps agree: each root's pointer is in its slot's list and back, and the blocks
    are voted for and not beyond the highest slot. *)
Record bc_maps (bc : BlockCache) : Prop := {
  m_root r p : rootMap bc !! r = Some p →
    ∃ b, heap bc !! p = Some b ∧ b_Root b = r ∧ p ∈ default [] (slotMap bc !! b_Slot b);
  m_slot s p : p ∈ default [] (slotMap bc !! s) →
    ∃ b, heap bc !! p = Some b ∧ b_Slot b = s ∧ rootMap bc !! b_Root b = Some p;
  m_nodup s : NoDup (default [] (slotMap bc !! s));
  m_heap p b : heap bc !! p = Some b →
    (p < next_ptr bc)%nat ∧ b_Slot b <= maxSlot bc ∧ b_SeenBy b ≠ ∅;
}.

Record bc_wf (bc : BlockCache) : Prop := {
  wf_maps : bc_maps bc;
  wf_max : 0 <= maxSlot bc < u64_modulus;
  wf_cfg : 0 <= followDistance bc < u64_modulus ∧ 0 <= maxHeadDistance bc < u64_modulus - 1;
  wf_canon : (canonSlot bc, canonRoot bc) = canonicalHead true bc;
}.

(** ** Lemmas *)

Lemma elem_of_slot_blocks bc s b :
  b ∈ slot_blocks bc s ↔ ∃ p, p ∈ default [] (slotMap bc !! s) ∧ heap bc !! p = Some b.
Proof. unfold slot_blocks. by rewrite list_elem_of_omap. Qed.

Lemma see_block_lookup p id bc q b' :
  heap (see_block p id bc) !! q = Some b' →
  ∃ b, heap bc !! q = Some b ∧ b_Slot b' = b_Slot b ∧ b_Root b' = b_Root b ∧
       b_SeenBy b' = (if decide (p = q) then {[ id ]} ∪ b_SeenBy b else b_SeenBy b).
Proof.
  simpl. rewrite lookup_alter. destruct (decide (p = q)) as [->|]; [|intros; by exists b'].
  intros (b & Hb & ->)%fmap_Some_1. by exists b.
Qed.

Lemma see_block_lookup_2 p id bc q b :
  heap bc !! q = Some b →
  ∃ b', heap (see_block p id bc) !! q = Some b' ∧ b_Slot b' = b_Slot b ∧ b_Root b' = b_Root b.
Proof.
  intros Hb. simpl. rewrite lookup_alter.
  destruct (decide (p = q)) as [->|]; rewrite Hb; by eexists.
Qed.

Lemma see_block_maps p id bc : bc_maps bc → bc_maps (see_block p id bc).
Proof.
  intros [Hr Hs Hn Hh]. split.
  - intros r q Hq. destruct (Hr r q Hq) as (b & Hb & <- & Hin).
    destruct (see_block_lookup_2 p id bc q b Hb) as (b' & Hb' & Hsl & Hro).
    exists b'. rewrite Hsl. done.
  - intros s q Hq. destruct (Hs s q Hq) as (b & Hb & <- & Hin).
    destruct (see_block_lookup_2 p id bc q b Hb) as (b' & Hb' & Hsl & Hro).
    exists b'. rewrite Hro. done.
  - exact Hn.
  - intros q b' (b & Hb & -> & _ & ->)%see_block_lookup. destruct (Hh q b Hb) as (? & ? & ?).
    split_and!; [done|done|]. destruct (decide (p = q)); [set_solver|done].
Qed.

Lemma new_block_maps id slot root parent now bc :
  bc_maps bc → slot <= maxSlot bc → rootMap bc !! root = None →
  bc_maps (new_block id slot root parent now bc).
Proof.
  intros [Hr Hs Hn Hh] Hle Hnone.
  assert (∀ s p, p ∈ default [] (slotMap bc !! s) → p ≠ next_ptr bc) as Hfresh.
  { intros s p Hp. destruct (Hs s p Hp) as (b & Hb & _). apply Hh in Hb. lia. }
  split; simpl.
  - intros r p. rewrite lookup_insert_Some. intros [[<- <-]|[Hne Hp]].
    + eexists. rewrite lookup_insert_eq. split_and!; [done|done|].
      simpl. rewrite lookup_insert_eq. simpl. set_solver.
    + destruct (Hr r p Hp) as (b & Hb & <- & Hin). exists b.
      rewrite lookup_insert_ne by (intros <-; by eapply Hfresh).
      split_and!; [done|done|]. rewrite lookup_insert.
      destruct (decide (slot = b_Slot b)) as [->|]; [simpl; set_solver|done].
  - intros s p. rewrite lookup_insert. destruct (decide (slot = s)) as [->|Hne]; simpl.
    + intros [Hp|Hp]%elem_of_app.
      * destruct (Hs s p Hp) as (b & Hb & <- & Hin). exists b.
        rewrite lookup_insert_ne by (intros <-; by eapply Hfresh).
        rewrite lookup_insert_ne by congruence. done.
      * apply list_elem_of_singleton in Hp as ->. eexists. rewrite lookup_insert_eq.
        split_and!; [done|done|]. simpl. by rewrite lookup_insert_eq.
    + intros Hp. destruct (Hs s p Hp) as (b & Hb & <- & Hin). exists b.
      rewrite lookup_insert_ne by (intros <-; by eapply Hfresh).
      rewrite lookup_insert_ne by congruence. done.
  - intros s. rewrite lookup_insert. destruct (decide (slot = s)) as [->|]; [|done]. simpl.
    apply NoDup_app. split_and!; [done| |apply NoDup_singleton].
    intros p Hp ->%list_elem_of_singleton. by eapply Hfresh.
  - intros p b. rewrite lookup_insert_Some. intros [[<- <-]|[Hne Hb]]; simpl.
    + split_and!; [lia|done|set_solver].
    + destruct (Hh p b Hb) as (? & ? & ?). split_and!; [lia|done|done].
Qed.

Lemma foldr_delete_slot (old : list (Z * list nat)) (m : gmap Z (list nat)) s :
  foldr (λ '(slot, _) m, delete slot m) m old !! s = if decide (s ∈ old.*1) then None else m !! s.
Proof.
  induction old as [|[s' l] old IH]; simpl; [by destruct (decide (s ∈ [])); [set_solver|]|].
  rewrite lookup_delete. destruct (decide (s' = s)) as [->|Hne].
  - by rewrite decide_True by set_solver.
  - rewrite IH. case_decide; case_decide; done || set_solver.
Qed.

Lemma foldr_delete_root (roots : list string) (m : gmap string nat) r :
  foldr delete m roots !! r = if decide (r ∈ roots) then None else m !! r.
Proof.
  induction roots as [|r' roots IH]; simpl; [by destruct (decide (r ∈ [])); [set_solver|]|].
  rewrite lookup_delete. destruct (decide (r' = r)) as [->|Hne].
  - by rewrite decide_True by set_solver.
  - rewrite IH. case_decide; case_decide; done || set_solver.
Qed.

(** What [Cleanup] deletes. *)
Definition old_slots (cutoff : Z) (bc : BlockCache) : list (Z * list nat) :=
  bfilter (λ '(slot, _), slot <? cutoff) (map_to_list (slotMap bc)).
Definition old_roots (cutoff : Z) (bc : BlockCache) : list string :=
  b_Root <$> omap (λ p, heap bc !! p) (mjoin (snd <$> old_slots cutoff bc)).

Lemma elem_of_old_slots cutoff bc s l :
  (s, l) ∈ old_slots cutoff bc ↔ s < cutoff ∧ slotMap bc !! s = Some l.
Proof.
  unfold old_slots. rewrite elem_of_bfilter, elem_of_map_to_list, Z.ltb_lt. tauto.
Qed.

Lemma elem_of_old_slots_fst cutoff bc s :
  s ∈ (old_slots cutoff bc).*1 ↔ s < cutoff ∧ is_Some (slotMap bc !! s).
Proof.
  rewrite list_elem_of_fmap. split.
  - intros ([s' l] & -> & (? & ?)%elem_of_old_slots). simpl. by split; [|eexists].
  - intros (? & l & Hl). exists (s, l). by rewrite elem_of_old_slots.
Qed.

Lemma elem_of_old_roots cutoff bc r :
  r ∈ old_roots cutoff bc ↔
  ∃ s p b, s < cutoff ∧ p ∈ default [] (slotMap bc !! s) ∧ heap bc !! p = Some b ∧ b_Root b = r.
Proof.
  unfold old_roots. rewrite list_elem_of_fmap. setoid_rewrite list_elem_of_omap.
  setoid_rewrite list_elem_of_join. setoid_rewrite list_elem_of_fmap. split.
  - intros (b & -> & p & (l & Hp & [s l'] & -> & (? & Hl)%elem_of_old_slots) & Hb).
    exists s, p, b. by rewrite Hl.
  - intros (s & p & b & Hlt & Hp & Hb & <-). exists b. split; [done|]. exists p. split; [|done].
    destruct (slotMap bc !! s) as [l|] eqn:E; [|set_solver]. exists l. split; [done|].
    exists (s, l). by rewrite elem_of_old_slots.
Qed.

(** [Cleanup] before the head is recomputed. *)
Definition prune (cutoff : Z) (bc : BlockCache) : BlockCache :=
  bc_set_blocks (heap bc) (next_ptr bc)
    (foldr (λ '(slot, _) m, delete slot m) (slotMap bc) (old_slots cutoff bc))
    (foldr delete (rootMap bc) (old_roots cutoff bc)) bc.

Lemma prune_slot cutoff bc s :
  default [] (slotMap (prune cutoff bc) !! s) =
  if s <? cutoff then [] else default [] (slotMap bc !! s).
Proof.
  simpl. rewrite foldr_delete_slot. destruct (decide _) as [[Hlt _]%elem_of_old_slots_fst|Hn].
  - by rewrite (proj2 (Z.ltb_lt _ _)).
  - destruct (Z.ltb_spec s cutoff); [|done]. rewrite elem_of_old_slots_fst in Hn.
    destruct (slotMap bc !! s) eqn:E; [|done]. destruct Hn. by split; [|eexists].
Qed.

Lemma prune_maps cutoff bc : bc_maps bc → bc_maps (prune cutoff bc).
Proof.
  intros [Hr Hs Hn Hh]. split.
  - intros r p. simpl rootMap. rewrite foldr_delete_root. destruct (decide _) as [|Hno]; [done|].
    intros Hp. destruct (Hr r p Hp) as (b & Hb & <- & Hin). exists b. split_and!; [done|done|].
    rewrite prune_slot. destruct (Z.ltb_spec (b_Slot b) cutoff); [|done].
    destruct Hno. apply elem_of_old_roots. by exists (b_Slot b), p, b.
  - intros s p. rewrite prune_slot. destruct (Z.ltb_spec s cutoff) as [|Hge]; [set_solver|].
    intros Hp. destruct (Hs s p Hp) as (b & Hb & <- & Hro). exists b. split_and!; [done|done|].
    simpl. rewrite foldr_delete_root. destruct (decide _) as [Hold|]; [|done].
    apply elem_of_old_roots in Hold as (s' & q & b' & Hlt & Hq & Hb' & Heq).
    destruct (Hs s' q Hq) as (b'' & Hb'' & <- & Hro'). simplify_eq/=.
    rewrite Heq, Hro in Hro'. simplify_eq. lia.
  - intros s. rewrite prune_slot. destruct (_ <? _); [constructor|done].
  - exact Hh.
Qed.

(** The canonical head depends only on the blocks and the highest slot. *)
Lemma head_loop_canon fuel c bc cr s bound :
  head_loop fuel (bc_set_canon c bc) cr s bound = head_loop fuel bc cr s bound.
Proof. revert s. induction fuel as [|fuel IH]; intros s; simpl; [done|]. by rewrite IH. Qed.

Lemma canonicalHead_canon cr c bc : canonicalHead cr (bc_set_canon c bc) = canonicalHead cr bc.
Proof. unfold canonicalHead. simpl. by rewrite head_loop_canon. Qed.

Lemma refresh_wf bc :
  bc_maps bc → 0 <= maxSlot bc < u64_modulus →
  0 <= followDistance bc < u64_modulus ∧ 0 <= maxHeadDistance bc < u64_modulus - 1 →
  bc_wf (refreshCanonicalHeadLocked bc).
Proof.
  intros [Hr Hs Hn Hh] Hmax Hcfg. split; [by split|done|done|].
  unfold refreshCanonicalHeadLocked. rewrite canonicalHead_canon. by destruct (canonicalHead true bc).
Qed.

Lemma bump_maps slot bc :
  bc_maps bc → bc_maps (if maxSlot bc <? slot then bc_set_maxSlot slot bc else bc).
Proof.
  intros Hm. destruct (Z.ltb_spec (maxSlot bc) slot); [|done]. destruct Hm as [Hr Hs Hn Hh].
  split; [done|done|done|]. intros p b Hb. destruct (Hh p b Hb) as (? & ? & ?).
  simpl. split_and!; [done|lia|done].
Qed.

Lemma AddBlock_wf now id slot root parent bc :
  is_u64 slot → bc_wf bc → bc_wf (AddBlock now id slot root parent bc).
Proof.
  intros Hu [Hm Hmax Hcfg Hcan]. unfold AddBlock. destruct (slot_in_future now slot bc); [by split|].
  pose proof (bump_maps slot bc Hm) as Hm'.
  set (bc' := if maxSlot bc <? slot then bc_set_maxSlot slot bc else bc) in *.
  assert (slot <= maxSlot bc' ∧ 0 <= maxSlot bc' < u64_modulus ∧
    followDistance bc' = followDistance bc ∧ maxHeadDistance bc' = maxHeadDistance bc) as (Hle & Hmax' & Hf & Hh).
  { unfold bc'. unfold is_u64 in Hu. destruct (Z.ltb_spec (maxSlot bc) slot); simpl; lia. }
  rewrite <- Hf, <- Hh in Hcfg.
  destruct (rootMap bc' !! root) as [p|] eqn:E; apply refresh_wf; try done;
    [by apply see_block_maps|by apply new_block_maps].
Qed.

Lemma Cleanup_wf bc : bc_wf bc → bc_wf (Cleanup bc).
Proof.
  intros [Hm Hmax Hcfg Hcan]. unfold Cleanup. destruct (_ <=? _); [by split|].
  apply refresh_wf; [|done|done]. by apply (prune_maps (maxSlot bc -u followDistance bc)).
Qed.

Lemma bc_start_wf fd mhd g sps :
  is_u64 fd → 0 <= mhd < u64_modulus - 1 → bc_wf (bc_start fd mhd g sps).
Proof.
  intros Hf Hm. split; [split| |done|done]; simpl.
  - intros r p. by rewrite lookup_empty.
  - intros s p. rewrite lookup_empty. set_solver.
  - intros s. rewrite lookup_empty. constructor.
  - intros p b. by rewrite lookup_empty.
  - unfold u64_modulus. lia.
Qed.

Lemma bc_run_wf ops bc : Forall bc_op_ok ops → bc_wf bc → bc_wf (bc_run bc ops).
Proof.
  intros Hops. revert bc. induction Hops as [|op ops Hop _ IH]; intros bc Hbc; [done|].
  apply IH. destruct op; simpl; [by apply AddBlock_wf|by apply Cleanup_wf].
Qed.

(** ** Correctness of the vote *)

Lemma votes_nonneg cr b : 0 <= votes cr b.
Proof.
  unfold votes. destruct (negb cr && bool_decide (remoteVoter ∈ b_SeenBy b)) eqn:E; [|lia].
  b2p. assert (size (b_SeenBy b) ≠ 0)%nat; [|lia]. intros Hz%size_empty_inv. set_solver.
Qed.

(** [b'] does not beat [b]: fewer votes, or as many and a root that is not smaller. *)
Definition not_better (cr : bool) (b b' : Block) : Prop :=
  votes cr b' < votes cr b ∨
  votes cr b' = votes cr b ∧ String.ltb (b_Root b') (b_Root b) = false.

Lemma not_better_trans cr b b' x :
  not_better cr b' x → not_better cr b b' → not_better cr b x.
Proof.
  unfold not_better. intros [H1|[H1 H2]] [H3|[H3 H4]]; try (left; lia). right. split; [lia|].
  destruct (String.ltb (b_Root x) (b_Root b)) eqn:E; [|done].
  destruct (String.ltb (b_Root b') (b_Root x)) eqn:E1.
  - by rewrite (str_ltb_trans _ _ _ E1 E) in H4.
  - rewrite (str_ltb_total _ _ H2 E1) in E. congruence.
Qed.

(** The state of the inner loop after the blocks [l]. *)
Definition best_ok (cr : bool) (l : list Block) (best : option (Block * Z)) : Prop :=
  match best with
  | None => ∀ b, b ∈ l → votes cr b = 0
  | Some (bb, n) => bb ∈ l ∧ n = votes cr bb ∧ 0 < n ∧ ∀ b, b ∈ l → not_better cr bb b
  end.

Lemma better_ok cr l best b : best_ok cr l best → best_ok cr (l ++ [b]) (better cr best b).
Proof.
  intros Hb. pose proof (votes_nonneg cr b) as H0. unfold better.
  destruct (Z.eqb_spec (votes cr b) 0) as [Hz|Hz].
  - destruct best as [[bb n]|]; simpl in *; [|set_solver].
    destruct Hb as (Hin & -> & Hpos & Hall). split_and!; [set_solver|done|done|].
    intros b' [Hb'|Hb']%elem_of_app; [by apply Hall|]. apply list_elem_of_singleton in Hb' as ->.
    left. lia.
  - destruct best as [[bb n]|]; simpl in *.
    + destruct Hb as (Hin & -> & Hpos & Hall).
      destruct ((votes cr bb <? votes cr b) || _) eqn:E.
      * split_and!; [set_solver|done|lia|]. apply orb_true_iff in E.
        assert (not_better cr b bb) as Hnb.
        { destruct E as [E|E]; b2p; [left; lia|right; split; [lia|]].
          destruct (String.ltb (b_Root bb) (b_Root b)) eqn:E'; [|done].
          by rewrite <- (str_ltb_irrefl (b_Root b)), (str_ltb_trans _ _ _ H1 E'). }
        intros b' [Hb'|Hb']%elem_of_app; [by eapply not_better_trans; [apply Hall|]|].
        apply list_elem_of_singleton in Hb' as ->. right. split; [done|apply str_ltb_irrefl].
      * split_and!; [set_solver|done|lia|]. b2p.
        intros b' [Hb'|Hb']%elem_of_app; [by apply Hall|].
        apply list_elem_of_singleton in Hb' as ->. 
        destruct (Z.eqb_spec (votes cr b) (votes cr bb)); [right; by split|left; lia].
    + split_and!; [set_solver|done|lia|]. intros b' [Hb'|Hb']%elem_of_app.
      * left. rewrite (Hb b' Hb'). lia.
      * apply list_elem_of_singleton in Hb' as ->. right. split; [done|apply str_ltb_irrefl].
Qed.

Lemma pick_best_spec cr l :
  match pick_best cr l with
  | None => ∀ b, b ∈ l → votes cr b = 0
  | Some bb => bb ∈ l ∧ 0 < votes cr bb ∧ ∀ b, b ∈ l → not_better cr bb b
  end.
Proof.
  assert (∀ l1 l2 best, best_ok cr l1 best → best_ok cr (l1 ++ l2) (foldl (better cr) best l2)) as H.
  { intros l1 l2. revert l1. induction l2 as [|b l2 IH]; intros l1 best Hb; simpl;
      [by rewrite app_nil_r|]. rewrite cons_middle, app_assoc. apply IH. by apply better_ok. }
  specialize (H [] l None ltac:(simpl; set_solver)). unfold pick_best.
  destruct (foldl _ _ _) as [[bb n]|]; simpl in *; [|done].
  destruct H as (? & -> & ? & ?). done.
Qed.

(** [b] is the canonical head: at its slot it is the voted block that no other beats, and no
    later slot up to the highest one has a voted block. *)
Record is_head (cr : bool) (bc : BlockCache) (b : Block) : Prop := {
  hd_window : 0 < b_Slot b ∧ maxSlot bc - maxHeadDistance bc <= b_Slot b <= maxSlot bc;
  hd_in : b ∈ slot_blocks bc (b_Slot b);
  hd_votes : 0 < votes cr b;
  hd_best b' : b' ∈ slot_blocks bc (b_Slot b) → not_better cr b b';
  hd_last s b' : b_Slot b < s <= maxSlot bc → b' ∈ slot_blocks bc s → votes cr b' = 0;
}.

Lemma slot_blocks_slot bc s b : bc_maps bc → b ∈ slot_blocks bc s → b_Slot b = s.
Proof.
  intros Hm (p & Hp & Hb)%elem_of_slot_blocks. destruct (m_slot _ Hm s p Hp) as (b' & Hb' & <- & _).
  congruence.
Qed.

Lemma head_loop_spec cr bc fuel s bound :
  bc_maps bc → 0 <= s <= maxSlot bc → maxSlot bc < u64_modulus → 0 <= bound →
  (Z.to_nat (s - bound) < fuel)%nat →
  (∀ s' b', s < s' <= maxSlot bc → b' ∈ slot_blocks bc s' → votes cr b' = 0) →
  match head_loop fuel bc cr s bound with
  | (sl, r) =>
      sl = 0 ∧ r = ""%string ∧
        (∀ s' b', 0 < s' → bound < s' <= maxSlot bc → b' ∈ slot_blocks bc s' → votes cr b' = 0) ∨
      ∃ b, sl = b_Slot b ∧ r = b_Root b ∧ 0 < b_Slot b ∧ bound < b_Slot b <= s ∧
        b ∈ slot_blocks bc (b_Slot b) ∧ 0 < votes cr b ∧
        (∀ b', b' ∈ slot_blocks bc (b_Slot b) → not_better cr b b') ∧
        (∀ s' b', b_Slot b < s' <= maxSlot bc → b' ∈ slot_blocks bc s' → votes cr b' = 0)
  end.
Proof.
  intros Hm. revert s. induction fuel as [|fuel IH]; intros s Hs Hmax Hb Hfuel Hlast; [lia|].
  simpl. destruct ((0 <? s) && (bound <? s)) eqn:E; b2p.
  - pose proof (pick_best_spec cr (slot_blocks bc s)) as Hp.
    destruct (pick_best cr (slot_blocks bc s)) as [b|].
    + destruct Hp as (Hin & Hv & Hbest). right. exists b.
      pose proof (slot_blocks_slot _ _ _ Hm Hin) as <-. split_and!; done || lia.
    + rewrite u64_sub_small by (unfold is_u64; lia).
      pose proof (IH (s - 1) ltac:(lia) ltac:(lia) ltac:(lia) ltac:(lia)) as IH'.
      destruct (head_loop fuel bc cr (s - 1) bound) as [sl r].
      destruct IH' as [IH'|(b & Hb' & Hr & ? & ? & ?)].
      * intros s' b' Hs' Hin. destruct (Z.eq_dec s' s) as [->|]; [by apply Hp|].
        apply (Hlast s' b'); [lia|done].
      * by left.
      * right. exists b. split_and!; naive_solver lia.
  - left. split_and!; [done|done|]. intros s' b' H0 Hs' Hin. apply (Hlast s' b'); [|done].
    apply andb_false_iff in E as [E|E]; b2p; lia.
Qed.

(** The slot walk starts above its bound exactly when the highest slot exceeds the window. *)
Lemma canonicalHead_spec cr bc :
  bc_wf bc → maxHeadDistance bc < maxSlot bc →
  (canonicalHead cr bc = (0, ""%string) ∧
   (∀ s b, maxSlot bc - maxHeadDistance bc <= s <= maxSlot bc → b ∈ slot_blocks bc s → votes cr b = 0)) ∨
  ∃ b, canonicalHead cr bc = (b_Slot b, b_Root b) ∧ is_head cr bc b.
Proof.
  intros [Hm Hmax [Hf Hd] _] Hlt. unfold canonicalHead.
  rewrite (proj2 (Z.eqb_neq _ _)) by lia.
  rewrite (u64_sub_small (maxSlot bc)), u64_sub_small by (unfold is_u64; lia).
  pose proof (head_loop_spec cr bc (head_fuel bc) (maxSlot bc) (maxSlot bc - maxHeadDistance bc - 1)
    Hm ltac:(lia) ltac:(lia) ltac:(lia)) as H.
  destruct (head_loop _ _ _ _ _) as [sl r].
  destruct H as [(-> & -> & Hz)|(b & -> & -> & H1 & H2 & H3 & H4 & H5 & H6)].
  - unfold head_fuel. lia.
  - intros s' b' Hs'. lia.
  - left. split; [done|]. intros s b Hs. apply Hz; lia.
  - right. exists b. split; [done|]. by split; [lia|..].
Qed.

Lemma canonicalHead_short cr bc :
  bc_wf bc → maxSlot bc <= maxHeadDistance bc → canonicalHead cr bc = (0, ""%string).
Proof.
  intros [Hm Hmax [Hf Hd] _] Hle. unfold canonicalHead. destruct (Z.eqb_spec (maxSlot bc) 0); [done|].
  unfold head_fuel. cbn [head_loop].
  assert (maxSlot bc -u maxHeadDistance bc -u 1 >= maxSlot bc) as Hge.
  { destruct (Z.eq_dec (maxSlot bc) (maxHeadDistance bc)) as [E|E].
    - rewrite E, (u64_sub_small (maxHeadDistance bc)), Z.sub_diag by (unfold is_u64; lia).
      rewrite u64_sub_underflow by (unfold is_u64; unfold u64_modulus in *; lia). unfold u64_modulus in *. lia.
    - rewrite (u64_sub_underflow (maxSlot bc)) by (unfold is_u64; unfold u64_modulus in *; lia).
      rewrite u64_sub_small by (unfold is_u64; lia). lia. }
  rewrite andb_comm. rewrite (proj2 (Z.ltb_ge (maxSlot bc -u maxHeadDistance bc -u 1) (maxSlot bc))) by lia.
  done.
Qed.

(** A canonical slot of zero means that there is no canonical head. *)
Lemma canon_cases bc :
  bc_wf bc → canonSlot bc = 0 ∧ canonRoot bc = ""%string ∨
             maxHeadDistance bc < maxSlot bc ∧
             ∃ b, canonSlot bc = b_Slot b ∧ canonRoot bc = b_Root b ∧ is_head true bc b.
Proof.
  intros Hwf. pose proof (wf_canon _ Hwf) as Hc.
  destruct (Z.le_gt_cases (maxSlot bc) (maxHeadDistance bc)) as [Hle|Hgt].
  - rewrite canonicalHead_short in Hc by done. simplify_eq. by left.
  - destruct (canonicalHead_spec true bc Hwf) as [[E _]|(b & E & Hb)]; [lia|..];
      rewrite E in Hc; simplify_eq; [by left|right]. split; [done|]. by exists b.
Qed.

Lemma root_block bc r p b :
  bc_maps bc → rootMap bc !! r = Some p → heap bc !! p = Some b → b_Root b = r ∧ b ∈ slot_blocks bc (b_Slot b).
Proof.
  intros Hm Hr Hb. destruct (m_root _ Hm r p Hr) as (b' & Hb' & <- & Hin).
  rewrite Hb in Hb'. simplify_eq. split; [done|]. apply elem_of_slot_blocks. by exists p.
Qed.

(** The head block is found again under its root. *)
Lemma head_lookup bc b cr :
  bc_maps bc → is_head cr bc b → rootMap bc !! b_Root b ≫= (λ p, heap bc !! p) = Some b.
Proof.
  intros Hm [_ Hin _ _ _]. apply elem_of_slot_blocks in Hin as (p & Hp & Hb).
  destruct (m_slot _ Hm _ p Hp) as (b' & Hb' & _ & Hro). rewrite Hb in Hb'. simplify_eq.
  by rewrite Hro.
Qed.

(** The upstream voted for a block at slot [s]. *)
Definition voted_at (bc : BlockCache) (id : string) (s : Z) : Prop :=
  ∃ b, b ∈ slot_blocks bc s ∧ id ∈ b_SeenBy b.

Lemma existsb_seen bc id s : existsb (seen id) (slot_blocks bc s) = true ↔ voted_at bc id s.
Proof.
  rewrite existsb_exists. unfold seen, voted_at. setoid_rewrite bool_decide_eq_true.
  split; intros (b & Hb & Hs); exists b; split; done || by apply list_elem_of_In.
Qed.

Lemma behind_loop_spec fuel bc id s :
  0 <= s < canonSlot bc → canonSlot bc < u64_modulus → 0 <= maxHeadDistance bc →
  (Z.to_nat (Z.min s (s - (canonSlot bc - maxHeadDistance bc) + 1)) < fuel)%nat →
  behind_loop fuel bc id s = true ↔
  ∃ s', 0 < s' ∧ canonSlot bc - maxHeadDistance bc <= s' <= s ∧ voted_at bc id s'.
Proof.
  intros Hs Hu Hd. revert s Hs. induction fuel as [|fuel IH]; intros s Hs Hfuel; [lia|]. simpl.
  rewrite u64_sub_small by (unfold is_u64; lia).
  destruct ((0 <? s) && (canonSlot bc - s <=? maxHeadDistance bc)) eqn:E; b2p.
  - destruct (existsb (seen id) (slot_blocks bc s)) eqn:Es.
    + apply existsb_seen in Es. split; [|done]. intros _. exists s. split_and!; done || lia.
    + assert (¬ voted_at bc id s) as Hno by (rewrite <- existsb_seen; congruence).
      rewrite u64_sub_small by (unfold is_u64; lia). rewrite IH by lia.
      split; intros (s' & ? & ? & Hv); exists s'; split_and!; try done; try lia.
      destruct (Z.eq_dec s' s) as [->|]; [done|lia].
  - split; [done|]. intros (s' & ? & ? & _). apply andb_false_iff in E as [E|E]; b2p; lia.
Qed.

(** ** Properties *)

(** After any sequence of reported blocks and cleanups the two indexes agree, every block
    has a voter and lies at or below the highest slot, and the cached canonical head that the
    per-request checks read is the one a fresh count would give. *)
Theorem bc_reachable_wf fd mhd g sps ops :
  is_u64 fd → 0 <= mhd < u64_modulus - 1 → Forall bc_op_ok ops →
  let bc := bc_run (bc_start fd mhd g sps) ops in
  bc_maps bc ∧ CanonicalHead bc = canonicalHead true bc.
Proof.
  intros Hf Hm Hops bc. assert (bc_wf bc) as Hwf by (apply bc_run_wf, bc_start_wf; done).
  split; [apply Hwf|]. apply (wf_canon _ Hwf).
Qed.

(** C9: the canonical head is the winner of the vote: once the highest slot exceeds the head
    window, it is the block with the most votes (smallest root on a tie) at the latest slot
    of the window that has a voted block, and "none" only when the window has no vote; this
    holds with and without the remote instances' votes. *)
Theorem canonicalHead_majority fd mhd g sps ops cr :
  is_u64 fd → 0 <= mhd < u64_modulus - 1 → Forall bc_op_ok ops →
  let bc := bc_run (bc_start fd mhd g sps) ops in
  maxHeadDistance bc < maxSlot bc →
  (canonicalHead cr bc = (0, ""%string) ∧
   (∀ s b, maxSlot bc - maxHeadDistance bc <= s <= maxSlot bc → b ∈ slot_blocks bc s → votes cr b = 0)) ∨
  ∃ b, canonicalHead cr bc = (b_Slot b, b_Root b) ∧ is_head cr bc b.
Proof.
  intros Hf Hm Hops bc. apply canonicalHead_spec. by apply bc_run_wf, bc_start_wf.
Qed.

(** While the highest slot does not exceed the head window no canonical head is ever
    found, whatever was reported, because the lower end of the walk,
    [maxSlot - maxHeadDistance - 1], wraps below zero; every upstream is then reported as
    canonical. *)
Theorem canonicalHead_underflow fd mhd g sps ops cr id :
  is_u64 fd → 0 <= mhd < u64_modulus - 1 → Forall bc_op_ok ops →
  let bc := bc_run (bc_start fd mhd g sps) ops in
  maxSlot bc <= maxHeadDistance bc →
  canonicalHead cr bc = (0, ""%string) ∧ ForkStatus id bc = FCanonical.
Proof.
  intros Hf Hm Hops bc Hle. assert (bc_wf bc) as Hwf by (apply bc_run_wf, bc_start_wf; done).
  split; [by apply canonicalHead_short|].
  destruct (canon_cases bc Hwf) as [[Hz _]|[Hgt _]]; [|lia].
  unfold ForkStatus, canonicalHeadLocked. by rewrite Hz.
Qed.


(** The upstreams that are offered as having the newest head exclude the remote voter
    and have all reported the canonical block, so each of them is on the canonical fork. *)
Theorem CanonicalHeadSeenBy_sound fd mhd g sps ops ids id :
  is_u64 fd → 0 <= mhd < u64_modulus - 1 → Forall bc_op_ok ops →
  let bc := bc_run (bc_start fd mhd g sps) ops in
  CanonicalHeadSeenBy bc = Some ids → id ∈ ids →
  id ≠ remoteVoter ∧ IsOnCanonicalFork id bc = true ∧ IsForked id bc = false.
Proof.
  intros Hf Hm Hops bc. unfold CanonicalHeadSeenBy, IsOnCanonicalFork, IsForked, canonicalHeadLocked.
  destruct (String.eqb (canonRoot bc) ""); [done|].
  destruct (rootMap bc !! canonRoot bc ≫= _) as [b|] eqn:E; [|done].
  destruct (decide _) as [|Hne]; [done|]. intros [= <-] Hid.
  split; [set_solver|]. assert (ForkStatus id bc = FCanonical) as ->; [|done].
  unfold ForkStatus, canonicalHeadLocked. destruct (_ =? 0); [done|]. rewrite E.
  unfold seen. by rewrite bool_decide_true by set_solver.
Qed.

(** The first slot that is implausible at time [now]. *)
Definition wall_slot (g sps now : Z) : Z :=
  (now - g + 600) / (if sps <=? 0 then DefaultSecondsPerSlot else sps).

Lemma wall_slot_mono g sps n1 n2 : n1 <= n2 → wall_slot g sps n1 <= wall_slot g sps n2.
Proof.
  intros H. apply Z.div_le_mono; [|lia]. destruct (Z.leb_spec sps 0); [done|lia].
Qed.

Lemma wall_clock_known bc now :
  0 < genesisTime bc < now → now < 2 ^ 62 → secondsPerSlot bc < 2 ^ 63 →
  currentWallClockSlotLocked now bc = Some (wall_slot (genesisTime bc) (secondsPerSlot bc) now).
Proof.
  intros Hg Hn Hs. unfold currentWallClockSlotLocked, wall_slot.
  rewrite !(proj2 (Z.leb_gt _ _)) by lia. rewrite wrap_i64_small by lia.
  rewrite wrap64_small by (unfold is_u64, u64_modulus; lia). f_equal. f_equal.
  apply wrap64_small. unfold is_u64, u64_modulus. destruct (Z.leb_spec (secondsPerSlot bc) 0); simpl; [|lia].
  unfold DefaultSecondsPerSlot. lia.
Qed.

Lemma AddBlock_frame now id slot root parent bc :
  let bc' := AddBlock now id slot root parent bc in
  genesisTime bc' = genesisTime bc ∧ secondsPerSlot bc' = secondsPerSlot bc ∧
  maxSlot bc' = (if slot_in_future now slot bc then maxSlot bc else Z.max (maxSlot bc) slot).
Proof.
  unfold AddBlock. destruct (slot_in_future now slot bc); [done|].
  destruct (Z.ltb_spec (maxSlot bc) slot); simpl; destruct (rootMap _ !! _); simpl; lia.
Qed.

Lemma Cleanup_frame bc :
  genesisTime (Cleanup bc) = genesisTime bc ∧ secondsPerSlot (Cleanup bc) = secondsPerSlot bc ∧
  maxSlot (Cleanup bc) = maxSlot bc.
Proof. unfold Cleanup. by destruct (_ <=? _). Qed.

Definition op_before (g T : Z) (op : bc_op) : Prop :=
  match op with BAdd now _ _ _ _ => g < now <= T | BCleanup => True end.

Lemma bc_run_wall g sps T ops bc :
  0 < g → T < 2 ^ 62 → sps < 2 ^ 63 → genesisTime bc = g → secondsPerSlot bc = sps →
  Forall (op_before g T) ops → maxSlot bc <= wall_slot g sps T →
  maxSlot (bc_run bc ops) <= wall_slot g sps T.
Proof.
  intros Hg HT Hs Hbg Hbs Hops. revert bc Hbg Hbs.
  induction Hops as [|op ops Hop _ IH]; intros bc Hbg Hbs Hle; [done|]. simpl.
  destruct op as [now id slot root parent|]; simpl in *.
  - destruct (AddBlock_frame now id slot root parent bc) as (H1 & H2 & H3).
    apply IH; [congruence..|]. rewrite H3.
    unfold slot_in_future. rewrite wall_clock_known by (rewrite ?Hbg, ?Hbs; lia).
    rewrite Hbg, Hbs. destruct (Z.ltb_spec (wall_slot g sps now) slot); [done|].
    pose proof (wall_slot_mono g sps now T). lia.
  - destruct (Cleanup_frame bc) as (H1 & H2 & H3). apply IH; congruence.
Qed.

(** With a known genesis time no report, however corrupt, pushes the highest slot past
    the slot of the wall clock (with its ten minutes of tolerance): a far-future slot cannot
    poison fork detection. *)
Theorem bc_no_future_slot fd mhd g sps T ops :
  0 < g → g < T < 2 ^ 62 → sps < 2 ^ 63 → Forall (op_before g T) ops →
  maxSlot (bc_run (bc_start fd mhd g sps) ops) <= wall_slot g sps T.
Proof.
  intros Hg HT Hs Hops. apply bc_run_wall; try done; [lia|]. simpl.
  apply Z.div_pos; [lia|]. destruct (Z.leb_spec sps 0); [done|lia].
Qed.

(** ** Witnesses *)

(** Two upstreams and a remote instance vote at slot 10; one upstream votes for a rival. *)
Definition bc_demo_ops : list bc_op :=
  [BAdd 2000 "a" 9 "r9" "r8"; BAdd 2000 "a" 10 "r10" "r9"; BAdd 2000 "b" 10 "r10" "r9";
   BAdd 2000 "c" 10 "x10" "r9"; BAdd 2000 "d" 9 "r9" "r8"; BCleanup;
   BAdd 2000 "evil" 1000000 "zz" "r9"].
Definition bc_demo : BlockCache := bc_run (bc_start 64 2 1000 12) bc_demo_ops.

Lemma bc_demo_ok : Forall bc_op_ok bc_demo_ops.
Proof. repeat (constructor; [vm_compute; intuition congruence|]). constructor. Qed.

Lemma bc_reachable_wf_witness : CanonicalHead bc_demo = (10, "r10"%string).
Proof.
  destruct (bc_reachable_wf 64 2 1000 12 bc_demo_ops) as [_ H]; [vm_compute; split; congruence..|exact bc_demo_ok|].
  etransitivity; [exact H|vm_compute; reflexivity].
Defined.

Lemma canonicalHead_majority_witness :
  ∃ b, canonicalHead true bc_demo = (b_Slot b, b_Root b) ∧ is_head true bc_demo b.
Proof.
  destruct (canonicalHead_majority 64 2 1000 12 bc_demo_ops true) as [[H _]|H];
    [vm_compute; split; congruence..|exact bc_demo_ok|vm_compute; reflexivity| |exact H].
  vm_compute in H. discriminate.
Defined.

Lemma canonicalHead_underflow_witness :
  canonicalHead true (bc_run (bc_start 64 2 1000 12) [BAdd 2000 "a" 2 "r2" "r1"]) = (0, ""%string).
Proof.
  apply (canonicalHead_underflow 64 2 1000 12 [BAdd 2000 "a" 2 "r2" "r1"] true "a");
    [vm_compute; split; congruence..| |vm_compute; congruence].
  constructor; [vm_compute; split; congruence|constructor].
Defined.


Lemma bc_demo_status :
  ForkStatus "a" bc_demo = FCanonical ∧ ForkStatus "c" bc_demo = FForked ∧
  ForkStatus "d" bc_demo = FCanonical ∧ ForkStatus "e" bc_demo = FLagging.
Proof. vm_compute. done. Qed.

Lemma CanonicalHeadSeenBy_sound_witness : IsOnCanonicalFork "b" bc_demo = true.
Proof.
  apply (CanonicalHeadSeenBy_sound 64 2 1000 12 bc_demo_ops {[ "a"; "b" ]}%string "b"%string);
    [vm_compute; split; congruence..|exact bc_demo_ok|vm_compute; reflexivity|set_solver].
Defined.

Lemma bc_no_future_slot_witness : maxSlot bc_demo <= wall_slot 1000 12 2000.
Proof.
  apply (bc_no_future_slot 64 2 1000 12 2000 bc_demo_ops); [lia..|].
  repeat (constructor; [vm_compute; intuition congruence|]). constructor.
Defined.
