(* ===== verification/Upstream.v ===== *)
(** * One upstream beacon node

    [upstream/upstream.go]: the [Upstream] struct and its operations, on top of the circuit
    breaker, the score tracker and the rate auto-tuner.  The fields guarded by [mu] are the
    record [HealthState].  Log lines are left out; the Prometheus gauges are in
    [UpstreamGauges].

    A score snapshot fills a cache inside the tracker; readers here use the value only, since
    the cache is invisible to every later operation ([ScoreTracker.Snapshot_is_window]).

    [Upstream.Do] is modelled with the transport's outcome as an argument; the response body
    it returns is a handle whose [Close] decrements the active-request counter once. *)

From S2P Require Import Prelude GoStrings GoFloat Config CircuitBreaker ScoreTracker AutoTuner.
#[local] Open Scope Z_scope.
#[local] Open Scope go_scope.

(** ** Data *)

Inductive HealthStatus := HealthDown | HealthDegraded | HealthUp.

#[export] Instance HealthStatus_eq_dec : EqDecision HealthStatus.
Proof. solve_decision. Defined.

(** The constants' numeric values, and Go's [min] on them. *)
Definition hs_val (h : HealthStatus) : Z :=
  match h with HealthDown => 0 | HealthDegraded => 1 | HealthUp => 2 end.
Definition hs_min (a b : HealthStatus) : HealthStatus := if hs_val a <=? hs_val b then a else b.

Definition ClientUnknown : string := "unknown".
Definition ClientLighthouse : string := "lighthouse".
Definition ClientPrysm : string := "prysm".
Definition ClientTeku : string := "teku".
Definition ClientNimbus : string := "nimbus".
Definition ClientLodestar : string := "lodestar".
Definition ClientGrandine : string := "grandine".
Definition ClientCaplin : string := "caplin".

Record HealthState := {
  hs_health : HealthStatus;
  hs_nodeVerdict : HealthStatus;
  hs_syncVerdict : HealthStatus;
  hs_headSlot : Z;
  hs_headRoot : string;
  hs_payloadRoot : string;
  hs_payloadFull : bool;
  hs_syncDistance : Z;
  hs_isSyncing : bool;
  hs_finalizedEpoch : Z;
  hs_clientType : string;
}.

Definition minPathScopedScoreSamples : Z := 5.

(** ** Health state *)

(** [recomputeHealthLocked] after the verdicts are set to [n] and [s]. *)
Definition recomputeHealthLocked (n s : HealthStatus) (h : HealthState) : HealthState :=
  {| hs_health := hs_min n s; hs_nodeVerdict := n; hs_syncVerdict := s;
     hs_headSlot := hs_headSlot h; hs_headRoot := hs_headRoot h;
     hs_payloadRoot := hs_payloadRoot h; hs_payloadFull := hs_payloadFull h;
     hs_syncDistance := hs_syncDistance h; hs_isSyncing := hs_isSyncing h;
     hs_finalizedEpoch := hs_finalizedEpoch h; hs_clientType := hs_clientType h |}.

Definition hs_set_sync (slot dist : Z) (syncing : bool) (h : HealthState) : HealthState :=
  {| hs_health := hs_health h; hs_nodeVerdict := hs_nodeVerdict h;
     hs_syncVerdict := hs_syncVerdict h; hs_headSlot := slot; hs_headRoot := hs_headRoot h;
     hs_payloadRoot := hs_payloadRoot h; hs_payloadFull := hs_payloadFull h;
     hs_syncDistance := dist; hs_isSyncing := syncing;
     hs_finalizedEpoch := hs_finalizedEpoch h; hs_clientType := hs_clientType h |}.

Definition hs_set_head (slot : Z) (root : string) (h : HealthState) : HealthState :=
  {| hs_health := hs_health h; hs_nodeVerdict := hs_nodeVerdict h;
     hs_syncVerdict := hs_syncVerdict h; hs_headSlot := slot; hs_headRoot := root;
     hs_payloadRoot := hs_payloadRoot h; hs_payloadFull := hs_payloadFull h;
     hs_syncDistance := hs_syncDistance h; hs_isSyncing := hs_isSyncing h;
     hs_finalizedEpoch := hs_finalizedEpoch h; hs_clientType := hs_clientType h |}.

Definition hs_set_payload (root : string) (full : bool) (h : HealthState) : HealthState :=
  {| hs_health := hs_health h; hs_nodeVerdict := hs_nodeVerdict h;
     hs_syncVerdict := hs_syncVerdict h; hs_headSlot := hs_headSlot h;
     hs_headRoot := hs_headRoot h; hs_payloadRoot := root; hs_payloadFull := full;
     hs_syncDistance := hs_syncDistance h; hs_isSyncing := hs_isSyncing h;
     hs_finalizedEpoch := hs_finalizedEpoch h; hs_clientType := hs_clientType h |}.

Definition hs_set_finalized (e : Z) (h : HealthState) : HealthState :=
  {| hs_health := hs_health h; hs_nodeVerdict := hs_nodeVerdict h;
     hs_syncVerdict := hs_syncVerdict h; hs_headSlot := hs_headSlot h;
     hs_headRoot := hs_headRoot h; hs_payloadRoot := hs_payloadRoot h;
     hs_payloadFull := hs_payloadFull h; hs_syncDistance := hs_syncDistance h;
     hs_isSyncing := hs_isSyncing h; hs_finalizedEpoch := e; hs_clientType := hs_clientType h |}.

Definition hs_set_client (ct : string) (h : HealthState) : HealthState :=
  {| hs_health := hs_health h; hs_nodeVerdict := hs_nodeVerdict h;
     hs_syncVerdict := hs_syncVerdict h; hs_headSlot := hs_headSlot h;
     hs_headRoot := hs_headRoot h; hs_payloadRoot := hs_payloadRoot h;
     hs_payloadFull := hs_payloadFull h; hs_syncDistance := hs_syncDistance h;
     hs_isSyncing := hs_isSyncing h; hs_finalizedEpoch := hs_finalizedEpoch h;
     hs_clientType := ct |}.

(** ** The upstream *)

Section upstream.
Context `{RL : RateLib}.

Record Upstream := {
  u_ID : string;
  u_NetworkID : string;
  u_URL : string;
  u_Headers : gmap string string;
  u_Priority : Z;
  u_Weight : Z;
  u_Archive : bool;
  u_state : HealthState;
  u_cb : CB;
  u_activeConns : Z;
  u_scorer : ScoreTracker;
  u_routeScorers : gmap string ScoreTracker;
  u_rateLimiter : option (AutoTuner RL);
}.

(** [New]; the HTTP client is the transport argument of [Upstream_Do]. *)
Definition Upstream_New (now : Z) (networkID : string) (cfg : UpstreamConfig)
    (defaultCB : option CircuitBreakerConfig) (scoreWindowSize : Z) : Upstream :=
  {| u_ID := uc_ID cfg; u_NetworkID := networkID; u_URL := TrimRight (uc_URL cfg) "/";
     u_Headers := uc_Headers cfg; u_Priority := uc_Priority cfg; u_Weight := uc_Weight cfg;
     u_Archive := uc_Archive cfg;
     u_state := {| hs_health := HealthUp; hs_nodeVerdict := HealthUp; hs_syncVerdict := HealthUp;
                   hs_headSlot := 0; hs_headRoot := ""; hs_payloadRoot := "";
                   hs_payloadFull := false; hs_syncDistance := 0; hs_isSyncing := false;
                   hs_finalizedEpoch := 0; hs_clientType := ClientUnknown |};
     u_cb := cb_init (UpstreamCircuitBreaker defaultCB (uc_Failsafe cfg ≫= fs_CircuitBreaker));
     u_activeConns := 0;
     u_scorer := NewScoreTracker scoreWindowSize;
     u_routeScorers := ∅;
     u_rateLimiter :=
       match uc_RateLimiting cfg with
       | Some r =>
           if ur_AutoTune r
           then Some (NewAutoTuner now (ur_InitialRate r) (ur_MinRate r) (ur_MaxRate r)
                        (ur_AdjustmentPeriod r) (ur_ErrorRateThreshold r))
           else None
       | None => None
       end |}.

Definition with_state (f : HealthState → HealthState) (u : Upstream) : Upstream :=
  {| u_ID := u_ID u; u_NetworkID := u_NetworkID u; u_URL := u_URL u; u_Headers := u_Headers u;
     u_Priority := u_Priority u; u_Weight := u_Weight u; u_Archive := u_Archive u;
     u_state := f (u_state u); u_cb := u_cb u; u_activeConns := u_activeConns u;
     u_scorer := u_scorer u; u_routeScorers := u_routeScorers u; u_rateLimiter := u_rateLimiter u |}.

Definition with_cb (f : CB → CB) (u : Upstream) : Upstream :=
  {| u_ID := u_ID u; u_NetworkID := u_NetworkID u; u_URL := u_URL u; u_Headers := u_Headers u;
     u_Priority := u_Priority u; u_Weight := u_Weight u; u_Archive := u_Archive u;
     u_state := u_state u; u_cb := f (u_cb u); u_activeConns := u_activeConns u;
     u_scorer := u_scorer u; u_routeScorers := u_routeScorers u; u_rateLimiter := u_rateLimiter u |}.

Definition with_active (n : Z) (u : Upstream) : Upstream :=
  {| u_ID := u_ID u; u_NetworkID := u_NetworkID u; u_URL := u_URL u; u_Headers := u_Headers u;
     u_Priority := u_Priority u; u_Weight := u_Weight u; u_Archive := u_Archive u;
     u_state := u_state u; u_cb := u_cb u; u_activeConns := n;
     u_scorer := u_scorer u; u_routeScorers := u_routeScorers u; u_rateLimiter := u_rateLimiter u |}.

Definition with_scores (s : ScoreTracker) (r : gmap string ScoreTracker) (u : Upstream) : Upstream :=
  {| u_ID := u_ID u; u_NetworkID := u_NetworkID u; u_URL := u_URL u; u_Headers := u_Headers u;
     u_Priority := u_Priority u; u_Weight := u_Weight u; u_Archive := u_Archive u;
     u_state := u_state u; u_cb := u_cb u; u_activeConns := u_activeConns u;
     u_scorer := s; u_routeScorers := r; u_rateLimiter := u_rateLimiter u |}.

Definition with_limiter (l : option (AutoTuner RL)) (u : Upstream) : Upstream :=
  {| u_ID := u_ID u; u_NetworkID := u_NetworkID u; u_URL := u_URL u; u_Headers := u_Headers u;
     u_Priority := u_Priority u; u_Weight := u_Weight u; u_Archive := u_Archive u;
     u_state := u_state u; u_cb := u_cb u; u_activeConns := u_activeConns u;
     u_scorer := u_scorer u; u_routeScorers := u_routeScorers u; u_rateLimiter := l |}.

(** *** Health *)

Definition IsHealthy (u : Upstream) : bool :=
  negb (bool_decide (hs_health (u_state u) = HealthDown)).
Definition Upstream_Health (u : Upstream) : HealthStatus := hs_health (u_state u).
Definition IsArchive (u : Upstream) : bool := u_Archive u.
Definition IsReady (now : Z) (u : Upstream) : bool := IsHealthy u && cbCanRoute now (u_cb u).

Definition SetHealth (h : HealthStatus) : Upstream → Upstream :=
  with_state (λ s, recomputeHealthLocked h h s).
Definition setNodeVerdict (v : HealthStatus) : Upstream → Upstream :=
  with_state (λ s, recomputeHealthLocked v (hs_syncVerdict s) s).
Definition setSyncVerdict (v : HealthStatus) : Upstream → Upstream :=
  with_state (λ s, recomputeHealthLocked (hs_nodeVerdict s) v s).
Definition UpdateSyncStatus (isSyncing : bool) (headSlot syncDistance : Z) : Upstream → Upstream :=
  with_state (λ s,
    let s := hs_set_sync headSlot syncDistance isSyncing s in
    recomputeHealthLocked (hs_nodeVerdict s) (if isSyncing then HealthDegraded else HealthUp) s).
Definition Upstream_UpdateFinalizedEpoch (epoch : Z) : Upstream → Upstream :=
  with_state (λ s, if hs_finalizedEpoch s <? epoch then hs_set_finalized epoch s else s).
Definition UpdateHeadBlock (slot : Z) (root : string) : Upstream → Upstream :=
  with_state (hs_set_head slot root).
Definition SetHeadPayloadStatus (root : string) (full : bool) : Upstream → Upstream :=
  with_state (hs_set_payload root full).
Definition ClearHeadPayloadStatus : Upstream → Upstream :=
  with_state (λ s, hs_set_payload "" (hs_payloadFull s) s).
Definition HeadPayloadStatus (u : Upstream) : string :=
  let s := u_state u in
  if String.eqb (hs_payloadRoot s) "" || negb (String.eqb (hs_payloadRoot s) (hs_headRoot s))
  then "unknown" else if hs_payloadFull s then "full" else "empty".
Definition SetClientType (ct : string) : Upstream → Upstream := with_state (hs_set_client ct).
Definition ClientType (u : Upstream) : string := hs_clientType (u_state u).
Definition HeadSlot (u : Upstream) : Z := hs_headSlot (u_state u).
Definition HeadRoot (u : Upstream) : string := hs_headRoot (u_state u).
Definition SyncDistance (u : Upstream) : Z := hs_syncDistance (u_state u).
Definition Upstream_FinalizedEpoch (u : Upstream) : Z := hs_finalizedEpoch (u_state u).

(** *** Scores *)

(** [routeScorer(apiPath, true)]: the tracker of a path, created on first use. *)
Definition routeScorer (apiPath : string) (u : Upstream) : ScoreTracker :=
  default (NewScoreTracker (Z.of_nat (windowSize (u_scorer u)))) (u_routeScorers u !! apiPath).

Definition Upstream_ScoreSnapshot (u : Upstream) : ScoreSnapshot :=
  (ScoreTracker_Snapshot (u_scorer u)).2.

Definition PathScoreSnapshot (apiPath : string) (u : Upstream) : ScoreSnapshot :=
  if String.eqb apiPath "" then Upstream_ScoreSnapshot u
  else match u_routeScorers u !! apiPath with
       | None => zero_snapshot
       | Some s => (ScoreTracker_Snapshot s).2
       end.

Definition ScoreSnapshotForPath (apiPath : string) (u : Upstream) : ScoreSnapshot :=
  if String.eqb apiPath "" then Upstream_ScoreSnapshot u
  else
    let s := PathScoreSnapshot apiPath u in
    if Samples s <? minPathScopedScoreSamples then Upstream_ScoreSnapshot u else s.

(** A request outcome against the global tracker and, if any, the path's. *)
Definition record_for_path (f : ScoreTracker → ScoreTracker) (apiPath : string) (u : Upstream) : Upstream :=
  if String.eqb apiPath "" then with_scores (f (u_scorer u)) (u_routeScorers u) u
  else with_scores (f (u_scorer u)) (<[apiPath := f (routeScorer apiPath u)]> (u_routeScorers u)) u.
Definition RecordSuccessForPath (apiPath : string) (d : Z) : Upstream → Upstream :=
  record_for_path (ScoreTracker_RecordSuccess d) apiPath.
Definition RecordScoreErrorForPath (apiPath : string) : Upstream → Upstream :=
  record_for_path ScoreTracker_RecordError apiPath.
Definition Upstream_RecordSuccess (d : Z) : Upstream → Upstream := RecordSuccessForPath "" d.
Definition RecordScoreError : Upstream → Upstream := RecordScoreErrorForPath "".

(** *** Rate limit *)

Definition AllowRequest (now : Z) (u : Upstream) : bool :=
  match u_rateLimiter u with None => true | Some a => AutoTuner_HasCapacity now a end.
Definition ConsumeRateToken (now : Z) (u : Upstream) : Upstream :=
  with_limiter (AutoTuner_Consume now <$> u_rateLimiter u) u.
Definition RecordResponseStatus (now statusCode : Z) (u : Upstream) : Upstream :=
  with_limiter (AutoTuner_RecordResponse now statusCode <$> u_rateLimiter u) u.

(** *** Dispatch *)

Definition IncrActive (u : Upstream) : Upstream := with_active (wrap_i64 (u_activeConns u + 1)) u.
Definition DecrActive (u : Upstream) : Upstream := with_active (wrap_i64 (u_activeConns u - 1)) u.

(** What [u.Client.Do(req)] returns: an error, or a response with or without a body. *)
Inductive transport_result := TransportErr (e : string) | TransportResp (status : Z) (body : bool).

(** What [Do] returns besides the token: [DoRefused] is [ErrCircuitUnavailable]. *)
Inductive do_result :=
  | DoRefused
  | DoErr (e : string)
  | DoResp (status : Z) (tracked : bool).

(** [TrackResponse]: a response without a body is counted as finished at once; otherwise the
    body is wrapped ([tracked = true]). *)
Definition TrackResponse (status : Z) (body : bool) (u : Upstream) : Upstream * do_result :=
  if body then (u, DoResp status true) else (DecrActive u, DoResp status false).

(** [Upstream.Do]. *)
Definition Upstream_Do (now : Z) (r : transport_result) (u : Upstream)
    : Upstream * do_result * CBToken :=
  let '(c, tok, ok) := CBTryAcquire (u_ID u) now (u_cb u) in
  let u := with_cb (λ _, c) u in
  if negb ok then (u, DoRefused, zero_token)
  else
    let u := IncrActive (ConsumeRateToken now u) in
    match r with
    | TransportErr e => (DecrActive u, DoErr e, tok)
    | TransportResp status body =>
        let '(u, res) := TrackResponse status body u in (u, res, tok)
    end.

(** Settling a token of this upstream. *)
Definition Upstream_settle (t : CBToken) (o : cbOutcome) (now : Z) : Upstream → Upstream :=
  with_cb (settle t o now).

(** [trackedBody.Close]: [sync.Once] around [DecrActive]; the flag is the handle's state. *)
Definition trackedBody_Close (closed : bool) (u : Upstream) : Upstream * bool :=
  if closed then (u, true) else (DecrActive u, true).

End upstream.

Arguments Upstream _ : clear implicits.

Definition healthName (h : HealthStatus) : string :=
  match h with HealthDown => "down" | HealthDegraded => "degraded" | HealthUp => "up" end.

(** ** Health: the verdicts *)

Section health.
Context `{RL : RateLib}.

(** Every operation that can change the health state. *)
Inductive health_op :=
  | HSet (h : HealthStatus) | HNode (v : HealthStatus) | HSync (v : HealthStatus)
  | HSyncStatus (isSyncing : bool) (headSlot syncDistance : Z)
  | HFinal (epoch : Z) | HHead (slot : Z) (root : string)
  | HPayload (root : string) (full : bool) | HClearPayload | HClient (ct : string).

Definition health_step (u : Upstream RL) (op : health_op) : Upstream RL :=
  match op with
  | HSet h => SetHealth h u | HNode v => setNodeVerdict v u | HSync v => setSyncVerdict v u
  | HSyncStatus s h d => UpdateSyncStatus s h d u
  | HFinal e => Upstream_UpdateFinalizedEpoch e u | HHead s r => UpdateHeadBlock s r u
  | HPayload r b => SetHeadPayloadStatus r b u | HClearPayload => ClearHeadPayloadStatus u
  | HClient ct => SetClientType ct u
  end.

(** The last verdict each poller gave, by the operations' meaning. *)
Definition verdict_step (v : HealthStatus * HealthStatus) (op : health_op) : HealthStatus * HealthStatus :=
  match op with
  | HSet h => (h, h)
  | HNode n => (n, v.2)
  | HSync s => (v.1, s)
  | HSyncStatus s _ _ => (v.1, if s then HealthDegraded else HealthUp)
  | _ => v
  end.

(** The highest finalized epoch reported so far. *)
Definition final_step (e : Z) (op : health_op) : Z :=
  match op with HFinal e' => Z.max e e' | _ => e end.

Lemma health_step_spec u op :
  hs_health (u_state u) = hs_min (hs_nodeVerdict (u_state u)) (hs_syncVerdict (u_state u)) →
  let u' := health_step u op in
  let v := verdict_step (hs_nodeVerdict (u_state u), hs_syncVerdict (u_state u)) op in
  hs_nodeVerdict (u_state u') = v.1 ∧ hs_syncVerdict (u_state u') = v.2 ∧
  hs_health (u_state u') = hs_min v.1 v.2 ∧
  hs_finalizedEpoch (u_state u') = final_step (hs_finalizedEpoch (u_state u)) op.
Proof.
  intros H. destruct op; simpl; try done.
  destruct (Z.ltb_spec (hs_finalizedEpoch (u_state u)) epoch); simpl; split_and!; done || lia.
Qed.

(** Whatever the interleaving of the pollers, an upstream's health is the worse of the
    last verdict of the node-health poller and the last verdict of the sync poller (both
    start at "up" and a direct override sets both), so neither poller can overwrite the
    other's verdict; and its finalized epoch is the highest ever reported. *)
Theorem health_is_min_of_verdicts now net cfg cb win ops :
  let u := foldl health_step (Upstream_New (RL := RL) now net cfg cb win) ops in
  let v := foldl verdict_step (HealthUp, HealthUp) ops in
  Upstream_Health u = hs_min v.1 v.2 ∧
  Upstream_FinalizedEpoch u = foldl final_step 0 ops.
Proof.
  intros u v. subst u v.
  assert (∀ (w : Upstream RL) v e,
    hs_nodeVerdict (u_state w) = v.1 → hs_syncVerdict (u_state w) = v.2 →
    hs_health (u_state w) = hs_min v.1 v.2 → hs_finalizedEpoch (u_state w) = e →
    hs_health (u_state (foldl health_step w ops)) = hs_min (foldl verdict_step v ops).1 (foldl verdict_step v ops).2 ∧
    hs_finalizedEpoch (u_state (foldl health_step w ops)) = foldl final_step e ops) as H.
  { induction ops as [|op ops IH]; intros w v e H1 H2 H3 <-; [done|]. simpl.
    destruct (health_step_spec w op) as (E1 & E2 & E3 & E4); [by rewrite H1, H2|].
    rewrite H1, H2 in *. destruct v as [v1 v2]. by apply IH. }
  by apply H.
Qed.

End health.

(** ** Active requests *)

Section active.
Context `{RL : RateLib}.

(** An upstream with the response bodies handed out: the flag says whether the body has been
    closed. *)
Record ActiveWorld := { aw_u : Upstream RL; aw_bodies : list bool }.

Inductive active_op :=
  | ADo (now : Z) (r : transport_result)
  | AClose (i : nat)
  | ASettle (t : CBToken) (o : cbOutcome) (now : Z).

Definition active_step (w : ActiveWorld) (op : active_op) : ActiveWorld :=
  match op with
  | ADo now r =>
      let '(u, res, _) := Upstream_Do now r (aw_u w) in
      {| aw_u := u;
         aw_bodies := match res with DoResp _ true => aw_bodies w ++ [false] | _ => aw_bodies w end |}
  | AClose i =>
      match aw_bodies w !! i with
      | None => w
      | Some c => let '(u, c') := trackedBody_Close c (aw_u w) in
                  {| aw_u := u; aw_bodies := <[i := c']> (aw_bodies w) |}
      end
  | ASettle t o now => {| aw_u := Upstream_settle t o now (aw_u w); aw_bodies := aw_bodies w |}
  end.

Definition open_bodies (l : list bool) : Z := Z.of_nat (length (bfilter negb l)).

Lemma open_bodies_le l : 0 <= open_bodies l <= Z.of_nat (length l).
Proof.
  unfold open_bodies. induction l as [|[] l IH]; simpl in *; lia.
Qed.

Lemma open_bodies_close l i :
  l !! i = Some false → open_bodies (<[i := true]> l) = open_bodies l - 1.
Proof.
  unfold open_bodies. revert i. induction l as [|b l IH]; intros [|i] Hi; simplify_eq/=; [lia|].
  specialize (IH i Hi). destruct b; simpl in *; lia.
Qed.

Lemma wrap_active a : 0 <= a < 2 ^ 62 →
  wrap_i64 (a + 1) = a + 1 ∧ wrap_i64 (wrap_i64 (a + 1) - 1) = a.
Proof. intros H. rewrite !wrap_i64_small; lia. Qed.

Lemma Do_active now r (u u' : Upstream RL) res t :
  0 <= u_activeConns u < 2 ^ 62 → Upstream_Do now r u = (u', res, t) →
  u_activeConns u' = u_activeConns u + (match res with DoResp _ true => 1 | _ => 0 end).
Proof.
  intros Hu. destruct (wrap_active _ Hu) as [H1 H2]. unfold Upstream_Do.
  destruct (CBTryAcquire _ _ _) as [[c tok] ok]. destruct ok; simpl.
  - destruct r as [e|status []]; simpl; intros [= <- <- <-]; simpl; rewrite ?H2; lia.
  - intros [= <- <- <-]. simpl. lia.
Qed.

Lemma active_step_spec n w op :
  Z.of_nat n < 2 ^ 62 → (length (aw_bodies w) <= n)%nat →
  u_activeConns (aw_u w) = open_bodies (aw_bodies w) →
  (length (aw_bodies (active_step w op)) <= S n)%nat ∧
  u_activeConns (aw_u (active_step w op)) = open_bodies (aw_bodies (active_step w op)).
Proof.
  intros Hn Hl Ha. pose proof (open_bodies_le (aw_bodies w)) as Hb.
  destruct op as [now r|i|t o now]; simpl; [| |split; [lia|done]].
  - destruct (Upstream_Do now r (aw_u w)) as [[u res] t] eqn:E.
    apply Do_active in E; [|lia]. simpl. rewrite E, Ha.
    destruct res as [| |status []]; simpl; rewrite ?length_app; simpl; try (split; lia).
    split; [lia|]. unfold open_bodies. rewrite bfilter_app, length_app. simpl. lia.
  - destruct (aw_bodies w !! i) as [c|] eqn:E; [|split; [lia|done]].
    unfold trackedBody_Close. destruct c; simpl; rewrite length_insert.
    + rewrite (list_insert_id _ _ _ E). split; [lia|done].
    + split; [lia|]. rewrite open_bodies_close by done. rewrite <- Ha.
      assert (0 < open_bodies (aw_bodies w)); [|rewrite wrap_i64_small; lia].
      pose proof (open_bodies_close _ _ E). pose proof (open_bodies_le (<[i:=true]> (aw_bodies w))). lia.
Qed.

(** The active-request counter is exactly the number of response bodies handed out and not
    yet closed, through any interleaving of dispatches (refused, failed or answered),
    settlements and closes, however often a body is closed; it is never negative. *)
Theorem active_conns_exact now net cfg cb win ops :
  Z.of_nat (length ops) < 2 ^ 62 →
  let w := foldl active_step {| aw_u := Upstream_New now net cfg cb win; aw_bodies := [] |} ops in
  u_activeConns (aw_u w) = open_bodies (aw_bodies w) ∧ 0 <= u_activeConns (aw_u w).
Proof.
  intros Hn w.
  assert (∀ n w0, Z.of_nat (n + length ops) < 2 ^ 62 → (length (aw_bodies w0) <= n)%nat →
    u_activeConns (aw_u w0) = open_bodies (aw_bodies w0) →
    u_activeConns (aw_u (foldl active_step w0 ops)) = open_bodies (aw_bodies (foldl active_step w0 ops))) as H.
  { clear. induction ops as [|op ops IH]; intros n w0 Hn Hl Ha; [done|]. simpl in *.
    destruct (active_step_spec n w0 op) as [Hl' Ha']; [lia|done|done|].
    by apply (IH (S n)); [lia|..]. }
  assert (u_activeConns (aw_u w) = open_bodies (aw_bodies w)) as Hw by (apply (H 0%nat); done || lia).
  split; [done|]. rewrite Hw. apply open_bodies_le.
Qed.

End active.

(** ** Witness *)

Definition demo_upstream_cfg : UpstreamConfig :=
  {| uc_ID := "a"; uc_URL := "http://a/"; uc_Headers := ∅; uc_Failsafe := None; uc_Priority := 0;
     uc_Weight := 1; uc_Archive := false; uc_RateLimiting := None |}.

Lemma active_conns_exact_witness :
  u_activeConns (aw_u (foldl active_step
     {| aw_u := Upstream_New (RL := ToyRate) 0 "mainnet" demo_upstream_cfg None 100; aw_bodies := [] |}
     [ADo 1 (TransportResp 200 true); ADo 2 (TransportErr "refused"); ADo 3 (TransportResp 200 true);
      AClose 0; AClose 0])) = 1.
Proof.
  destruct (active_conns_exact (RL := ToyRate) 0 "mainnet" demo_upstream_cfg None 100
    [ADo 1 (TransportResp 200 true); ADo 2 (TransportErr "refused"); ADo 3 (TransportResp 200 true);
     AClose 0; AClose 0]) as [H _]; [vm_compute; reflexivity|].
  etransitivity; [exact H|vm_compute; reflexivity].
Defined.
