(* ===== verification/Selector.v ===== *)
(** * Upstream selectors

    [upstream/selector.go], and the part of Go's [path.Match] it relies on.  [path.Match] works
    on runes; upstream identifiers are ASCII, so the model works on bytes.  A malformed
    pattern makes [path.Match] return [false] with an error, which the callers ignore. *)

From Stdlib Require Import Ascii.
From S2P Require Import Prelude GoStrings GoFloat Config AutoTuner Upstream.
#[local] Open Scope Z_scope.

(** ** [path.Match] *)

Inductive glob_tok :=
  | GStar
  | GAny
  | GLit (c : ascii)
  | GSet (neg : bool) (ranges : list (ascii * ascii)).

(** [getEsc]: one possibly escaped character of a range; it must not be the pattern's last. *)
Definition getEsc (s : string) : option (ascii * string) :=
  match s with
  | EmptyString => None
  | String c s' =>
      if Ascii.eqb c "-" || Ascii.eqb c "]" then None
      else
        let r := if Ascii.eqb c "\" then match s' with String c' s'' => Some (c', s'') | _ => None end
                 else Some (c, s') in
        match r with
        | Some (c, String x s'') => Some (c, String x s'')
        | _ => None
        end
  end.

(** The ranges of a character class, up to its closing bracket. *)
Fixpoint glob_ranges (fuel : nat) (s : string) (acc : list (ascii * ascii))
    : option (list (ascii * ascii) * string) :=
  match fuel with
  | O => None
  | S fuel =>
      match s with
      | String c s' =>
          if Ascii.eqb c "]" && negb (bool_decide (acc = [])) then Some (rev acc, s')
          else
            match getEsc s with
            | None => None
            | Some (lo, rest) =>
                match rest with
                | String d rest' =>
                    if Ascii.eqb d "-" then
                      match getEsc rest' with
                      | None => None
                      | Some (hi, rest'') => glob_ranges fuel rest'' ((lo, hi) :: acc)
                      end
                    else glob_ranges fuel rest ((lo, lo) :: acc)
                | EmptyString => None
                end
            end
      | EmptyString => None
      end
  end.

Fixpoint glob_parse (fuel : nat) (s : string) : option (list glob_tok) :=
  match fuel with
  | O => None
  | S fuel =>
      match s with
      | EmptyString => Some []
      | String c s' =>
          if Ascii.eqb c "*" then cons GStar <$> glob_parse fuel s'
          else if Ascii.eqb c "?" then cons GAny <$> glob_parse fuel s'
          else if Ascii.eqb c "\" then
            match s' with
            | EmptyString => None
            | String c' s'' => cons (GLit c') <$> glob_parse fuel s''
            end
          else if Ascii.eqb c "[" then
            let '(neg, body) :=
              match s' with
              | String d s'' => if Ascii.eqb d "^" then (true, s'') else (false, s')
              | EmptyString => (false, s')
              end in
            match glob_ranges (S (String.length body)) body [] with
            | None => None
            | Some (rs, rest) => cons (GSet neg rs) <$> glob_parse fuel rest
            end
          else cons (GLit c) <$> glob_parse fuel s'
      end
  end.

Definition in_ranges (c : ascii) (rs : list (ascii * ascii)) : bool :=
  existsb (λ '(lo, hi), (byte_val lo <=? byte_val c) && (byte_val c <=? byte_val hi)) rs.

(** [*] and [?] do not match the separator. *)
Definition not_sep (c : ascii) : bool := negb (Ascii.eqb c "/").

Fixpoint glob_match (p : list glob_tok) (s : string) : bool :=
  match p with
  | [] => String.eqb s ""
  | GStar :: p' =>
      (fix star (s : string) : bool :=
         glob_match p' s ||
         match s with String c s' => not_sep c && star s' | EmptyString => false end) s
  | GAny :: p' => match s with String c s' => not_sep c && glob_match p' s' | _ => false end
  | GLit d :: p' => match s with String c s' => Ascii.eqb c d && glob_match p' s' | _ => false end
  | GSet neg rs :: p' =>
      match s with
      | String c s' => Bool.eqb (in_ranges c rs) (negb neg) && glob_match p' s'
      | _ => false
      end
  end.

(** [matched, _ := path.Match(pattern, name)]. *)
Definition path_Match (pattern name : string) : bool :=
  match glob_parse (S (String.length pattern)) pattern with
  | None => false
  | Some p => glob_match p name
  end.

(** ** Selectors *)

Record Selector := { sel_ID : string; sel_ClientType : string; sel_Glob : string }.

#[export] Instance Selector_eq_dec : EqDecision Selector.
Proof. solve_decision. Defined.

Definition ParseSelector (s : string) : Selector :=
  if HasPrefix s "client:" then {| sel_ID := ""; sel_ClientType := TrimPrefix s "client:"; sel_Glob := "" |}
  else if HasPrefix s "glob:" then {| sel_ID := ""; sel_ClientType := ""; sel_Glob := TrimPrefix s "glob:" |}
  else if ContainsAny s "*?[" then {| sel_ID := ""; sel_ClientType := ""; sel_Glob := s |}
  else {| sel_ID := s; sel_ClientType := ""; sel_Glob := "" |}.

Definition nonempty (s : string) : bool := negb (String.eqb s "").

Definition Selector_Enabled (s : Selector) : bool :=
  nonempty (sel_ID s) || nonempty (sel_ClientType s) || nonempty (sel_Glob s).

Definition Selector_String (s : Selector) : string :=
  if nonempty (sel_ClientType s) then "client:" +:+ sel_ClientType s
  else if nonempty (sel_Glob s) then "glob:" +:+ sel_Glob s
  else sel_ID s.

Definition Selector_Match `{RL : RateLib} (s : Selector) (u : Upstream RL) : bool :=
  if nonempty (sel_ClientType s) then String.eqb (ClientType u) (sel_ClientType s)
  else if nonempty (sel_Glob s) then path_Match (sel_Glob s) (u_ID u)
  else if nonempty (sel_ID s) then String.eqb (u_ID u) (sel_ID s)
  else true.

(** ** Lemmas *)

Lemma nonempty_false s : nonempty s = false → s = ""%string.
Proof. unfold nonempty. intros H. by b2p. Qed.

(** A name without metacharacters, as a pattern. *)
Definition plain_name (s : string) : bool := negb (ContainsAny s "*?[\").

Fixpoint lits (s : string) : list glob_tok :=
  match s with EmptyString => [] | String c s => GLit c :: lits s end.

Lemma glob_parse_plain s fuel :
  plain_name s = true → (String.length s < fuel)%nat → glob_parse fuel s = Some (lits s).
Proof.
  revert fuel. induction s as [|c s IH]; intros [|fuel] Hp Hf; simpl in Hf; try lia; [done|].
  unfold plain_name, ContainsAny in Hp. cbn [has_byte] in Hp. rewrite negb_orb in Hp.
  apply andb_true_iff in Hp as [Hc Hs]. apply negb_true_iff in Hc. unfold in_set in Hc.
  cbn [has_byte] in Hc. apply orb_false_iff in Hc as [H1 Hc]. apply orb_false_iff in Hc as [H2 Hc].
  apply orb_false_iff in Hc as [H3 Hc]. apply orb_false_iff in Hc as [H4 _].
  cbn [glob_parse lits]. rewrite H1, H2, H3, H4, IH by (done || lia). done.
Qed.

Lemma glob_match_lits s n : glob_match (lits s) n = String.eqb n s.
Proof.
  revert n. induction s as [|c s IH]; intros [|d n]; simpl; try done.
  destruct (Ascii.eqb_spec d c); simpl; [by rewrite IH|]. done.
Qed.

(** A pattern without metacharacters matches exactly itself. *)
Lemma path_Match_plain s n : plain_name s = true → path_Match s n = String.eqb n s.
Proof.
  intros Hp. unfold path_Match. rewrite glob_parse_plain by (done || lia). apply glob_match_lits.
Qed.

(** A prefix pattern [p*] matches the names that start with [p] and have no separator after
    it. *)
Lemma glob_match_star n : glob_match [GStar] n = negb (has_byte (Ascii.eqb "/") n).
Proof.
  induction n as [|c n IH]; [done|]. change (glob_match [GStar] (String c n)) with
    (String.eqb (String c n) "" || (not_sep c && glob_match [GStar] n)).
  rewrite IH. unfold not_sep. cbn [has_byte String.eqb orb]. rewrite (Ascii.eqb_sym "/" c). by destruct (Ascii.eqb c "/").
Qed.

(** A selector survives the trip through its text form: the cache key of a pinned request,
    parsed back, selects exactly the upstreams the request was pinned to.  (An identifier
    contains neither a metacharacter nor a colon, by validation.) *)
Theorem ParseSelector_String s :
  (nonempty (sel_ClientType s) = true ∧ sel_ID s = ""%string ∧ sel_Glob s = ""%string) ∨
  (sel_ClientType s = ""%string ∧ nonempty (sel_Glob s) = true ∧ sel_ID s = ""%string) ∨
  (sel_ClientType s = ""%string ∧ sel_Glob s = ""%string ∧ no_byte ":" (sel_ID s) ∧
   ContainsAny (sel_ID s) "*?[" = false) →
  ParseSelector (Selector_String s) = s.
Proof.
  destruct s as [i c g]. unfold Selector_String. simpl.
  intros [(Hc & -> & ->)|[(-> & Hg & ->)|(-> & -> & Hn & Hg)]]; simpl.
  - rewrite Hc. unfold ParseSelector. rewrite HasPrefix_app. by rewrite TrimPrefix_app.
  - rewrite Hg. unfold ParseSelector.
    rewrite (HasPrefix_app "glob:" g). by rewrite TrimPrefix_app.
  - unfold ParseSelector.
    assert (HasPrefix i "client:" = false) as ->.
    { destruct (HasPrefix i "client:") eqn:E; [|done]. apply HasPrefix_spec in E as [r ->]. done. }
    assert (HasPrefix i "glob:" = false) as ->.
    { destruct (HasPrefix i "glob:") eqn:E; [|done]. apply HasPrefix_spec in E as [r ->]. done. }
    by rewrite Hg.
Qed.

Lemma ParseSelector_String_witness :
  ParseSelector (Selector_String {| sel_ID := "node-1"; sel_ClientType := ""; sel_Glob := "" |}) =
  {| sel_ID := "node-1"; sel_ClientType := ""; sel_Glob := "" |}.
Proof. apply ParseSelector_String. right. right. repeat split. Defined.
