(* ===== verification/PoolOrder.v ===== *)
(** * Load-balancing orders

    The ordering half of [upstream/pool.go]: the per-request [xorshift64] generator, the
    weighted round-robin and the weighted sampling without replacement, and the reordering
    inside each priority tier. *)

From S2P Require Import Prelude GoStrings GoFloat Config AutoTuner Upstream.
#[local] Open Scope Z_scope.
#[local] Open Scope go_scope.

(** ** The generator *)

(** [orderRNG] is its one field [state]. *)
Definition orderRNG : Type := Z.

Definition newOrderRNG (seed : Z) : orderRNG :=
  let seed := if seed =? 0 then 1 else seed in
  let seed := seed +u 0x9e3779b97f4a7c15 in
  let seed := (Z.lxor seed (Z.shiftr seed 30)) *u 0xbf58476d1ce4e5b9 in
  let seed := (Z.lxor seed (Z.shiftr seed 27)) *u 0x94d049bb133111eb in
  let seed := Z.lxor seed (Z.shiftr seed 31) in
  if seed =? 0 then 1 else seed.

(** [x ^= x << k] and [x ^= x >> k] on [uint64]. *)
Definition xor_shl (k x : Z) : Z := Z.lxor x (wrap64 (Z.shiftl x k)).
Definition xor_shr (k x : Z) : Z := Z.lxor x (Z.shiftr x k).

(** [next]: the result is also the new state. *)
Definition rng_next (state : orderRNG) : Z := xor_shl 17 (xor_shr 7 (xor_shl 13 state)).

(** [Float64]: the value and the new state. *)
Definition rng_Float64 (state : orderRNG) : float64 * orderRNG :=
  let x := rng_next state in
  (f64_div (f64_of_Z (Z.shiftr x 11)) (f64_of_Z (2 ^ 53)), x).

Section order.
Context `{RL : RateLib}.
Implicit Types u : Upstream RL.

Definition upstreamWeight u : Z := if u_Weight u <=? 0 then 1 else u_Weight u.

(** ** Weighted round-robin *)

Definition total_weight (ups : list (Upstream RL)) : Z :=
  foldl (λ acc u, wrap_i64 (acc + upstreamWeight u)) 0 ups.

(** The loop over the cumulative weights; [k] is the current index. *)
Fixpoint primary_loop (ups : list (Upstream RL)) (target cumulative : Z) (k : nat) : option nat :=
  match ups with
  | [] => None
  | u :: ups =>
      let cumulative := wrap_i64 (cumulative + upstreamWeight u) in
      if target <? cumulative then Some k else primary_loop ups target cumulative (S k)
  end.

(** [-1] for no upstreams. *)
Definition weightedPrimaryIndex (ups : list (Upstream RL)) (index : Z) : Z :=
  let n := Z.of_nat (length ups) in
  if n =? 0 then -1
  else
    let totalWeight := total_weight ups in
    if totalWeight <=? 0 then wrap_i64 (index mod n)
    else
      let target := wrap_i64 (index mod totalWeight) in
      match primary_loop ups target 0 0 with
      | Some k => Z.of_nat k
      | None => n - 1
      end.

Definition rotateUniqueFromIndex (ups : list (Upstream RL)) (first : Z) : list (Upstream RL) :=
  let n := length ups in
  if (n <=? 1)%nat then ups
  else
    let first := if (first <? 0) || (Z.of_nat n <=? first) then 0%nat else Z.to_nat first in
    omap (λ offset, ups !! ((first + offset) `mod` n)%nat) (seq 0 n).

Definition weightedRoundRobinWithinPriority (ups : list (Upstream RL)) (index : Z) :=
  rotateUniqueFromIndex ups (weightedPrimaryIndex ups index).

(** ** Weighted sampling without replacement *)

(** [weights[idx] = weight; total += weight] over the remaining upstreams. *)
Definition sum_weights (f : Upstream RL → float64) (l : list (Upstream RL)) : list float64 * float64 :=
  (f <$> l, foldl (λ acc u, f64_add acc (f u)) f64_zero l).

Definition clean_base (base : float64) : float64 :=
  if f64_is_nan base || f64_is_inf base || f64_ltb base f64_zero then f64_zero else base.

Definition pick_weights (baseWeight : Upstream RL → float64) (remaining : list (Upstream RL))
    : list float64 * float64 :=
  let '(ws, total) :=
    sum_weights (λ u, f64_mul (clean_base (baseWeight u)) (f64_of_Z (upstreamWeight u))) remaining in
  if f64_leb total f64_zero then sum_weights (λ u, f64_of_Z (upstreamWeight u)) remaining
  else (ws, total).

(** The first index whose cumulative weight exceeds the target. *)
Fixpoint choose_loop (ws : list float64) (target cumulative : float64) (k : nat) : option nat :=
  match ws with
  | [] => None
  | w :: ws =>
      let cumulative := f64_add cumulative w in
      if f64_ltb target cumulative then Some k else choose_loop ws target cumulative (S k)
  end.

Fixpoint sample_loop (fuel : nat) (baseWeight : Upstream RL → float64)
    (remaining ordered : list (Upstream RL)) (rng : orderRNG) : list (Upstream RL) * orderRNG :=
  match fuel with
  | O => (ordered, rng)
  | S fuel =>
      match remaining with
      | [] => (ordered, rng)
      | _ =>
          let '(ws, total) := pick_weights baseWeight remaining in
          let '(r, rng) := rng_Float64 rng in
          let target := f64_mul r total in
          let chosen := default (length remaining - 1)%nat (choose_loop ws target f64_zero 0) in
          match remaining !! chosen with
          | None => (ordered, rng)
          | Some u =>
              sample_loop fuel baseWeight (take chosen remaining ++ drop (S chosen) remaining)
                (ordered ++ [u]) rng
          end
      end
  end.

(** One upstream leaves [remaining] per round, so [length ups] rounds suffice. *)
Definition weightedOrderWithoutReplacement (ups : list (Upstream RL)) (rng : orderRNG)
    (baseWeight : Upstream RL → float64) : list (Upstream RL) * orderRNG :=
  sample_loop (length ups) baseWeight ups [] rng.

Definition weightedRandomWithinPriority (ups : list (Upstream RL)) (rng : orderRNG) :=
  weightedOrderWithoutReplacement ups rng (λ _, f64_one).

(** ** Tiers *)

(** [reorderWithinPriority]: each maximal run of equal priority is replaced by [orderFn] of
    it; the generator's state is threaded through the runs. *)
Fixpoint reorder_loop (fuel : nat) (orderFn : list (Upstream RL) → orderRNG → list (Upstream RL) * orderRNG)
    (ups : list (Upstream RL)) (rng : orderRNG) : list (Upstream RL) * orderRNG :=
  match fuel, ups with
  | S fuel, u :: rest =>
      let '(same, others) := span (λ v, u_Priority v =? u_Priority u) rest in
      let '(sub, rng) := orderFn (u :: same) rng in
      let '(out, rng) := reorder_loop fuel orderFn others rng in
      (sub ++ out, rng)
  | _, _ => (ups, rng)
  end.
Definition reorderWithinPriority orderFn (ups : list (Upstream RL)) (rng : orderRNG) :=
  reorder_loop (length ups) orderFn ups rng.

Definition byPriority (a b : Upstream RL) : bool := u_Priority a <? u_Priority b.

(** The comparison of the "least-conn" policy. *)
Definition lessConn (a b : Upstream RL) : bool :=
  if negb (u_Priority a =? u_Priority b) then u_Priority a <? u_Priority b
  else
    let left := f64_div (f64_of_Z (u_activeConns a)) (f64_of_Z (upstreamWeight a)) in
    let right := f64_div (f64_of_Z (u_activeConns b)) (f64_of_Z (upstreamWeight b)) in
    if negb (f64_eqb left right) then f64_ltb left right
    else if negb (u_activeConns a =? u_activeConns b) then u_activeConns a <? u_activeConns b
    else String.ltb (u_ID a) (u_ID b).

(** ** Lemmas: the generator *)

Lemma xor_shl_nonzero k x : 0 < k → is_u64 x → xor_shl k x = 0 → x = 0.
Proof.
  intros Hk [H0 H1] H. apply Z.lxor_eq in H. apply Z.bits_inj'. intros n Hn. rewrite Z.bits_0.
  revert n Hn. apply (Z_lt_induction (λ n, Z.testbit x n = false)). intros n IH.
  destruct (Z.lt_ge_cases n 0); [by apply Z.testbit_neg_r|].
  destruct (Z.lt_ge_cases n 64) as [Hlt|Hge].
  - rewrite H. unfold wrap64, u64_modulus. rewrite Z.mod_pow2_bits_low by lia.
    rewrite Z.shiftl_spec by lia. destruct (Z.lt_ge_cases n k).
    + apply Z.testbit_neg_r. lia.
    + apply IH; lia.
  - apply Z.bits_above_log2; [lia|]. destruct (Z.eq_dec x 0) as [->|]; [simpl; lia|].
    apply Z.log2_lt_pow2; [lia|]. unfold u64_modulus in H1.
    pose proof (Z.pow_le_mono_r 2 64 n). lia.
Qed.

Lemma xor_shr_nonzero k x : 0 < k → 0 <= x → xor_shr k x = 0 → x = 0.
Proof.
  intros Hk H0 H. apply Z.lxor_eq in H. destruct (Z.eq_dec x 0) as [|Hx]; [done|].
  assert (Z.testbit x (Z.log2 x) = true) as Hb by (apply Z.bit_log2; lia).
  rewrite H in Hb at 1. rewrite Z.shiftr_spec in Hb by (apply Z.log2_nonneg).
  rewrite Z.bits_above_log2 in Hb; [done|lia|]. lia.
Qed.

Lemma lxor_u64 a b : is_u64 a → is_u64 b → is_u64 (Z.lxor a b).
Proof.
  intros [Ha Ha'] [Hb Hb']. split; [by apply Z.lxor_nonneg|].
  assert (∀ z, 0 <= z < u64_modulus ↔ 0 <= z ∧ (z = 0 ∨ Z.log2 z < 64)) as E.
  { intros z. unfold u64_modulus. split.
    - intros [? ?]. split; [done|]. destruct (Z.eq_dec z 0); [by left|right].
      apply Z.log2_lt_pow2; lia.
    - intros [? [->|?]]; [lia|]. split; [done|]. destruct (Z.eq_dec z 0) as [->|]; [done|].
      apply Z.log2_lt_pow2; lia. }
  apply E. split; [by apply Z.lxor_nonneg|].
  destruct (proj1 (E a) (conj Ha Ha')) as [_ Hla], (proj1 (E b) (conj Hb Hb')) as [_ Hlb].
  pose proof (Z.log2_lxor a b Ha Hb). right.
  destruct Hla as [->|], Hlb as [->|]; simpl in *; lia.
Qed.

Lemma xor_shl_u64 k x : is_u64 x → is_u64 (xor_shl k x).
Proof. intros H. apply lxor_u64; [done|]. apply Z.mod_pos_bound. unfold u64_modulus. lia. Qed.

Lemma xor_shr_u64 k x : 0 <= k → is_u64 x → is_u64 (xor_shr k x).
Proof.
  intros Hk [H0 H1]. apply lxor_u64; [done|]. split; [by apply Z.shiftr_nonneg|].
  rewrite Z.shiftr_div_pow2 by done. pose proof (Z.pow_pos_nonneg 2 k).
  apply Z.le_lt_trans with x; [|done]. apply Z.div_le_upper_bound; nia.
Qed.

Lemma rng_next_ok s : is_u64 s → s ≠ 0 → is_u64 (rng_next s) ∧ rng_next s ≠ 0.
Proof.
  intros Hs Hn. unfold rng_next.
  assert (is_u64 (xor_shl 13 s)) as H1 by by apply xor_shl_u64.
  assert (is_u64 (xor_shr 7 (xor_shl 13 s))) as H2 by (by apply xor_shr_u64; [lia|]).
  split; [by apply xor_shl_u64|]. intros H.
  apply xor_shl_nonzero in H; [|lia|done]. apply xor_shr_nonzero in H; [|lia|apply H1].
  by apply xor_shl_nonzero in H; [|lia|].
Qed.

Lemma newOrderRNG_ok seed : is_u64 (newOrderRNG seed) ∧ newOrderRNG seed ≠ 0.
Proof.
  unfold newOrderRNG. cbv zeta.
  match goal with |- context [Z.lxor ?s (Z.shiftr ?s 31)] => assert (is_u64 s) as H1; [|revert H1; generalize s] end.
  { apply Z.mod_pos_bound. unfold u64_modulus. lia. }
  intros s1 H1. destruct (Z.eqb_spec (Z.lxor s1 (Z.shiftr s1 31)) 0).
  - split; [unfold is_u64, u64_modulus; lia|lia].
  - split; [apply (xor_shr_u64 31); [lia|done]|done].
Qed.

(** ** Lemmas: every order is a permutation *)

Lemma omap_lookup_seq {A} (k : list A) a : omap (λ o, k !! (o - a)%nat) (seq a (length k)) = k.
Proof.
  assert (∀ pre (k : list A) a, omap (λ o, (pre ++ k) !! (o - a)%nat) (seq (a + length pre) (length k)) = k) as H.
  { intros pre k'. revert pre. induction k' as [|x k' IH]; intros pre b; [done|]. simpl.
    replace (b + length pre - b)%nat with (length pre) by lia.
    rewrite lookup_app_r, Nat.sub_diag by lia. simpl. f_equal.
    specialize (IH (pre ++ [x]) b). rewrite <- app_assoc in IH. simpl in IH.
    rewrite length_app in IH. simpl in IH. by replace (b + (length pre + 1))%nat with (S (b + length pre)) in IH by lia. }
  specialize (H [] k a). simpl in H. by rewrite Nat.add_0_r in H.
Qed.

Lemma rotate_eq (ups : list (Upstream RL)) f :
  (f < length ups)%nat →
  omap (λ offset, ups !! ((f + offset) `mod` length ups)%nat) (seq 0 (length ups)) =
  drop f ups ++ take f ups.
Proof.
  intros Hf. assert (seq 0 (length ups) = seq 0 (length ups - f) ++ seq (length ups - f) f) as ->.
  { rewrite <- seq_app. f_equal. lia. }
  rewrite omap_app. f_equal.
  - transitivity (omap (λ o, drop f ups !! (o - 0)%nat) (seq 0 (length (drop f ups)))).
    + rewrite length_drop. apply list_omap_ext, Forall_Forall2_diag, Forall_forall.
      intros o Ho%elem_of_seq. rewrite lookup_drop, Nat.sub_0_r, Nat.mod_small by lia. done.
    + apply omap_lookup_seq.
  - simpl. transitivity (omap (λ o, take f ups !! (o - (length ups - f))%nat)
                           (seq (length ups - f) (length (take f ups)))).
    + rewrite length_take_le by lia. apply list_omap_ext, Forall_Forall2_diag, Forall_forall.
      intros o Ho%elem_of_seq. rewrite lookup_take_lt by lia. f_equal.
      replace (f + o)%nat with (o - (length ups - f) + 1 * length ups)%nat by lia.
      rewrite Nat.Div0.mod_add, Nat.mod_small by lia. done.
    + apply omap_lookup_seq.
Qed.

Lemma rotate_perm (ups : list (Upstream RL)) first : rotateUniqueFromIndex ups first ≡ₚ ups.
Proof.
  unfold rotateUniqueFromIndex. destruct (Nat.leb_spec (length ups) 1); [done|].
  rewrite rotate_eq; [rewrite Permutation_app_comm; by rewrite take_drop|].
  destruct ((first <? 0) || (Z.of_nat (length ups) <=? first)) eqn:E; [lia|]. b2p. lia.
Qed.

Lemma choose_loop_bound ws target c k j :
  choose_loop ws target c k = Some j → (k <= j < k + length ws)%nat.
Proof.
  revert c k. induction ws as [|w ws IH]; intros c k; simpl; [done|].
  destruct (f64_ltb _ _); [intros [= <-]; lia|]. intros H. apply IH in H. lia.
Qed.

Lemma pick_weights_length b (l : list (Upstream RL)) : length (pick_weights b l).1 = length l.
Proof. unfold pick_weights, sum_weights. destruct (f64_leb _ _); simpl; by rewrite length_fmap. Qed.

Lemma sample_loop_perm b fuel remaining ordered rng :
  (length remaining <= fuel)%nat →
  (sample_loop fuel b remaining ordered rng).1 ≡ₚ ordered ++ remaining.
Proof.
  revert remaining ordered rng. induction fuel as [|fuel IH]; intros remaining ordered rng Hl.
  { destruct remaining; simpl in *; [by rewrite app_nil_r|lia]. }
  destruct remaining as [|u0 rem']; [simpl; by rewrite app_nil_r|].
  set (rem := u0 :: rem') in *. cbn [sample_loop]. 
  pose proof (pick_weights_length b rem) as Hw. fold rem. unfold rem at 1. cbv iota. fold rem.
  destruct (pick_weights b rem) as [ws total]. simpl in Hw.
  destruct (rng_Float64 rng) as [r rng'].
  assert (default (length rem - 1)%nat (choose_loop ws (f64_mul r total) f64_zero 0) < length rem)%nat as Hc.
  { destruct (choose_loop _ _ _ _) as [j|] eqn:E; simpl; [apply choose_loop_bound in E; lia|].
    unfold rem. simpl. lia. }
  set (ch := default _ _) in *. destruct (lookup_lt_is_Some_2 rem ch Hc) as [u Hu]. rewrite Hu.
  rewrite IH; [|rewrite length_app, length_take, length_drop; lia].
  rewrite <- app_assoc. apply Permutation_app_head. cbn [app].
  etransitivity; [apply Permutation_middle|]. by rewrite take_drop_middle.
Qed.

Lemma weightedOrder_perm (ups : list (Upstream RL)) rng b :
  (weightedOrderWithoutReplacement ups rng b).1 ≡ₚ ups.
Proof. unfold weightedOrderWithoutReplacement. by rewrite sample_loop_perm. Qed.

Lemma reorder_loop_spec orderFn fuel ups rng :
  (∀ l r, (orderFn l r).1 ≡ₚ l) → (length ups <= fuel)%nat →
  (reorder_loop fuel orderFn ups rng).1 ≡ₚ ups ∧
  u_Priority <$> (reorder_loop fuel orderFn ups rng).1 = u_Priority <$> ups.
Proof.
  intros Hord. revert ups rng. induction fuel as [|fuel IH]; intros ups rng Hl.
  { by destruct ups; simpl in *; [|lia]. }
  destruct ups as [|u rest]; [done|]. simpl.
  pose proof (span_app (λ v, u_Priority v =? u_Priority u) rest) as Hsp.
  destruct (span (λ v, u_Priority v =? u_Priority u) rest) as [same others] eqn:Espan.
  pose proof (span_all _ _ _ _ Espan) as Hall. simpl in *. subst rest.
  pose proof (Hord (u :: same) rng) as Hp. destruct (orderFn (u :: same) rng) as [sub rng1]. simpl in Hp.
  rewrite length_app in Hl. destruct (IH others rng1) as [Hp2 He2]; [lia|].
  destruct (reorder_loop fuel orderFn others rng1) as [out rng2]. simpl in *.
  split; [by rewrite Hp, Hp2|]. rewrite !fmap_app, He2, app_comm_cons. f_equal.
  assert (∀ l : list (Upstream RL), (∀ v, v ∈ l → u_Priority v = u_Priority u) →
            u_Priority <$> l = replicate (length l) (u_Priority u)) as Hrep.
  { clear. induction l as [|v l IH]; intros H; [done|]. simpl. f_equal; [|apply IH]; set_solver. }
  change (u_Priority u :: (u_Priority <$> same)) with (u_Priority <$> (u :: same)).
  assert (∀ v, v ∈ u :: same → u_Priority v = u_Priority u) as Hv.
  { intros v [->|Hv]%elem_of_cons; [done|]. rewrite Forall_forall in Hall. specialize (Hall v Hv). by b2p. }
  rewrite !Hrep; [by rewrite Hp|done|]. intros v. rewrite Hp. apply Hv.
Qed.

(** ** Lemmas: fairness of the round-robin *)

Definition weight_sum (ups : list (Upstream RL)) : Z := foldr (λ u acc, upstreamWeight u + acc) 0 ups.

Lemma upstreamWeight_pos u : 0 < upstreamWeight u.
Proof. unfold upstreamWeight. destruct (Z.leb_spec (u_Weight u) 0); lia. Qed.

Lemma weight_sum_nonneg ups : 0 <= weight_sum ups.
Proof. induction ups as [|u ups IH]; simpl; [lia|]. pose proof (upstreamWeight_pos u). lia. Qed.

Lemma weight_sum_app l k : weight_sum (l ++ k) = weight_sum l + weight_sum k.
Proof. induction l as [|u l IH]; simpl; lia. Qed.

Lemma total_weight_sum ups : weight_sum ups < 2 ^ 63 → total_weight ups = weight_sum ups.
Proof.
  intros H. unfold total_weight.
  assert (∀ acc, 0 <= acc → acc + weight_sum ups < 2 ^ 63 →
    foldl (λ acc u, wrap_i64 (acc + upstreamWeight u)) acc ups = acc + weight_sum ups) as E.
  { clear H. induction ups as [|u ups IH]; intros acc H0 H; simpl in *; [lia|].
    pose proof (upstreamWeight_pos u). pose proof (weight_sum_nonneg ups).
    rewrite wrap_i64_small by lia. rewrite IH; lia. }
  rewrite E; lia.
Qed.

(** The loop finds the upstream whose interval of cumulative weights contains the target. *)
Lemma primary_loop_spec pre u post target c k :
  0 <= c → c + weight_sum (pre ++ u :: post) < 2 ^ 63 →
  c + weight_sum pre <= target < c + weight_sum pre + upstreamWeight u →
  primary_loop (pre ++ u :: post) target c k = Some (k + length pre)%nat.
Proof.
  revert c k. induction pre as [|v pre IH]; intros c k H0 Hs Ht; simpl in *.
  - pose proof (weight_sum_nonneg post). rewrite wrap_i64_small by (pose proof (upstreamWeight_pos u); lia).
    rewrite (proj2 (Z.ltb_lt _ _)) by lia. f_equal. lia.
  - pose proof (upstreamWeight_pos v). pose proof (weight_sum_nonneg pre).
    pose proof (weight_sum_nonneg (pre ++ u :: post)).
    rewrite wrap_i64_small by lia. rewrite (proj2 (Z.ltb_ge _ _)) by lia.
    rewrite IH by lia. f_equal. lia.
Qed.

(** The upstream in charge of a target below the total. *)
Lemma weight_split ups t :
  0 <= t < weight_sum ups →
  ∃ pre u post, ups = pre ++ u :: post ∧ weight_sum pre <= t < weight_sum pre + upstreamWeight u.
Proof.
  revert t. induction ups as [|u ups IH]; intros t Ht; simpl in Ht; [lia|].
  destruct (Z.lt_ge_cases t (upstreamWeight u)).
  - exists [], u, ups. simpl. split; [done|lia].
  - destruct (IH (t - upstreamWeight u)) as (pre & v & post & -> & ?); [lia|].
    exists (u :: pre), v, post. simpl. split; [done|lia].
Qed.

Lemma weightedPrimaryIndex_spec pre u post index :
  let ups := pre ++ u :: post in
  weight_sum ups < 2 ^ 63 →
  weight_sum pre <= index mod weight_sum ups < weight_sum pre + upstreamWeight u →
  weightedPrimaryIndex ups index = Z.of_nat (length pre).
Proof.
  intros ups Hs Ht. unfold weightedPrimaryIndex. rewrite total_weight_sum by done.
  assert (0 < weight_sum ups) as Hpos.
  { unfold ups. rewrite weight_sum_app. simpl. pose proof (upstreamWeight_pos u).
    pose proof (weight_sum_nonneg pre). pose proof (weight_sum_nonneg post). lia. }
  assert (Z.of_nat (length ups) ≠ 0) by (unfold ups; rewrite length_app; simpl; lia).
  rewrite (proj2 (Z.eqb_neq _ _)), (proj2 (Z.leb_gt _ _)) by lia.
  pose proof (Z.mod_pos_bound index (weight_sum ups) Hpos).
  rewrite wrap_i64_small by lia. unfold ups at 1.
  rewrite primary_loop_spec; [done|lia|fold ups; lia|lia].
Qed.

Lemma seqZ_fmap_mod s a n W q :
  s = a + q * W → 0 <= a → a + n <= W → 0 < W → (λ i, i mod W) <$> seqZ s n = seqZ a n.
Proof.
  intros -> Ha Hn HW. apply list_eq. intros i. rewrite list_lookup_fmap.
  destruct (decide (Z.of_nat i < n)).
  - rewrite !lookup_seqZ_lt by lia. simpl. f_equal.
    replace (a + q * W + Z.of_nat i) with (a + Z.of_nat i + q * W) by lia.
    rewrite Z.mod_add, Z.mod_small by lia. done.
  - by rewrite !lookup_seqZ_ge by lia.
Qed.

(** Consecutive indices, reduced modulo the period, visit every residue once. *)
Lemma seqZ_mod_perm s W : 0 < W → (λ i, i mod W) <$> seqZ s W ≡ₚ seqZ 0 W.
Proof.
  intros HW. set (r := s mod W).
  assert (0 <= r < W) as Hr by (apply Z.mod_pos_bound; lia).
  replace (seqZ s W) with (seqZ s (W - r) ++ seqZ (s + (W - r)) r)
    by (rewrite <- seqZ_app by lia; f_equal; lia).
  pose proof (Z.div_mod s W ltac:(lia)) as Hd. fold r in Hd.
  rewrite fmap_app, (seqZ_fmap_mod s r (W - r) W (s / W)), (seqZ_fmap_mod _ 0 r W (s / W + 1)) by lia.
  rewrite Permutation_app_comm.
  replace (seqZ r (W - r)) with (seqZ (0 + r) (W - r)) by (f_equal; lia).
  rewrite <- seqZ_app by lia. by replace (r + (W - r)) with W by lia.
Qed.

(** How often an index in [idxs] makes [k] the primary. *)
Definition primary_count (ups : list (Upstream RL)) (k : nat) (idxs : list Z) : Z :=
  Z.of_nat (length (bfilter (λ i, weightedPrimaryIndex ups i =? Z.of_nat k) idxs)).

Lemma primary_count_base pre u post :
  let ups := pre ++ u :: post in
  weight_sum ups < 2 ^ 63 →
  primary_count ups (length pre) (seqZ 0 (weight_sum ups)) = upstreamWeight u.
Proof.
  intros ups Hs. assert (weight_sum ups = weight_sum pre + (upstreamWeight u + weight_sum post)) as Hsum
    by (unfold ups; by rewrite weight_sum_app).
  pose proof (weight_sum_nonneg pre). pose proof (weight_sum_nonneg post). pose proof (upstreamWeight_pos u).
  unfold primary_count. rewrite Hsum at 1. rewrite !seqZ_app by lia. rewrite !bfilter_app, !length_app.
  assert (∀ t, 0 <= t < weight_sum ups → weightedPrimaryIndex ups t = Z.of_nat (length pre) →
            weight_sum pre <= t < weight_sum pre + upstreamWeight u) as Hinv.
  { intros t Ht Heq. destruct (weight_split ups t Ht) as (p' & v & q' & Hups & Hb).
    rewrite Hups in Heq. rewrite weightedPrimaryIndex_spec in Heq;
      [|by rewrite <- Hups|rewrite <- Hups, Z.mod_small by lia; lia].
    apply Nat2Z.inj in Heq. unfold ups in Hups. apply app_inj_1 in Hups as [<- [= <- _]]; [done|lia]. }
  rewrite (proj2 (bfilter_nil _ (seqZ 0 _))), (proj2 (bfilter_nil _ (seqZ (0 + weight_sum pre + _) _))).
  - rewrite bfilter_all; [simpl; rewrite length_seqZ; lia|].
    intros t Ht%elem_of_seqZ. apply Z.eqb_eq. apply weightedPrimaryIndex_spec; [done|].
    rewrite Z.mod_small by (fold ups; lia). lia.
  - intros t Ht%elem_of_seqZ. apply Z.eqb_neq. intros Heq. apply Hinv in Heq; lia.
  - intros t Ht%elem_of_seqZ. apply Z.eqb_neq. intros Heq. apply Hinv in Heq; lia.
Qed.

Lemma weightedPrimaryIndex_mod ups i :
  0 < weight_sum ups < 2 ^ 63 →
  weightedPrimaryIndex ups (i mod weight_sum ups) = weightedPrimaryIndex ups i.
Proof.
  intros Hs. unfold weightedPrimaryIndex. rewrite total_weight_sum by lia.
  rewrite Z.mod_mod by lia. rewrite (proj2 (Z.leb_gt _ 0)) by lia. done.
Qed.

(** ** Properties *)

(** C38: weighted round-robin is exactly fair: over any [W] consecutive request numbers, [W]
    the sum of the weights, each upstream of a tier is the primary exactly as often as its
    weight says. *)
Theorem weighted_round_robin_fair ups k u start :
  weight_sum ups < 2 ^ 63 → ups !! k = Some u →
  primary_count ups k (seqZ start (weight_sum ups)) = upstreamWeight u.
Proof.
  intros Hs Hk. destruct (list_elem_of_split_length _ _ _ Hk) as (pre & post & -> & ->).
  rewrite <- (primary_count_base pre u post Hs).
  assert (0 < weight_sum (pre ++ u :: post)) as Hpos.
  { rewrite weight_sum_app. simpl. pose proof (upstreamWeight_pos u).
    pose proof (weight_sum_nonneg pre). pose proof (weight_sum_nonneg post). lia. }
  unfold primary_count. f_equal.
  rewrite <- (Permutation_length (bfilter_Permutation _ _ _ (seqZ_mod_perm start _ Hpos))).
  induction (seqZ start (weight_sum (pre ++ u :: post))) as [|i l IH]; [done|]. simpl.
  rewrite weightedPrimaryIndex_mod by done.
  destruct (weightedPrimaryIndex _ i =? _); simpl; by rewrite IH.
Qed.

End order.
