(* ===== verification/Pool.v ===== *)
(** * The upstream pool: scoring and selection

    [upstream/pool.go], the part that picks upstreams for a request.  [p.upstreams] is a list
    of [Upstream] records; selection reads them and only advances the round-robin counter,
    which is the state the selection functions return.  One clock reading serves a whole
    selection. *)

From S2P Require Import Prelude GoStrings GoFloat Config CircuitBreaker ScoreTracker AutoTuner.
From S2P Require Import BlockCache Upstream Selector PoolOrder.
#[local] Open Scope Z_scope.
#[local] Open Scope go_scope.

Section pool.
Context `{RL : RateLib}.
Implicit Types u : Upstream RL.

(** ** Data *)

Record Pool := {
  p_networkID : string;
  p_upstreams : list (Upstream RL);
  p_rrCounter : Z;
  p_hasArchive : bool;
  p_routing : RoutingConfig;
  p_blockCache : BlockCache;
  p_finalizedEpoch : Z;
  p_slotsPerEpoch : Z;
  p_lastPublished : Z * string;
}.

Record UpstreamScoreDetails := {
  d_LoadBalancing : string;
  d_Score : float64;
  d_ErrorRate : float64;
  d_P90Latency : Z;
  d_HeadLag : Z;
  d_SyncDistance : Z;
  d_Samples : Z;
}.

Definition set_LoadBalancing (s : string) (r : RoutingConfig) : RoutingConfig :=
  {| ro_LoadBalancing := s; ro_StickySession := ro_StickySession r;
     ro_StickyTimeout := ro_StickyTimeout r; ro_BlockedPaths := ro_BlockedPaths r;
     ro_RebalanceInterval := ro_RebalanceInterval r;
     ro_RebalanceThreshold := ro_RebalanceThreshold r;
     ro_RebalanceMaxSweep := ro_RebalanceMaxSweep r; ro_ScoreWeights := ro_ScoreWeights r;
     ro_ScoreWindowSize := ro_ScoreWindowSize r; ro_ClientRoutes := ro_ClientRoutes r;
     ro_RouteRules := ro_RouteRules r |}.

(** [NewPool]; [None] is its error. *)
Definition NewPool (now : Z) (networkID : string) (cfgs : list UpstreamConfig) (routing : RoutingConfig)
    (health : HealthConfig) (defaultCB : option CircuitBreakerConfig) : option Pool :=
  match cfgs with
  | [] => None
  | _ =>
      let ups := (λ c, Upstream_New now networkID c defaultCB (ro_ScoreWindowSize routing)) <$> cfgs in
      let routing := if String.eqb (ro_LoadBalancing routing) "" then set_LoadBalancing "round-robin" routing
                     else routing in
      Some {| p_networkID := networkID; p_upstreams := ups; p_rrCounter := 0;
              p_hasArchive := existsb IsArchive ups; p_routing := routing;
              p_blockCache := NewBlockCache (h_FollowDistance health) (h_MaxHeadDistance health);
              p_finalizedEpoch := 0; p_slotsPerEpoch := 0; p_lastPublished := (0, ""%string) |}
  end.

Definition set_rr (n : Z) (p : Pool) : Pool :=
  {| p_networkID := p_networkID p; p_upstreams := p_upstreams p; p_rrCounter := n;
     p_hasArchive := p_hasArchive p; p_routing := p_routing p; p_blockCache := p_blockCache p;
     p_finalizedEpoch := p_finalizedEpoch p; p_slotsPerEpoch := p_slotsPerEpoch p;
     p_lastPublished := p_lastPublished p |}.

(** ** Scores *)

(** [if w > 0 { weights.x = w }] *)
Definition or_positive (w d : float64) : float64 := if f64_ltb f64_zero w then w else d.

Definition effectiveScoreWeights (p : Pool) : ScoreWeightsConfig :=
  let d := {| sw_ErrorRate := f64_of_Z 4; sw_Latency := f64_of_Z 8; sw_HeadLag := f64_of_Z 2;
              sw_SyncDistance := f64_of_Z 1 |} in
  match ro_ScoreWeights (p_routing p) with
  | None => d
  | Some w =>
      {| sw_ErrorRate := or_positive (sw_ErrorRate w) (sw_ErrorRate d);
         sw_Latency := or_positive (sw_Latency w) (sw_Latency d);
         sw_HeadLag := or_positive (sw_HeadLag w) (sw_HeadLag d);
         sw_SyncDistance := or_positive (sw_SyncDistance w) (sw_SyncDistance d) |}
  end.

Definition scoreDetails (p : Pool) u (canonicalSlot : Z) (w : ScoreWeightsConfig) (snap : ScoreSnapshot)
    : UpstreamScoreDetails :=
  let headLag := if HeadSlot u <? canonicalSlot then canonicalSlot -u HeadSlot u else 0 in
  {| d_LoadBalancing := ro_LoadBalancing (p_routing p);
     d_Score := calculateScore (sw_ErrorRate w) (sw_Latency w) (sw_HeadLag w) (sw_SyncDistance w)
                  (ErrorRate snap) (P90Latency snap) headLag (SyncDistance u);
     d_ErrorRate := ErrorRate snap; d_P90Latency := P90Latency snap; d_HeadLag := headLag;
     d_SyncDistance := SyncDistance u; d_Samples := Samples snap |}.

Definition scoreDetailsWithWeights (p : Pool) u (canonicalSlot : Z) (w : ScoreWeightsConfig)
    (apiPath : string) : UpstreamScoreDetails :=
  scoreDetails p u canonicalSlot w (ScoreSnapshotForPath apiPath u).

Definition rawPathScoreDetailsWithWeights (p : Pool) u (canonicalSlot : Z) (w : ScoreWeightsConfig)
    (apiPath : string) : UpstreamScoreDetails :=
  scoreDetails p u canonicalSlot w (PathScoreSnapshot apiPath u).

Definition ScoreDetails (p : Pool) u : UpstreamScoreDetails :=
  scoreDetailsWithWeights p u (MaxSlot (p_blockCache p)) (effectiveScoreWeights p) "".

(** ** Ordering *)

Definition weightedScoreWithinPriority (p : Pool) (ups : list (Upstream RL)) (canonicalSlot : Z)
    (w : ScoreWeightsConfig) (rng : orderRNG) (apiPath : string) : list (Upstream RL) * orderRNG :=
  weightedOrderWithoutReplacement ups rng
    (λ u, d_Score (scoreDetailsWithWeights p u canonicalSlot w apiPath)).

(** The order of [out] (already sorted by priority) for request number [requestIndex]. *)
Definition order_policy (p : Pool) (requestIndex : Z) (apiPath : string) (out : list (Upstream RL))
    : list (Upstream RL) :=
  let rng := newOrderRNG (requestIndex +u 1) in
  let lb := ro_LoadBalancing (p_routing p) in
  if String.eqb lb "random" then
    (reorderWithinPriority (λ sub rng, weightedRandomWithinPriority sub rng) out rng).1
  else if String.eqb lb "least-conn" then stable_sort lessConn out
  else if String.eqb lb "score" then
    let canonSlot := MaxSlot (p_blockCache p) in
    let w := effectiveScoreWeights p in
    (reorderWithinPriority (λ sub rng, weightedScoreWithinPriority p sub canonSlot w rng apiPath) out rng).1
  else
    (reorderWithinPriority (λ sub rng, (weightedRoundRobinWithinPriority sub requestIndex, rng)) out rng).1.

Definition orderForPath (p : Pool) (ups : list (Upstream RL)) (apiPath : string)
    : Pool * list (Upstream RL) :=
  let out := stable_sort byPriority ups in
  let requestIndex := p_rrCounter p in
  (set_rr (p_rrCounter p +u 1) p, order_policy p requestIndex apiPath out).

(** ** Selection *)

(** The tiers: canonical and ready, ready, healthy, everything. *)
Definition candidate_tier (now : Z) (p : Pool) (all : list (Upstream RL)) : list (Upstream RL) :=
  let c := bfilter (λ u, IsReady now u && IsOnCanonicalFork (u_ID u) (p_blockCache p)) all in
  let c := if (length c =? 0)%nat then bfilter (IsReady now) all else c in
  let c := if (length c =? 0)%nat then bfilter IsHealthy all else c in
  if (length c =? 0)%nat then all else c.

Definition prefer_head (p : Pool) (prefer : bool) (candidates : list (Upstream RL)) : list (Upstream RL) :=
  if prefer then
    match CanonicalHeadSeenBy (p_blockCache p) with
    | Some seen =>
        let preferred := bfilter (λ u, bool_decide (u_ID u ∈ seen)) candidates in
        if (0 <? length preferred)%nat then preferred else candidates
    | None => candidates
    end
  else candidates.

Definition prefer_allowed (now : Z) (candidates : list (Upstream RL)) : list (Upstream RL) :=
  let allowed := bfilter (AllowRequest now) candidates in
  if (0 <? length allowed)%nat then allowed else candidates.

Definition selectFromCandidatesForPath (now : Z) (p : Pool) (all : list (Upstream RL)) (n : nat)
    (apiPath : string) (preferCanonicalHead : bool) : Pool * list (Upstream RL) :=
  let candidates := prefer_allowed now (prefer_head p preferCanonicalHead (candidate_tier now p all)) in
  let '(p, ordered) := orderForPath p candidates apiPath in
  (p, take n ordered).

Definition SelectForPath (now : Z) (p : Pool) (apiPath : string) (n : nat) :=
  selectFromCandidatesForPath now p (p_upstreams p) n apiPath false.
Definition Select (now : Z) (p : Pool) (n : nat) := SelectForPath now p "" n.
Definition SelectForPathPreferCanonicalHead (now : Z) (p : Pool) (apiPath : string) (n : nat) :=
  selectFromCandidatesForPath now p (p_upstreams p) n apiPath true.
Definition SelectMatching (now : Z) (p : Pool) (sel : Selector) (apiPath : string) (n : nat) :=
  selectFromCandidatesForPath now p (bfilter (Selector_Match sel) (p_upstreams p)) n apiPath false.
Definition HasMatching (p : Pool) (sel : Selector) : bool := existsb (Selector_Match sel) (p_upstreams p).
Definition HasArchive (p : Pool) : bool := p_hasArchive p.
Definition SelectForPathArchive (now : Z) (p : Pool) (apiPath : string) (n : nat)
    : Pool * list (Upstream RL) :=
  let archives := bfilter IsArchive (p_upstreams p) in
  if (length archives =? 0)%nat then (p, [])
  else selectFromCandidatesForPath now p archives n apiPath false.

Definition ByID (p : Pool) (id : string) : option (Upstream RL) :=
  find_first (λ u, String.eqb (u_ID u) id) (p_upstreams p).
Definition usable (now : Z) (p : Pool) u : bool :=
  IsReady now u && negb (IsForked (u_ID u) (p_blockCache p)).
Definition ByGlob (now : Z) (p : Pool) (pattern : string) : option (Upstream RL) :=
  find_first (λ u, path_Match pattern (u_ID u) && usable now p u) (p_upstreams p).

(** [GetForPath]; [None] is the error "no upstreams available". *)
Definition GetForPath (now : Z) (p : Pool) (preferID apiPath : string) : Pool * option (Upstream RL) :=
  let preferred :=
    if nonempty preferID then
      match (if ContainsAny preferID "*?[" then ByGlob now p preferID else ByID p preferID) with
      | Some u => if usable now p u then Some u else None
      | None => None
      end
    else None in
  match preferred with
  | Some u => (p, Some u)
  | None => let '(p, ups) := SelectForPath now p apiPath 1 in (p, head ups)
  end.
Definition Get (now : Z) (p : Pool) (preferID : string) := GetForPath now p preferID "".

(** ** Health summary *)

(** The tallies of [HealthCounts]: total, up, degraded, down. *)
Definition HealthCounts (p : Pool) (sel : Selector) : Z * Z * Z * Z :=
  foldl (λ '(total, up, degraded, down) u,
    if negb (Selector_Match sel u) then (total, up, degraded, down)
    else match Upstream_Health u with
         | HealthUp => (total + 1, up + 1, degraded, down)
         | HealthDegraded => (total + 1, up, degraded + 1, down)
         | HealthDown => (total + 1, up, degraded, down + 1)
         end) (0, 0, 0, 0) (p_upstreams p).

Definition NodeHealthStatus (p : Pool) (sel : Selector) : HealthStatus :=
  let '(_, up, degraded, _) := HealthCounts p sel in
  if 0 <? up then HealthUp else if 0 <? degraded then HealthDegraded else HealthDown.

(** ** Lemmas *)

Definition prio_sorted (l : list (Upstream RL)) : Prop := StronglySorted Z.le (u_Priority <$> l).

(** A comparison that never contradicts the priorities sorts by priority. *)
Lemma insert_prio_sorted less u l :
  (∀ a b : Upstream RL, less a b = true → u_Priority a <= u_Priority b) →
  (∀ a b : Upstream RL, less a b = false → u_Priority b <= u_Priority a) →
  prio_sorted l → prio_sorted (insert_stable less u l).
Proof.
  intros H1 H2. unfold prio_sorted. induction l as [|v l IH]; intros Hs; simpl.
  - repeat constructor.
  - inversion Hs as [|?? Hs' Hall]; subst. destruct (less v u) eqn:E; simpl.
    + constructor; [by apply IH|]. rewrite Forall_forall in *. intros z.
      rewrite insert_stable_perm. simpl. intros [->|Hz]%elem_of_cons; [by apply H1|by apply Hall].
    + constructor; [done|]. constructor; [by apply H2|].
      eapply Forall_impl; [done|]. simpl. intros z Hz. specialize (H2 v u E). lia.
Qed.

Lemma sort_prio_sorted less l :
  (∀ a b : Upstream RL, less a b = true → u_Priority a <= u_Priority b) →
  (∀ a b : Upstream RL, less a b = false → u_Priority b <= u_Priority a) →
  prio_sorted (stable_sort less l).
Proof.
  intros H1 H2. induction l as [|u l IH]; [constructor|]. by apply insert_prio_sorted.
Qed.

Lemma lessConn_true (a b : Upstream RL) : lessConn a b = true → u_Priority a <= u_Priority b.
Proof. unfold lessConn. destruct (Z.eqb_spec (u_Priority a) (u_Priority b)); simpl; intros; b2p; lia. Qed.

Lemma lessConn_false (a b : Upstream RL) : lessConn a b = false → u_Priority b <= u_Priority a.
Proof. unfold lessConn. destruct (Z.eqb_spec (u_Priority a) (u_Priority b)); simpl; intros; b2p; lia. Qed.

Lemma byPriority_sorted l : prio_sorted (stable_sort byPriority l).
Proof. apply sort_prio_sorted; unfold byPriority; intros a b H; b2p; lia. Qed.

Lemma reorder_ok orderFn out rng :
  (∀ l r, (orderFn l r).1 ≡ₚ l) → prio_sorted out →
  (reorderWithinPriority orderFn out rng).1 ≡ₚ out ∧
  prio_sorted (reorderWithinPriority orderFn out rng).1.
Proof.
  intros Hp Hs. destruct (reorder_loop_spec orderFn (length out) out rng Hp) as [H1 H2]; [done|].
  split; [done|]. unfold prio_sorted, reorderWithinPriority. by rewrite H2.
Qed.

Lemma order_policy_ok p i path out :
  prio_sorted out → order_policy p i path out ≡ₚ out ∧ prio_sorted (order_policy p i path out).
Proof.
  intros Hs. unfold order_policy. destruct (String.eqb _ "random").
  { apply reorder_ok; [|done]. intros. apply weightedOrder_perm. }
  destruct (String.eqb _ "least-conn").
  { split; [apply stable_sort_perm|]. apply sort_prio_sorted; [apply lessConn_true|apply lessConn_false]. }
  destruct (String.eqb _ "score").
  { apply reorder_ok; [|done]. intros. apply weightedOrder_perm. }
  apply reorder_ok; [|done]. intros. apply rotate_perm.
Qed.

(** The candidates a selection orders. *)
Definition candidates (now : Z) (p : Pool) (all : list (Upstream RL)) (prefer : bool) : list (Upstream RL) :=
  prefer_allowed now (prefer_head p prefer (candidate_tier now p all)).

Lemma select_order now p all n path prefer :
  ∃ ordered, (selectFromCandidatesForPath now p all n path prefer).2 = take n ordered ∧
    ordered ≡ₚ candidates now p all prefer ∧ prio_sorted ordered.
Proof.
  exists (order_policy p (p_rrCounter p) path (stable_sort byPriority (candidates now p all prefer))).
  destruct (order_policy_ok p (p_rrCounter p) path (stable_sort byPriority (candidates now p all prefer)))
    as [H1 H2]; [apply byPriority_sorted|].
  split_and!; [done| |done]. by rewrite H1, stable_sort_perm.
Qed.

(** A filter with a fall-back keeps a non-empty list non-empty. *)
Lemma filter_or_ne {A} (l k : list A) : k ≠ [] → (if (length l =? 0)%nat then k else l) ≠ [].
Proof. intros Hk. by destruct l. Qed.

Lemma candidate_tier_ne now p all : all ≠ [] → candidate_tier now p all ≠ [].
Proof. intros. by apply filter_or_ne. Qed.

Lemma prefer_head_sub p prefer l u : u ∈ prefer_head p prefer l → u ∈ l.
Proof.
  unfold prefer_head. destruct prefer; [|done]. destruct (CanonicalHeadSeenBy _); [|done].
  destruct (0 <? _)%nat; [|done]. rewrite elem_of_bfilter. by intros [? _].
Qed.

Lemma prefer_head_ne p prefer l : l ≠ [] → prefer_head p prefer l ≠ [].
Proof.
  intros Hl. unfold prefer_head. destruct prefer; [|done]. destruct (CanonicalHeadSeenBy _); [|done].
  destruct (Nat.ltb_spec 0 (length (bfilter (λ u, bool_decide (u_ID u ∈ g)) l))) as [H|H]; [|done].
  intros E. rewrite E in H. simpl in H. lia.
Qed.

Lemma prefer_allowed_sub now l u : u ∈ prefer_allowed now l → u ∈ l.
Proof.
  unfold prefer_allowed. destruct (0 <? _)%nat; [|done]. rewrite elem_of_bfilter. by intros [? _].
Qed.

Lemma prefer_allowed_ne now l : l ≠ [] → prefer_allowed now l ≠ [].
Proof.
  intros Hl. unfold prefer_allowed.
  destruct (Nat.ltb_spec 0 (length (bfilter (AllowRequest now) l))) as [H|H]; [|done].
  intros E. rewrite E in H. simpl in H. lia.
Qed.

Lemma candidates_ne now p all prefer : all ≠ [] → candidates now p all prefer ≠ [].
Proof. intros. by apply prefer_allowed_ne, prefer_head_ne, candidate_tier_ne. Qed.

Lemma candidates_tier now p all prefer u :
  u ∈ candidates now p all prefer → u ∈ candidate_tier now p all.
Proof. intros H%prefer_allowed_sub. by eapply prefer_head_sub. Qed.

Lemma filter_or_sublist {A} (l k all : list A) :
  l `sublist_of` all → k `sublist_of` all → (if (length l =? 0)%nat then k else l) `sublist_of` all.
Proof. by destruct (length l =? 0)%nat. Qed.

(** Selection only drops upstreams. *)
Lemma candidates_sublist now p all prefer : candidates now p all prefer `sublist_of` all.
Proof.
  assert (candidate_tier now p all `sublist_of` all) as Ht.
  { unfold candidate_tier. repeat apply filter_or_sublist; done || apply bfilter_sublist. }
  assert (prefer_head p prefer (candidate_tier now p all) `sublist_of` all) as Hh.
  { unfold prefer_head. destruct prefer; [|done]. destruct (CanonicalHeadSeenBy _); [|done].
    destruct (0 <? _)%nat; [|done]. etransitivity; [apply bfilter_sublist|done]. }
  unfold candidates, prefer_allowed. destruct (0 <? _)%nat; [|done].
  etransitivity; [apply bfilter_sublist|done].
Qed.

Definition ready_canonical (now : Z) (p : Pool) u : bool :=
  IsReady now u && IsOnCanonicalFork (u_ID u) (p_blockCache p).

(** What the tier promises. *)
Lemma tier_spec now p all u :
  u ∈ candidate_tier now p all →
  u ∈ all ∧
  ((∃ v, v ∈ all ∧ ready_canonical now p v = true) → ready_canonical now p u = true) ∧
  ((∃ v, v ∈ all ∧ IsReady now v = true) → IsReady now u = true) ∧
  ((∃ v, v ∈ all ∧ IsHealthy v = true) → IsHealthy u = true).
Proof.
  assert (∀ (f : Upstream RL → bool) l, length (bfilter f l) = 0%nat → ¬ ∃ v, v ∈ l ∧ f v = true) as Hnone.
  { intros f l Hl (v & Hv & Hf). apply nil_length_inv in Hl.
    assert (v ∈ bfilter f l) as Hin by by apply elem_of_bfilter. rewrite Hl in Hin. set_solver. }
  assert (∀ v, ready_canonical now p v = true → IsReady now v = true) as HR
    by (unfold ready_canonical; intros v H; by b2p).
  assert (∀ v, IsReady now v = true → IsHealthy v = true) as HH
    by (unfold IsReady; intros v H; by b2p).
  unfold candidate_tier. fold (ready_canonical now p).
  destruct (Nat.eqb_spec (length (bfilter (ready_canonical now p) all)) 0) as [E1|E1].
  - destruct (Nat.eqb_spec (length (bfilter (IsReady now) all)) 0) as [E2|E2].
    + destruct (Nat.eqb_spec (length (bfilter IsHealthy all)) 0) as [E3|E3].
      * intros Hu. split_and!; [done|intros H; by destruct (Hnone _ _ E1)|
          intros H; by destruct (Hnone _ _ E2)|intros H; by destruct (Hnone _ _ E3)].
      * intros [Hu Hf]%elem_of_bfilter. split_and!; [done|intros H; by destruct (Hnone _ _ E1)|
          intros H; by destruct (Hnone _ _ E2)|done].
    + rewrite (proj2 (Nat.eqb_neq _ _) E2). intros [Hu Hf]%elem_of_bfilter.
      split_and!; [done|intros H; by destruct (Hnone _ _ E1)|done|auto].
  - rewrite (proj2 (Nat.eqb_neq _ _) E1). cbv zeta. rewrite (proj2 (Nat.eqb_neq _ _) E1).
    intros [Hu Hf]%elem_of_bfilter. split_and!; auto.
Qed.

(** ** Properties *)

(** A selection from a non-empty pool is never empty: it has [min n |candidates|] members,
    all distinct if the pool's are, listed by ascending priority, and no candidate left out
    has a better priority than one that was taken. *)
Theorem select_shape now p all n path prefer :
  let r := (selectFromCandidatesForPath now p all n path prefer).2 in
  length r = min n (length (candidates now p all prefer)) ∧
  (all ≠ [] → (0 < n)%nat → r ≠ []) ∧
  (NoDup all → NoDup r) ∧
  prio_sorted r ∧
  ∀ u v, u ∈ r → v ∈ candidates now p all prefer → v ∉ r → u_Priority u <= u_Priority v.
Proof.
  destruct (select_order now p all n path prefer) as (ordered & -> & Hp & Hs). cbv zeta.
  assert (length (take n ordered) = min n (length (candidates now p all prefer))) as Hlen
    by (rewrite length_take; by rewrite Hp).
  assert (∀ u v, u ∈ take n ordered → v ∈ drop n ordered → u_Priority u <= u_Priority v) as Hord.
  { intros u v Hu Hv. unfold prio_sorted in Hs. rewrite <- (take_drop n ordered), fmap_app in Hs.
    apply (StronglySorted_app_1_elem_of _ _ _ _ _ Hs); by apply list_elem_of_fmap_2. }
  split_and!; [done| | | |].
  - intros Hall Hn Hr. pose proof (candidates_ne now p all prefer Hall) as Hne. rewrite Hr in Hlen.
    destruct (candidates now p all prefer); [done|]. simpl in Hlen. lia.
  - intros Hnd. apply (sublist_NoDup (take n ordered) ordered); [|apply sublist_take].
    rewrite Hp. by eapply sublist_NoDup; [|apply candidates_sublist].
  - unfold prio_sorted in *. rewrite <- (take_drop n ordered), fmap_app in Hs.
    by eapply StronglySorted_app_1_l.
  - intros u v Hu Hv Hno. apply (Hord u v Hu). rewrite <- Hp in Hv.
    rewrite <- (take_drop n ordered) in Hv. apply elem_of_app in Hv as [|]; done.
Qed.

(** C12: a selection comes from the best tier that has a member: if any upstream is ready and on
    the canonical fork, only such upstreams are returned; failing that only ready ones;
    failing that only healthy ones. *)
Theorem select_best_tier now p all n path prefer u :
  u ∈ (selectFromCandidatesForPath now p all n path prefer).2 →
  u ∈ all ∧
  ((∃ v, v ∈ all ∧ ready_canonical now p v = true) → ready_canonical now p u = true) ∧
  ((∃ v, v ∈ all ∧ IsReady now v = true) → IsReady now u = true) ∧
  ((∃ v, v ∈ all ∧ IsHealthy v = true) → IsHealthy u = true).
Proof.
  destruct (select_order now p all n path prefer) as (ordered & -> & Hp & _). intros Hu.
  apply tier_spec, (candidates_tier now p all prefer). rewrite <- Hp.
  eapply elem_of_sublist; [exact Hu|apply sublist_take].
Qed.

(** For a named-head request, if any upstream of the best tier has reported the canonical
    head block, then every upstream returned has reported it and is on the canonical fork:
    a client that just learned of the block is not sent to a node that has not seen it. *)
Theorem select_prefers_head now p all n path seen u :
  CanonicalHeadSeenBy (p_blockCache p) = Some seen →
  (∃ v, v ∈ candidate_tier now p all ∧ u_ID v ∈ seen) →
  u ∈ (selectFromCandidatesForPath now p all n path true).2 →
  u_ID u ∈ seen ∧ ForkStatus (u_ID u) (p_blockCache p) = FCanonical.
Proof.
  intros Hseen (v & Hv & Hin) Hu.
  destruct (select_order now p all n path true) as (ordered & Heq & Hp & _). rewrite Heq in Hu.
  assert (u ∈ candidates now p all true) as Hc.
  { rewrite <- Hp. eapply elem_of_sublist; [exact Hu|apply sublist_take]. }
  unfold candidates in Hc. apply prefer_allowed_sub in Hc. unfold prefer_head in Hc. rewrite Hseen in Hc.
  assert (v ∈ bfilter (λ u, bool_decide (u_ID u ∈ seen)) (candidate_tier now p all)) as Hvf
    by (apply elem_of_bfilter; split; [done|by apply bool_decide_true]).
  destruct (Nat.ltb_spec 0 (length (bfilter (λ u, bool_decide (u_ID u ∈ seen)) (candidate_tier now p all))))
    as [_|H0]; [|destruct (bfilter _ _); [set_solver|simpl in H0; lia]].
  apply elem_of_bfilter in Hc as [_ Hb%bool_decide_eq_true]. split; [done|].
  revert Hseen. unfold CanonicalHeadSeenBy, ForkStatus, canonicalHeadLocked.
  destruct (String.eqb _ ""); [done|]. destruct (rootMap _ !! _ ≫= _) as [b|] eqn:E; [|done].
  destruct (decide _); [done|]. intros [= <-]. destruct (_ =? 0); [done|].
  unfold BlockCache.seen. by rewrite bool_decide_true by set_solver.
Qed.

(** A sticky or preferred upstream is honoured exactly while it is ready and not on a
    competing fork (a lagging one keeps its slot); otherwise the pool still answers with a
    selected upstream, and it fails only when it has none. *)
Theorem GetForPath_spec now p id path u :
  ContainsAny id "*?[" = false → ByID p id = Some u →
  (usable now p u = true ∧ nonempty id = true → GetForPath now p id path = (p, Some u)) ∧
  (usable now p u = false → ∃ p' v, GetForPath now p id path = (p', Some v) ∧ v ∈ p_upstreams p).
Proof.
  intros Hg Hid. unfold GetForPath. rewrite Hg, Hid. split.
  - intros [-> ->]. done.
  - intros ->. replace (if nonempty id then None else None) with (@None (Upstream RL)) by by destruct (nonempty id).
    unfold SelectForPath. destruct (selectFromCandidatesForPath now p (p_upstreams p) 1 path false) as [p' ups] eqn:E.
    destruct (select_order now p (p_upstreams p) 1 path false) as (ordered & Heq & Hp & _).
    rewrite E in Heq. simpl in Heq. subst ups.
    assert (p_upstreams p ≠ []) as Hne.
    { intros Hnil. unfold ByID in Hid. by rewrite Hnil in Hid. }
    destruct ordered as [|v ordered].
    { pose proof (candidates_ne now p (p_upstreams p) false Hne) as Hcn. apply Permutation_nil_l in Hp. done. }
    exists p', v. simpl. split; [done|].
    eapply elem_of_sublist; [|apply (candidates_sublist now p _ false)]. rewrite <- Hp. set_solver.
Qed.

(** The tallies add up and are the numbers of matching upstreams in each state. *)
Definition matching (p : Pool) (sel : Selector) : list (Upstream RL) :=
  bfilter (Selector_Match sel) (p_upstreams p).
Definition health_count (h : HealthStatus) (l : list (Upstream RL)) : Z :=
  Z.of_nat (length (bfilter (λ u, bool_decide (Upstream_Health u = h)) l)).

Lemma pair4_eq (a b c d a' b' c' d' : Z) :
  a = a' → b = b' → c = c' → d = d' → (a, b, c, d) = (a', b', c', d').
Proof. congruence. Qed.

Lemma HealthCounts_spec p sel :
  HealthCounts p sel =
  (Z.of_nat (length (matching p sel)), health_count HealthUp (matching p sel),
   health_count HealthDegraded (matching p sel), health_count HealthDown (matching p sel)).
Proof.
  unfold HealthCounts, matching.
  assert (∀ l t a b c, foldl (λ '(total, up, degraded, down) u,
    if negb (Selector_Match sel u) then (total, up, degraded, down)
    else match Upstream_Health u with
         | HealthUp => (total + 1, up + 1, degraded, down)
         | HealthDegraded => (total + 1, up, degraded + 1, down)
         | HealthDown => (total + 1, up, degraded, down + 1)
         end) (t, a, b, c) l =
    (t + Z.of_nat (length (bfilter (Selector_Match sel) l)),
     a + health_count HealthUp (bfilter (Selector_Match sel) l),
     b + health_count HealthDegraded (bfilter (Selector_Match sel) l),
     c + health_count HealthDown (bfilter (Selector_Match sel) l))) as H; [|by rewrite H].
  unfold health_count. induction l as [|u l IH]; intros t a b c; simpl; [apply pair4_eq; lia|].
  destruct (Selector_Match sel u); simpl; [|by rewrite IH].
  destruct (Upstream_Health u); rewrite IH; simpl; apply pair4_eq; lia.
Qed.

Lemma health_count_pos h l :
  (0 <? health_count h l) = true ↔ ∃ u, u ∈ l ∧ Upstream_Health u = h.
Proof.
  unfold health_count. rewrite Z.ltb_lt. split.
  - intros H. destruct (bfilter _ l) as [|u k] eqn:E; [simpl in H; lia|]. exists u.
    assert (u ∈ bfilter (λ u, bool_decide (Upstream_Health u = h)) l) as Hu by (rewrite E; set_solver).
    apply elem_of_bfilter in Hu as [? Hb]. by b2p.
  - intros (u & Hu & Hh). assert (u ∈ bfilter (λ u, bool_decide (Upstream_Health u = h)) l) as Hin
      by (apply elem_of_bfilter; split; [done|by apply bool_decide_true]).
    destruct (bfilter _ l); [set_solver|simpl; lia].
Qed.

(** The health reported for a selector is the best health among the upstreams it selects:
    it is attained by one of them and none is better; "down" is reported also when the
    selector matches nothing. *)
Theorem NodeHealthStatus_best p sel :
  (∀ u, u ∈ matching p sel → hs_val (Upstream_Health u) <= hs_val (NodeHealthStatus p sel)) ∧
  (NodeHealthStatus p sel ≠ HealthDown →
     ∃ u, u ∈ matching p sel ∧ Upstream_Health u = NodeHealthStatus p sel).
Proof.
  unfold NodeHealthStatus. rewrite HealthCounts_spec.
  destruct (0 <? health_count HealthUp (matching p sel)) eqn:E1.
  { apply health_count_pos in E1. split; [|done]. intros u _. by destruct (Upstream_Health u). }
  assert (∀ u, u ∈ matching p sel → Upstream_Health u ≠ HealthUp) as H1.
  { intros u Hu Hh. assert (false = true); [|done]. rewrite <- E1. apply health_count_pos. by exists u. }
  destruct (0 <? health_count HealthDegraded (matching p sel)) eqn:E2.
  { apply health_count_pos in E2. split; [|done]. intros u Hu. specialize (H1 u Hu).
    by destruct (Upstream_Health u). }
  assert (∀ u, u ∈ matching p sel → Upstream_Health u ≠ HealthDegraded) as H2.
  { intros u Hu Hh. assert (false = true); [|done]. rewrite <- E2. apply health_count_pos. by exists u. }
  split; [|done]. intros u Hu. specialize (H1 u Hu). specialize (H2 u Hu). by destruct (Upstream_Health u).
Qed.
End pool.

Arguments Pool _ : clear implicits.

(** ** Witnesses *)

Definition demo_ups : list (Upstream ToyRate) :=
  [Upstream_New 0 "mainnet" demo_upstream_cfg None 2;
   SetHealth HealthDown (Upstream_New 0 "mainnet"
     {| uc_ID := "b"; uc_URL := "http://b"; uc_Headers := ∅; uc_Failsafe := None; uc_Priority := 1;
        uc_Weight := 3; uc_Archive := true; uc_RateLimiting := None |} None 2)].

Definition demo_routing : RoutingConfig :=
  {| ro_LoadBalancing := "round-robin"; ro_StickySession := true; ro_StickyTimeout := Minute;
     ro_BlockedPaths := []; ro_RebalanceInterval := 0; ro_RebalanceThreshold := f64_zero;
     ro_RebalanceMaxSweep := 0; ro_ScoreWeights := None; ro_ScoreWindowSize := 100;
     ro_ClientRoutes := []; ro_RouteRules := [] |}.

Definition demo_pool (bc : BlockCache) : Pool ToyRate :=
  {| p_networkID := "mainnet"; p_upstreams := demo_ups; p_rrCounter := 0; p_hasArchive := true;
     p_routing := demo_routing; p_blockCache := bc; p_finalizedEpoch := 0; p_slotsPerEpoch := 32;
     p_lastPublished := (0, ""%string) |}.

Definition demo_a : Upstream ToyRate := Upstream_New 0 "mainnet" demo_upstream_cfg None 2.

(** A member of a list whose identifiers are known. *)
Lemma head_by_id (l : list (Upstream ToyRate)) id ids :
  u_ID <$> l = id :: ids → ∃ u, u ∈ l ∧ u_ID u = id.
Proof. destruct l as [|u l]; [done|]. intros [= <- _]. exists u. split; [apply list_elem_of_here|done]. Qed.

Lemma select_best_tier_witness :
  ∃ u, u_ID u = "a"%string ∧ ((∃ v, v ∈ demo_ups ∧ IsReady 5 v = true) → IsReady 5 u = true).
Proof.
  destruct (head_by_id (selectFromCandidatesForPath 5 (demo_pool (NewBlockCache 64 2)) demo_ups 2 "" false).2
    "a" []) as (u & Hu & Hid); [vm_compute; reflexivity|].
  exists u. split; [exact Hid|].
  exact (proj1 (proj2 (proj2 (select_best_tier 5 (demo_pool (NewBlockCache 64 2)) demo_ups 2 "" false u Hu)))).
Defined.

Lemma select_prefers_head_witness :
  ∃ u, u_ID u = "a"%string ∧ ForkStatus (u_ID u) (p_blockCache (demo_pool bc_demo)) = FCanonical.
Proof.
  destruct (head_by_id (selectFromCandidatesForPath 5 (demo_pool bc_demo) demo_ups 1 "" true).2
    "a" []) as (u & Hu & Hid); [vm_compute; reflexivity|].
  destruct (head_by_id (candidate_tier 5 (demo_pool bc_demo) demo_ups) "a" []) as (v & Hv & Hvid);
    [vm_compute; reflexivity|].
  exists u. split; [exact Hid|].
  refine (proj2 (select_prefers_head 5 (demo_pool bc_demo) demo_ups 1 "" {[ "a"; "b" ]}%string u _ _ Hu)).
  - vm_compute. reflexivity.
  - exists v. split; [exact Hv|]. rewrite Hvid. set_solver.
Defined.

Lemma GetForPath_spec_witness :
  GetForPath 5 (demo_pool (NewBlockCache 64 2)) "a" "" = (demo_pool (NewBlockCache 64 2), Some demo_a).
Proof.
  destruct (GetForPath_spec 5 (demo_pool (NewBlockCache 64 2)) "a" "" demo_a) as [H _];
    [reflexivity|reflexivity|]. apply H. split; vm_compute; reflexivity.
Defined.

Lemma weighted_round_robin_fair_witness :
  primary_count demo_ups 1 (seqZ 17 (weight_sum demo_ups)) = 3.
Proof.
  assert (∃ u, demo_ups !! 1%nat = Some u ∧ upstreamWeight u = 3) as (u & Hu & Hw) by (eexists; split; reflexivity).
  rewrite <- Hw. apply (weighted_round_robin_fair demo_ups 1 u 17); [vm_compute; reflexivity|exact Hu].
Defined.
