(* ===== verification/PoolState.v ===== *)
(** * Finality, head publication and shared state

    The state-keeping half of [upstream/pool.go] (finalized epoch, chain timing, publication of
    the canonical head) and [state/redis.go], whose Redis server is a map from networks to
    epochs that the source's Lua script updates; whether a call reaches it is an argument. *)

From S2P Require Import Prelude GoStrings GoFloat Config CircuitBreaker ScoreTracker AutoTuner.
From S2P Require Import BlockCache Upstream Selector PoolOrder Pool.
#[local] Open Scope Z_scope.
#[local] Open Scope go_scope.

(** ** The lock-free maximum

    The loop [for { old := Load(); if epoch <= old || CompareAndSwap(old, epoch) { break } }] of
    [UpdateFinalizedEpoch] and [seedFinalizedEpoch], one memory access per step. *)

Inductive cas_pc := CLoad | CCas (old : Z) | CDone.

Record cas_thread := { ct_epoch : Z; ct_pc : cas_pc }.

(** One access by a thread that sees the shared value [v]. *)
Definition cas_access (v : Z) (t : cas_thread) : Z * cas_thread :=
  match ct_pc t with
  | CLoad => (v, {| ct_epoch := ct_epoch t; ct_pc := if ct_epoch t <=? v then CDone else CCas v |})
  | CCas old =>
      if v =? old then (ct_epoch t, {| ct_epoch := ct_epoch t; ct_pc := CDone |})
      else (v, {| ct_epoch := ct_epoch t; ct_pc := CLoad |})
  | CDone => (v, t)
  end.

(** Threads take turns in any order. *)
Inductive cas_steps : Z * list cas_thread → Z * list cas_thread → Prop :=
  | cas_refl s : cas_steps s s
  | cas_step s v ts i t v' t' :
      cas_steps s (v, ts) → ts !! i = Some t → cas_access v t = (v', t') →
      cas_steps s (v', <[i := t']> ts).

Definition cas_start (epochs : list Z) : list cas_thread :=
  (λ e, {| ct_epoch := e; ct_pc := CLoad |}) <$> epochs.

(** The value the interleaving ends with: the maximum. *)
Definition max_list (v : Z) (l : list Z) : Z := foldl Z.max v l.

Record cas_inv (v0 : Z) (epochs : list Z) (s : Z * list cas_thread) : Prop := {
  ci_epochs : ct_epoch <$> s.2 = epochs;
  ci_low : v0 <= s.1;
  ci_mem : s.1 = v0 ∨ s.1 ∈ epochs;
  ci_pc t : t ∈ s.2 → match ct_pc t with
                      | CLoad => True
                      | CCas old => old < ct_epoch t ∧ old <= s.1
                      | CDone => ct_epoch t <= s.1
                      end;
}.

Lemma cas_access_spec v t v' t' :
  cas_access v t = (v', t') →
  match ct_pc t with CCas old => old < ct_epoch t ∧ old <= v | CDone => ct_epoch t <= v | CLoad => True end →
  ct_epoch t' = ct_epoch t ∧ v <= v' ∧ (v' = v ∨ v' = ct_epoch t) ∧
  match ct_pc t' with CCas old => old < ct_epoch t' ∧ old <= v' | CDone => ct_epoch t' <= v' | CLoad => True end.
Proof.
  unfold cas_access. destruct t as [e [|old|]]; simpl.
  - intros [= <- <-] _. simpl. destruct (Z.leb_spec e v); simpl; split_and!; auto; lia.
  - destruct (Z.eqb_spec v old); intros [= <- <-] ?; simpl; split_and!; auto; lia.
  - intros [= <- <-] ?. simpl. split_and!; auto; lia.
Qed.

Lemma cas_steps_inv v0 epochs s s' : cas_steps s s' → cas_inv v0 epochs s → cas_inv v0 epochs s'.
Proof.
  induction 1 as [|s v ts i t v' t' Hs IH Hi Ha]; [done|]. intros H0. destruct (IH H0) as [H1 H2 H3 H4].
  assert (t ∈ ts) as Hin by by eapply list_elem_of_lookup_2.
  destruct (cas_access_spec v t v' t' Ha (H4 t Hin)) as (E1 & E2 & E3 & E4). simpl in *. split; simpl.
  - rewrite list_fmap_insert, E1, <- H1. apply list_insert_id. by rewrite list_lookup_fmap, Hi.
  - lia.
  - destruct E3 as [->| ->]; [done|]. right. rewrite <- H1. by apply list_elem_of_fmap_2.
  - intros t2 Ht2. apply list_elem_of_lookup in Ht2 as [j Hj].
    destruct (decide (i = j)) as [->|Hne].
    + rewrite list_lookup_insert_eq in Hj by by eapply lookup_lt_Some. by simplify_eq.
    + rewrite list_lookup_insert_ne in Hj by done. apply list_elem_of_lookup_2 in Hj.
      specialize (H4 t2 Hj). destruct (ct_pc t2); simpl in *; lia.
Qed.

Lemma max_list_ge v l : v <= max_list v l ∧ ∀ e, e ∈ l → e <= max_list v l.
Proof.
  revert v. induction l as [|x l IH]; intros v; unfold max_list; simpl; [split; [lia|set_solver]|].
  destruct (IH (Z.max v x)) as [H1 H2]. unfold max_list in *. split; [lia|].
  intros e [->|He]%elem_of_cons; [lia|auto].
Qed.

Lemma max_list_le v l m : v <= m → (∀ e, e ∈ l → e <= m) → max_list v l <= m.
Proof.
  revert v. induction l as [|x l IH]; intros v Hv Hl; unfold max_list; simpl; [done|].
  apply IH; [|set_solver]. pose proof (Hl x ltac:(set_solver)). lia.
Qed.

(** ** The pool's finalized epoch *)

Section pool_state.
Context `{RL : RateLib}.
Implicit Types p : Pool RL.

Definition set_finalized (e : Z) p : Pool RL :=
  {| p_networkID := p_networkID p; p_upstreams := p_upstreams p; p_rrCounter := p_rrCounter p;
     p_hasArchive := p_hasArchive p; p_routing := p_routing p; p_blockCache := p_blockCache p;
     p_finalizedEpoch := e; p_slotsPerEpoch := p_slotsPerEpoch p;
     p_lastPublished := p_lastPublished p |}.
Definition set_blockCache (bc : BlockCache) p : Pool RL :=
  {| p_networkID := p_networkID p; p_upstreams := p_upstreams p; p_rrCounter := p_rrCounter p;
     p_hasArchive := p_hasArchive p; p_routing := p_routing p; p_blockCache := bc;
     p_finalizedEpoch := p_finalizedEpoch p; p_slotsPerEpoch := p_slotsPerEpoch p;
     p_lastPublished := p_lastPublished p |}.
Definition set_lastPublished (l : Z * string) p : Pool RL :=
  {| p_networkID := p_networkID p; p_upstreams := p_upstreams p; p_rrCounter := p_rrCounter p;
     p_hasArchive := p_hasArchive p; p_routing := p_routing p; p_blockCache := p_blockCache p;
     p_finalizedEpoch := p_finalizedEpoch p; p_slotsPerEpoch := p_slotsPerEpoch p;
     p_lastPublished := l |}.

Definition SetChainTiming (genesis sps spe : Z) p : Pool RL :=
  {| p_networkID := p_networkID p; p_upstreams := p_upstreams p; p_rrCounter := p_rrCounter p;
     p_hasArchive := p_hasArchive p; p_routing := p_routing p;
     p_blockCache := SetSlotTiming genesis sps (p_blockCache p);
     p_finalizedEpoch := p_finalizedEpoch p; p_slotsPerEpoch := spe;
     p_lastPublished := p_lastPublished p |}.

(** [cmp.Or(p.slotsPerEpoch, config.DefaultSlotsPerEpoch)]. *)
Definition SlotsPerEpoch p : Z :=
  if p_slotsPerEpoch p =? 0 then DefaultSlotsPerEpoch else p_slotsPerEpoch p.

Definition Pool_FinalizedEpoch p : Z := p_finalizedEpoch p.

Definition FinalizedSlot p : Z :=
  if p_finalizedEpoch p =? 0 then 0 else p_finalizedEpoch p *u SlotsPerEpoch p.

Definition plausibleFinalizedEpoch (now epoch : Z) p : bool :=
  match CurrentWallClockSlot now (p_blockCache p) with
  | None => true
  | Some s => epoch <=? s / SlotsPerEpoch p
  end.

(** The compare-and-swap loop, run without interference. *)
Definition cas_max (epoch : Z) p : Pool RL :=
  if epoch <=? p_finalizedEpoch p then p else set_finalized epoch p.

(** [UpdateFinalizedEpoch]: the pool and the merged value, which is also what is offered to
    shared state when it is positive. *)
Definition Pool_UpdateFinalizedEpoch (now epoch : Z) p : Pool RL * Z :=
  let p := if plausibleFinalizedEpoch now epoch p then cas_max epoch p else p in
  (p, p_finalizedEpoch p).

Definition seedFinalizedEpoch (now epoch : Z) p : Pool RL :=
  if plausibleFinalizedEpoch now epoch p then cas_max epoch p else p.

(** [StartStateSync] with the value [GetFinalized] returned ([None]: no shared state). *)
Definition StartStateSync (now : Z) (shared : option Z) p : Pool RL :=
  match shared with None => p | Some e => seedFinalizedEpoch now e p end.

(** [SyncCanonicalHead]: the head to publish, if any. *)
Definition SyncCanonicalHead (shared : bool) p : Pool RL * option (Z * string) :=
  if negb shared then (p, None)
  else
    let '(slot, root) := LocalCanonicalHead (p_blockCache p) in
    if (slot =? 0) || String.eqb root "" then (p, None)
    else if bool_decide (p_lastPublished p = (slot, root)) then (p, None)
    else (set_lastPublished (slot, root) p, Some (slot, root)).

Definition RecordRemoteHead (now slot : Z) (root : string) p : Pool RL :=
  set_blockCache (AddBlock now remoteVoter slot root "" (p_blockCache p)) p.

(** ** Properties *)

(** C35: however the memory accesses of concurrent finality reports interleave, the aggregate
    never decreases, and once all of them have returned it is exactly the maximum of the
    old value and the reported epochs: no report is lost. *)
Theorem finalized_cas_is_max v0 epochs v ts :
  cas_steps (v0, cas_start epochs) (v, ts) →
  v0 <= v ∧ ((∀ t, t ∈ ts → ct_pc t = CDone) → v = max_list v0 epochs).
Proof.
  intros Hs. assert (cas_inv v0 epochs (v0, cas_start epochs)) as H0.
  { split; simpl; [|lia|by left|].
    - unfold cas_start. rewrite <- list_fmap_compose. apply list_fmap_id.
    - intros t (e & -> & _)%list_elem_of_fmap. done. }
  destruct (cas_steps_inv _ _ _ _ Hs H0) as [H1 H2 H3 H4]. simpl in *. split; [done|].
  intros Hdone. destruct (max_list_ge v0 epochs) as [M1 M2]. apply Z.le_antisymm.
  - destruct H3 as [->|Hin]; [done|by apply M2].
  - apply max_list_le; [done|]. intros e He. rewrite <- H1 in He.
    apply list_elem_of_fmap in He as (t & -> & Ht). specialize (H4 t Ht). by rewrite (Hdone t Ht) in H4.
Qed.

(** Reports and seeds, each at its time. *)
Inductive final_op := FReport (now epoch : Z) | FSeed (now epoch : Z).
Definition final_run p (ops : list final_op) : Pool RL :=
  foldl (λ p op, match op with
                 | FReport now e => (Pool_UpdateFinalizedEpoch now e p).1
                 | FSeed now e => seedFinalizedEpoch now e p end) p ops.

Definition final_op_before (g T : Z) (op : final_op) : Prop :=
  match op with FReport now _ | FSeed now _ => g < now <= T end.

Lemma cas_max_frame e p :
  p_finalizedEpoch (cas_max e p) = Z.max (p_finalizedEpoch p) e ∧
  p_blockCache (cas_max e p) = p_blockCache p ∧ p_slotsPerEpoch (cas_max e p) = p_slotsPerEpoch p.
Proof. unfold cas_max. destruct (Z.leb_spec e (p_finalizedEpoch p)); simpl; split_and!; done || lia. Qed.

Lemma SlotsPerEpoch_pos p : 0 <= p_slotsPerEpoch p → 0 < SlotsPerEpoch p.
Proof. unfold SlotsPerEpoch. destruct (Z.eqb_spec (p_slotsPerEpoch p) 0); [done|lia]. Qed.

(** One report keeps the bound. *)
Lemma report_bound g sps T now e p :
  0 < g → T < 2 ^ 62 → sps < 2 ^ 63 → 0 <= p_slotsPerEpoch p → g < now <= T →
  genesisTime (p_blockCache p) = g → secondsPerSlot (p_blockCache p) = sps →
  p_finalizedEpoch p <= wall_slot g sps T / SlotsPerEpoch p →
  let p' := seedFinalizedEpoch now e p in
  p_finalizedEpoch p <= p_finalizedEpoch p' <= wall_slot g sps T / SlotsPerEpoch p ∧
  p_blockCache p' = p_blockCache p ∧ p_slotsPerEpoch p' = p_slotsPerEpoch p.
Proof.
  intros Hg HT Hs Hspe Hnow Eg Es Hle. unfold seedFinalizedEpoch, plausibleFinalizedEpoch, CurrentWallClockSlot.
  rewrite wall_clock_known by (rewrite ?Eg, ?Es; lia). rewrite Eg, Es.
  destruct (Z.leb_spec e (wall_slot g sps now / SlotsPerEpoch p)); [|split_and!; done || lia].
  destruct (cas_max_frame e p) as (-> & -> & ->).
  pose proof (wall_slot_mono g sps now T ltac:(lia)) as Hm.
  pose proof (Z.div_le_mono _ _ (SlotsPerEpoch p) (SlotsPerEpoch_pos p Hspe) Hm). split_and!; done || lia.
Qed.

(** C37: with a known genesis time, no sequence of finality reports, from upstreams or from
    shared state, makes the pool's finalized epoch decrease or exceed the epoch of the wall
    clock; so the slot it marks as final, computed on [uint64], does not wrap and does not
    exceed the wall-clock slot either. *)
Theorem finalized_epoch_plausible g sps T p ops :
  0 < g → T < 2 ^ 62 → sps < 2 ^ 63 → 0 <= p_slotsPerEpoch p →
  genesisTime (p_blockCache p) = g → secondsPerSlot (p_blockCache p) = sps →
  Forall (final_op_before g T) ops →
  0 <= p_finalizedEpoch p <= wall_slot g sps T / SlotsPerEpoch p →
  p_finalizedEpoch p <= p_finalizedEpoch (final_run p ops) <= wall_slot g sps T / SlotsPerEpoch p ∧
  FinalizedSlot (final_run p ops) = p_finalizedEpoch (final_run p ops) * SlotsPerEpoch p ∧
  FinalizedSlot (final_run p ops) <= wall_slot g sps T.
Proof.
  intros Hg HT Hs Hspe Eg Es Hops Hp.
  assert (p_finalizedEpoch p <= p_finalizedEpoch (final_run p ops) <= wall_slot g sps T / SlotsPerEpoch p ∧
          p_slotsPerEpoch (final_run p ops) = p_slotsPerEpoch p) as [Hb Hspe'].
  { revert p Hspe Eg Es Hp. induction Hops as [|op ops Hop _ IH]; intros p Hspe Eg Es Hp; [split; [simpl; lia|done]|].
    assert (∃ now e, g < now <= T ∧ final_run p (op :: ops) = final_run (seedFinalizedEpoch now e p) ops)
      as (now & e & Hn & ->) by (destruct op as [now e|now e]; exists now, e; done).
    destruct (report_bound g sps T now e p) as (H1 & H2 & H3); [done..|lia|].
    assert (SlotsPerEpoch (seedFinalizedEpoch now e p) = SlotsPerEpoch p) as H4
      by (unfold SlotsPerEpoch; by rewrite H3).
    destruct (IH (seedFinalizedEpoch now e p)) as [H5 H6]; rewrite ?H2, ?H3, ?H4; try done; [lia|].
    rewrite H4 in H5. split; [lia|congruence]. }
  split; [done|]. pose proof (SlotsPerEpoch_pos p Hspe) as Hpos.
  assert (p_finalizedEpoch (final_run p ops) * SlotsPerEpoch p <= wall_slot g sps T) as Hslot.
  { pose proof (Z.mul_div_le (wall_slot g sps T) (SlotsPerEpoch p) Hpos). nia. }
  assert (wall_slot g sps T < 2 ^ 63) as Hw.
  { unfold wall_slot. apply Z.div_lt_upper_bound; [destruct (Z.leb_spec sps 0); [done|lia]|].
    assert (1 <= if sps <=? 0 then DefaultSecondsPerSlot else sps); [destruct (Z.leb_spec sps 0); [done|lia]|nia]. }
  assert (FinalizedSlot (final_run p ops) = p_finalizedEpoch (final_run p ops) * SlotsPerEpoch p) as ->; [|done].
  unfold FinalizedSlot. replace (SlotsPerEpoch (final_run p ops)) with (SlotsPerEpoch p)
    by (unfold SlotsPerEpoch; by rewrite Hspe').
  destruct (Z.eqb_spec (p_finalizedEpoch (final_run p ops)) 0) as [->|]; [done|].
  unfold u64_mul. apply wrap64_small. unfold is_u64, u64_modulus. nia.
Qed.

(** Only heads with a vote from one of this instance's own upstreams are published, so a
    vote received from another instance is never echoed back to it; and the same head is not
    published twice in a row. *)
Theorem SyncCanonicalHead_local p p' slot root :
  bc_wf (p_blockCache p) → SyncCanonicalHead true p = (p', Some (slot, root)) →
  (∃ b id, is_head false (p_blockCache p) b ∧ b_Slot b = slot ∧ b_Root b = root ∧
           id ∈ b_SeenBy b ∧ id ≠ remoteVoter) ∧
  p_lastPublished p ≠ (slot, root) ∧
  (SyncCanonicalHead true p').2 = None.
Proof.
  intros Hwf. unfold SyncCanonicalHead. simpl negb. cbv iota.
  destruct (LocalCanonicalHead (p_blockCache p)) as [s r] eqn:E.
  destruct ((s =? 0) || String.eqb r "") eqn:E0; [done|].
  destruct (bool_decide_reflect (p_lastPublished p = (s, r))) as [|Hne]; [done|].
  intros [= <- <- <-]. simpl. rewrite E, E0. split_and!; [|done|by rewrite bool_decide_true].
  unfold LocalCanonicalHead in E. b2p.
  destruct (Z.le_gt_cases (maxSlot (p_blockCache p)) (maxHeadDistance (p_blockCache p))) as [Hle|Hgt].
  { rewrite canonicalHead_short in E by done. congruence. }
  destruct (canonicalHead_spec false _ Hwf) as [[E' _]|(b & E' & Hb)]; [lia|congruence|].
  rewrite E in E'. simplify_eq. pose proof (hd_votes _ _ _ Hb) as Hv.
  assert (∃ id, id ∈ b_SeenBy b ∧ id ≠ remoteVoter) as (id & ? & ?); [|by exists b, id].
  apply dec_stable. intros Hno.
  assert (b_SeenBy b ⊆ {[ remoteVoter ]}) as Hsub.
  { intros id Hid. apply elem_of_singleton, dec_stable. intros Hx. apply Hno. by exists id. }
  apply subseteq_size in Hsub. rewrite size_singleton in Hsub. unfold votes in Hv. simpl in Hv.
  destruct (bool_decide_reflect (remoteVoter ∈ b_SeenBy b)) as [|Hnr]; [lia|].
  apply Hnr. assert (0 < size (b_SeenBy b))%nat as Hsz by lia.
  apply size_pos_elem_of in Hsz as [id Hid].
  destruct (decide (id = remoteVoter)) as [->|Hx]; [done|]. destruct Hno. by exists id.
Qed.

End pool_state.

(** ** Redis shared state *)

(** The Redis keys [ebeacon:finalized_epoch:<network>]. *)
Definition redis_store := gmap string Z.

(** The instance's local copy, [RedisState.finalized]. *)
Record RedisState := { rs_instanceID : string; rs_finalized : gmap string Z }.

Definition final_of (m : gmap string Z) (network : string) : Z := default 0 (m !! network).

(** The Lua script: set the key only to a higher epoch. *)
Definition finalizedEpochScript (network : string) (epoch : Z) (r : redis_store) : redis_store :=
  if final_of r network <? epoch then <[network := epoch]> r else r.

Definition rs_set (m : gmap string Z) (rs : RedisState) : RedisState :=
  {| rs_instanceID := rs_instanceID rs; rs_finalized := m |}.

(** [PublishFinalized]; [reached] says whether Redis ran the script. *)
Definition PublishFinalized (network : string) (epoch : Z) (reached : bool)
    (w : RedisState * redis_store) : RedisState * redis_store :=
  let '(rs, r) := w in
  if epoch <=? final_of (rs_finalized rs) network then (rs, r)
  else if negb reached then (rs, r)
  else
    let r := finalizedEpochScript network epoch r in
    if final_of (rs_finalized rs) network <? epoch
    then (rs_set (<[network := epoch]> (rs_finalized rs)) rs, r) else (rs, r).

(** [GetFinalized]; an unreachable Redis counts as epoch 0. *)
Definition GetFinalized (network : string) (reached : bool) (w : RedisState * redis_store)
    : (RedisState * redis_store) * Z :=
  let '(rs, r) := w in
  let remote := if reached then final_of r network else 0 in
  let rs := if final_of (rs_finalized rs) network <? remote
            then rs_set (<[network := remote]> (rs_finalized rs)) rs else rs in
  ((rs, r), final_of (rs_finalized rs) network).

Record HeadUpdate := { hu_Network : string; hu_Slot : Z; hu_Root : string; hu_Origin : string }.

(** The filter of [subscribe]: malformed updates and the instance's own are dropped. *)
Definition accept_update (rs : RedisState) (u : HeadUpdate) : bool :=
  negb (String.eqb (hu_Network u) "" || String.eqb (hu_Root u) "" || (hu_Slot u =? 0) ||
        String.eqb (hu_Origin u) (rs_instanceID rs)).

(** [PublishHead]: the message other instances receive. *)
Definition PublishHead (rs : RedisState) (network : string) (slot : Z) (root : string) : HeadUpdate :=
  {| hu_Network := network; hu_Slot := slot; hu_Root := root; hu_Origin := rs_instanceID rs |}.

(** [headCh] has room for 64 updates; one that does not fit is dropped. *)
Definition push_update (ch : list HeadUpdate) (u : HeadUpdate) : list HeadUpdate :=
  if (length ch <? 64)%nat then ch ++ [u] else ch.

(** Several instances around one Redis. *)
Inductive rs_op :=
  | RPublish (i : nat) (network : string) (epoch : Z) (reached : bool)
  | RGet (i : nat) (network : string) (reached : bool).

Definition rs_step (w : list RedisState * redis_store) (op : rs_op) : list RedisState * redis_store :=
  let '(l, r) := w in
  match op with
  | RPublish i n e ok =>
      match l !! i with
      | None => w
      | Some rs => let '(rs', r') := PublishFinalized n e ok (rs, r) in (<[i := rs']> l, r')
      end
  | RGet i n ok =>
      match l !! i with
      | None => w
      | Some rs => let '(rs', r', _) := GetFinalized n ok (rs, r) in (<[i := rs']> l, r')
      end
  end.

(** No instance believes in more than Redis holds. *)
Definition rs_inv (w : list RedisState * redis_store) : Prop :=
  (∀ n, 0 <= final_of w.2 n) ∧
  ∀ rs n, rs ∈ w.1 → 0 <= final_of (rs_finalized rs) n <= final_of w.2 n.

Lemma final_of_insert m n n' e : final_of (<[n := e]> m) n' = if decide (n = n') then e else final_of m n'.
Proof. unfold final_of. rewrite lookup_insert. by destruct (decide (n = n')). Qed.

Lemma script_spec n e r n' :
  final_of (finalizedEpochScript n e r) n' =
  if decide (n = n') then Z.max (final_of r n') e else final_of r n'.
Proof.
  unfold finalizedEpochScript. destruct (Z.ltb_spec (final_of r n) e); rewrite ?final_of_insert;
    destruct (decide (n = n')) as [->|]; done || lia.
Qed.

Lemma Publish_spec n e ok rs r rs' r' :
  PublishFinalized n e ok (rs, r) = (rs', r') →
  (∀ n', final_of (rs_finalized rs) n' <= final_of r n') →
  (∀ n', final_of r n' <= final_of r' n') ∧
  (∀ n', final_of (rs_finalized rs) n' <= final_of (rs_finalized rs') n' <= final_of r' n') ∧
  (ok = true → e <= final_of r' n).
Proof.
  intros H Hle. unfold PublishFinalized in H.
  destruct (Z.leb_spec e (final_of (rs_finalized rs) n)) as [H1|H1].
  { simplify_eq. split_and!; [done|intros n'; specialize (Hle n'); lia|]. specialize (Hle n). lia. }
  destruct ok; simpl in H; [|simplify_eq; split_and!; [done|intros n'; specialize (Hle n'); lia|done]].
  rewrite (proj2 (Z.ltb_lt _ _)) in H by lia. simplify_eq. simpl.
  split_and!.
  - intros n'. rewrite script_spec. destruct (decide _); lia.
  - intros n'. specialize (Hle n'). rewrite script_spec, final_of_insert.
    destruct (decide (n = n')) as [->|]; lia.
  - intros _. rewrite script_spec, decide_True by done. lia.
Qed.

Lemma Get_spec n ok rs r rs' r' z :
  GetFinalized n ok (rs, r) = (rs', r', z) →
  (∀ n', 0 <= final_of r n') →
  (∀ n', 0 <= final_of (rs_finalized rs) n' <= final_of r n') →
  r' = r ∧ (∀ n', final_of (rs_finalized rs) n' <= final_of (rs_finalized rs') n' <= final_of r' n').
Proof.
  intros H H0 Hle. unfold GetFinalized in H. simplify_eq. split; [done|]. intros n'.
  specialize (Hle n'). destruct ok.
  - destruct (Z.ltb_spec (final_of (rs_finalized rs) n) (final_of r' n)); simpl; [|lia].
    rewrite final_of_insert. destruct (decide (n = n')) as [->|]; lia.
  - destruct (Z.ltb_spec (final_of (rs_finalized rs) n) 0); simpl; [|lia].
    rewrite final_of_insert. destruct (decide (n = n')) as [->|]; lia.
Qed.

#[local] Opaque PublishFinalized GetFinalized.

Lemma rs_step_inv w op :
  rs_inv w → match op with RPublish _ _ e _ => 0 <= e | _ => True end →
  rs_inv (rs_step w op) ∧ ∀ n, final_of w.2 n <= final_of (rs_step w op).2 n.
Proof.
  destruct w as [l r]. intros [H0 Hl] Hop. simpl in *. unfold rs_step.
  destruct op as [i n e ok|i n ok]; (destruct (l !! i) as [rs|] eqn:Ei; [|split; [by split|intros; simpl; lia]]).
  - assert (rs ∈ l) as Hin by by eapply list_elem_of_lookup_2.
    destruct (PublishFinalized n e ok (rs, r)) as [rs' r'] eqn:E.
    destruct (Publish_spec _ _ _ _ _ _ _ E) as (P1 & P2 & _); [intros; by apply Hl|]. simpl.
    split; [|exact P1]. split; simpl; [intros n'; specialize (P1 n'); specialize (H0 n'); lia|].
    intros rs2 n' Hrs2. apply list_elem_of_lookup in Hrs2 as [j Hj]. destruct (decide (i = j)) as [->|].
    + rewrite list_lookup_insert_eq in Hj by by eapply lookup_lt_Some. apply (inj Some) in Hj as <-.
      specialize (Hl rs n' Hin). specialize (P2 n'). lia.
    + rewrite list_lookup_insert_ne in Hj by done. apply list_elem_of_lookup_2 in Hj.
      specialize (Hl rs2 n' Hj). specialize (P1 n'). lia.
  - assert (rs ∈ l) as Hin by by eapply list_elem_of_lookup_2.
    remember (GetFinalized n ok (rs, r)) as g eqn:E. destruct g as [[rs' r'] z]. symmetry in E.
    destruct (Get_spec _ _ _ _ _ _ _ E) as (-> & P2); [done|intros; by apply Hl|]. simpl.
    split; [|intros; lia]. split; simpl; [done|].
    intros rs2 n' Hrs2. apply list_elem_of_lookup in Hrs2 as [j Hj]. destruct (decide (i = j)) as [->|].
    + rewrite list_lookup_insert_eq in Hj by by eapply lookup_lt_Some. apply (inj Some) in Hj as <-.
      specialize (Hl rs n' Hin). specialize (P2 n'). lia.
    + rewrite list_lookup_insert_ne in Hj by done. apply list_elem_of_lookup_2 in Hj. auto.
Qed.

#[local] Transparent PublishFinalized GetFinalized.

Definition rs_op_ok (op : rs_op) : Prop := match op with RPublish _ _ e _ => 0 <= e | _ => True end.

Lemma rs_run_inv ops w : Forall rs_op_ok ops → rs_inv w → rs_inv (foldl rs_step w ops).
Proof.
  intros Hops. revert w. induction Hops as [|op ops Hop _ IH]; intros w Hw; [done|].
  apply IH. by apply rs_step_inv.
Qed.

(** With any number of instances publishing and reading finalized epochs, in any order and
    with any calls to Redis failing, the shared epoch of a network never decreases, no
    instance holds a higher epoch than Redis, and a publication that is skipped or that
    reaches Redis leaves it at that epoch or above, so skipping is sound and failed writes
    are retried. *)
Theorem redis_finalized_monotone ids ops i rs n e :
  Forall rs_op_ok ops → 0 <= e →
  let w := foldl rs_step ((λ id, {| rs_instanceID := id; rs_finalized := ∅ |}) <$> ids, ∅) ops in
  w.1 !! i = Some rs →
  (∀ op n', rs_op_ok op → final_of w.2 n' <= final_of (rs_step w op).2 n') ∧
  (∀ n', final_of (rs_finalized rs) n' <= final_of w.2 n') ∧
  (e <= final_of (rs_finalized rs) n → e <= final_of w.2 n) ∧
  e <= final_of (rs_step w (RPublish i n e true)).2 n.
Proof.
  intros Hops He w Hi.
  assert (rs_inv w) as Hw.
  { apply rs_run_inv; [done|]. split; simpl; [done|].
    intros r n' (id & -> & _)%list_elem_of_fmap. done. }
  assert (rs ∈ w.1) as Hin by by eapply list_elem_of_lookup_2.
  assert (∀ n', final_of (rs_finalized rs) n' <= final_of w.2 n') as Hle by (intros; by apply Hw).
  split_and!; [intros op n' Hop; by apply rs_step_inv|done|intros; specialize (Hle n); lia|].
  destruct w as [l r]. simpl in Hi. unfold rs_step. rewrite Hi.
  destruct (PublishFinalized n e true (rs, r)) as [rs' r'] eqn:E.
  destruct (Publish_spec _ _ _ _ _ _ _ E Hle) as (_ & _ & H). by apply H.
Qed.

(** ** Witnesses *)

Lemma finalized_cas_is_max_witness :
  ∃ ts, cas_steps (3, cas_start [7; 5]) (7, ts) ∧ 7 = max_list 3 [7; 5].
Proof.
  assert (cas_steps (3, cas_start [7; 5]) (7, [{| ct_epoch := 7; ct_pc := CDone |}; {| ct_epoch := 5; ct_pc := CDone |}])) as H.
  { eapply (cas_step _ 7 [_; {| ct_epoch := 5; ct_pc := CLoad |}] 1); [|reflexivity|reflexivity].
    eapply (cas_step _ 7 [_; {| ct_epoch := 5; ct_pc := CCas 3 |}] 1); [|reflexivity|reflexivity].
    eapply (cas_step _ 3 [{| ct_epoch := 7; ct_pc := CCas 3 |}; _] 0); [|reflexivity|reflexivity].
    eapply (cas_step _ 3 [{| ct_epoch := 7; ct_pc := CCas 3 |}; {| ct_epoch := 5; ct_pc := CLoad |}] 1); [|reflexivity|reflexivity].
    eapply (cas_step _ 3 [{| ct_epoch := 7; ct_pc := CLoad |}; _] 0); [|reflexivity|reflexivity].
    apply cas_refl. }
  eexists. split; [exact H|]. apply (finalized_cas_is_max 3 [7; 5] 7 _ H).
  intros t Ht. repeat (apply elem_of_cons in Ht as [->|Ht]; [reflexivity|]). by apply not_elem_of_nil in Ht.
Defined.

Definition demo_pool_timed : Pool ToyRate := SetChainTiming 1000 12 32 (demo_pool (NewBlockCache 64 2)).

Lemma finalized_epoch_plausible_witness :
  p_finalizedEpoch (final_run demo_pool_timed [FReport 20000 50; FSeed 20000 1000000]) = 50.
Proof.
  destruct (finalized_epoch_plausible 1000 12 20000 demo_pool_timed [FReport 20000 50; FSeed 20000 1000000])
    as [H _]; [lia|lia|lia|vm_compute; congruence|reflexivity|reflexivity| |vm_compute; split; congruence|].
  - repeat (constructor; [vm_compute; intuition congruence|]). constructor.
  - vm_compute. reflexivity.
Defined.

Lemma SyncCanonicalHead_local_witness :
  ∃ b id, is_head false (p_blockCache (demo_pool bc_demo)) b ∧ b_Slot b = 10 ∧ b_Root b = "r10"%string ∧
          id ∈ b_SeenBy b ∧ id ≠ remoteVoter.
Proof.
  refine (proj1 (SyncCanonicalHead_local (demo_pool bc_demo) (SyncCanonicalHead true (demo_pool bc_demo)).1
    10 "r10" _ _)).
  - simpl p_blockCache. unfold bc_demo. apply (bc_run_wf bc_demo_ops); [exact bc_demo_ok|].
    apply bc_start_wf; vm_compute; split; congruence.
  - rewrite (surjective_pairing (SyncCanonicalHead true (demo_pool bc_demo))). apply (f_equal2 pair); [reflexivity|].
    vm_compute. reflexivity.
Defined.

Lemma redis_finalized_monotone_witness :
  9 <= final_of (rs_step ([{| rs_instanceID := "x"; rs_finalized := ∅ |}], ∅) (RPublish 0 "mainnet" 9 true)).2 "mainnet".
Proof.
  apply (redis_finalized_monotone ["x"%string] [] 0 {| rs_instanceID := "x"; rs_finalized := ∅ |} "mainnet" 9);
    [constructor|lia|reflexivity].
Defined.
