(* ===== verification/Health.v ===== *)
(** * The health monitor

    [upstream/health.go]: the five probes of an upstream.  What the HTTP client and the JSON
    decoder deliver is an argument of a probe; [elapsed] is [time.Since(started)].  The pollers
    that repeat the probes ([every]) are timers and are not modelled. *)

From S2P Require Import Prelude GoStrings GoFloat Config CircuitBreaker ScoreTracker AutoTuner.
From S2P Require Import BlockCache Upstream Selector PoolOrder Pool PoolState.
#[local] Open Scope Z_scope.
#[local] Open Scope go_scope.

(** ** Replies *)

(** What sending a probe gives: the request could not be built, the transport failed, or a
    response arrived with its status and the decoded body ([None]: decoding failed). *)
Inductive probe_reply (A : Type) :=
  | PBadRequest
  | PTransport
  | PResponse (status : Z) (body : option A).
Arguments PBadRequest {A}.
Arguments PTransport {A}.
Arguments PResponse {A} status body.

Record syncStatusResponse := {
  ss_HeadSlot : string;
  ss_SyncDistance : string;
  ss_IsSyncing : bool;
  ss_ElOffline : bool;
}.

(** [data.finalized.epoch], [data.version]. *)
Definition finalityCheckpointsResponse : Type := string.
Definition nodeVersionResponse : Type := string.

Record beaconHeaderResponse := { bh_Root : string; bh_Slot : string; bh_ParentRoot : string }.

(** [getJSON]: [None] is any of its errors. *)
Definition getJSON {A} (r : probe_reply A) : option A :=
  match r with
  | PResponse status body => if status =? 200 then body else None
  | _ => None
  end.

(** The patterns [(?i)^Lighthouse/] and so on, as lower-case prefixes. *)
Definition clientTypePatterns : list (string * string) :=
  [("lighthouse/", ClientLighthouse); ("prysm/", ClientPrysm); ("teku/", ClientTeku);
   ("nimbus/", ClientNimbus); ("lodestar/", ClientLodestar); ("grandine/", ClientGrandine);
   ("caplin/", ClientCaplin)]%string.

Definition IsKnownClientType (name : string) : bool :=
  existsb (λ p, String.eqb p.2 (ToLower name)) clientTypePatterns.

(** The loop of [checkVersion]: the first pattern that matches, or "unknown". *)
Definition detect_client (version : string) : string :=
  match find_first (λ p, HasPrefix (ToLower version) p.1) clientTypePatterns with
  | Some p => p.2
  | None => ClientUnknown
  end.

Section health_monitor.
Context `{RL : RateLib}.
Implicit Types u : Upstream RL.
Implicit Types p : Pool RL.

Definition recordProbeSuccess (elapsed : Z) u : Upstream RL := Upstream_RecordSuccess elapsed u.
Definition recordProbeError u : Upstream RL := RecordScoreError u.

(** ** Probes of one upstream *)

Definition checkSync (maxSyncDistance elapsed : Z) (r : probe_reply syncStatusResponse) u : Upstream RL :=
  match r with
  | PBadRequest => setSyncVerdict HealthDown u
  | PTransport => recordProbeError (setSyncVerdict HealthDown u)
  | PResponse status body =>
      if negb (status =? 200) then recordProbeError (setSyncVerdict HealthDown u)
      else
        match body with
        | None => recordProbeError (setSyncVerdict HealthDown u)
        | Some s =>
            match ParseUint (ss_HeadSlot s), ParseUint (ss_SyncDistance s) with
            | Some headSlot, Some syncDistance =>
                let isSyncing :=
                  ss_IsSyncing s || (maxSyncDistance <? syncDistance) || ss_ElOffline s in
                recordProbeSuccess elapsed (UpdateSyncStatus isSyncing headSlot syncDistance u)
            | _, _ => recordProbeError (setSyncVerdict HealthDown u)
            end
        end
  end.

Definition checkVersion (elapsed : Z) (r : probe_reply nodeVersionResponse) u : Upstream RL :=
  match getJSON r with
  | None => recordProbeError u
  | Some version => recordProbeSuccess elapsed (SetClientType (detect_client version) u)
  end.

Definition checkNodeHealth (elapsed : Z) (r : probe_reply unit) u : Upstream RL :=
  match r with
  | PBadRequest => u
  | PTransport => recordProbeError (setNodeVerdict HealthDown u)
  | PResponse status _ =>
      if status =? 200 then recordProbeSuccess elapsed (setNodeVerdict HealthUp u)
      else if status =? 206 then recordProbeSuccess elapsed (setNodeVerdict HealthDegraded u)
      else if status =? 503 then recordProbeError (setNodeVerdict HealthDown u)
      else setNodeVerdict HealthUp u
  end.

(** ** Probes that also update the pool

    [now] is in nanoseconds; the slot clock counts seconds. *)

(** The monitor's upstreams are the pool's: an update is visible to both. *)
Definition update_upstream (id : string) (f : Upstream RL → Upstream RL) p : Pool RL :=
  {| p_networkID := p_networkID p;
     p_upstreams := (λ u, if String.eqb (u_ID u) id then f u else u) <$> p_upstreams p;
     p_rrCounter := p_rrCounter p; p_hasArchive := p_hasArchive p; p_routing := p_routing p;
     p_blockCache := p_blockCache p; p_finalizedEpoch := p_finalizedEpoch p;
     p_slotsPerEpoch := p_slotsPerEpoch p; p_lastPublished := p_lastPublished p |}.

(** [checkFinality] of the upstream [u] of the pool. *)
Definition checkFinality (now elapsed : Z) (r : probe_reply finalityCheckpointsResponse) u p : Pool RL :=
  if negb (IsHealthy u) then p
  else
    match getJSON r ≫= ParseUint with
    | None => update_upstream (u_ID u) recordProbeError p
    | Some epoch =>
        let p := update_upstream (u_ID u) (Upstream_UpdateFinalizedEpoch epoch) p in
        let p := (Pool_UpdateFinalizedEpoch (now / Second) epoch p).1 in
        update_upstream (u_ID u) (recordProbeSuccess elapsed) p
    end.

(** [checkHead]: the pool and the head published to shared state, if any. *)
Definition checkHead (now elapsed : Z) (shared : bool) (r : probe_reply beaconHeaderResponse) u p
    : Pool RL * option (Z * string) :=
  if negb (IsHealthy u) then (p, None)
  else
    match getJSON r with
    | None => (update_upstream (u_ID u) recordProbeError p, None)
    | Some bh =>
        match ParseUint (bh_Slot bh) with
        | None => (update_upstream (u_ID u) recordProbeError p, None)
        | Some slot =>
            let p := update_upstream (u_ID u) (UpdateHeadBlock slot (bh_Root bh)) p in
            let p := set_blockCache (AddBlock (now / Second) (u_ID u) slot (bh_Root bh)
                                       (bh_ParentRoot bh) (p_blockCache p)) p in
            let '(p, pub) := SyncCanonicalHead shared p in
            (update_upstream (u_ID u) (recordProbeSuccess elapsed) p, pub)
        end
    end.

(** ** What a sync probe concludes *)

(** The verdict of the sync poller's documentation: a node is up when it answered 200 with
    readable numbers, says it is synced with its execution layer online, and is within the
    allowed distance; degraded when it answered but one of those fails; down otherwise. *)
Definition sync_conclusion (maxSyncDistance : Z) (r : probe_reply syncStatusResponse) : HealthStatus :=
  match r with
  | PResponse 200 (Some s) =>
      match ParseUint (ss_HeadSlot s), ParseUint (ss_SyncDistance s) with
      | Some _, Some d =>
          if negb (ss_IsSyncing s) && (d <=? maxSyncDistance) && negb (ss_ElOffline s)
          then HealthUp else HealthDegraded
      | _, _ => HealthDown
      end
  | _ => HealthDown
  end.

Definition node_conclusion (old : HealthStatus) (r : probe_reply unit) : HealthStatus :=
  match r with
  | PBadRequest => old
  | PTransport => HealthDown
  | PResponse 206 _ => HealthDegraded
  | PResponse 503 _ => HealthDown
  | PResponse _ _ => HealthUp
  end.

Lemma status_match (status : Z) {B} (a b : B) k :
  (if status =? k then a else b) = if decide (status = k) then a else b.
Proof. destruct (Z.eqb_spec status k); by destruct (decide _). Qed.

(** The score trackers do not touch the health state. *)
Lemma record_state path f u : u_state (record_for_path f path u) = u_state u.
Proof. unfold record_for_path. by destruct (String.eqb path ""). Qed.

Lemma probe_success_state e u : u_state (recordProbeSuccess e u) = u_state u.
Proof. apply record_state. Qed.

Lemma probe_error_state u : u_state (recordProbeError u) = u_state u.
Proof. apply record_state. Qed.

Lemma checkSync_state max e r u :
  let s := u_state (checkSync max e r u) in
  hs_syncVerdict s = sync_conclusion max r ∧ hs_nodeVerdict s = hs_nodeVerdict (u_state u) ∧
  hs_health s = hs_min (hs_nodeVerdict (u_state u)) (sync_conclusion max r).
Proof.
  unfold checkSync, sync_conclusion. destruct r as [| |status body]; simpl;
    rewrite ?probe_error_state; try done.
  destruct (Z.eqb_spec status 200) as [->|Hne]; simpl.
  - destruct body as [s|]; [|by rewrite probe_error_state].
    destruct (ParseUint (ss_HeadSlot s)); [|by rewrite probe_error_state].
    destruct (ParseUint (ss_SyncDistance s)) as [d|]; [|by rewrite probe_error_state].
    rewrite probe_success_state. simpl. rewrite (Z.ltb_antisym d max).
    by destruct (ss_IsSyncing s), (d <=? max), (ss_ElOffline s).
  - rewrite ?probe_error_state. simpl.
    assert (match status with 200 => match body with
      | Some s => match ParseUint (ss_HeadSlot s), ParseUint (ss_SyncDistance s) with
        | Some _, Some d => if negb (ss_IsSyncing s) && (d <=? max) && negb (ss_ElOffline s)
                            then HealthUp else HealthDegraded
        | _, _ => HealthDown end | None => HealthDown end | _ => HealthDown end = HealthDown) as ->; [|done].
    repeat (match goal with |- context [match ?x with _ => _ end] => is_var x; destruct x end; try done).
Qed.

Lemma checkNodeHealth_state e r u :
  hs_health (u_state u) = hs_min (hs_nodeVerdict (u_state u)) (hs_syncVerdict (u_state u)) →
  let s := u_state (checkNodeHealth e r u) in
  hs_nodeVerdict s = node_conclusion (hs_nodeVerdict (u_state u)) r ∧
  hs_syncVerdict s = hs_syncVerdict (u_state u) ∧
  hs_health s = hs_min (node_conclusion (hs_nodeVerdict (u_state u)) r) (hs_syncVerdict (u_state u)).
Proof.
  intros H. unfold checkNodeHealth. destruct r as [| |status body]; simpl; rewrite ?probe_error_state; try done.
  destruct (Z.eqb_spec status 200) as [->|H1]; [by rewrite probe_success_state|].
  destruct (Z.eqb_spec status 206) as [->|H2]; [by rewrite probe_success_state|].
  destruct (Z.eqb_spec status 503) as [->|H3]; [by rewrite probe_error_state|]. simpl.
  assert (match status with 206 => HealthDegraded | 503 => HealthDown | _ => HealthUp end = HealthUp) as ->; [|done].
  repeat (match goal with |- context [match ?x with _ => _ end] => is_var x; destruct x end; try done).
Qed.

(** ** Properties *)

Inductive probe :=
  | PrSync (elapsed : Z) (r : probe_reply syncStatusResponse)
  | PrNode (elapsed : Z) (r : probe_reply unit)
  | PrVersion (elapsed : Z) (r : probe_reply nodeVersionResponse).

Definition run_probe (max : Z) u (pr : probe) : Upstream RL :=
  match pr with
  | PrSync e r => checkSync max e r u
  | PrNode e r => checkNodeHealth e r u
  | PrVersion e r => checkVersion e r u
  end.

(** The conclusions of the last node-health probe and the last sync probe. *)
Definition conclude (max : Z) (v : HealthStatus * HealthStatus) (pr : probe) : HealthStatus * HealthStatus :=
  match pr with
  | PrSync _ r => (v.1, sync_conclusion max r)
  | PrNode _ r => (node_conclusion v.1 r, v.2)
  | PrVersion _ _ => v
  end.

Lemma run_probe_state max u pr v :
  hs_nodeVerdict (u_state u) = v.1 → hs_syncVerdict (u_state u) = v.2 →
  hs_health (u_state u) = hs_min v.1 v.2 →
  let s := u_state (run_probe max u pr) in
  let v' := conclude max v pr in
  hs_nodeVerdict s = v'.1 ∧ hs_syncVerdict s = v'.2 ∧ hs_health s = hs_min v'.1 v'.2.
Proof.
  intros H1 H2 H3. destruct pr as [e r|e r|e r]; simpl.
  - destruct (checkSync_state max e r u) as (-> & -> & ->). by rewrite H1.
  - destruct (checkNodeHealth_state e r u) as (-> & -> & ->); [by rewrite H1, H2|]. by rewrite H1, H2.
  - unfold checkVersion. destruct (getJSON r); [rewrite probe_success_state|rewrite probe_error_state]; done.
Qed.

(** The health of an upstream under any interleaving of its probes is the worse of what the
    last sync probe and the last node-health probe concluded: an unreadable or failed sync
    answer is "down", a syncing, distant or EL-offline node is "degraded", only a 503 or a
    transport failure of the health endpoint counts as "down" there, and any status that
    does not answer the question defers to the sync probe. *)
Theorem probes_determine_health now net cfg cb win max prs :
  let v := foldl (conclude max) (HealthUp, HealthUp) prs in
  Upstream_Health (foldl (run_probe max) (Upstream_New now net cfg cb win) prs) = hs_min v.1 v.2.
Proof.
  assert (∀ u v, hs_nodeVerdict (u_state u) = v.1 → hs_syncVerdict (u_state u) = v.2 →
    hs_health (u_state u) = hs_min v.1 v.2 →
    hs_health (u_state (foldl (run_probe max) u prs)) =
    hs_min (foldl (conclude max) v prs).1 (foldl (conclude max) v prs).2) as H.
  { induction prs as [|pr prs IH]; intros u v H1 H2 H3; [done|]. simpl.
    destruct (run_probe_state max u pr v H1 H2 H3) as (E1 & E2 & E3). by apply IH. }
  by apply H.
Qed.

(** An upstream that is down is not asked for finality or its head, and its silence changes
    nothing in the pool. *)
Lemma down_upstream_is_skipped now e shared rf rh u p :
  IsHealthy u = false → checkFinality now e rf u p = p ∧ checkHead now e shared rh u p = (p, None).
Proof. intros H. unfold checkFinality, checkHead. by rewrite H. Qed.

End health_monitor.

(** The detected client is the one whose name starts the version string, and the names
    exclude each other. *)
Lemma detect_client_known version :
  detect_client version = ClientUnknown ∨ IsKnownClientType (detect_client version) = true.
Proof.
  unfold detect_client. destruct (find_first _ _) as [q|] eqn:E; [right|by left].
  apply find_first_Some in E as [Hin _].
  repeat (apply elem_of_cons in Hin as [->|Hin]; [reflexivity|]). by apply not_elem_of_nil in Hin.
Qed.
