(* ===== verification/MemoryStore.v ===== *)
(** * The in-memory LRU store

    [cache/memory.go], with [Entry] from [cache/cache.go].  Go keeps a hash map from keys to
    elements of a doubly linked list; the model keeps a map from keys to element identities
    and the list of identified elements, front first.  The abstract store is just the list of
    entries in recency order, and [MemoryStore] is shown to refine it. *)

From S2P Require Import Prelude GoStrings.
#[local] Open Scope Z_scope.

(** ** Entries *)

Abbreviation Header := (gmap string (list string)).

(** [e_expires = None] is the zero time: the entry never expires.  [e_gzip] is [gzipBody] once
    [gzipOnce] has run. *)
Record Entry := {
  e_key : string;
  e_status : Z;
  e_headers : Header;
  e_body : string;
  e_created : Z;
  e_expires : option Z;
  e_gzip : option string;
}.

Definition set_expires (x : option Z) (e : Entry) : Entry :=
  {| e_key := e_key e; e_status := e_status e; e_headers := e_headers e; e_body := e_body e;
     e_created := e_created e; e_expires := x; e_gzip := e_gzip e |}.

(** [!e.expires.IsZero() && now.After(e.expires)]. *)
Definition expired (now : Z) (e : Entry) : bool :=
  match e_expires e with None => false | Some t => t <? now end.

(** [cloneEntry]: the headers and, on request, the body are copied; the compressed body is not
    carried over. *)
Definition cloneEntry (e : Entry) : Entry :=
  {| e_key := e_key e; e_status := e_status e; e_headers := e_headers e; e_body := e_body e;
     e_created := e_created e; e_expires := e_expires e; e_gzip := None |}.

(** [GzipBody]: compresses on first use only. *)
Definition GzipBody (compress : string → string) (e : Entry) : Entry * string :=
  match e_gzip e with
  | Some z => (e, z)
  | None =>
      let z := compress (e_body e) in
      ({| e_key := e_key e; e_status := e_status e; e_headers := e_headers e; e_body := e_body e;
          e_created := e_created e; e_expires := e_expires e; e_gzip := Some z |}, z)
  end.

(** ** The store *)

Record MemoryStore := {
  ms_items : gmap string nat;
  ms_lru : list (nat * Entry);
  ms_next : nat;
  ms_maxSize : nat;
}.

Definition NewMemoryStore (maxSize : Z) : MemoryStore :=
  {| ms_items := ∅; ms_lru := []; ms_next := 0;
     ms_maxSize := Z.to_nat (if maxSize <=? 0 then 2048 else maxSize) |}.

(** [container/list]: [Remove], [MoveToFront] and assignment to [el.Value]. *)
Definition lru_remove (id : nat) (l : list (nat * Entry)) : list (nat * Entry) :=
  bfilter (λ x, negb (x.1 =? id)%nat) l.
Definition lru_value (id : nat) (l : list (nat * Entry)) : option Entry :=
  snd <$> find_first (λ x, (x.1 =? id)%nat) l.
Definition lru_to_front (id : nat) (l : list (nat * Entry)) : list (nat * Entry) :=
  match find_first (λ x, (x.1 =? id)%nat) l with
  | Some x => x :: lru_remove id l
  | None => l
  end.
Definition lru_assign (id : nat) (e : Entry) (l : list (nat * Entry)) : list (nat * Entry) :=
  (λ x, if (x.1 =? id)%nat then (x.1, e) else x) <$> l.

Definition ms_set (items : gmap string nat) (l : list (nat * Entry)) (m : MemoryStore) : MemoryStore :=
  {| ms_items := items; ms_lru := l; ms_next := ms_next m; ms_maxSize := ms_maxSize m |}.

Definition MemoryStore_Get (now : Z) (key : string) (m : MemoryStore) : MemoryStore * option Entry :=
  match ms_items m !! key with
  | None => (m, None)
  | Some el =>
      match lru_value el (ms_lru m) with
      | None => (m, None)
      | Some e =>
          if expired now e
          then (ms_set (delete key (ms_items m)) (lru_remove el (ms_lru m)) m, None)
          else (ms_set (ms_items m) (lru_to_front el (ms_lru m)) m, Some e)
      end
  end.

(** The eviction loop of [Set]. *)
Fixpoint evict_loop (fuel : nat) (m : MemoryStore) : MemoryStore :=
  match fuel with
  | O => m
  | S fuel =>
      if (ms_maxSize m <=? length (ms_lru m))%nat then
        match last (ms_lru m) with
        | None => m
        | Some (id, old) =>
            evict_loop fuel (ms_set (delete (e_key old) (ms_items m)) (lru_remove id (ms_lru m)) m)
        end
      else m
  end.

Definition MemoryStore_Set (key : string) (entry : Entry) (m : MemoryStore) : MemoryStore :=
  match ms_items m !! key with
  | Some el => ms_set (ms_items m) (lru_assign el entry (lru_to_front el (ms_lru m))) m
  | None =>
      let m := evict_loop (S (length (ms_lru m))) m in
      {| ms_items := <[key := ms_next m]> (ms_items m); ms_lru := (ms_next m, entry) :: ms_lru m;
         ms_next := S (ms_next m); ms_maxSize := ms_maxSize m |}
  end.

Definition MemoryStore_Delete (key : string) (m : MemoryStore) : MemoryStore :=
  match ms_items m !! key with
  | None => m
  | Some el => ms_set (delete key (ms_items m)) (lru_remove el (ms_lru m)) m
  end.

(** The sweeps visit the list front to back.  [drop_expired] is their common part. *)
Definition drop_expired (now : Z) (l : list (nat * Entry)) (items : gmap string nat) : gmap string nat :=
  foldl (λ items x, if expired now x.2 then delete (e_key x.2) items else items) items l.

Definition promote (f : string → bool) (e : Entry) : Entry :=
  match e_expires e with None => e | Some _ => if f (e_key e) then set_expires None e else e end.
Definition promoted (f : string → bool) (e : Entry) : bool :=
  match e_expires e with None => false | Some _ => f (e_key e) end.

Definition MemoryStore_PromoteIf (now : Z) (f : string → bool) (m : MemoryStore) : MemoryStore * Z :=
  let live := bfilter (λ x, negb (expired now x.2)) (ms_lru m) in
  (ms_set (drop_expired now (ms_lru m) (ms_items m)) ((λ x, (x.1, promote f x.2)) <$> live) m,
   Z.of_nat (length (bfilter (λ x, promoted f x.2) live))).

(** [Entries]: the visited prefix, up to [limit] live entries ([limit <= 0]: all). *)
Fixpoint entries_loop (now : Z) (limit : Z) (got : Z) (l : list (nat * Entry))
    : list (nat * Entry) * list (nat * Entry) :=
  match l with
  | [] => ([], [])
  | x :: l' =>
      if expired now x.2 then
        let '(v, r) := entries_loop now limit got l' in (x :: v, r)
      else if (0 <? limit) && (limit <=? got + 1) then ([x], l')
      else let '(v, r) := entries_loop now limit (got + 1) l' in (x :: v, r)
  end.

Definition MemoryStore_Entries (now limit : Z) (m : MemoryStore) : MemoryStore * list Entry :=
  let '(visited, rest) := entries_loop now limit 0 (ms_lru m) in
  let live := bfilter (λ x, negb (expired now x.2)) visited in
  (ms_set (drop_expired now visited (ms_items m)) (live ++ rest) m, (λ x, cloneEntry x.2) <$> live).

Definition MemoryStore_Keys (now : Z) (m : MemoryStore) : MemoryStore * list string :=
  let live := bfilter (λ x, negb (expired now x.2)) (ms_lru m) in
  (ms_set (drop_expired now (ms_lru m) (ms_items m)) live m, (λ x, e_key x.2) <$> live).

Definition MemoryStore_Len (m : MemoryStore) : Z := Z.of_nat (length (ms_lru m)).

(** ** The abstract store *)

(** Entries in recency order. *)
Abbreviation lru_spec := (list Entry).

Definition has_key (k : string) (e : Entry) : bool := String.eqb (e_key e) k.
Definition spec_remove (k : string) (l : lru_spec) : lru_spec := bfilter (λ e, negb (has_key k e)) l.

Inductive store_op :=
  | OGet (now : Z) (key : string)
  | OSet (entry : Entry)
  | ODelete (key : string)
  | OPromoteIf (now : Z) (f : string → bool)
  | OKeys (now : Z)
  | OEntries (now limit : Z)
  | OLen.

Inductive store_result :=
  | RNone
  | REntry (e : option Entry)
  | RCount (n : Z)
  | RKeys (l : list string)
  | REntries (l : list Entry).

Fixpoint spec_entries (now limit got : Z) (l : lru_spec) : lru_spec * lru_spec :=
  match l with
  | [] => ([], [])
  | e :: l' =>
      if expired now e then spec_entries now limit got l'
      else if (0 <? limit) && (limit <=? got + 1) then ([e], l')
      else let '(v, r) := spec_entries now limit (got + 1) l' in (e :: v, r)
  end.

(** What each operation means. *)
Definition spec_step (maxSize : nat) (l : lru_spec) (op : store_op) : lru_spec * store_result :=
  match op with
  | OGet now k =>
      match find_first (has_key k) l with
      | None => (l, REntry None)
      | Some e => if expired now e then (spec_remove k l, REntry None)
                  else (e :: spec_remove k l, REntry (Some e))
      end
  | OSet e =>
      match find_first (has_key (e_key e)) l with
      | Some _ => (e :: spec_remove (e_key e) l, RNone)
      | None => (e :: take (maxSize - 1) l, RNone)
      end
  | ODelete k => (spec_remove k l, RNone)
  | OPromoteIf now f =>
      let live := bfilter (λ e, negb (expired now e)) l in
      (promote f <$> live, RCount (Z.of_nat (length (bfilter (promoted f) live))))
  | OKeys now =>
      let live := bfilter (λ e, negb (expired now e)) l in (live, RKeys (e_key <$> live))
  | OEntries now limit =>
      let '(v, r) := spec_entries now limit 0 l in (v ++ r, REntries (cloneEntry <$> v))
  | OLen => (l, RCount (Z.of_nat (length l)))
  end.

Definition ms_step (m : MemoryStore) (op : store_op) : MemoryStore * store_result :=
  match op with
  | OGet now k => let '(m, r) := MemoryStore_Get now k m in (m, REntry r)
  | OSet e => (MemoryStore_Set (e_key e) e m, RNone)
  | ODelete k => (MemoryStore_Delete k m, RNone)
  | OPromoteIf now f => let '(m, n) := MemoryStore_PromoteIf now f m in (m, RCount n)
  | OKeys now => let '(m, ks) := MemoryStore_Keys now m in (m, RKeys ks)
  | OEntries now limit => let '(m, es) := MemoryStore_Entries now limit m in (m, REntries es)
  | OLen => (m, RCount (MemoryStore_Len m))
  end.

(** A run and the results it returns. *)
Fixpoint run_with {S} (step : S → store_op → S * store_result) (s : S) (ops : list store_op)
    : S * list store_result :=
  match ops with
  | [] => (s, [])
  | op :: ops => let '(s1, r) := step s op in let '(s2, rs) := run_with step s1 ops in (s2, r :: rs)
  end.

(** ** Representation *)

Record ms_rep (m : MemoryStore) : Prop := {
  mr_ids : NoDup (ms_lru m).*1;
  mr_keys : NoDup (e_key <$> (ms_lru m).*2);
  mr_items k id : ms_items m !! k = Some id ↔ ∃ e, (id, e) ∈ ms_lru m ∧ e_key e = k;
  mr_fresh id e : (id, e) ∈ ms_lru m → (id < ms_next m)%nat;
  mr_size : (length (ms_lru m) <= ms_maxSize m)%nat ∧ (0 < ms_maxSize m)%nat;
}.

(** ** Lemmas *)

Definition ms_abs (m : MemoryStore) : lru_spec := (ms_lru m).*2.

Lemma NoDup_fmap_inj {A B} (f : A → B) l x y : NoDup (f <$> l) → x ∈ l → y ∈ l → f x = f y → x = y.
Proof.
  induction l as [|z l IH]; simpl; [set_solver|]. rewrite NoDup_cons. intros [Hz Hl].
  rewrite !elem_of_cons. intros [->|Hx] [->|Hy] Heq; auto; destruct Hz;
    [rewrite Heq|rewrite <- Heq]; by apply list_elem_of_fmap_2.
Qed.

Lemma bfilter_fmap {A B} (f : A → B) (P : B → bool) l :
  bfilter P (f <$> l) = f <$> bfilter (λ x, P (f x)) l.
Proof.
  induction l as [|x l IH]; [done|]. rewrite fmap_cons. cbn [bfilter].
  destruct (P (f x)); [by rewrite IH|exact IH].
Qed.

Lemma find_first_fmap {A B} (f : A → B) (P : B → bool) l :
  find_first P (f <$> l) = f <$> find_first (λ x, P (f x)) l.
Proof.
  induction l as [|x l IH]; [done|]. rewrite fmap_cons. cbn [find_first]. by destruct (P (f x)).
Qed.

Lemma find_first_ext {A} (P Q : A → bool) l :
  (∀ x, x ∈ l → P x = Q x) → find_first P l = find_first Q l.
Proof.
  induction l as [|x l IH]; simpl; intros H; [done|]. rewrite <- (H x) by set_solver.
  destruct (P x); [done|]. apply IH. set_solver.
Qed.

Section rep.
Context (m : MemoryStore) (Hm : ms_rep m).

Lemma rep_id_key x y : x ∈ ms_lru m → y ∈ ms_lru m → (x.1 = y.1 ↔ e_key x.2 = e_key y.2).
Proof.
  intros Hx Hy. split.
  - intros H. by rewrite (NoDup_fmap_inj fst _ x y (mr_ids _ Hm) Hx Hy H).
  - intros H. assert (NoDup ((λ x, e_key x.2) <$> ms_lru m)) as Hk
      by (pose proof (mr_keys _ Hm) as Hk; by rewrite <- list_fmap_compose in Hk).
    by rewrite (NoDup_fmap_inj _ _ x y Hk Hx Hy H).
Qed.

(** The identity of a key's element and the key pick the same elements. *)
Lemma rep_same id e x :
  (id, e) ∈ ms_lru m → x ∈ ms_lru m → (x.1 =? id)%nat = has_key (e_key e) x.2.
Proof.
  intros He Hx. pose proof (rep_id_key x (id, e) Hx He) as H. simpl in H. unfold has_key.
  destruct (Nat.eqb_spec x.1 id), (String.eqb_spec (e_key x.2) (e_key e)); tauto.
Qed.

Lemma rep_lookup k id :
  ms_items m !! k = Some id → ∃ e, (id, e) ∈ ms_lru m ∧ e_key e = k ∧ lru_value id (ms_lru m) = Some e ∧
    find_first (λ x, (x.1 =? id)%nat) (ms_lru m) = Some (id, e) ∧ find_first (has_key k) (ms_abs m) = Some e.
Proof.
  intros Hk. apply (mr_items _ Hm) in Hk as (e & He & <-).
  assert (find_first (λ x, (x.1 =? id)%nat) (ms_lru m) = Some (id, e)) as Hf.
  { destruct (find_first _ _) as [y|] eqn:E.
    - apply find_first_Some in E as [Hy Hb]. apply Nat.eqb_eq in Hb.
      by rewrite (NoDup_fmap_inj fst _ y (id, e) (mr_ids _ Hm) Hy He Hb).
    - rewrite find_first_None in E. specialize (E _ He). simpl in E. by rewrite Nat.eqb_refl in E. }
  exists e. split_and!; [done|done|unfold lru_value; by rewrite Hf|done|].
  unfold ms_abs. rewrite find_first_fmap.
  rewrite <- (find_first_ext (λ x, (x.1 =? id)%nat)) by (intros; by apply rep_same). by rewrite Hf.
Qed.

Lemma rep_lookup_None k : ms_items m !! k = None → find_first (has_key k) (ms_abs m) = None.
Proof.
  intros Hk. apply find_first_None. intros e He. unfold ms_abs in He.
  apply list_elem_of_fmap in He as ([id e'] & -> & Hin). simpl. unfold has_key.
  destruct (String.eqb_spec (e_key e') k) as [Heq|]; [|done].
  assert (ms_items m !! k = Some id) by (apply (mr_items _ Hm); by exists e'). congruence.
Qed.

Lemma rep_remove_abs id e :
  (id, e) ∈ ms_lru m → (lru_remove id (ms_lru m)).*2 = spec_remove (e_key e) (ms_abs m).
Proof.
  intros He. unfold lru_remove, spec_remove, ms_abs. rewrite bfilter_fmap. f_equal.
  apply bfilter_ext. intros x Hx. by rewrite (rep_same id e x He Hx).
Qed.

(** Dropping elements and their keys keeps the representation. *)
Lemma rep_filter P items' :
  (∀ k id, items' !! k = Some id ↔ ms_items m !! k = Some id ∧ ∀ x, x ∈ ms_lru m → e_key x.2 = k → P x = true) →
  ms_rep (ms_set items' (bfilter P (ms_lru m)) m).
Proof.
  intros Hi. pose proof (bfilter_sublist P (ms_lru m)) as Hsub. destruct Hm as [H1 H2 H3 H4 [H5 H6]].
  split; simpl.
  - eapply sublist_NoDup; [exact H1|by apply fmap_sublist].
  - eapply sublist_NoDup; [exact H2|]. apply fmap_sublist. by apply fmap_sublist.
  - intros k id. rewrite Hi, H3. split.
    + intros [(e & He & Hk) HP]. exists e. split; [|done]. apply elem_of_bfilter. split; [done|]. by apply HP.
    + intros (e & [He HP]%elem_of_bfilter & Hk). split; [by exists e|]. intros x Hx Hxk.
      assert (x = (id, e)) as ->; [|done].
      assert (NoDup ((λ x, e_key x.2) <$> ms_lru m)) as Hnd by (by rewrite <- list_fmap_compose in H2).
      apply (NoDup_fmap_inj _ _ x (id, e) Hnd Hx He). simpl. congruence.
  - intros id e [He _]%elem_of_bfilter. by eapply H4.
  - split; [|done]. apply sublist_length in Hsub. lia.
Qed.

Lemma rep_remove id e :
  (id, e) ∈ ms_lru m → ms_rep (ms_set (delete (e_key e) (ms_items m)) (lru_remove id (ms_lru m)) m).
Proof.
  intros He. apply rep_filter. intros k i. rewrite lookup_delete_Some. split.
  - intros [Hne Hk]. split; [done|]. intros x Hx <-. rewrite (rep_same id e x He Hx). unfold has_key.
    destruct (String.eqb_spec (e_key x.2) (e_key e)); [congruence|done].
  - intros [Hk HP]. split; [|done]. intros <-. specialize (HP (id, e) He eq_refl).
    simpl in HP. by rewrite Nat.eqb_refl in HP.
Qed.

Lemma rep_perm l' :
  l' ≡ₚ ms_lru m → ms_rep (ms_set (ms_items m) l' m).
Proof.
  intros Hp. destruct Hm as [H1 H2 H3 H4 [H5 H6]]. split; simpl.
  - by rewrite Hp.
  - by rewrite Hp.
  - intros k id. rewrite H3. by setoid_rewrite Hp.
  - intros id e. rewrite Hp. apply H4.
  - by rewrite Hp.
Qed.

Lemma remove_perm id e : (id, e) ∈ ms_lru m → (id, e) :: lru_remove id (ms_lru m) ≡ₚ ms_lru m.
Proof.
  intros He. pose proof (mr_ids _ Hm) as Hnd. unfold lru_remove.
  induction (ms_lru m) as [|x l IH]; [set_solver|]. rewrite fmap_cons in Hnd. apply NoDup_cons in Hnd as [Hx Hnd].
  apply elem_of_cons in He as [<-|He]; simpl.
  - rewrite Nat.eqb_refl. simpl. f_equiv. apply reflexive_eq, bfilter_all. intros y Hy.
    destruct (Nat.eqb_spec y.1 id); [|done]. subst id. destruct Hx. exact (list_elem_of_fmap_2 fst l y Hy).
  - destruct (Nat.eqb_spec x.1 id) as [Heq|]; simpl.
    + destruct Hx. rewrite Heq. exact (list_elem_of_fmap_2 fst l (id, e) He).
    + etransitivity; [apply Permutation_swap|]. apply Permutation_skip. by apply IH.
Qed.
End rep.

(** *** The operations *)

Lemma ms_abs_set items l m : ms_abs (ms_set items l m) = l.*2.
Proof. done. Qed.

Lemma Get_refines now k m :
  ms_rep m →
  ms_rep (ms_step m (OGet now k)).1 ∧
  spec_step (ms_maxSize m) (ms_abs m) (OGet now k) =
    (ms_abs (ms_step m (OGet now k)).1, (ms_step m (OGet now k)).2).
Proof.
  intros Hm. simpl. unfold MemoryStore_Get. destruct (ms_items m !! k) as [id|] eqn:Ek; simpl.
  - destruct (rep_lookup m Hm k id Ek) as (e & He & <- & -> & Hfe & ->).
    destruct (expired now e); cbn [fst snd].
    + split; [by apply rep_remove|]. by rewrite ms_abs_set, (rep_remove_abs m Hm id e He).
    + unfold lru_to_front. rewrite Hfe. split; [by apply rep_perm, remove_perm|].
      by rewrite ms_abs_set, fmap_cons, (rep_remove_abs m Hm id e He).
  - by rewrite (rep_lookup_None m Hm k Ek).
Qed.

Lemma Delete_refines k m :
  ms_rep m →
  ms_rep (ms_step m (ODelete k)).1 ∧
  spec_step (ms_maxSize m) (ms_abs m) (ODelete k) =
    (ms_abs (ms_step m (ODelete k)).1, (ms_step m (ODelete k)).2).
Proof.
  intros Hm. simpl. unfold MemoryStore_Delete. destruct (ms_items m !! k) as [id|] eqn:Ek.
  - destruct (rep_lookup m Hm k id Ek) as (e & He & <- & _). split; [by apply rep_remove|].
    by rewrite ms_abs_set, (rep_remove_abs m Hm id e He).
  - split; [done|]. pose proof (rep_lookup_None m Hm k Ek) as Hn. rewrite find_first_None in Hn.
    f_equal. unfold spec_remove. apply bfilter_all. intros e He. by rewrite (Hn e He).
Qed.

Lemma lru_assign_front id e e' l :
  lru_assign id e' ((id, e) :: lru_remove id l) = (id, e') :: lru_remove id l.
Proof.
  unfold lru_assign. rewrite fmap_cons. cbn [fst]. rewrite Nat.eqb_refl. f_equal.
  unfold lru_remove. induction l as [|x l IH]; [done|]. cbn [bfilter].
  destruct (Nat.eqb_spec x.1 id) as [|Hne]; cbn [negb]; [exact IH|].
  rewrite fmap_cons, IH. by rewrite (proj2 (Nat.eqb_neq _ _)).
Qed.

(** Replacing the value of an element by one with the same key. *)
Lemma rep_replace m id e e' :
  ms_rep m → (id, e) ∈ ms_lru m → e_key e' = e_key e →
  ms_rep (ms_set (ms_items m) ((id, e') :: lru_remove id (ms_lru m)) m).
Proof.
  intros Hm He Hk. pose proof (rep_perm m Hm _ (remove_perm m Hm id e He)) as [H1 H2 H3 H4 H5].
  split; simpl in *; [done|by rewrite Hk| |..].
  - intros k i. rewrite H3. split.
    + intros (x & [[= -> ->]|Hx]%elem_of_cons & Hkx); [exists e'; split; [set_solver|congruence]|].
      exists x. split; [set_solver|done].
    + intros (x & [[= -> ->]|Hx]%elem_of_cons & Hkx); [exists e; split; [set_solver|congruence]|].
      exists x. split; [set_solver|done].
  - intros i x [[= -> ->]|Hx]%elem_of_cons; [apply (H4 id e); set_solver|apply (H4 i x); set_solver].
  - done.
Qed.

Lemma remove_last m l id e :
  ms_rep m → ms_lru m = l ++ [(id, e)] → lru_remove id (ms_lru m) = l.
Proof.
  intros Hm Hl. pose proof (mr_ids _ Hm) as Hnd. rewrite Hl, fmap_app in Hnd. simpl in Hnd.
  apply NoDup_app in Hnd as (_ & Hdis & _). rewrite Hl. unfold lru_remove. rewrite bfilter_app. simpl.
  rewrite Nat.eqb_refl. simpl. rewrite app_nil_r. apply bfilter_all. intros y Hy.
  destruct (Nat.eqb_spec y.1 id) as [<-|]; [|done].
  exfalso. apply (Hdis y.1); [by apply list_elem_of_fmap_2|set_solver].
Qed.

(** The loop evicts the least recently used element when the store is full, and only then. *)
Lemma evict_spec m :
  ms_rep m →
  let m' := evict_loop (S (length (ms_lru m))) m in
  ms_rep m' ∧ ms_lru m' = take (ms_maxSize m - 1) (ms_lru m) ∧
  ms_next m' = ms_next m ∧ ms_maxSize m' = ms_maxSize m ∧
  (∀ k, ms_items m !! k = None → ms_items m' !! k = None).
Proof.
  intros Hm. destruct (mr_size _ Hm) as [Hs Hpos]. cbn [evict_loop].
  destruct (Nat.leb_spec (ms_maxSize m) (length (ms_lru m))) as [Hle|Hlt];
    [|split_and!; try done; by rewrite take_ge by lia].
  destruct (last (ms_lru m)) as [[id e]|] eqn:El; [|apply last_None in El; rewrite El in *; simpl in *; lia].
  apply last_Some in El as [l Hl].
  assert ((id, e) ∈ ms_lru m) as He by (rewrite Hl; set_solver).
  pose proof (rep_remove m Hm id e He) as Hm'. rewrite (remove_last m l id e Hm Hl) in *.
  assert (length (ms_lru m) = S (length l)) as Hlen by (rewrite Hl, length_app; simpl; lia).
  assert (evict_loop (length (ms_lru m)) (ms_set (delete (e_key e) (ms_items m)) l m) =
          ms_set (delete (e_key e) (ms_items m)) l m) as ->.
  { rewrite Hlen. cbn [evict_loop]. simpl. by rewrite (proj2 (Nat.leb_gt _ _)) by lia. }
  split_and!; try done; simpl.
  - rewrite Hl, take_app_length' by lia. done.
  - intros k Hk. rewrite lookup_delete_None. by right.
Qed.

Lemma Set_refines e m :
  ms_rep m →
  ms_rep (ms_step m (OSet e)).1 ∧ ms_maxSize (ms_step m (OSet e)).1 = ms_maxSize m ∧
  spec_step (ms_maxSize m) (ms_abs m) (OSet e) =
    (ms_abs (ms_step m (OSet e)).1, (ms_step m (OSet e)).2).
Proof.
  intros Hm. simpl. unfold MemoryStore_Set. destruct (ms_items m !! e_key e) as [id|] eqn:Ek.
  - destruct (rep_lookup m Hm _ id Ek) as (e0 & He & Hk & _ & Hfe & ->).
    unfold lru_to_front. rewrite Hfe, lru_assign_front. split_and!; [by eapply rep_replace|done|].
    by rewrite ms_abs_set, fmap_cons, (rep_remove_abs m Hm id e0 He), Hk.
  - rewrite (rep_lookup_None m Hm _ Ek). destruct (evict_spec m Hm) as ([H1 H2 H3 H4 [H5 H6]] & Hl & Hn & Hx & Hi).
    set (m' := evict_loop _ m) in *. specialize (Hi _ Ek). split_and!; [|done|].
    + assert (∀ x, x ∈ ms_lru m' → x.1 ≠ ms_next m') as Hfr.
      { intros [i x] Hin. apply H4 in Hin. simpl. lia. }
      assert (∀ x, x ∈ ms_lru m' → e_key x.2 ≠ e_key e) as Hke.
      { intros [i x] Hin Heq. simpl in Heq.
        assert (ms_items m' !! e_key e = Some i) by (apply H3; by exists x). congruence. }
      split; simpl.
      * apply NoDup_cons. split; [|done]. intros (x & Hx1 & Hin)%list_elem_of_fmap. by apply (Hfr x Hin).
      * apply NoDup_cons. split; [|done]. rewrite <- list_fmap_compose.
        intros (x & Hx1 & Hin)%list_elem_of_fmap. by apply (Hke x Hin).
      * intros k i. rewrite lookup_insert_Some, H3. split.
        -- intros [[<- <-]|[Hne (x & Hin & Hkx)]]; [exists e; split; [set_solver|done]|].
           exists x. split; [set_solver|done].
        -- intros (x & [[= -> ->]|Hin]%elem_of_cons & Hkx); [by left|right].
           split; [|by exists x]. intros Heq. apply (Hke (i, x) Hin). simpl. congruence.
      * intros i x [[= -> ->]|Hin]%elem_of_cons; [lia|]. apply H4 in Hin. lia.
      * rewrite Hl, length_take. simpl. destruct (mr_size _ Hm). rewrite Hx. lia.
    + unfold ms_abs. cbn [ms_lru]. by rewrite fmap_cons, Hl, fmap_take.
Qed.

(** *** The sweeps *)

Lemma drop_expired_lookup now l items k id :
  drop_expired now l items !! k = Some id ↔
  items !! k = Some id ∧ ∀ x, x ∈ l → e_key x.2 = k → expired now x.2 = false.
Proof.
  revert items. induction l as [|y l IH]; intros items; [split; [intros H; split; [done|set_solver]|tauto]|].
  unfold drop_expired in *. cbn [foldl]. rewrite IH. destruct (expired now y.2) eqn:E.
  - rewrite lookup_delete_Some. split.
    + intros [[Hne Hk] Hall]. split; [done|]. intros x [->|Hx]%elem_of_cons Hxk; [done|by apply Hall].
    + intros [Hk Hall]. split; [|intros; apply Hall; set_solver]. split; [|done].
      intros Heq. rewrite (Hall y) in E; [done|set_solver|done].
  - split; intros [Hk Hall]; (split; [done|]).
    + intros x [->|Hx]%elem_of_cons Hxk; [done|by apply Hall].
    + intros x Hx Hxk. apply Hall; [set_solver|done].
Qed.

(** A sweep of a prefix of the list. *)
Lemma sweep_rep now m l1 l2 :
  ms_rep m → ms_lru m = l1 ++ l2 →
  ms_rep (ms_set (drop_expired now l1 (ms_items m)) (bfilter (λ x, negb (expired now x.2)) l1 ++ l2) m).
Proof.
  intros Hm Hl.
  assert (∀ x y, x ∈ ms_lru m → y ∈ ms_lru m → x.1 = y.1 → x = y) as Hinj
    by (intros x y; apply (NoDup_fmap_inj fst _ x y (mr_ids _ Hm))).
  pose (P := λ x : nat * Entry, negb (expired now x.2) || negb (bool_decide (x.1 ∈ l1.*1))).
  assert (bfilter (λ x, negb (expired now x.2)) l1 ++ l2 = bfilter P (ms_lru m)) as ->.
  { rewrite Hl, bfilter_app. f_equal.
    - apply bfilter_ext. intros x Hx. unfold P. rewrite (bool_decide_true (x.1 ∈ l1.*1)).
      + by rewrite orb_false_r.
      + exact (list_elem_of_fmap_2 fst l1 x Hx).
    - symmetry. apply bfilter_all. intros x Hx. unfold P. rewrite (bool_decide_false (x.1 ∈ l1.*1)).
      + by rewrite orb_true_r.
      + intros (y & Hxy & Hy)%list_elem_of_fmap. pose proof (mr_ids _ Hm) as Hnd.
        rewrite Hl, fmap_app in Hnd. apply NoDup_app in Hnd as (_ & Hdis & _).
        apply (Hdis x.1); [rewrite Hxy; exact (list_elem_of_fmap_2 fst l1 y Hy)|exact (list_elem_of_fmap_2 fst l2 x Hx)]. }
  apply rep_filter; [done|]. intros k id. rewrite drop_expired_lookup.
  split; intros [Hk Hall]; (split; [done|]).
  - intros x Hx Hxk. unfold P. destruct (bool_decide_reflect (x.1 ∈ l1.*1)) as [Hin|]; [|by rewrite orb_true_r].
    apply list_elem_of_fmap in Hin as (y & Hxy & Hy).
    assert (x = y) as -> by (apply Hinj; [done|rewrite Hl; set_solver|done]).
    by rewrite (Hall y Hy Hxk).
  - intros x Hx Hxk. assert (x ∈ ms_lru m) as Hxm by (rewrite Hl; set_solver).
    specialize (Hall x Hxm Hxk). unfold P in Hall.
    rewrite (bool_decide_true (x.1 ∈ l1.*1)), orb_false_r in Hall
      by exact (list_elem_of_fmap_2 fst l1 x Hx). by apply negb_true_iff.
Qed.

(** Rewriting the entries in place, keys kept. *)
Lemma rep_map m f :
  ms_rep m → (∀ e, e_key (f e) = e_key e) →
  ms_rep (ms_set (ms_items m) ((λ x, (x.1, f x.2)) <$> ms_lru m) m).
Proof.
  intros [H1 H2 H3 H4 H5] Hf. split; simpl.
  - by rewrite <- list_fmap_compose.
  - rewrite <- !list_fmap_compose. rewrite <- list_fmap_compose in H2.
    rewrite (list_fmap_ext _ (e_key ∘ snd)); [done|]. intros i x _. simpl. apply Hf.
  - intros k id. rewrite H3. split.
    + intros (e & He & Hk). exists (f e). rewrite Hf. split; [|done].
      exact (list_elem_of_fmap_2 (λ x, (x.1, f x.2)) _ (id, e) He).
    + intros (e & ([i e'] & [= -> ->] & He)%list_elem_of_fmap & Hk). exists e'. by rewrite Hf in Hk.
  - intros id e ([i e'] & [= -> ->] & He)%list_elem_of_fmap. by eapply H4.
  - by rewrite length_fmap.
Qed.

Lemma live_abs now (l : list (nat * Entry)) :
  (bfilter (λ x, negb (expired now x.2)) l).*2 = bfilter (λ e, negb (expired now e)) l.*2.
Proof. by rewrite bfilter_fmap. Qed.

Lemma sweep_all now m :
  ms_rep m → ms_rep (ms_set (drop_expired now (ms_lru m) (ms_items m))
                       (bfilter (λ x, negb (expired now x.2)) (ms_lru m)) m).
Proof.
  intros Hm. pose proof (sweep_rep now m (ms_lru m) [] Hm) as H. rewrite !app_nil_r in H. by apply H.
Qed.

Lemma PromoteIf_refines now f m :
  ms_rep m →
  ms_rep (ms_step m (OPromoteIf now f)).1 ∧
  spec_step (ms_maxSize m) (ms_abs m) (OPromoteIf now f) =
    (ms_abs (ms_step m (OPromoteIf now f)).1, (ms_step m (OPromoteIf now f)).2).
Proof.
  intros Hm. cbn [ms_step MemoryStore_PromoteIf fst snd spec_step]. split.
  - refine (rep_map _ (promote f) (sweep_all now m Hm) _). intros e. unfold promote.
    destruct (e_expires e); [|done]. by destruct (f (e_key e)).
  - rewrite ms_abs_set. unfold ms_abs. rewrite <- live_abs. f_equal.
    + by rewrite <- !list_fmap_compose.
    + by rewrite bfilter_fmap, length_fmap.
Qed.

Lemma Keys_refines now m :
  ms_rep m →
  ms_rep (ms_step m (OKeys now)).1 ∧
  spec_step (ms_maxSize m) (ms_abs m) (OKeys now) =
    (ms_abs (ms_step m (OKeys now)).1, (ms_step m (OKeys now)).2).
Proof.
  intros Hm. cbn [ms_step MemoryStore_Keys fst snd spec_step]. split; [by apply sweep_all|].
  rewrite ms_abs_set. unfold ms_abs. rewrite <- live_abs. by rewrite <- !list_fmap_compose.
Qed.

Lemma entries_loop_spec now limit got l :
  let '(v, r) := entries_loop now limit got l in
  l = v ++ r ∧
  spec_entries now limit got l.*2 = ((bfilter (λ x, negb (expired now x.2)) v).*2, r.*2).
Proof.
  revert got. induction l as [|x l IH]; intros got; [done|]. rewrite fmap_cons.
  cbn [entries_loop spec_entries]. destruct (expired now x.2) eqn:E.
  - specialize (IH got). destruct (entries_loop now limit got l) as [v r]. destruct IH as [-> IH].
    cbn [bfilter]. rewrite E. cbn [negb]. split; [done|exact IH].
  - destruct ((0 <? limit) && (limit <=? got + 1)).
    + cbn [bfilter]. rewrite E. done.
    + specialize (IH (got + 1)). destruct (entries_loop now limit (got + 1) l) as [v r]. destruct IH as [-> IH].
      cbn [bfilter]. rewrite E, IH. done.
Qed.

Lemma Entries_refines now limit m :
  ms_rep m →
  ms_rep (ms_step m (OEntries now limit)).1 ∧
  spec_step (ms_maxSize m) (ms_abs m) (OEntries now limit) =
    (ms_abs (ms_step m (OEntries now limit)).1, (ms_step m (OEntries now limit)).2).
Proof.
  intros Hm. unfold ms_step, MemoryStore_Entries, spec_step, ms_abs at 1.
  pose proof (entries_loop_spec now limit 0 (ms_lru m)) as H.
  destruct (entries_loop now limit 0 (ms_lru m)) as [v r]. destruct H as [Hl ->]. cbn [fst snd].
  split; [by apply sweep_rep|]. rewrite ms_abs_set, fmap_app. by rewrite <- list_fmap_compose.
Qed.

Lemma step_maxSize m op : ms_rep m → ms_maxSize (ms_step m op).1 = ms_maxSize m.
Proof.
  intros Hm. destruct op; simpl; try done.
  - unfold MemoryStore_Get. repeat case_match; simplify_eq; done.
  - by apply Set_refines.
  - unfold MemoryStore_Delete. by destruct (ms_items m !! key).
  - unfold MemoryStore_Entries. by destruct (entries_loop _ _ _ _).
Qed.

(** One step of the store is one step of the abstract store. *)
Lemma ms_step_refines m op :
  ms_rep m →
  ms_rep (ms_step m op).1 ∧
  spec_step (ms_maxSize m) (ms_abs m) op = (ms_abs (ms_step m op).1, (ms_step m op).2).
Proof.
  intros Hm. destruct op.
  - by apply Get_refines.
  - destruct (Set_refines entry m Hm) as (? & _ & ?). done.
  - by apply Delete_refines.
  - by apply PromoteIf_refines.
  - by apply Keys_refines.
  - by apply Entries_refines.
  - split; [done|]. cbn. unfold MemoryStore_Len, ms_abs. by rewrite length_fmap.
Qed.

Lemma NewMemoryStore_rep n : ms_rep (NewMemoryStore n).
Proof.
  split; simpl; [constructor|constructor| | |].
  - intros k id. rewrite lookup_empty. split; [done|]. by intros (e & He%not_elem_of_nil & _).
  - by intros id e He%not_elem_of_nil.
  - destruct (Z.leb_spec n 0); lia.
Qed.

Lemma ms_run_refines m ops :
  ms_rep m →
  ms_rep (run_with ms_step m ops).1 ∧
  run_with (spec_step (ms_maxSize m)) (ms_abs m) ops =
    (ms_abs (run_with ms_step m ops).1, (run_with ms_step m ops).2).
Proof.
  revert m. induction ops as [|op ops IH]; intros m Hm; [done|]. simpl.
  destruct (ms_step_refines m op Hm) as [Hm' Heq]. pose proof (step_maxSize m op Hm) as Hsz.
  rewrite Heq. destruct (ms_step m op) as [m1 r]. simpl in *.
  destruct (IH m1 Hm') as [IH1 IH2]. rewrite <- Hsz, IH2.
  destruct (run_with ms_step m1 ops) as [m2 rs]. done.
Qed.

Lemma run_maxSize m ops : ms_rep m → ms_maxSize (run_with ms_step m ops).1 = ms_maxSize m.
Proof.
  revert m. induction ops as [|op ops IH]; intros m Hm; [done|]. simpl.
  pose proof (step_maxSize m op Hm) as Hsz. destruct (ms_step_refines m op Hm) as [Hm' _].
  destruct (ms_step m op) as [m2 r]. simpl in *. rewrite <- Hsz, <- (IH m2 Hm').
  by destruct (run_with ms_step m2 ops).
Qed.

(** ** Properties *)

(** C11: the hash map and linked list implement the abstract LRU store with expiry: every
    sequence of operations returns exactly the abstract store's results, and at every point
    the list, in recency order, is the abstract store, within its capacity. *)
Theorem MemoryStore_refines_lru size ops :
  let m0 := NewMemoryStore size in
  let m := (run_with ms_step m0 ops).1 in
  run_with (spec_step (ms_maxSize m0)) [] ops = (ms_abs m, (run_with ms_step m0 ops).2) ∧
  MemoryStore_Len m <= Z.of_nat (ms_maxSize m0) ∧ ms_rep m.
Proof.
  intros m0 m. pose proof (NewMemoryStore_rep size) as H0. fold m0 in H0.
  destruct (ms_run_refines m0 ops H0) as [Hm Heq]. split; [exact Heq|]. split; [|exact Hm].
  unfold MemoryStore_Len. destruct (mr_size _ Hm) as [Hs _]. rewrite (run_maxSize m0 ops H0) in Hs.
  fold m in Hs. lia.
Qed.

(** ** Survival of recent entries *)

(** Reads, writes and lookups of the size, none of which removes [k] on purpose. *)
Definition keeps (k : string) (op : store_op) : bool :=
  match op with
  | OGet _ k' => negb (String.eqb k' k)
  | OSet e => negb (String.eqb (e_key e) k)
  | OLen => true
  | _ => false
  end.

(** [e] is at position [i] or nearer to the front, and is the only entry of its key. *)
Definition within (i : nat) (e : Entry) (l : lru_spec) : Prop :=
  ∃ l1 l2, l = l1 ++ e :: l2 ∧ (length l1 <= i)%nat ∧ ∀ x, x ∈ l1 → has_key (e_key e) x = false.

Lemma spec_remove_within i e l k :
  k ≠ e_key e → within i e l → within i e (spec_remove k l).
Proof.
  intros Hk (l1 & l2 & -> & Hl & Hall). unfold spec_remove. rewrite bfilter_app. cbn [bfilter].
  assert (has_key k e = false) as -> by (unfold has_key; by destruct (String.eqb_spec (e_key e) k)).
  cbn [negb]. exists (bfilter (λ x, negb (has_key k x)) l1), (bfilter (λ x, negb (has_key k x)) l2).
  split_and!; [done| |].
  - pose proof (sublist_length _ _ (bfilter_sublist (λ x, negb (has_key k x)) l1)). lia.
  - intros x [Hx _]%elem_of_bfilter. by apply Hall.
Qed.

Lemma within_cons i e x l : e_key x ≠ e_key e → within i e l → within (S i) e (x :: l).
Proof.
  intros Hx (l1 & l2 & -> & Hl & Hall). exists (x :: l1), l2. split_and!; [done|simpl; lia|].
  intros y [->|Hy]%elem_of_cons; [|by apply Hall]. unfold has_key.
  by destruct (String.eqb_spec (e_key x) (e_key e)).
Qed.

Lemma spec_step_within n i e l op :
  keeps (e_key e) op = true → (S i < n)%nat → within i e l → within (S i) e (spec_step n l op).1.
Proof.
  intros Hk Hi Hw.
  assert (within (S i) e l) as Hw' by (destruct Hw as (l1 & l2 & ? & ? & ?); exists l1, l2; split_and!; done || lia).
  destruct op; simpl in *; try done.
  - apply negb_true_iff, String.eqb_neq in Hk.
    destruct (find_first (has_key key) l) as [x|] eqn:E; [|done]. apply find_first_Some in E as [_ Hx].
    unfold has_key in Hx. apply String.eqb_eq in Hx.
    destruct (expired now x); cbn [fst]; [by apply spec_remove_within|].
    apply within_cons; [congruence|by apply spec_remove_within].
  - apply negb_true_iff, String.eqb_neq in Hk.
    destruct (find_first (has_key (e_key entry)) l) as [x|]; cbn [fst];
      (apply within_cons; [done|]); [by apply spec_remove_within|].
    destruct Hw as (l1 & l2 & -> & Hl & Hall). exists l1, (take (n - 1 - length l1 - 1) l2).
    split_and!; [|done|done]. rewrite take_app_ge by lia.
    by destruct (n - 1 - length l1)%nat eqn:E; [lia|]; simpl; rewrite Nat.sub_0_r.
Qed.

Lemma within_find i e l : within i e l → find_first (has_key (e_key e)) l = Some e.
Proof.
  intros (l1 & l2 & -> & _ & Hall). induction l1 as [|x l1 IH]; cbn [app find_first].
  - unfold has_key. by rewrite String.eqb_refl.
  - rewrite (Hall x) by set_solver. apply IH. set_solver.
Qed.

Lemma run_within n i e l ops :
  forallb (keeps (e_key e)) ops = true → (i + length ops < n)%nat → within i e l →
  within (i + length ops) e (run_with (spec_step n) l ops).1.
Proof.
  revert i l. induction ops as [|op ops IH]; intros i l Hk Hi Hw; simpl in *.
  - by rewrite Nat.add_0_r.
  - b2p. pose proof (spec_step_within n i e l op H ltac:(lia) Hw) as Hw'.
    destruct (spec_step n l op) as [l' r]. cbn [fst] in Hw'.
    specialize (IH (S i) l' H0 ltac:(lia) Hw'). destruct (run_with (spec_step n) l' ops) as [l2 rs].
    cbn [fst] in *. by replace (i + S (length ops))%nat with (S i + length ops)%nat by lia.
Qed.

(** A stored response is still served after any mix of fewer than [maxSize] reads and
    writes of other keys, as long as it has not expired: nothing is evicted before its
    turn. *)
Theorem MemoryStore_retains m e ops now :
  ms_rep m → forallb (keeps (e_key e)) ops = true → (length ops < ms_maxSize m)%nat →
  expired now e = false →
  (MemoryStore_Get now (e_key e) (run_with ms_step (ms_step m (OSet e)).1 ops).1).2 = Some e.
Proof.
  intros Hm Hk Hlen Hexp. destruct (ms_step_refines m (OSet e) Hm) as [Hm1 Heq1].
  pose proof (step_maxSize m (OSet e) Hm) as Hsz. set (m1 := (ms_step m (OSet e)).1) in *.
  assert (within 0 e (ms_abs m1)) as Hw.
  { assert (ms_abs m1 = (spec_step (ms_maxSize m) (ms_abs m) (OSet e)).1) as -> by by rewrite Heq1.
    simpl. destruct (find_first _ _); cbn [fst]; eexists [], _; (split_and!; [done|simpl; lia|set_solver]). }
  destruct (ms_run_refines m1 ops Hm1) as [Hm2 Heq2].
  pose proof (run_within (ms_maxSize m1) 0 e (ms_abs m1) ops Hk ltac:(lia) Hw) as Hw2.
  rewrite Heq2 in Hw2. cbn [fst] in Hw2. set (m2 := (run_with ms_step m1 ops).1) in *.
  destruct (ms_step_refines m2 (OGet now (e_key e)) Hm2) as [_ Heq3].
  apply within_find in Hw2. cbn [spec_step] in Heq3. rewrite Hw2, Hexp in Heq3.
  cbn [ms_step] in Heq3. destruct (MemoryStore_Get now (e_key e) m2) as [m3 r]. simpl in *. congruence.
Qed.

(** ** Witness *)

Definition demo_entry (k : string) : Entry :=
  {| e_key := k; e_status := 200; e_headers := ∅; e_body := "{}"; e_created := 0;
     e_expires := Some 100; e_gzip := None |}.

Lemma MemoryStore_retains_witness :
  (MemoryStore_Get 50 "a" (run_with ms_step (ms_step (NewMemoryStore 3) (OSet (demo_entry "a"))).1
     [OSet (demo_entry "b"); OGet 10 "b"]).1).2 = Some (demo_entry "a").
Proof.
  apply (MemoryStore_retains (NewMemoryStore 3) (demo_entry "a") [OSet (demo_entry "b"); OGet 10 "b"] 50);
    [apply NewMemoryStore_rep|reflexivity|vm_compute; lia|reflexivity].
Defined.
