(* ===== verification/Regexp.v ===== *)
(** * Regular expressions

    Operators may configure regular expressions (cache policies, route rules, failsafe
    overrides).  [RegexpLib] is Go's [regexp] as the code uses it: [Compile] and
    [MatchString].  [MiniRegexp] implements it for the syntax of eBeacon's built-in patterns:
    literals, escapes, [.], [\d], [\w], classes, groups, alternation, the three repetition operators
    and the two anchors. *)

From S2P Require Import Prelude GoStrings.
From Stdlib Require Import Ascii.
#[local] Open Scope Z_scope.

Class RegexpLib := {
  Regexp : Type;
  re_Compile : string → option Regexp;
  re_MatchString : Regexp → string → bool;
}.

(** ** Syntax *)

Inductive re :=
  | REps
  | RSet (neg : bool) (ranges : list (ascii * ascii))
  | RCat (a b : re)
  | RAlt (a b : re)
  | RStar (a : re)
  | RBol
  | REol.

Definition RChr (c : ascii) : re := RSet false [(c, c)].
Definition RDigit : re := RSet false [("0", "9")]%char.
Definition RWord : re := RSet false [("0", "9"); ("A", "Z"); ("a", "z"); ("_", "_")]%char.
Definition RAny : re := RSet true [(ascii_of_nat 10, ascii_of_nat 10)].

Definition set_has (c : ascii) (neg : bool) (rs : list (ascii * ascii)) : bool :=
  xorb neg (existsb (λ '(lo, hi), (byte_val lo <=? byte_val c) && (byte_val c <=? byte_val hi)) rs).

(** ** Matching: the end positions of a match that starts at [i] *)

Definition add_all (l k : list nat) : list nat :=
  foldr (λ x acc, if bool_decide (x ∈ acc) then acc else x :: acc) k l.

Section matcher.
Context (s : list ascii).

Fixpoint re_ends (r : re) (i : nat) : list nat :=
  match r with
  | REps => [i]
  | RSet neg rs => match s !! i with Some c => if set_has c neg rs then [S i] else [] | None => [] end
  | RCat a b => foldr (λ j acc, add_all (re_ends b j) acc) [] (re_ends a i)
  | RAlt a b => add_all (re_ends a i) (re_ends b i)
  | RStar a =>
      (fix iter (n : nat) (seen : list nat) : list nat :=
         match n with
         | O => seen
         | S n => iter n (foldr (λ j acc, add_all (re_ends a j) acc) seen seen)
         end) (length s) [i]
  | RBol => if (i =? 0)%nat then [i] else []
  | REol => if (i =? length s)%nat then [i] else []
  end.

Definition re_search (r : re) : bool :=
  existsb (λ i, negb (bool_decide (re_ends r i = []))) (seq 0 (S (length s))).
End matcher.

Definition re_matches (r : re) (s : string) : bool := re_search (String.list_ascii_of_string s) r.

(** ** Parsing *)

(** The body of a class, after an optional [^]. *)
Fixpoint parse_class (fuel : nat) (s : string) (acc : list (ascii * ascii))
    : option (list (ascii * ascii) * string) :=
  match fuel with
  | O => None
  | S fuel =>
      match s with
      | EmptyString => None
      | String c s' =>
          if Ascii.eqb c "]" && negb (bool_decide (acc = [])) then Some (acc, s')
          else
            let '(lo, rest) :=
              if Ascii.eqb c "\" then match s' with String c' s'' => (c', s'') | _ => (c, s') end
              else (c, s') in
            match rest with
            | String d (String hi rest') =>
                if Ascii.eqb d "-" && negb (Ascii.eqb hi "]") then parse_class fuel rest' ((lo, hi) :: acc)
                else parse_class fuel rest ((lo, lo) :: acc)
            | _ => parse_class fuel rest ((lo, lo) :: acc)
            end
      end
  end.

(** An alternation of concatenations of repeated atoms; a closing parenthesis ends it. *)
Fixpoint parse_alt (fuel : nat) (s : string) : option (re * string) :=
  match fuel with
  | O => None
  | S fuel =>
      match parse_cat fuel s with
      | Some (a, String c rest) =>
          if Ascii.eqb c "|" then
            match parse_alt fuel rest with
            | Some (b, rest') => Some (RAlt a b, rest')
            | None => None
            end
          else Some (a, String c rest)
      | o => o
      end
  end
with parse_cat (fuel : nat) (s : string) : option (re * string) :=
  match fuel with
  | O => None
  | S fuel =>
      match s with
      | EmptyString => Some (REps, s)
      | String c _ =>
          if Ascii.eqb c "|" || Ascii.eqb c ")" then Some (REps, s)
          else
            match parse_atom fuel s with
            | None => None
            | Some (a, rest) =>
                let '(a, rest) :=
                  match rest with
                  | String q rest' =>
                      if Ascii.eqb q "*" then (RStar a, rest')
                      else if Ascii.eqb q "+" then (RCat a (RStar a), rest')
                      else if Ascii.eqb q "?" then (RAlt a REps, rest')
                      else (a, rest)
                  | EmptyString => (a, rest)
                  end in
                match parse_cat fuel rest with
                | Some (b, rest') => Some (RCat a b, rest')
                | None => None
                end
            end
      end
  end
with parse_atom (fuel : nat) (s : string) : option (re * string) :=
  match fuel with
  | O => None
  | S fuel =>
      match s with
      | EmptyString => None
      | String c s' =>
          if Ascii.eqb c "^" then Some (RBol, s')
          else if Ascii.eqb c "$" then Some (REol, s')
          else if Ascii.eqb c "." then Some (RAny, s')
          else if Ascii.eqb c "\" then
            match s' with
            | String d s'' =>
                if Ascii.eqb d "d" then Some (RDigit, s'')
                else if Ascii.eqb d "w" then Some (RWord, s'')
                else Some (RChr d, s'')
            | EmptyString => None
            end
          else if Ascii.eqb c "[" then
            let '(neg, body) :=
              match s' with
              | String d s'' => if Ascii.eqb d "^" then (true, s'') else (false, s')
              | EmptyString => (false, s')
              end in
            match parse_class (S (String.length body)) body [] with
            | Some (rs, rest) => Some (RSet neg rs, rest)
            | None => None
            end
          else if Ascii.eqb c "(" then
            let body := TrimPrefix s' "?:" in
            match parse_alt fuel body with
            | Some (a, String d rest) => if Ascii.eqb d ")" then Some (a, rest) else None
            | _ => None
            end
          else if Ascii.eqb c "*" || Ascii.eqb c "+" || Ascii.eqb c "?" || Ascii.eqb c ")" then None
          else Some (RChr c, s')
      end
  end.

Definition re_parse (s : string) : option re :=
  match parse_alt (4 * String.length s + 8) s with
  | Some (r, EmptyString) => Some r
  | _ => None
  end.

#[export] Instance MiniRegexp : RegexpLib := {|
  Regexp := re;
  re_Compile := re_parse;
  re_MatchString := re_matches;
|}.

(** Compile and match in one step, for examples. *)
Definition re_test (pattern s : string) : option bool := (λ r, re_matches r s) <$> re_parse pattern.

Example re_test_1 :
  re_test "^/eth/v\d+/beacon/headers/(head|finalized|justified)$" "/eth/v1/beacon/headers/head" = Some true ∧
  re_test "^/eth/v\d+/beacon/headers/(head|finalized|justified)$" "/eth/v1/beacon/headers/heads" = Some false ∧
  re_test "/validators(?:/[^/]+)?$" "/eth/v1/beacon/states/head/validators/12" = Some true ∧
  re_test "(a" "a" = None.
Proof. vm_compute. done. Qed.
