(* ===== verification/Cache.v ===== *)
(** * The response cache

    [cache/cache.go]: policies and the operations of [Cache] on the in-memory store.  The
    compiled patterns come from [RegexpLib]; hit, miss and size metrics are left out. *)

From S2P Require Import Prelude GoStrings Config MemoryStore Regexp.
#[local] Open Scope Z_scope.

(** ** Policies *)

Record CachePolicy := { cp_Pattern : string; cp_TTL : Z; cp_Methods : list string }.

Definition default_policy (pattern : string) (ttl : Z) : CachePolicy :=
  {| cp_Pattern := pattern; cp_TTL := ttl; cp_Methods := [] |}.

Definition named : string := "(head|finalized|justified)".

(** The two policies of a state sub-resource: named identifiers, then any identifier. *)
Definition state_policies (resource : string) (ttl : Z) : list CachePolicy :=
  [default_policy ("^/eth/v\d+/beacon/states/" +:+ named +:+ resource) (4 * Second);
   default_policy ("^/eth/v\d+/beacon/states/[^/]+" +:+ resource) ttl].

Definition defaultPolicies : list CachePolicy :=
  [default_policy "^/eth/v\d+/beacon/genesis$" 0;
   default_policy "^/eth/v\d+/node/version$" Hour;
   default_policy "^/eth/v\d+/node/identity$" Hour;
   default_policy "^/eth/v\d+/node/peer_count$" (15 * Second);
   default_policy "^/eth/v\d+/node/peers" (30 * Second);
   default_policy "^/eth/v\d+/node/syncing$" (5 * Second);
   default_policy "^/eth/v\d+/beacon/headers$" (4 * Second);
   default_policy "^/eth/v\d+/beacon/headers/(head|finalized|justified)$" (4 * Second);
   default_policy "^/eth/v\d+/beacon/headers/" (12 * Second);
   default_policy "^/eth/v\d+/beacon/blocks/(head|finalized|justified)(/.*)?$" (4 * Second);
   default_policy "^/eth/v\d+/beacon/blocks/[^/]+/root$" (12 * Second);
   default_policy "^/eth/v\d+/beacon/blocks/[^/]+/attestations$" (12 * Second);
   default_policy "^/eth/v\d+/beacon/blocks/" (12 * Second);
   default_policy "^/eth/v\d+/beacon/blinded_blocks/(head|finalized|justified)(/.*)?$" (4 * Second);
   default_policy "^/eth/v\d+/beacon/blinded_blocks/" (12 * Second);
   default_policy "^/eth/v\d+/beacon/blobs/(head|finalized|justified)(/.*)?$" (4 * Second);
   default_policy "^/eth/v\d+/beacon/blobs/" (12 * Second);
   default_policy "^/eth/v\d+/beacon/blob_sidecars/(head|finalized|justified)(/.*)?$" (4 * Second);
   default_policy "^/eth/v\d+/beacon/blob_sidecars/" (12 * Second);
   default_policy "^/eth/v\d+/beacon/execution_payload_envelopes/(head|finalized|justified)$" (4 * Second);
   default_policy "^/eth/v\d+/beacon/execution_payload_envelopes/[^/]+$" (12 * Second);
   default_policy "^/eth/v\d+/beacon/rewards/blocks/[^/]+$" (12 * Second);
   default_policy "^/eth/v\d+/beacon/rewards/sync_committee/[^/]+$" (12 * Second);
   default_policy "^/eth/v\d+/beacon/rewards/attestations/[^/]+$" (30 * Second)] ++
  state_policies "/root$" (12 * Second) ++
  state_policies "/fork$" (12 * Second) ++
  state_policies "/finality_checkpoints$" (12 * Second) ++
  state_policies "/validators(?:/[^/]+)?$" (6 * Second) ++
  state_policies "/validator_balances$" (12 * Second) ++
  state_policies "/committees$" (12 * Second) ++
  state_policies "/sync_committees$" (12 * Second) ++
  state_policies "/pending_deposits$" (12 * Second) ++
  state_policies "/pending_consolidations$" (12 * Second) ++
  state_policies "/pending_partial_withdrawals$" (12 * Second) ++
  state_policies "/randao$" (12 * Second) ++
  state_policies "/proposer_lookahead$" (12 * Second) ++
  [default_policy "^/eth/v\d+/validator/duties/proposer/[^/]+$" (30 * Second)].

Section cache.
Context `{RX : RegexpLib}.

Record policy := { po_re : Regexp; po_ttl : Z; po_methods : list string }.

(** The methods of a policy: upper-cased, GET and HEAD by default. *)
Definition policy_methods (l : list string) : list string :=
  match l with [] => ["GET"; "HEAD"]%string | _ => ToUpper <$> l end.

Definition compile_policy (p : CachePolicy) : option policy :=
  match re_Compile (cp_Pattern p) with
  | None => None
  | Some re => Some {| po_re := re; po_ttl := cp_TTL p; po_methods := policy_methods (cp_Methods p) |}
  end.

Record Cache := { c_store : MemoryStore; c_policies : list policy }.

(** [New] with the in-memory driver; [None] is a pattern that does not compile. *)
Definition Cache_New (policies : list CachePolicy) (maxSize : Z) : option Cache :=
  let policies := match policies with [] => defaultPolicies | _ => policies end in
  match mapM compile_policy policies with
  | None => None
  | Some l => Some {| c_store := NewMemoryStore maxSize; c_policies := l |}
  end.

Definition Cache_Policy (c : Cache) (method path : string) : option policy :=
  let upper := ToUpper method in
  find_first (λ p, bool_decide (upper ∈ po_methods p) && re_MatchString (po_re p) path) (c_policies c).

Definition policy_TTL (p : policy) : Z := po_ttl p.

(** ** Operations *)

Definition set_store (s : MemoryStore) (c : Cache) : Cache :=
  {| c_store := s; c_policies := c_policies c |}.

Definition Cache_Get (now : Z) (key : string) (c : Cache) : Cache * option Entry :=
  let '(s, r) := MemoryStore_Get now key (c_store c) in (set_store s c, r).

(** The entry [Set] builds; a TTL of zero never expires. *)
Definition new_entry (now : Z) (key : string) (status : Z) (headers : Header) (body : string) (ttl : Z)
    : Entry :=
  {| e_key := key; e_status := status; e_headers := headers; e_body := body; e_created := now;
     e_expires := if 0 <? ttl then Some (now + ttl) else None; e_gzip := None |}.

Definition Cache_Set (now : Z) (key : string) (status : Z) (headers : Header) (body : string) (ttl : Z)
    (c : Cache) : Cache :=
  set_store (MemoryStore_Set key (new_entry now key status headers body ttl) (c_store c)) c.

Definition Cache_PromoteIf (now : Z) (f : string → bool) (c : Cache) : Cache * Z :=
  let '(s, n) := MemoryStore_PromoteIf now f (c_store c) in (set_store s c, n).

Definition Cache_Delete (key : string) (c : Cache) : Cache :=
  set_store (MemoryStore_Delete key (c_store c)) c.

(** [PurgeCollect]: the live keys that satisfy [f] are deleted one by one. *)
Definition PurgeCollect (now : Z) (f : string → bool) (c : Cache) : Cache * Z * list string :=
  let '(s, keys) := MemoryStore_Keys now (c_store c) in
  let purged := bfilter f keys in
  (foldl (λ c k, Cache_Delete k c) (set_store s c) purged, Z.of_nat (length purged), purged).

(** A nil body is the empty string. *)
Record Snapshot := {
  sn_Key : string; sn_Status : Z; sn_Headers : Header; sn_Body : string; sn_BodySize : Z;
  sn_Created : Z; sn_Expires : option Z;
}.

Definition entry_snapshot (includeBody : bool) (e : Entry) : Snapshot :=
  {| sn_Key := e_key e; sn_Status := e_status e; sn_Headers := e_headers e;
     sn_Body := if includeBody then e_body e else ""; sn_BodySize := str_len (e_body e);
     sn_Created := e_created e; sn_Expires := e_expires e |}.

Definition Cache_Entries (now limit : Z) (includeBody : bool) (c : Cache) : Cache * list Snapshot :=
  let '(s, es) := MemoryStore_Entries now limit (c_store c) in (set_store s c, entry_snapshot includeBody <$> es).

Definition Cache_Size (c : Cache) : Z := MemoryStore_Len (c_store c).

(** ** Lemmas *)

Lemma Delete_run keys (c : Cache) :
  ms_rep (c_store c) →
  let c' := foldl (λ c k, Cache_Delete k c) c keys in
  ms_rep (c_store c') ∧
  ms_abs (c_store c') = bfilter (λ e, negb (bool_decide (e_key e ∈ keys))) (ms_abs (c_store c)).
Proof.
  revert c. induction keys as [|k keys IH]; intros c Hc; cbn [foldl].
  - split; [done|]. symmetry. apply bfilter_all. intros e _. by rewrite bool_decide_false by set_solver.
  - destruct (ms_step_refines (c_store c) (ODelete k) Hc) as [Hd Heq].
    cbn [ms_step fst snd spec_step] in *. destruct (IH (Cache_Delete k c) Hd) as [H1 H2].
    split; [done|]. rewrite H2. simpl c_store. injection Heq as <-. unfold spec_remove.
    rewrite bfilter_bfilter. apply bfilter_ext. intros e _. unfold has_key.
    rewrite <- negb_orb. f_equal. apply eq_true_iff_eq.
    rewrite orb_true_iff, String.eqb_eq, !bool_decide_eq_true. set_solver.
Qed.

Lemma PurgeCollect_run now f (c : Cache) :
  ms_rep (c_store c) →
  let '(c', n, purged) := PurgeCollect now f c in
  let live := bfilter (λ e, negb (expired now e)) (ms_abs (c_store c)) in
  purged = bfilter f (e_key <$> live) ∧ n = Z.of_nat (length purged) ∧
  ms_abs (c_store c') = bfilter (λ e, negb (f (e_key e))) live ∧ ms_rep (c_store c').
Proof.
  intros Hc. unfold PurgeCollect. destruct (ms_step_refines (c_store c) (OKeys now) Hc) as [Hk Heq].
  cbn [ms_step spec_step] in *. destruct (MemoryStore_Keys now (c_store c)) as [s keys] eqn:E. cbn [fst snd] in *.
  injection Heq as Hs Hkeys. cbv zeta. rewrite Hs. rewrite Hs in Hkeys. rewrite Hkeys.
  destruct (Delete_run (bfilter f keys) (set_store s c) Hk) as [H1 H2].
  split_and!; [done|done| |done]. rewrite H2. simpl c_store. apply bfilter_ext. intros e He. f_equal.
  apply eq_true_iff_eq. rewrite bool_decide_eq_true, elem_of_bfilter. split; [by intros [_ ?]|].
  intros Hf. split; [|done]. rewrite <- Hkeys. by apply list_elem_of_fmap_2.
Qed.

Lemma Cache_PromoteIf_run now f (c : Cache) :
  ms_rep (c_store c) →
  let '(c', n) := Cache_PromoteIf now f c in
  let live := bfilter (λ e, negb (expired now e)) (ms_abs (c_store c)) in
  ms_abs (c_store c') = promote f <$> live ∧ n = Z.of_nat (length (bfilter (promoted f) live)) ∧ ms_rep (c_store c').
Proof.
  intros Hc. unfold Cache_PromoteIf. destruct (ms_step_refines (c_store c) (OPromoteIf now f) Hc) as [Hm Heq].
  cbn [ms_step spec_step] in *. destruct (MemoryStore_PromoteIf now f (c_store c)) as [s n]. cbn [fst snd] in *.
  injection Heq as Hs Hn. done.
Qed.

(** Storing and reading add nothing but the stored entry. *)
Lemma Cache_Set_sub now key status hdr body ttl (c : Cache) :
  ms_rep (c_store c) →
  let c' := Cache_Set now key status hdr body ttl c in
  ms_rep (c_store c') ∧
  ∀ e, e ∈ ms_abs (c_store c') → e = new_entry now key status hdr body ttl ∨ e ∈ ms_abs (c_store c).
Proof.
  intros Hc c'. destruct (ms_step_refines (c_store c) (OSet (new_entry now key status hdr body ttl)) Hc) as [Hm Heq].
  split; [exact Hm|]. cbn [ms_step fst snd spec_step] in Heq. intros e He.
  change (c_store c') with (MemoryStore_Set key (new_entry now key status hdr body ttl) (c_store c)) in He.
  change (e_key (new_entry now key status hdr body ttl)) with key in Heq.
  destruct (find_first _ _) in Heq; injection Heq as Heq; rewrite <- Heq in He;
    apply elem_of_cons in He as [He|He]; try (by left); right.
  - by apply elem_of_bfilter in He as [He _].
  - by apply elem_of_take in He as (i & Hi%list_elem_of_lookup_2 & _).
Qed.

Lemma Cache_Get_sub now key (c : Cache) :
  ms_rep (c_store c) →
  let c' := (Cache_Get now key c).1 in
  ms_rep (c_store c') ∧ ∀ e, e ∈ ms_abs (c_store c') → e ∈ ms_abs (c_store c).
Proof.
  intros Hc. destruct (ms_step_refines (c_store c) (OGet now key) Hc) as [Hm Heq].
  unfold Cache_Get. cbn [ms_step spec_step] in *. destruct (MemoryStore_Get now key (c_store c)) as [s r].
  cbn [fst snd] in *. split; [exact Hm|]. intros e He. simpl c_store in He.
  destruct (find_first _ _) as [e0|] eqn:Ef in Heq; [|injection Heq as Hs _; by rewrite <- Hs in He].
  apply find_first_Some in Ef as [Ef _].
  destruct (expired now e0); injection Heq as Hs _; rewrite <- Hs in He.
  - by apply elem_of_bfilter in He as [He _].
  - apply elem_of_cons in He as [->|He]; [done|]. by apply elem_of_bfilter in He as [He _].
Qed.

(** Purging deletes exactly the live entries whose key satisfies the predicate and reports
    exactly their keys; the other live entries stay, in their recency order, and expired ones
    are swept. *)
Theorem PurgeCollect_spec now f (c : Cache) :
  ms_rep (c_store c) →
  let '(c', n, purged) := PurgeCollect now f c in
  let live := bfilter (λ e, negb (expired now e)) (ms_abs (c_store c)) in
  purged = bfilter f (e_key <$> live) ∧ n = Z.of_nat (length purged) ∧
  ms_abs (c_store c') = bfilter (λ e, negb (f (e_key e))) live ∧ ms_rep (c_store c').
Proof. apply PurgeCollect_run. Qed.

(** What [Get] finds after [Set]. *)
Lemma Cache_Set_then_Get now key status hdr body ttl later (c : Cache) :
  ms_rep (c_store c) →
  (Cache_Get later key (Cache_Set now key status hdr body ttl c)).2 =
    (if (0 <? ttl) && (now + ttl <? later) then None else Some (new_entry now key status hdr body ttl)).
Proof.
  intros Hc. set (e := new_entry now key status hdr body ttl).
  pose proof (ms_step_refines (c_store c) (OSet e) Hc) as [Hm Heq].
  cbn [ms_step fst snd] in Hm, Heq. change (e_key e) with key in *.
  set (c1 := Cache_Set _ _ _ _ _ _ _). assert (c_store c1 = MemoryStore_Set key e (c_store c)) as Hst by done. rewrite <- Hst in *.
  assert (∃ l, ms_abs (c_store c1) = e :: l) as [l Hab].
  { cbn [spec_step] in Heq. change (e_key e) with key in Heq.
    destruct (find_first (has_key key) (ms_abs (c_store c))); injection Heq as Heq; eexists; symmetry; exact Heq. }
  clear Heq Hst. clearbody c1.
  destruct (ms_step_refines (c_store c1) (OGet later key) Hm) as [_ Hg]. cbn [ms_step spec_step] in Hg.
  rewrite Hab in Hg. cbn [find_first] in Hg. unfold has_key at 1 in Hg. simpl e_key in Hg.
  rewrite String.eqb_refl in Hg. unfold Cache_Get.
  destruct (MemoryStore_Get later key (c_store c1)) as [m2 r]. cbn [fst snd] in *.
  unfold expired in Hg. simpl e_expires in Hg. destruct (0 <? ttl); [|by simplify_eq].
  by destruct (now + ttl <? later); simplify_eq.
Qed.

Lemma Cache_Get_rep now key (c : Cache) : ms_rep (c_store c) → ms_rep (c_store (Cache_Get now key c).1).
Proof.
  intros Hc. destruct (ms_step_refines (c_store c) (OGet now key) Hc) as [Hm _]. cbn [ms_step] in Hm.
  unfold Cache_Get. by destruct (MemoryStore_Get now key (c_store c)).
Qed.

(** What a lookup finds in a list of entries. *)
Definition live_entry (now : Z) (k : string) (l : list Entry) : option Entry :=
  match find_first (has_key k) l with
  | Some e => if expired now e then None else Some e
  | None => None
  end.

Lemma find_removed k k' l : k ≠ k' → find_first (has_key k') (spec_remove k l) = find_first (has_key k') l.
Proof.
  intros Hk. unfold spec_remove. induction l as [|e l IH]; [done|]. cbn [bfilter find_first].
  destruct (has_key k e) eqn:Ek; cbn [negb].
  - assert (has_key k' e = false) as ->; [|exact IH]. unfold has_key in *. apply String.eqb_eq in Ek. apply String.eqb_neq. congruence.
  - cbn [find_first]. by destruct (has_key k' e).
Qed.

Lemma find_removed_same k l : find_first (has_key k) (spec_remove k l) = None.
Proof. apply find_first_None. intros e [_ He]%elem_of_bfilter. by apply negb_true_iff. Qed.

Lemma expired_later now later e : now <= later → expired now e = true → expired later e = true.
Proof. unfold expired. destruct (e_expires e); [|done]. intros H E. b2p. apply Z.ltb_lt. lia. Qed.

(** A lookup finds the live entry, and changes nothing for later lookups. *)
Lemma Cache_Get_live now k (c : Cache) :
  ms_rep (c_store c) →
  (Cache_Get now k c).2 = live_entry now k (ms_abs (c_store c)) ∧
  ∀ later k', now <= later →
    live_entry later k' (ms_abs (c_store (Cache_Get now k c).1)) = live_entry later k' (ms_abs (c_store c)).
Proof.
  intros Hc. destruct (ms_step_refines (c_store c) (OGet now k) Hc) as [_ Hg]. cbn [ms_step spec_step] in Hg.
  unfold Cache_Get. destruct (MemoryStore_Get now k (c_store c)) as [m r]. cbn [fst snd c_store set_store] in *.
  set (l := ms_abs (c_store c)) in *. clearbody l. unfold live_entry. destruct (find_first (has_key k) l) as [e|] eqn:Ef; [|by injection Hg as <- <-].
  assert (has_key k e = true) as Hke by (by apply find_first_Some in Ef as [_ ?]).
  destruct (expired now e) eqn:Ee; injection Hg as <- <-; (split; [done|]); intros later k' Hl;
    destruct (decide (k = k')) as [<- |Hne].
  - rewrite find_removed_same, Ef. by rewrite (expired_later _ _ _ Hl Ee).
  - by rewrite find_removed.
  - cbn [find_first]. by rewrite Hke, Ef.
  - cbn [find_first]. assert (has_key k' e = false) as ->.
    { unfold has_key in *. apply String.eqb_eq in Hke. apply String.eqb_neq. congruence. }
    by rewrite find_removed.
Qed.

Lemma Cache_Delete_live k later k' (c : Cache) :
  ms_rep (c_store c) →
  live_entry later k' (ms_abs (c_store (Cache_Delete k c))) =
  if String.eqb k' k then None else live_entry later k' (ms_abs (c_store c)).
Proof.
  intros Hc. destruct (ms_step_refines (c_store c) (ODelete k) Hc) as [_ Hg]. cbn [ms_step spec_step fst snd] in Hg.
  unfold Cache_Delete. cbn [c_store set_store]. injection Hg as <-. unfold live_entry.
  destruct (String.eqb_spec k' k) as [-> |Hne]; [by rewrite find_removed_same|by rewrite find_removed].
Qed.

Lemma Cache_Delete_rep k (c : Cache) : ms_rep (c_store c) → ms_rep (c_store (Cache_Delete k c)).
Proof. intros Hc. apply (ms_step_refines (c_store c) (ODelete k) Hc). Qed.

(** A response stored with a TTL is returned until the TTL has passed and not afterwards,
    and one stored with TTL zero, or promoted by [PromoteIf], is returned at any time. *)
Theorem Cache_Set_Get now key status hdr body ttl later (c : Cache) :
  ms_rep (c_store c) → now <= later →
  let c1 := Cache_Set now key status hdr body ttl c in
  let e := new_entry now key status hdr body ttl in
  (Cache_Get later key c1).2 = (if (0 <? ttl) && (now + ttl <? later) then None else Some e) ∧
  (0 < ttl → later <= now + ttl → ∀ f forever, f key = true →
     (Cache_Get forever key (Cache_PromoteIf later f c1).1).2 = Some (set_expires None e)).
Proof.
  intros Hc Hl c1 e. pose proof (ms_step_refines (c_store c) (OSet e) Hc) as [Hm Heq].
  cbn [ms_step fst snd] in Hm, Heq. change (e_key e) with key in *.
  assert (c_store c1 = MemoryStore_Set key e (c_store c)) as Hst by done. rewrite <- Hst in *.
  assert (∃ l, ms_abs (c_store c1) = e :: l) as [l Hab].
  { cbn [spec_step] in Heq. change (e_key e) with key in Heq.
    destruct (find_first (has_key key) (ms_abs (c_store c))); injection Heq as Heq; eexists; symmetry; exact Heq. }
  clear Heq Hst. split; [by apply Cache_Set_then_Get|]. clearbody c1.
  intros Hpos Hle f forever Hf.
    destruct (ms_step_refines (c_store c1) (OPromoteIf later f) Hm) as [Hm2 Hp].
    cbn [ms_step spec_step] in Hp, Hm2. unfold Cache_PromoteIf.
    destruct (MemoryStore_PromoteIf later f (c_store c1)) as [m2 n]. cbn [fst snd] in *.
    assert (∃ l', ms_abs m2 = set_expires None e :: l') as [l' Hab2].
    { injection Hp as Hp _. rewrite <- Hp, Hab. cbn [bfilter]. unfold expired at 1. simpl e_expires.
      rewrite (proj2 (Z.ltb_lt _ _)), (proj2 (Z.ltb_ge (now + ttl) _)) by lia. cbn [negb].
      rewrite fmap_cons. unfold promote at 1. simpl e_expires. rewrite (proj2 (Z.ltb_lt 0 ttl)) by lia.
      simpl e_key. rewrite Hf. by eexists. }
    destruct (ms_step_refines m2 (OGet forever key) Hm2) as [_ Hg]. cbn [ms_step spec_step] in Hg.
    rewrite Hab2 in Hg. cbn [find_first] in Hg. unfold has_key at 1 in Hg. simpl e_key in Hg.
    rewrite String.eqb_refl in Hg. unfold Cache_Get. simpl c_store.
    destruct (MemoryStore_Get forever key m2) as [m3 r]. cbn [fst snd expired] in *.
    unfold expired in Hg. simpl e_expires in Hg. injection Hg as _ Hg. symmetry. exact Hg.
Qed.
End cache.

Arguments Cache _ : clear implicits.

(** ** Witnesses *)

(** Every built-in pattern compiles. *)
Lemma defaultPolicies_compile :
  (λ c, length (c_policies c)) <$> Cache_New (RX := MiniRegexp) [] 0 = Some 49%nat.
Proof. vm_compute. reflexivity. Qed.

Definition default_ttl (path : string) : option Z :=
  match Cache_New (RX := MiniRegexp) [] 0 with
  | Some c => po_ttl <$> Cache_Policy c "get" path
  | None => None
  end.

(** The first matching policy decides. *)
Example default_ttl_examples :
  default_ttl "/eth/v1/beacon/headers/head" = Some (4 * Second) ∧
  default_ttl "/eth/v2/beacon/blocks/123" = Some (12 * Second) ∧
  default_ttl "/eth/v1/beacon/states/finalized/validators/7" = Some (4 * Second) ∧
  default_ttl "/eth/v1/beacon/states/99/validators" = Some (6 * Second) ∧
  default_ttl "/eth/v1/node/health" = None ∧ default_ttl "/eth/v1/beacon/genesis" = Some 0.
Proof. vm_compute. done. Qed.

Definition demo_cache : Cache MiniRegexp :=
  {| c_store := MemoryStore_Set "b" (demo_entry "b") (MemoryStore_Set "a" (demo_entry "a") (NewMemoryStore 3));
     c_policies := [] |}.

Lemma demo_cache_rep : ms_rep (c_store demo_cache).
Proof.
  apply (ms_step_refines (ms_step (NewMemoryStore 3) (OSet (demo_entry "a"))).1 (OSet (demo_entry "b"))).
  apply (ms_step_refines (NewMemoryStore 3) (OSet (demo_entry "a"))). apply NewMemoryStore_rep.
Qed.

Lemma PurgeCollect_spec_witness :
  let '(c', n, purged) := PurgeCollect 5 (String.eqb "a") demo_cache in
  n = 1 ∧ purged = ["a"%string] ∧ ms_rep (c_store c').
Proof.
  pose proof (PurgeCollect_spec 5 (String.eqb "a") demo_cache demo_cache_rep) as H.
  destruct (PurgeCollect 5 (String.eqb "a") demo_cache) as [[c' n] purged].
  destruct H as (-> & -> & _ & Hr). split; [vm_compute; reflexivity|]. split; [vm_compute; reflexivity|exact Hr].
Defined.

Lemma Cache_Set_Get_witness :
  (Cache_Get 20 "k" (Cache_Set 10 "k" 200 ∅ "{}" 5 demo_cache)).2 = None.
Proof.
  destruct (Cache_Set_Get 10 "k" 200 ∅ "{}" 5 20 demo_cache demo_cache_rep ltac:(lia)) as [H _].
  etransitivity; [exact H|reflexivity].
Defined.
