(* ===== verification/ApiPath.v ===== *)
(** * Route templates

    [network/api_path.go]: [normalizeAPIPath] reduces a request path to a route template that
    labels metrics and keys the per-route score trackers.  The main result is that the set of
    templates is finite and known, whatever clients send. *)

From S2P Require Import Prelude GoStrings.
From Stdlib Require Import Ascii.
#[local] Open Scope Z_scope.
#[local] Open Scope string_scope.

(** [strings.Split(strings.Trim(path, "/"), "/")] *)
Definition path_segments (path : string) : list string := Split (Trim path "/") "/".

(** [segments[i]], read only below [len(segments)]. *)
Definition seg (segments : list string) (i : nat) : string := nth i segments "".

(** [switch s { case ...: }] on a set of strings. *)
Definition one_of (s : string) (l : list string) : bool := existsb (String.eqb s) l.

Definition norm_node (prefix : string) (segs : list string) : string :=
  if (4 <=? length segs)%nat && one_of (seg segs 3)
       ["health"; "identity"; "peer_count"; "peers"; "syncing"; "version"]
  then prefix +:+ "/node/" +:+ seg segs 3
  else prefix +:+ "/node/other".

Definition norm_config (prefix : string) (segs : list string) : string :=
  if (4 <=? length segs)%nat && one_of (seg segs 3) ["deposit_contract"; "fork_schedule"; "genesis"; "spec"]
  then prefix +:+ "/config/" +:+ seg segs 3
  else prefix +:+ "/config/other".

Definition norm_blocks (prefix : string) (segs : list string) : string :=
  if (length segs =? 5)%nat then prefix +:+ "/beacon/" +:+ seg segs 3 +:+ "/{block_id}"
  else if (length segs =? 6)%nat && one_of (seg segs 5) ["attestations"; "root"]
  then prefix +:+ "/beacon/" +:+ seg segs 3 +:+ "/{block_id}/" +:+ seg segs 5
  else prefix +:+ "/beacon/" +:+ seg segs 3 +:+ "/other".

Definition state_resources : list string :=
  ["committees"; "finality_checkpoints"; "fork"; "pending_consolidations"; "pending_deposits";
   "pending_partial_withdrawals"; "proposer_lookahead"; "randao"; "root"; "sync_committees";
   "validator_balances"; "validator_identities"; "validators"].

Definition norm_states (prefix : string) (segs : list string) : string :=
  if (length segs <? 6)%nat then prefix +:+ "/beacon/states/other"
  else if one_of (seg segs 5) state_resources then
    let base := prefix +:+ "/beacon/states/{state_id}/" +:+ seg segs 5 in
    if (length segs =? 6)%nat then base
    else if (length segs =? 7)%nat && String.eqb (seg segs 5) "validators" then base +:+ "/{validator_id}"
    else prefix +:+ "/beacon/states/other"
  else prefix +:+ "/beacon/states/other".

Definition norm_rewards (prefix : string) (segs : list string) : string :=
  if (length segs =? 6)%nat && String.eqb (seg segs 4) "attestations"
  then prefix +:+ "/beacon/rewards/attestations/{epoch}"
  else if (length segs =? 6)%nat && one_of (seg segs 4) ["blocks"; "sync_committee"]
  then prefix +:+ "/beacon/rewards/" +:+ seg segs 4 +:+ "/{block_id}"
  else prefix +:+ "/beacon/rewards/other".

Definition norm_envelopes (prefix : string) (segs : list string) : string :=
  match length segs with
  | 4 => prefix +:+ "/beacon/execution_payload_envelopes"
  | 5 => prefix +:+ "/beacon/execution_payload_envelopes/{block_id}"
  | _ => prefix +:+ "/beacon/execution_payload_envelopes/other"
  end%nat.

Definition pool_resources : list string :=
  ["attestations"; "attester_slashings"; "proposer_slashings"; "sync_committees"; "voluntary_exits";
   "bls_to_execution_changes"; "payload_attestations"].

Definition norm_pool (prefix : string) (segs : list string) : string :=
  if (length segs =? 5)%nat && one_of (seg segs 4) pool_resources
  then prefix +:+ "/beacon/pool/" +:+ seg segs 4
  else prefix +:+ "/beacon/pool/other".

Definition norm_light_client (prefix : string) (segs : list string) : string :=
  if (length segs =? 4)%nat then prefix +:+ "/beacon/light_client"
  else if one_of (seg segs 4) ["finality_update"; "optimistic_update"; "updates"]
  then prefix +:+ "/beacon/light_client/" +:+ seg segs 4
  else if String.eqb (seg segs 4) "bootstrap" && (length segs =? 6)%nat
  then prefix +:+ "/beacon/light_client/bootstrap/{block_root}"
  else prefix +:+ "/beacon/light_client/other".

(** The [beacon] case; a [deposit_snapshot] with more segments leaves both switches. *)
Definition norm_beacon (prefix : string) (segs : list string) : string :=
  let s := seg segs 3 in
  if (length segs <? 4)%nat then prefix +:+ "/beacon/other"
  else if String.eqb s "genesis" then prefix +:+ "/beacon/genesis"
  else if String.eqb s "headers" then
    (if (length segs =? 4)%nat then prefix +:+ "/beacon/headers" else prefix +:+ "/beacon/headers/{block_id}")
  else if one_of s ["blocks"; "blinded_blocks"; "blobs"; "blob_sidecars"] then norm_blocks prefix segs
  else if String.eqb s "states" then norm_states prefix segs
  else if String.eqb s "rewards" then norm_rewards prefix segs
  else if String.eqb s "execution_payload_envelopes" then norm_envelopes prefix segs
  else if String.eqb s "execution_payload_bids" then
    (if (length segs =? 4)%nat then prefix +:+ "/beacon/execution_payload_bids" else prefix +:+ "/beacon/other")
  else if String.eqb s "pool" then norm_pool prefix segs
  else if String.eqb s "deposit_snapshot" then
    (if (length segs =? 4)%nat then prefix +:+ "/beacon/deposit_snapshot" else prefix +:+ "/other")
  else if String.eqb s "light_client" then norm_light_client prefix segs
  else prefix +:+ "/beacon/other".

Definition validator_resources : list string :=
  ["attestation_data"; "aggregate_and_proofs"; "aggregate_attestation"; "beacon_committee_selections";
   "beacon_committee_subscriptions"; "builder_preferences"; "contribution_and_proofs";
   "payload_attestation_data"; "prepare_beacon_proposer"; "proposer_preferences"; "register_validator";
   "sync_committee_contribution"; "sync_committee_selections"; "sync_committee_subscriptions"].

Definition norm_validator (prefix : string) (segs : list string) : string :=
  let s := seg segs 3 in
  if (length segs =? 6)%nat && String.eqb s "duties" && one_of (seg segs 4) ["attester"; "proposer"; "sync"; "ptc"]
  then prefix +:+ "/validator/duties/" +:+ seg segs 4 +:+ "/{epoch}"
  else if (length segs =? 5)%nat && String.eqb s "liveness" then prefix +:+ "/validator/liveness/{epoch}"
  else if (length segs =? 5)%nat && String.eqb s "blocks" then prefix +:+ "/validator/blocks/{slot}"
  else if (length segs =? 6)%nat && String.eqb s "execution_payload_envelopes"
  then prefix +:+ "/validator/execution_payload_envelopes/{slot}/{beacon_block_root}"
  else if (length segs =? 4)%nat && one_of s validator_resources then prefix +:+ "/validator/" +:+ s
  else prefix +:+ "/validator/other".

Definition norm_debug (prefix : string) (segs : list string) : string :=
  let deep := (length segs =? 6)%nat && String.eqb (seg segs 3) "beacon" in
  if deep && String.eqb (seg segs 4) "states" then prefix +:+ "/debug/beacon/states/{state_id}"
  else if deep && String.eqb (seg segs 4) "data_column_sidecars"
  then prefix +:+ "/debug/beacon/data_column_sidecars/{block_id}"
  else prefix +:+ "/debug/other".

(** [v0] ... [v9] *)
Definition is_version (s : string) : bool :=
  match s with
  | String c (String d EmptyString) => Ascii.eqb c "v" && is_digit d
  | _ => false
  end.

Definition norm_segments (segs : list string) : string :=
  if (length segs <? 2)%nat || negb (String.eqb (seg segs 0) "eth") || negb (is_version (seg segs 1))
  then "/other"
  else
    let prefix := "/" +:+ seg segs 0 +:+ "/" +:+ seg segs 1 in
    let s := seg segs 2 in
    if (length segs =? 2)%nat then prefix
    else if String.eqb s "events" then prefix +:+ "/events"
    else if String.eqb s "node" then norm_node prefix segs
    else if String.eqb s "config" then norm_config prefix segs
    else if String.eqb s "beacon" then norm_beacon prefix segs
    else if String.eqb s "validator" then norm_validator prefix segs
    else if String.eqb s "debug" then norm_debug prefix segs
    else prefix +:+ "/other".

Definition normalizeAPIPath (path : string) : string :=
  let path := TrimSpace path in
  if String.eqb path "" then "/"
  else
    let path :=
      if negb (String.eqb path "/") then
        let trimmed := TrimRight path "/" in
        if String.eqb trimmed "" then "/" else trimmed
      else path in
    if String.eqb path "/healthz" then path
    else norm_segments (path_segments path).

(** ** The set of templates *)

(** What can follow [/eth/vN]. *)
Definition api_suffixes : list string :=
  ["/events"; "/other"; "/node/other"; "/config/other"; "/beacon/other"; "/beacon/genesis";
   "/beacon/headers"; "/beacon/headers/{block_id}"; "/beacon/states/other";
   "/beacon/states/{state_id}/validators/{validator_id}";
   "/beacon/rewards/attestations/{epoch}"; "/beacon/rewards/blocks/{block_id}";
   "/beacon/rewards/sync_committee/{block_id}"; "/beacon/rewards/other";
   "/beacon/execution_payload_envelopes"; "/beacon/execution_payload_envelopes/{block_id}";
   "/beacon/execution_payload_envelopes/other"; "/beacon/execution_payload_bids"; "/beacon/pool/other";
   "/beacon/deposit_snapshot"; "/beacon/light_client"; "/beacon/light_client/finality_update";
   "/beacon/light_client/optimistic_update"; "/beacon/light_client/updates";
   "/beacon/light_client/bootstrap/{block_root}"; "/beacon/light_client/other";
   "/validator/duties/attester/{epoch}"; "/validator/duties/proposer/{epoch}";
   "/validator/duties/sync/{epoch}"; "/validator/duties/ptc/{epoch}"; "/validator/liveness/{epoch}";
   "/validator/blocks/{slot}"; "/validator/execution_payload_envelopes/{slot}/{beacon_block_root}";
   "/validator/other"; "/debug/beacon/states/{state_id}";
   "/debug/beacon/data_column_sidecars/{block_id}"; "/debug/other"] ++
  ((λ s, "/node/" +:+ s) <$> ["health"; "identity"; "peer_count"; "peers"; "syncing"; "version"]) ++
  ((λ s, "/config/" +:+ s) <$> ["deposit_contract"; "fork_schedule"; "genesis"; "spec"]) ++
  (b ← ["blocks"; "blinded_blocks"; "blobs"; "blob_sidecars"];
   (λ s, "/beacon/" +:+ b +:+ s) <$> ["/{block_id}"; "/{block_id}/attestations"; "/{block_id}/root"; "/other"]) ++
  ((λ s, "/beacon/states/{state_id}/" +:+ s) <$> state_resources) ++
  ((λ s, "/beacon/pool/" +:+ s) <$> pool_resources) ++
  ((λ s, "/validator/" +:+ s) <$> validator_resources).

Definition api_versions : list string := ["v0"; "v1"; "v2"; "v3"; "v4"; "v5"; "v6"; "v7"; "v8"; "v9"].

Definition api_templates : list string :=
  ["/"; "/healthz"; "/other"] ++
  (v ← api_versions; (λ s, "/eth/" +:+ v +:+ s) <$> ("" :: api_suffixes)).

(** ** Lemmas *)

Lemma one_of_spec s l : one_of s l = true ↔ s ∈ l.
Proof.
  unfold one_of. rewrite existsb_exists. setoid_rewrite String.eqb_eq.
  split; [intros (x & Hx & <-); by apply list_elem_of_In|]. intros Hs. exists s. by rewrite <- list_elem_of_In.
Qed.

(** A route is well formed when it is the prefix followed by a known suffix. *)
Definition suffix_ok (prefix r : string) : Prop := ∃ t, r = prefix +:+ t ∧ t ∈ "" :: api_suffixes.

Lemma suffix_ok_app prefix t : one_of t ("" :: api_suffixes) = true → suffix_ok prefix (prefix +:+ t).
Proof. intros Ht. exists t. split; [done|]. by apply one_of_spec. Qed.

(** Case analysis on the guards of a router; a segment that passed a guard is replaced by the
    literal it equals. *)
Ltac route_step :=
  match goal with
  | |- context [if ?b then _ else _] => let E := fresh "E" in destruct b eqn:E
  | H : _ && _ = true |- _ => apply andb_true_iff in H as [??]
  | H : String.eqb _ _ = true |- _ => apply String.eqb_eq in H
  | H : one_of _ _ = true |- _ => apply one_of_spec in H
  | H : ?x ∈ _ :: _ |- _ => apply elem_of_cons in H as [H|H]
  | H : ?x ∈ [] |- _ => by apply not_elem_of_nil in H
  | H : seg ?l ?i = _ |- _ => rewrite ?H; clear H
  end.
Ltac route :=
  cbv zeta; repeat route_step; rewrite ?str_app_assoc; apply suffix_ok_app; vm_compute; reflexivity.

Lemma norm_node_ok prefix segs : suffix_ok prefix (norm_node prefix segs).
Proof. unfold norm_node. route. Qed.

Lemma norm_config_ok prefix segs : suffix_ok prefix (norm_config prefix segs).
Proof. unfold norm_config. route. Qed.

Lemma norm_states_ok prefix segs : suffix_ok prefix (norm_states prefix segs).
Proof. unfold norm_states, state_resources. route. Qed.

Lemma norm_rewards_ok prefix segs : suffix_ok prefix (norm_rewards prefix segs).
Proof. unfold norm_rewards. route. Qed.

Lemma norm_envelopes_ok prefix segs : suffix_ok prefix (norm_envelopes prefix segs).
Proof.
  unfold norm_envelopes. repeat case_match; apply suffix_ok_app; vm_compute; reflexivity.
Qed.

Lemma norm_pool_ok prefix segs : suffix_ok prefix (norm_pool prefix segs).
Proof. unfold norm_pool, pool_resources. route. Qed.

Lemma norm_light_client_ok prefix segs : suffix_ok prefix (norm_light_client prefix segs).
Proof. unfold norm_light_client. route. Qed.

Lemma norm_validator_ok prefix segs : suffix_ok prefix (norm_validator prefix segs).
Proof. unfold norm_validator, validator_resources. route. Qed.

Lemma norm_debug_ok prefix segs : suffix_ok prefix (norm_debug prefix segs).
Proof. unfold norm_debug. route. Qed.

Lemma norm_blocks_ok prefix segs :
  seg segs 3 ∈ ["blocks"; "blinded_blocks"; "blobs"; "blob_sidecars"] → suffix_ok prefix (norm_blocks prefix segs).
Proof. intros H. unfold norm_blocks. route. Qed.

#[local] Hint Resolve norm_node_ok norm_config_ok norm_states_ok norm_rewards_ok norm_envelopes_ok
  norm_pool_ok norm_light_client_ok norm_validator_ok norm_debug_ok norm_blocks_ok : go.

Lemma norm_beacon_ok prefix segs : suffix_ok prefix (norm_beacon prefix segs).
Proof.
  unfold norm_beacon. cbv zeta. repeat case_match; auto with go; try (apply suffix_ok_app; vm_compute; reflexivity).
  apply norm_blocks_ok. by apply one_of_spec.
Qed.

Lemma is_version_spec s : is_version s = true → s ∈ api_versions.
Proof.
  destruct s as [|c [|d [|? ?]]]; try done. cbn [is_version]. intros [Hc%Ascii.eqb_eq Hd]%andb_true_iff.
  subst c. apply one_of_spec. by destruct d as [[] [] [] [] [] [] [] []].
Qed.

Lemma suffix_ok_template v r : v ∈ api_versions → suffix_ok ("/eth/" +:+ v) r → r ∈ api_templates.
Proof.
  intros Hv (t & -> & Ht). unfold api_templates. apply elem_of_app. right.
  apply list_elem_of_bind. exists v. split; [|done]. apply list_elem_of_fmap. exists t. by rewrite str_app_assoc.
Qed.

Lemma norm_segments_template segs : norm_segments segs ∈ api_templates.
Proof.
  unfold norm_segments. destruct (_ || _) eqn:E; [apply one_of_spec; by vm_compute|].
  apply orb_false_iff in E as [[_ He%negb_false_iff%String.eqb_eq]%orb_false_iff Hv%negb_false_iff].
  rewrite He. apply is_version_spec in Hv. apply (suffix_ok_template (seg segs 1) _ Hv). cbv zeta.
  change ("/" +:+ "eth" +:+ "/" +:+ seg segs 1) with ("/eth/" +:+ seg segs 1).
  repeat case_match; auto using norm_beacon_ok with go; try (apply suffix_ok_app; vm_compute; reflexivity).
  exists "". rewrite str_app_nil_r. split; [done|]. by left.
Qed.

(** ** Correctness *)

(** A path whose template is [t]. *)
Definition sample_path (t : string) : string :=
  if String.eqb (normalizeAPIPath t) t then t else if String.eqb t "/" then "" else t +:+ "/x/y".

(** The labels that request paths are reduced to are exactly the [983] templates of a fixed
    list: whatever clients send, per-route metrics and score trackers stay bounded, and each
    template is the label of some path. *)
Theorem normalizeAPIPath_bounded :
  (∀ path, normalizeAPIPath path ∈ api_templates) ∧
  (∀ t, t ∈ api_templates → ∃ path, normalizeAPIPath path = t) ∧ length api_templates = 983%nat.
Proof.
  split_and!; [| |by vm_compute].
  - intros path. unfold normalizeAPIPath. cbv zeta.
    destruct (String.eqb _ ""); [apply one_of_spec; by vm_compute|].
    destruct (String.eqb _ "/healthz") eqn:E; [|apply norm_segments_template].
    apply String.eqb_eq in E. rewrite E. apply one_of_spec. by vm_compute.
  - intros t Ht. exists (sample_path t). apply String.eqb_eq.
    assert (forallb (λ t, String.eqb (normalizeAPIPath (sample_path t)) t) api_templates = true) as H
      by (vm_compute; reflexivity).
    rewrite forallb_forall in H. by apply H, list_elem_of_In.
Qed.
