(* ===== verification/Paths.v ===== *)
(** * Path predicates and cache lifetimes

    [network/network.go]: the slot, epoch or named identifier a Beacon API path carries,
    whether the finalized checkpoint fixes the answer, whether a path is lexically clean, and the
    lifetime of a cached response. *)

From S2P Require Import Prelude GoStrings Config ScoreTracker AutoTuner BlockCache Upstream Pool PoolState ApiPath.
From Stdlib Require Import Ascii.
#[local] Open Scope string_scope.
#[local] Open Scope Z_scope.

(** [len(s) >= 2 && s[0] == 'v'] *)
Definition starts_v (s : string) : bool :=
  match s with String c (String _ _) => Ascii.eqb c "v" | _ => false end.

(** The [parse] closure of [pathNumericSlot]. *)
Definition parse_slot (s : string) : option Z :=
  match s with
  | EmptyString => None
  | String c _ =>
      if (12 <? str_len s) || negb (is_digit c) then None
      else match ParseUint s with
           | Some n => if n =? 0 then None else Some n
           | None => None
           end
  end.

Definition slot_resources : list string :=
  ["headers"; "blocks"; "blinded_blocks"; "blobs"; "blob_sidecars"; "states"; "execution_payload_envelopes"].

Definition pathNumericSlot (path : string) : option Z :=
  let segments := path_segments path in
  if (length segments <? 5)%nat || negb (String.eqb (seg segments 0) "eth") || negb (starts_v (seg segments 1))
     || negb (String.eqb (seg segments 2) "beacon")
  then None
  else if one_of (seg segments 3) slot_resources then parse_slot (seg segments 4)
  else if String.eqb (seg segments 3) "rewards" then
    (if (length segments <? 6)%nat then None
     else if one_of (seg segments 4) ["blocks"; "sync_committee"] then parse_slot (seg segments 5)
     else None)
  else None.

Definition namedSlotIDs : list string := ["head"; "finalized"; "justified"].

Definition isPayloadEnvelopePath (path : string) : bool :=
  let segments := path_segments path in
  (4 <=? length segments)%nat && String.eqb (seg segments 2) "beacon" &&
  String.eqb (seg segments 3) "execution_payload_envelopes".

Definition pathHasNamedSlotID (path : string) : bool :=
  let segments := path_segments path in
  if (length segments <? 4)%nat || negb (String.eqb (seg segments 0) "eth") || negb (starts_v (seg segments 1))
     || negb (String.eqb (seg segments 2) "beacon")
  then false
  else if String.eqb (seg segments 3) "headers" then
    (if (length segments <? 5)%nat then true else one_of (seg segments 4) namedSlotIDs)
  else if one_of (seg segments 3)
       ["blocks"; "blinded_blocks"; "blobs"; "blob_sidecars"; "states"; "execution_payload_envelopes"] then
    (if (length segments <? 5)%nat then false else one_of (seg segments 4) namedSlotIDs)
  else false.

Definition pathNumericEpoch (path : string) : option Z :=
  let segments := path_segments path in
  if negb (length segments =? 6)%nat then None
  else if negb (String.eqb (seg segments 0) "eth") || negb (starts_v (seg segments 1)) then None
  else if (String.eqb (seg segments 2) "beacon" && String.eqb (seg segments 3) "rewards" &&
           String.eqb (seg segments 4) "attestations") ||
          (String.eqb (seg segments 2) "validator" && String.eqb (seg segments 3) "duties" &&
           String.eqb (seg segments 4) "proposer")
  then ParseUint (seg segments 5)
  else None.

Definition isFinalizedPath (path : string) (finalizedEpoch slotsPerEpoch : Z) : bool :=
  if finalizedEpoch =? 0 then false
  else
    let by_epoch :=
      match pathNumericEpoch path with
      | Some epoch => (2 <=? finalizedEpoch) && (epoch <=? u64_sub finalizedEpoch 2)
      | None => false
      end in
    match pathNumericSlot path with
    | Some slot =>
        if isPayloadEnvelopePath path
        then (2 <=? finalizedEpoch) && (slot <? u64_mul (u64_sub finalizedEpoch 1) slotsPerEpoch)
        else if slot <=? u64_mul finalizedEpoch slotsPerEpoch then true
        else by_epoch
    | None => by_epoch
    end.

(** [path.Clean]: the segments with [.], empty ones and inner [..] removed. *)
Fixpoint clean_stack (rooted : bool) (stack segs : list string) : list string :=
  match segs with
  | [] => stack
  | s :: segs =>
      clean_stack rooted
        (if String.eqb s "" || String.eqb s "." then stack
         else if String.eqb s ".." then
           match stack with
           | top :: stack' => if String.eqb top ".." then s :: stack else stack'
           | [] => if rooted then [] else [s]
           end
         else s :: stack) segs
  end.

Definition Clean (p : string) : string :=
  if String.eqb p "" then "."
  else
    let rooted := HasPrefix p "/" in
    let out := Join (rev (clean_stack rooted [] (Split p "/"))) "/" in
    if rooted then "/" +:+ out else if String.eqb out "" then "." else out.

Definition isCleanPath (p : string) : bool :=
  if Contains p ";" then false
  else String.eqb p "" || String.eqb p "/" || String.eqb (Clean p) (TrimSuffix p "/").

(** The network's configuration that cache lifetimes depend on. *)
Record ChainConfig := { ch_GenesisTime : Z; ch_SecondsPerSlot : Z }.

Definition slot_remaining (cfg : ChainConfig) (now : Z) : Z :=
  let slotSeconds := if ch_SecondsPerSlot cfg <=? 0 then DefaultSecondsPerSlot else ch_SecondsPerSlot cfg in
  let elapsed := Z.rem (wrap_i64 (now - ch_GenesisTime cfg)) slotSeconds in
  let elapsed := if elapsed <? 0 then elapsed + slotSeconds else elapsed in
  let remaining := wrap_i64 ((slotSeconds - elapsed) * Second) in
  if remaining <? Second then Second else remaining.

(** [now] is [time.Now().Unix()]. *)
Definition effectiveCacheTTL `{RL : RateLib} (pool : Pool RL) (cfg : ChainConfig) (now policyTTL : Z) (path : string)
    : Z :=
  if isFinalizedPath path (Pool_FinalizedEpoch pool) (SlotsPerEpoch pool) then 0
  else if (0 <? policyTTL) && negb (ch_GenesisTime cfg =? 0) && pathHasNamedSlotID path then
    (if slot_remaining cfg now <? policyTTL then slot_remaining cfg now else policyTTL)
  else policyTTL.

(** ** Path shapes *)

Lemma parse_slot_range s n : parse_slot s = Some n → 0 < n < u64_modulus ∧ ParseUint s = Some n.
Proof.
  destruct s as [|c s]; [done|]. unfold parse_slot. destruct (_ || _); [done|].
  destruct (ParseUint (String c s)) as [m|] eqn:E; [|done]. destruct (Z.eqb_spec m 0); [done|].
  intros [= <-]. apply ParseUint_range in E as Hr. split; [lia|done].
Qed.

(** What a path with a slot looks like. *)
Lemma pathNumericSlot_Some path n :
  pathNumericSlot path = Some n →
  let segs := path_segments path in
  seg segs 0 = "eth" ∧ starts_v (seg segs 1) = true ∧ seg segs 2 = "beacon" ∧ 0 < n < u64_modulus ∧
  ((5 <= length segs)%nat ∧ seg segs 3 ∈ slot_resources ∧ parse_slot (seg segs 4) = Some n ∨
   (6 <= length segs)%nat ∧ seg segs 3 = "rewards" ∧ seg segs 4 ∈ ["blocks"; "sync_committee"] ∧
   parse_slot (seg segs 5) = Some n).
Proof.
  unfold pathNumericSlot. cbv zeta. set (segs := path_segments path). intros H.
  destruct (_ || _) eqn:E in H; [done|]. b2p.
  destruct (one_of (seg segs 3) slot_resources) eqn:E3.
  - apply one_of_spec in E3. destruct (parse_slot_range _ _ H). split_and!; try done; try lia.
    left. split_and!; [lia|done|done].
  - destruct (String.eqb_spec (seg segs 3) "rewards"); [|done].
    destruct (Nat.ltb_spec (length segs) 6); [done|].
    destruct (one_of (seg segs 4) _) eqn:E4; [|done]. apply one_of_spec in E4.
    destruct (parse_slot_range _ _ H). split_and!; try done; try lia. by right.
Qed.

Lemma pathNumericEpoch_Some path e :
  pathNumericEpoch path = Some e →
  let segs := path_segments path in
  length segs = 6%nat ∧ 0 <= e < u64_modulus ∧
  (seg segs 2 = "beacon" ∧ seg segs 3 = "rewards" ∧ seg segs 4 = "attestations" ∨ seg segs 2 = "validator").
Proof.
  unfold pathNumericEpoch. cbv zeta. set (segs := path_segments path). intros H.
  destruct (negb (length segs =? 6)%nat) eqn:E6; [done|]. destruct (_ || _) in H; [done|].
  destruct (_ || _) eqn:E in H; [|done]. apply ParseUint_range in H. b2p.
  split_and!; [done|lia|lia|]. apply orb_true_iff in E as [E|E]; b2p; [by left|by right].
Qed.

(** What a path with a named identifier looks like. *)
Lemma pathHasNamedSlotID_true path :
  pathHasNamedSlotID path = true →
  let segs := path_segments path in
  seg segs 2 = "beacon" ∧ seg segs 3 ∈ slot_resources ∧
  (length segs = 4%nat ∨ (5 <= length segs)%nat ∧ seg segs 4 ∈ namedSlotIDs).
Proof.
  unfold pathHasNamedSlotID. cbv zeta. set (segs := path_segments path). intros H.
  destruct (_ || _) eqn:E in H; [done|]. b2p.
  destruct (String.eqb_spec (seg segs 3) "headers") as [E3|E3].
  - split_and!; [done|rewrite E3; by left|].
    destruct (Nat.ltb_spec (length segs) 5); [left; lia|]. right. split; [done|]. by apply one_of_spec.
  - destruct (one_of (seg segs 3) _) eqn:E4; [|done]. apply one_of_spec in E4.
    destruct (Nat.ltb_spec (length segs) 5); [done|]. apply one_of_spec in H.
    split_and!; [done|by right|]. right. by split.
Qed.

(** A named identifier is neither a slot nor an epoch. *)
Lemma named_not_numeric path :
  pathHasNamedSlotID path = true → pathNumericSlot path = None ∧ pathNumericEpoch path = None.
Proof.
  intros (H2 & H3 & H4)%pathHasNamedSlotID_true. split.
  - destruct (pathNumericSlot path) as [n|] eqn:E; [|done].
    apply pathNumericSlot_Some in E as (_ & _ & _ & _ & [(Hl & _ & Hp)|(_ & Hr & _)]).
    + destruct H4 as [H4|[_ H4]]; [lia|].
      assert (∀ s, s ∈ namedSlotIDs → parse_slot s = None) as Hn.
      { intros s Hs. unfold namedSlotIDs in Hs. repeat (apply elem_of_cons in Hs as [->|Hs]); try reflexivity.
        by apply not_elem_of_nil in Hs. }
      rewrite (Hn _ H4) in Hp. done.
    + rewrite Hr in H3. apply one_of_spec in H3. done.
  - destruct (pathNumericEpoch path) as [e|] eqn:E; [|done].
    apply pathNumericEpoch_Some in E as (_ & _ & [(_ & Hr & _)|Hv]).
    + rewrite Hr in H3. apply one_of_spec in H3. done.
    + rewrite Hv in H2. done.
Qed.

(** ** Finality *)

(** What the finalized checkpoint at epoch [E] fixes, in unbounded arithmetic. *)
Definition fixed_by (E spe : Z) (path : string) : Prop :=
  (∃ slot, pathNumericSlot path = Some slot ∧
     (if isPayloadEnvelopePath path then slot < (E - 1) * spe else slot <= E * spe)) ∨
  (∃ epoch, pathNumericEpoch path = Some epoch ∧ epoch + 2 <= E).

Lemma slot_not_epoch path n : pathNumericSlot path = Some n → pathNumericEpoch path = None.
Proof.
  intros (_ & _ & H2 & _ & H3)%pathNumericSlot_Some. destruct (pathNumericEpoch path) as [e|] eqn:E; [|done].
  apply pathNumericEpoch_Some in E as (_ & _ & [(_ & Hr & Ha)|Hv]); [|by rewrite Hv in H2].
  destruct H3 as [(_ & H3 & _)|(_ & _ & H4 & _)].
  - rewrite Hr in H3. by apply one_of_spec in H3.
  - rewrite Ha in H4. by apply one_of_spec in H4.
Qed.

Lemma isFinalizedPath_fixed path E spe :
  0 <= E < u64_modulus → 0 < spe → E * spe < u64_modulus →
  isFinalizedPath path E spe = true ↔ 0 < E ∧ fixed_by E spe path.
Proof.
  intros HE Hs Hm. unfold isFinalizedPath, fixed_by. destruct (Z.eqb_spec E 0) as [->|H0]; [split; [done|lia]|].
  destruct (pathNumericSlot path) as [n|] eqn:En.
  - rewrite (slot_not_epoch _ _ En). destruct (pathNumericSlot_Some _ _ En) as (_ & _ & _ & Hn & _).
    destruct (isPayloadEnvelopePath path).
    + rewrite u64_sub_small, u64_mul_small by (unfold is_u64; nia).
      rewrite andb_true_iff, Z.leb_le, Z.ltb_lt. split.
      * intros [? ?]. split; [lia|]. left. by exists n.
      * intros [_ [(? & [= <-] & ?)|(? & ? & _)]]; [nia|done].
    + rewrite u64_mul_small by (unfold is_u64; nia). destruct (Z.leb_spec n (E * spe)).
      * split; [|done]. intros _. split; [lia|]. left. by exists n.
      * split; [done|]. intros [_ [(? & [= <-] & ?)|(? & ? & _)]]; [lia|done].
  - destruct (pathNumericEpoch path) as [e|] eqn:Ee.
    + rewrite andb_true_iff, Z.leb_le. split.
      * intros [? He]. rewrite u64_sub_small in He by (unfold is_u64; lia). apply Z.leb_le in He.
        split; [lia|]. right. exists e. split; [done|lia].
      * intros [_ [(? & ? & _)|(? & [= <-] & ?)]]; [done|].
        apply pathNumericEpoch_Some in Ee as (_ & ? & _).
        split; [lia|]. rewrite u64_sub_small by (unfold is_u64; lia). apply Z.leb_le. lia.
    + split; [done|]. intros [_ [(? & ? & _)|(? & ? & _)]]; done.
Qed.

Lemma isFinalizedPath_mono path E E' spe :
  0 <= E <= E' → 0 < spe → E' * spe < u64_modulus →
  isFinalizedPath path E spe = true → isFinalizedPath path E' spe = true.
Proof.
  intros HE Hs Hm. rewrite !isFinalizedPath_fixed by (done || nia).
  unfold fixed_by. intros [HE0 [(n & Hn & Hc)|(e & He & Hc)]]; (split; [lia|]).
  - left. exists n. split; [done|]. destruct (isPayloadEnvelopePath path); nia.
  - right. exists e. split; [done|lia].
Qed.

(** A path counts as finalized exactly when it carries a slot or an epoch that the finalized
    checkpoint fixes (slots up to the checkpoint, payloads a full epoch earlier, epochs two
    before it), never when it carries a name such as [head]; and it stays finalized as the
    checkpoint advances. *)
Theorem isFinalizedPath_spec path E E' spe :
  0 <= E <= E' → 0 < spe → E' * spe < u64_modulus →
  (isFinalizedPath path E spe = true ↔ 0 < E ∧ fixed_by E spe path) ∧
  (isFinalizedPath path E spe = true → isFinalizedPath path E' spe = true) ∧
  (pathHasNamedSlotID path = true → isFinalizedPath path E' spe = false).
Proof.
  intros HE Hs Hm. assert (E * spe < u64_modulus) by nia.
  pose proof (isFinalizedPath_fixed path E spe ltac:(nia) Hs ltac:(lia)) as H1.
  pose proof (isFinalizedPath_fixed path E' spe ltac:(nia) Hs Hm) as H2. split_and!; [done|by apply isFinalizedPath_mono|].
  - intros [Hn1 Hn2]%named_not_numeric. apply not_true_is_false. rewrite H2. unfold fixed_by.
    rewrite Hn1, Hn2. by intros [_ [(? & ? & _)|(? & ? & _)]].
Qed.

Lemma isFinalizedPath_spec_witness :
  isFinalizedPath "/eth/v2/beacon/blocks/6400" 200 32 = true ∧
  isFinalizedPath "/eth/v2/beacon/blocks/6400" 300 32 = true ∧
  isFinalizedPath "/eth/v2/beacon/blocks/6401" 200 32 = false.
Proof.
  split; [reflexivity|]. split; [|reflexivity].
  refine (proj1 (proj2 (isFinalizedPath_spec "/eth/v2/beacon/blocks/6400" 200 300 32 _ _ _)) _);
    [lia|lia|by vm_compute|reflexivity].
Defined.

(** ** Cache lifetimes *)

Lemma slot_remaining_boundary cfg now :
  ch_SecondsPerSlot cfg <= 9 * 10 ^ 9 → - 2 ^ 63 <= now - ch_GenesisTime cfg < 2 ^ 63 →
  let s := if ch_SecondsPerSlot cfg <=? 0 then DefaultSecondsPerSlot else ch_SecondsPerSlot cfg in
  ∃ k, slot_remaining cfg now = (ch_GenesisTime cfg + k * s - now) * Second ∧
       0 < ch_GenesisTime cfg + k * s - now <= s.
Proof.
  intros Hs Hn s. unfold slot_remaining. fold s.
  assert (0 < s <= 9 * 10 ^ 9) as Hb.
  { unfold s, DefaultSecondsPerSlot. destruct (Z.leb_spec (ch_SecondsPerSlot cfg) 0); lia. }
  rewrite (wrap_i64_small (now - _)) by done. clearbody s.
  set (x := now - ch_GenesisTime cfg) in *. pose proof (Z.quot_rem' x s) as Hq.
  set (r := Z.rem x s) in *. set (q := Z.quot x s) in *.
  assert (- s < r < s) as Hr by (pose proof (Z.rem_bound_abs x s ltac:(lia)); fold r in H; lia).
  assert (∃ k e, (if r <? 0 then r + s else r) = e ∧ 0 <= e < s ∧ x = s * k + e) as (k & e & -> & He & Hx).
  { destruct (Z.ltb_spec r 0); [exists (q - 1), (r + s)|exists q, r]; split_and!; try done; lia. }
  exists (k + 1). rewrite wrap_i64_small by (unfold Second, Millisecond; lia).
  destruct (Z.ltb_spec ((s - e) * Second) Second); [unfold Second, Millisecond in *; lia|].
  replace (ch_GenesisTime cfg + (k + 1) * s - now) with (s - e) by (subst x; lia). split; [done|lia].
Qed.

Section ttl.
Context `{RL : RateLib}.

(** The lifetime of a cached response is forever for finalized data; for a named identifier
    it is positive, at most the policy's, and ends within a second after the end of the
    current slot; otherwise it is the policy's.  [nowNs] is the clock whose seconds the code
    reads. *)
Theorem effectiveCacheTTL_spec (pool : Pool RL) cfg nowNs policyTTL path :
  ch_SecondsPerSlot cfg <= 9 * 10 ^ 9 → 0 <= nowNs < 2 ^ 63 → 0 < ch_GenesisTime cfg < 2 ^ 63 → 0 < policyTTL →
  let s := if ch_SecondsPerSlot cfg <=? 0 then DefaultSecondsPerSlot else ch_SecondsPerSlot cfg in
  let ttl := effectiveCacheTTL pool cfg (nowNs / Second) policyTTL path in
  let finalized := isFinalizedPath path (Pool_FinalizedEpoch pool) (SlotsPerEpoch pool) in
  (finalized = true → ttl = 0) ∧
  (finalized = false → pathHasNamedSlotID path = false → ttl = policyTTL) ∧
  (finalized = false → pathHasNamedSlotID path = true →
     0 < ttl <= policyTTL ∧
     ∃ k, let slot_end := (ch_GenesisTime cfg + k * s) * Second in
       slot_end - s * Second <= nowNs < slot_end ∧ nowNs + ttl < slot_end + Second).
Proof.
  intros Hs Hn Hg Hp s ttl finalized.
  assert ((ch_GenesisTime cfg =? 0) = false) as Hg0 by (apply Z.eqb_neq; lia).
  assert (0 < Second) as HS by done.
  assert (0 <= nowNs / Second <= nowNs) as Hd.
  { split; [apply Z.div_pos; lia|]. apply Z.div_le_upper_bound; unfold Second, Millisecond in *; nia. }
  destruct (slot_remaining_boundary cfg (nowNs / Second) Hs ltac:(lia)) as (k & Hr & Hk).
  fold s in Hr, Hk. unfold ttl, effectiveCacheTTL. fold finalized. rewrite Hg0, (proj2 (Z.ltb_lt _ _) Hp).
  cbn [negb andb]. split_and!.
  - by intros ->.
  - by intros -> ->.
  - intros -> ->. rewrite Hr. set (d := ch_GenesisTime cfg + k * s - nowNs / Second) in *.
    pose proof (Z.div_mod nowNs Second ltac:(lia)) as Hdm. pose proof (Z.mod_pos_bound nowNs Second HS) as Hmb.
    assert (ch_GenesisTime cfg + k * s = nowNs / Second + d) as Hend by (subst d; lia).
    split.
    + destruct (Z.ltb_spec (d * Second) policyTTL); nia.
    + exists k. cbv zeta. rewrite Hend. destruct (Z.ltb_spec (d * Second) policyTTL); nia.
Qed.
End ttl.

Lemma effectiveCacheTTL_spec_witness :
  let ttl := effectiveCacheTTL demo_pool_timed {| ch_GenesisTime := 1000; ch_SecondsPerSlot := 12 |}
               (1042500000000 / Second) (60 * Second) "/eth/v1/beacon/headers/head" in
  ttl = 6 * Second ∧ 0 < ttl <= 60 * Second.
Proof.
  split; [by vm_compute|].
  refine (proj1 (proj2 (proj2 (effectiveCacheTTL_spec demo_pool_timed
    {| ch_GenesisTime := 1000; ch_SecondsPerSlot := 12 |} 1042500000000 (60 * Second)
    "/eth/v1/beacon/headers/head" _ _ _ _)) _ _)); simpl; try (by vm_compute); lia.
Defined.

(** ** Clean paths *)

(** A segment that names something: not empty, not a dot segment, without a slash. *)
Definition plain_seg (s : string) : Prop := s ≠ "" ∧ s ≠ "." ∧ s ≠ ".." ∧ no_byte "/" s.

Lemma clean_stack_plain stack segs :
  Forall plain_seg stack → Forall (no_byte "/") segs → Forall plain_seg (clean_stack true stack segs).
Proof.
  revert stack. induction segs as [|s segs IH]; intros stack Hst Hs; [done|].
  apply Forall_cons in Hs as [Hs Hsegs]. cbn [clean_stack]. apply IH; [|done].
  destruct (String.eqb_spec s ""); [done|]. destruct (String.eqb_spec s "."); [done|]. cbn [orb].
  destruct (String.eqb_spec s "..").
  - destruct stack as [|top stack']; [constructor|]. apply Forall_cons in Hst as [(_ & _ & Ht & _) Hst'].
    destruct (String.eqb_spec top ".."); done.
  - by constructor.
Qed.

Lemma clean_stack_id rooted stack segs :
  Forall plain_seg segs → clean_stack rooted stack segs = (rev segs ++ stack)%list.
Proof.
  revert stack. induction segs as [|s segs IH]; intros stack Hs; [done|].
  apply Forall_cons in Hs as [(H1 & H2 & H3 & _) Hs]. cbn [clean_stack rev].
  apply String.eqb_neq in H1, H2, H3. rewrite H1, H2, H3. cbn [orb]. rewrite IH by done.
  by rewrite <- app_assoc.
Qed.

Lemma Clean_rooted p :
  HasPrefix p "/" = true → ∃ l, Forall plain_seg l ∧ Clean p = "/" +:+ Join l "/".
Proof.
  intros Hp. unfold Clean. rewrite Hp. destruct (String.eqb_spec p "") as [->|]; [done|].
  eexists. split; [|done]. apply Forall_rev, clean_stack_plain; [constructor|]. apply Split_no_byte.
Qed.

Lemma Split_Join_plain l : Forall plain_seg l → l ≠ [] → Split (Join l "/") "/" = l.
Proof. intros Hl Hne. apply Split_Join; [done|]. eapply Forall_impl; [exact Hl|]. by intros s (_ & _ & _ & ?). Qed.

Lemma Clean_plain l : Forall plain_seg l → Clean ("/" +:+ Join l "/") = "/" +:+ Join l "/".
Proof.
  intros Hl. unfold Clean. rewrite HasPrefix_app. cbv zeta.
  change ("/" +:+ Join l "/") with (String "/" (Join l "/")) at 1. cbn [String.eqb]. f_equal.
  change (Split ("/" +:+ Join l "/") "/") with ("" :: Split (Join l "/") "/"). cbn [clean_stack].
  change (String.eqb "" "" || String.eqb "" ".") with true. cbv iota.
  destruct l as [|s l]; [done|]. rewrite Split_Join_plain, clean_stack_id by done.
  by rewrite app_nil_r, rev_involutive.
Qed.

Lemma Split_snoc t c : Split (t +:+ String c "") c = (Split t c ++ [""])%list.
Proof.
  induction t as [|d t IH].
  - change ("" +:+ String c "") with (String c ""). cbn [Split]. by rewrite Ascii.eqb_refl.
  - rewrite str_app_cons. cbn [Split]. rewrite IH. destruct (Ascii.eqb d c); [done|].
    destruct (Split t c) as [|x l] eqn:E; [by apply Split_nonempty in E|done].
Qed.

Lemma clean_stack_snoc rooted stack segs : clean_stack rooted stack (segs ++ [""])%list = clean_stack rooted stack segs.
Proof. revert stack. induction segs as [|s segs IH]; intros stack; [done|]. cbn [app clean_stack]. apply IH. Qed.

Lemma Clean_slash p : HasPrefix p "/" = true → Clean (p +:+ "/") = Clean p.
Proof.
  intros [t ->]%HasPrefix_spec. unfold Clean. cbv zeta. rewrite Split_snoc.
  rewrite str_app_assoc, !HasPrefix_app, clean_stack_snoc. done.
Qed.

Lemma plain_no_suffix l : Forall plain_seg l → l ≠ [] → HasSuffix ("/" +:+ Join l "/") "/" = false.
Proof.
  intros Hl Hne. apply not_true_is_false. intros [t Ht]%HasSuffix_spec.
  apply (f_equal (λ s, Split s "/")) in Ht. rewrite Split_snoc in Ht.
  change (Split ("/" +:+ Join l "/") "/") with ("" :: Split (Join l "/") "/") in Ht.
  rewrite Split_Join_plain in Ht by done.
  destruct (exists_last Hne) as (l' & x & ->). change ("" :: l' ++ [x])%list with (("" :: l') ++ [x])%list in Ht.
  apply app_inj_tail in Ht as [_ ->]. apply Forall_app in Hl as [_ [(H & _) _]%Forall_cons]. done.
Qed.

(** A rooted path is accepted as clean exactly when it has no [;] and is a sequence of
    non-empty segments, none of them a dot segment, with at most one trailing slash: an accepted
    path cannot be re-rooted by a server that resolves dot segments or strips path parameters. *)
Theorem isCleanPath_spec p :
  HasPrefix p "/" = true →
  isCleanPath p = true ↔
  Contains p ";" = false ∧
  ∃ l, Forall plain_seg l ∧ (p = "/" +:+ Join l "/" ∨ p = "/" +:+ Join l "/" +:+ "/").
Proof.
  intros Hp. unfold isCleanPath. destruct (Contains p ";"); [by split; [|intros [? _]]|].
  destruct (String.eqb_spec p "") as [->|]; [done|]. cbn [orb].
  rewrite orb_true_iff, !String.eqb_eq. split.
  - intros H. split; [done|]. destruct H as [->|H]; [exists []; by split; [constructor|left]|].
    destruct (Clean_rooted p Hp) as (l & Hl & Hc). exists l. split; [done|]. rewrite Hc in H.
    destruct (HasSuffix p "/") eqn:Hs.
    + apply HasSuffix_spec in Hs as [t ->]. rewrite TrimSuffix_app in H. right. by rewrite <- H.
    + left. unfold TrimSuffix in H. by rewrite Hs in H.
  - intros (_ & l & Hl & [->| ->]).
    + destruct l as [|s l]; [by left|]. right. rewrite Clean_plain by done. unfold TrimSuffix.
      by rewrite plain_no_suffix.
    + right. rewrite <- str_app_assoc, TrimSuffix_app, Clean_slash by apply HasPrefix_app.
      by apply Clean_plain.
Qed.

Lemma isCleanPath_spec_witness :
  isCleanPath "/eth/v1/node/health/" = true ∧ isCleanPath "/eth/v1/../v2" = false ∧
  ∃ l, Forall plain_seg l ∧
    ("/eth/v1/node/health/" = "/" +:+ Join l "/" ∨ "/eth/v1/node/health/" = "/" +:+ Join l "/" +:+ "/").
Proof.
  split; [reflexivity|]. split; [reflexivity|].
  exact (proj2 (proj1 (isCleanPath_spec "/eth/v1/node/health/" eq_refl) eq_refl)).
Defined.
