(* ===== verification/Historical.v ===== *)
(** * Historical targets

    [network/historical_target.go] and [network/pruning_error.go]: the historical identifier a
    request path carries, whether it lies beyond what a pruned node keeps, and whether an
    upstream's answer looks like pruning. *)

From S2P Require Import Prelude GoStrings Config ApiPath Paths.
From Stdlib Require Import Ascii.
#[local] Open Scope string_scope.
#[local] Open Scope Z_scope.

Inductive HistoricalKind :=
  | KindNone
  | BlockByID
  | BlobSidecars
  | StateByID
  | AttesterDuties
  | ProposerDuties
  | SyncDuties
  | RewardsEpoch
  | Liveness
  | PayloadEnvelope
  | PTCDuties.

#[global] Instance HistoricalKind_eq_dec : EqDecision HistoricalKind.
Proof. solve_decision. Defined.

Definition blobSidecarsRetentionEpochs : Z := 4096.
Definition statesRetentionSlots : Z := 8192.
Definition blocksRetentionEpochs : Z := 33024.

Record HistoricalTarget := {
  t_Kind : HistoricalKind;
  t_Named : string;
  t_Slot : option Z;
  t_Root : string;
  t_Epoch : option Z;
}.

Definition zero_target : HistoricalTarget :=
  {| t_Kind := KindNone; t_Named := ""; t_Slot := None; t_Root := ""; t_Epoch := None |}.

Definition named_target (s : string) : HistoricalTarget :=
  {| t_Kind := KindNone; t_Named := s; t_Slot := None; t_Root := ""; t_Epoch := None |}.
Definition root_target (s : string) : HistoricalTarget :=
  {| t_Kind := KindNone; t_Named := ""; t_Slot := None; t_Root := s; t_Epoch := None |}.
Definition slot_target (n : Z) : HistoricalTarget :=
  {| t_Kind := KindNone; t_Named := ""; t_Slot := Some n; t_Root := ""; t_Epoch := None |}.
Definition epoch_target (k : HistoricalKind) (e : Z) : HistoricalTarget :=
  {| t_Kind := k; t_Named := ""; t_Slot := None; t_Root := ""; t_Epoch := Some e |}.

(** [t.Kind = k] *)
Definition with_kind (k : HistoricalKind) (t : HistoricalTarget) : HistoricalTarget :=
  {| t_Kind := k; t_Named := t_Named t; t_Slot := t_Slot t; t_Root := t_Root t; t_Epoch := t_Epoch t |}.

Definition IsHistorical (t : HistoricalTarget) : bool := negb (bool_decide (t_Kind t = KindNone)).

Definition olderThan (targetSlot headSlot retentionSlots : Z) : bool :=
  if headSlot <=? retentionSlots then false else targetSlot <? u64_sub headSlot retentionSlots.

Definition RequiresArchive (t : HistoricalTarget) (headSlot slotsPerEpoch : Z) : bool :=
  if (headSlot =? 0) || negb (String.eqb (t_Named t) "") || negb (String.eqb (t_Root t) "") then false
  else
    let slotsPerEpoch := if slotsPerEpoch =? 0 then DefaultSlotsPerEpoch else slotsPerEpoch in
    let headEpoch := headSlot / slotsPerEpoch in
    match t_Kind t with
    | BlockByID | PayloadEnvelope =>
        match t_Slot t with
        | None => false
        | Some slot => olderThan slot headSlot (u64_mul blocksRetentionEpochs slotsPerEpoch)
        end
    | BlobSidecars =>
        match t_Slot t with
        | None => false
        | Some slot => olderThan slot headSlot (u64_mul blobSidecarsRetentionEpochs slotsPerEpoch)
        end
    | StateByID =>
        match t_Slot t with
        | None => false
        | Some slot => olderThan slot headSlot statesRetentionSlots
        end
    | AttesterDuties | ProposerDuties | SyncDuties | PTCDuties | RewardsEpoch | Liveness =>
        match t_Epoch t with
        | None => false
        | Some epoch => u64_add epoch 1 <? headEpoch
        end
    | KindNone => false
    end.

Definition parseUint64 (s : string) : option Z := if String.eqb s "" then None else ParseUint s.

Definition parseBlockIdentifier (s : string) : HistoricalTarget :=
  if one_of s ["head"; "genesis"; "finalized"; "justified"] then named_target s
  else if HasPrefix s "0x" || HasPrefix s "0X" then root_target s
  else match parseUint64 s with Some slot => slot_target slot | None => zero_target end.

Definition classifyBeaconPath (segments : list string) : HistoricalTarget :=
  let s := seg segments 3 in
  let by_id k := if (length segments <? 5)%nat then zero_target
                 else with_kind k (parseBlockIdentifier (seg segments 4)) in
  if one_of s ["blocks"; "blinded_blocks"; "headers"] then by_id BlockByID
  else if one_of s ["blobs"; "blob_sidecars"] then by_id BlobSidecars
  else if String.eqb s "states" then by_id StateByID
  else if String.eqb s "execution_payload_envelopes" then by_id PayloadEnvelope
  else if String.eqb s "rewards" then
    (if (length segments <? 6)%nat then zero_target
     else if String.eqb (seg segments 4) "attestations" then
       match parseUint64 (seg segments 5) with
       | Some epoch => epoch_target RewardsEpoch epoch
       | None => zero_target
       end
     else if one_of (seg segments 4) ["blocks"; "sync_committee"]
     then with_kind BlockByID (parseBlockIdentifier (seg segments 5))
     else zero_target)
  else if String.eqb s "light_client" && (6 <=? length segments)%nat && String.eqb (seg segments 4) "bootstrap"
  then with_kind BlockByID (parseBlockIdentifier (seg segments 5))
  else zero_target.

Definition classifyValidatorPath (segments : list string) : HistoricalTarget :=
  if (length segments <? 5)%nat then zero_target
  else if String.eqb (seg segments 3) "liveness" then
    match parseUint64 (seg segments 4) with
    | Some epoch => epoch_target Liveness epoch
    | None => zero_target
    end
  else if (length segments <? 6)%nat || negb (String.eqb (seg segments 3) "duties") then zero_target
  else
    match parseUint64 (seg segments 5) with
    | None => zero_target
    | Some epoch =>
        if String.eqb (seg segments 4) "attester" then epoch_target AttesterDuties epoch
        else if String.eqb (seg segments 4) "proposer" then epoch_target ProposerDuties epoch
        else if String.eqb (seg segments 4) "sync" then epoch_target SyncDuties epoch
        else if String.eqb (seg segments 4) "ptc" then epoch_target PTCDuties epoch
        else zero_target
    end.

Definition classifyDebugPath (segments : list string) : HistoricalTarget :=
  if (length segments <? 5)%nat || negb (String.eqb (seg segments 3) "beacon") then zero_target
  else if (length segments <? 6)%nat then zero_target
  else if String.eqb (seg segments 4) "states" then with_kind StateByID (parseBlockIdentifier (seg segments 5))
  else if String.eqb (seg segments 4) "data_column_sidecars"
  then with_kind BlobSidecars (parseBlockIdentifier (seg segments 5))
  else zero_target.

Definition classifyHistoricalTarget (p : string) : HistoricalTarget :=
  let p := TrimSpace p in
  if String.eqb p "" || String.eqb p "/" then zero_target
  else
    let segments := path_segments p in
    if (length segments <? 4)%nat || negb (String.eqb (seg segments 0) "eth") || negb (starts_v (seg segments 1))
    then zero_target
    else if String.eqb (seg segments 2) "beacon" then classifyBeaconPath segments
    else if String.eqb (seg segments 2) "validator" then classifyValidatorPath segments
    else if String.eqb (seg segments 2) "debug" then classifyDebugPath segments
    else zero_target.

(** ** Pruning-shaped answers *)

Definition peerDASCustodyBodySignals : list string := ["data columns"; "reconstruct blobs"].

Definition isPeerDASCustodyBody (body : string) : bool :=
  existsb (Contains body) peerDASCustodyBodySignals.

Definition isPruningError (statusCode : Z) (body : string) (target : HistoricalTarget) : bool :=
  if negb (IsHistorical target) then false
  else if negb (String.eqb (t_Named target) "") || bool_decide (t_Kind target = PayloadEnvelope) then false
  else if statusCode =? 404 then true
  else if (statusCode =? 400) && bool_decide (t_Kind target = BlobSidecars) then isPeerDASCustodyBody body
  else false.

Definition peerDASBodyPeekLimit : nat := 4096.

(** ** Retention in unbounded arithmetic *)

(** The slots a pruned node keeps for a kind of request. *)
Definition retention (k : HistoricalKind) (spe : Z) : option Z :=
  match k with
  | BlockByID | PayloadEnvelope => Some (blocksRetentionEpochs * spe)
  | BlobSidecars => Some (blobSidecarsRetentionEpochs * spe)
  | StateByID => Some statesRetentionSlots
  | _ => None
  end.

Definition is_epoch_kind (k : HistoricalKind) : bool :=
  match k with
  | AttesterDuties | ProposerDuties | SyncDuties | PTCDuties | RewardsEpoch | Liveness => true
  | _ => false
  end.

(** The target lies before the retention window that ends at [head]. *)
Definition beyond_retention (t : HistoricalTarget) (head spe : Z) : Prop :=
  (∃ slot r, t_Slot t = Some slot ∧ retention (t_Kind t) spe = Some r ∧ slot + r < head) ∨
  (∃ epoch, t_Epoch t = Some epoch ∧ is_epoch_kind (t_Kind t) = true ∧ epoch + 1 < head / spe).

Definition target_in_range (t : HistoricalTarget) : Prop :=
  (∀ n, t_Slot t = Some n → 0 <= n < u64_modulus) ∧ (∀ e, t_Epoch t = Some e → 0 <= e < u64_modulus - 1).

Lemma olderThan_spec slot head r :
  0 <= slot → is_u64 head → 0 <= r → olderThan slot head r = true ↔ slot + r < head.
Proof.
  intros Hs Hh Hr. unfold olderThan. destruct (Z.leb_spec head r); [split; [done|lia]|].
  rewrite u64_sub_small by (unfold is_u64 in *; lia). rewrite Z.ltb_lt. lia.
Qed.

Lemma retention_nonneg k spe r : 0 < spe → retention k spe = Some r → 0 <= r ∧ is_epoch_kind k = false.
Proof.
  unfold retention, blocksRetentionEpochs, blobSidecarsRetentionEpochs, statesRetentionSlots.
  destruct k; cbn [is_epoch_kind]; intros ? [= <-]; split; lia || done.
Qed.

(** The comparison [RequiresArchive] makes once its guards have passed. *)
Lemma RequiresArchive_cases t head spe :
  0 < spe → blocksRetentionEpochs * spe < u64_modulus → head ≠ 0 → t_Named t = "" → t_Root t = "" →
  RequiresArchive t head spe =
    match retention (t_Kind t) spe with
    | Some r => match t_Slot t with Some slot => olderThan slot head r | None => false end
    | None =>
        if is_epoch_kind (t_Kind t)
        then match t_Epoch t with Some epoch => u64_add epoch 1 <? head / spe | None => false end
        else false
    end.
Proof.
  intros Hspe Hb Hh Hn Hr. unfold RequiresArchive. rewrite Hn, Hr, (proj2 (Z.eqb_neq head 0)) by done.
  rewrite (proj2 (Z.eqb_neq spe 0)) by lia. cbv zeta. cbn [orb negb String.eqb].
  rewrite !u64_mul_small by (unfold is_u64, blocksRetentionEpochs, blobSidecarsRetentionEpochs in *; lia).
  by destruct (t_Kind t).
Qed.

Lemma beyond_retention_head t head spe :
  target_in_range t → 0 <= head → 0 < spe → beyond_retention t head spe → head ≠ 0.
Proof.
  intros [Hn He] Hh Hs Hb ->. unfold beyond_retention in Hb. rewrite Z.div_0_l in Hb by lia.
  destruct Hb as [(n & r & Hn' & Hr & ?)|(e & He' & _ & ?)].
  - specialize (Hn _ Hn'). destruct (retention_nonneg _ _ _ Hs Hr). lia.
  - specialize (He _ He'). lia.
Qed.

Lemma RequiresArchive_beyond t head spe :
  target_in_range t → 0 <= head < u64_modulus → 0 < spe → blocksRetentionEpochs * spe < u64_modulus →
  RequiresArchive t head spe = true ↔ t_Named t = "" ∧ t_Root t = "" ∧ beyond_retention t head spe.
Proof.
  intros Ht Hh Hs Hb. split.
  - intros H. assert (head ≠ 0 ∧ t_Named t = "" ∧ t_Root t = "") as (H0 & Hn & Hr).
    { unfold RequiresArchive in H. destruct (_ || _) eqn:E in H; [done|]. b2p. done. }
    split_and!; [done..|]. rewrite RequiresArchive_cases in H by done. unfold beyond_retention.
    destruct (retention (t_Kind t) spe) as [r|] eqn:Er.
    + destruct (t_Slot t) as [n|] eqn:En; [|done]. left. exists n, r. split_and!; [done..|].
      destruct (proj1 Ht _ En), (retention_nonneg _ _ _ Hs Er). by apply olderThan_spec in H.
    + destruct (is_epoch_kind (t_Kind t)); [|done]. destruct (t_Epoch t) as [e|] eqn:Ee; [|done]. right.
      exists e. pose proof (proj2 Ht _ Ee). rewrite u64_add_small in H by (unfold is_u64; lia). b2p. done.
  - intros (Hn & Hr & Hbr). pose proof (beyond_retention_head t head spe Ht (proj1 Hh) Hs Hbr).
    rewrite RequiresArchive_cases by done.
    destruct Hbr as [(n & r & En & Er & Hlt)|(e & Ee & Ek & Hlt)].
    + rewrite Er, En. destruct (proj1 Ht _ En), (retention_nonneg _ _ _ Hs Er). by apply olderThan_spec.
    + destruct (retention (t_Kind t) spe) as [r|] eqn:Er.
      { destruct (retention_nonneg _ _ _ Hs Er). congruence. }
      rewrite Ek, Ee. pose proof (proj2 Ht _ Ee). rewrite u64_add_small by (unfold is_u64; lia). by apply Z.ltb_lt.
Qed.

(** Proactive archive routing happens exactly for numeric targets older than the retention of
    their kind (in unbounded arithmetic), never for named or root identifiers or an unknown
    head, and a target that needs an archive keeps needing it as the head advances. *)
Theorem RequiresArchive_spec t head head' spe :
  target_in_range t → 0 <= head <= head' → head' < u64_modulus → 0 < spe →
  blocksRetentionEpochs * spe < u64_modulus →
  (RequiresArchive t head spe = true ↔ t_Named t = "" ∧ t_Root t = "" ∧ beyond_retention t head spe) ∧
  (RequiresArchive t head spe = true → RequiresArchive t head' spe = true).
Proof.
  intros Ht Hh Hh' Hspe Hb.
  split; [apply RequiresArchive_beyond; done || lia|]. rewrite !RequiresArchive_beyond by (done || lia). intros (? & ? & Hbr). split_and!; [done..|].
  assert (head / spe <= head' / spe) by (apply Z.div_le_mono; lia).
  destruct Hbr as [(n & r & ? & ? & ?)|(x & ? & ? & ?)]; [left; exists n, r|right; exists x]; split_and!; try done; lia.
Qed.

Lemma RequiresArchive_spec_witness :
  let t := with_kind BlobSidecars (slot_target 100) in
  classifyHistoricalTarget "/eth/v1/beacon/blob_sidecars/100" = t ∧
  RequiresArchive t 200000 32 = true ∧ RequiresArchive t 300000 32 = true.
Proof.
  split; [reflexivity|]. split; [reflexivity|].
  refine (proj2 (RequiresArchive_spec (with_kind BlobSidecars (slot_target 100)) 200000 300000 32 _ _ _ _ _) _);
    [|lia|reflexivity|lia|reflexivity|reflexivity].
  split; simpl; intros ? [= <-]; by vm_compute.
Defined.

(** The addition in the epoch comparison wraps for the largest epoch, which then counts as
    historical. *)
Lemma RequiresArchive_epoch_wrap head :
  64 <= head < u64_modulus → RequiresArchive (epoch_target Liveness (u64_modulus - 1)) head 32 = true.
Proof.
  intros Hh. rewrite RequiresArchive_cases by (done || (try by vm_compute) || lia). cbn [retention t_Kind is_epoch_kind t_Epoch].
  apply Z.ltb_lt. change (u64_add (u64_modulus - 1) 1) with 0.
  apply Z.div_str_pos. lia.
Qed.

(** ** Agreement with the cache's reading of a path *)

Lemma parseBlockIdentifier_slot s n : ParseUint s = Some n → parseBlockIdentifier s = slot_target n.
Proof.
  intros H. unfold parseBlockIdentifier.
  destruct (one_of s _) eqn:E.
  { apply one_of_spec in E. repeat (apply elem_of_cons in E as [->|E]; [by vm_compute in H|]).
    by apply not_elem_of_nil in E. }
  assert (∀ c t, s = String "0" (String c t) → is_digit c = true) as Hd.
  { intros c t ->. unfold ParseUint in H. cbn [String.eqb] in H. destruct (parse_digits 0 _) as [m|] eqn:Ep; [|done].
    apply parse_digits_bytes in Ep. cbn [has_byte] in Ep. b2p. done. }
  destruct (HasPrefix s "0x") eqn:E1.
  { apply HasPrefix_spec in E1 as [t ->]. by specialize (Hd "x"%char t eq_refl). }
  destruct (HasPrefix s "0X") eqn:E2.
  { apply HasPrefix_spec in E2 as [t ->]. by specialize (Hd "X"%char t eq_refl). }
  cbn [orb]. unfold parseUint64. destruct (String.eqb_spec s "") as [->|]; [done|]. by rewrite H.
Qed.

(** A path in the shape the classifier looks at. *)
Lemma classify_segments path :
  TrimSpace path = path → (4 <= length (path_segments path))%nat →
  seg (path_segments path) 0 = "eth" → starts_v (seg (path_segments path) 1) = true →
  classifyHistoricalTarget path =
    (let segs := path_segments path in
     if String.eqb (seg segs 2) "beacon" then classifyBeaconPath segs
     else if String.eqb (seg segs 2) "validator" then classifyValidatorPath segs
     else if String.eqb (seg segs 2) "debug" then classifyDebugPath segs
     else zero_target).
Proof.
  intros Ht Hl H0 H1. unfold classifyHistoricalTarget. rewrite Ht. cbv zeta.
  destruct (String.eqb_spec path "") as [->|]; [cbn in Hl; lia|].
  destruct (String.eqb_spec path "/") as [->|]; [cbn in Hl; lia|]. cbn [orb].
  rewrite H0, H1. destruct (Nat.ltb_spec (length (path_segments path)) 4); [lia|]. done.
Qed.

Lemma classify_slot path n :
  TrimSpace path = path → pathNumericSlot path = Some n →
  ∃ k r, classifyHistoricalTarget path = with_kind k (slot_target n) ∧ retention k 1 = Some r.
Proof.
  intros Ht (H0 & H1 & H2 & Hn & H)%pathNumericSlot_Some.
  assert (4 <= length (path_segments path))%nat as Hl4 by (destruct H as [(? & _)|(? & _)]; lia).
  rewrite classify_segments by done. cbv zeta. rewrite H2. cbn [String.eqb Ascii.eqb Bool.eqb].
  change (String.eqb "beacon" "beacon") with true. cbv iota. unfold classifyBeaconPath. cbv zeta.
  destruct H as [(Hl & H3 & [_ Hp]%parse_slot_range)|(Hl & H3 & H4 & [_ Hp]%parse_slot_range)].
  - rewrite (proj2 (Nat.ltb_ge (length (path_segments path)) 5)) by lia.
    rewrite (parseBlockIdentifier_slot _ _ Hp). unfold slot_resources in H3.
    repeat (apply elem_of_cons in H3 as [H3|H3]; [rewrite H3; by do 2 eexists|]). by apply not_elem_of_nil in H3.
  - rewrite (proj2 (Nat.ltb_ge (length (path_segments path)) 6)) by lia.
    rewrite (parseBlockIdentifier_slot _ _ Hp), H3.
    repeat (apply elem_of_cons in H4 as [H4|H4]; [rewrite H4; by do 2 eexists|]). by apply not_elem_of_nil in H4.
Qed.

Lemma classify_named path :
  TrimSpace path = path → pathHasNamedSlotID path = true →
  t_Kind (classifyHistoricalTarget path) = KindNone ∨ t_Named (classifyHistoricalTarget path) ∈ namedSlotIDs.
Proof.
  intros Ht H. assert (∃ l, path_segments path = l ∧ (4 <= length l)%nat ∧ seg l 0 = "eth" ∧ starts_v (seg l 1) = true)
    as (l & <- & Hl & H0 & H1).
  { unfold pathHasNamedSlotID in H. cbv zeta in H. destruct (_ || _) eqn:E in H; [done|]. b2p. eauto. }
  apply pathHasNamedSlotID_true in H as (H2 & H3 & H4).
  rewrite classify_segments by done. cbv zeta. rewrite H2. change (String.eqb "beacon" "beacon") with true. cbv iota.
  unfold classifyBeaconPath. cbv zeta. set (segs := path_segments path) in *.
  assert (∀ k, t_Kind (if (length segs <? 5)%nat then zero_target else with_kind k (parseBlockIdentifier (seg segs 4))) =
             KindNone ∨
           t_Named (if (length segs <? 5)%nat then zero_target else with_kind k (parseBlockIdentifier (seg segs 4)))
             ∈ namedSlotIDs) as Hid.
  { intros k. destruct (Nat.ltb_spec (length segs) 5); [by left|]. right.
    destruct H4 as [H4|[_ H4]]; [lia|]. unfold namedSlotIDs in *.
    repeat (apply elem_of_cons in H4 as [H4|H4]; [rewrite H4; apply one_of_spec; reflexivity|]).
    by apply not_elem_of_nil in H4. }
  unfold slot_resources in H3.
  repeat (apply elem_of_cons in H3 as [H3|H3]; [rewrite H3; apply Hid|]). by apply not_elem_of_nil in H3.
Qed.

(** The archive classifier agrees with the cache's reading of a path: a path whose answer is
    cached by slot is classified with that very slot and a retention window, and a path that
    asks for [head], [finalized] or [justified] is never sent to an archive, neither
    proactively nor because an answer looks like pruning. *)
Theorem classify_agrees_with_cache path :
  TrimSpace path = path →
  let t := classifyHistoricalTarget path in
  (∀ n, pathNumericSlot path = Some n →
     t_Slot t = Some n ∧ IsHistorical t = true ∧ ∃ r, retention (t_Kind t) 1 = Some r) ∧
  (pathHasNamedSlotID path = true → ∀ head spe status body,
     RequiresArchive t head spe = false ∧ isPruningError status body t = false).
Proof.
  intros Ht t. split.
  - intros n Hn. destruct (classify_slot path n Ht Hn) as (k & r & Hc & Hr). unfold t. rewrite Hc.
    split_and!; [done|by destruct k|by exists r].
  - intros Hn head spe status body. destruct (classify_named path Ht Hn) as [Hk|Hd]; fold t in Hk || fold t in Hd.
    + unfold RequiresArchive, isPruningError, IsHistorical. rewrite Hk. by destruct (_ || _).
    + assert (String.eqb (t_Named t) "" = false) as E.
      { apply String.eqb_neq. intros E. rewrite E in Hd. by apply one_of_spec in Hd. }
      unfold RequiresArchive, isPruningError. rewrite E. cbn [negb]. rewrite orb_true_r. by destruct (IsHistorical t).
Qed.

Lemma classify_agrees_with_cache_witness :
  RequiresArchive (classifyHistoricalTarget "/eth/v1/beacon/states/head/root") 10000000 32 = false ∧
  t_Slot (classifyHistoricalTarget "/eth/v1/beacon/states/77/root") = Some 77.
Proof.
  split.
  - refine (proj1 (proj2 (classify_agrees_with_cache "/eth/v1/beacon/states/head/root" _) _ 10000000 32 404 "")); reflexivity.
  - refine (proj1 (proj1 (classify_agrees_with_cache "/eth/v1/beacon/states/77/root" _) 77 _)); reflexivity.
Defined.
