(* ===== verification/Url.v ===== *)
(** * URLs

    What the code uses of [net/url]: parsing a query into [url.Values], encoding it with sorted
    keys, the escaping of both, escaped paths, and parsing a rooted reference.  Encoding is a canonical
    form: parsing it gives the values back; so does parsing an escaped path. *)

From S2P Require Import Prelude GoStrings.
From Stdlib Require Import Ascii.
#[local] Open Scope string_scope.
#[local] Open Scope Z_scope.

(** ** Escaping *)

Definition hex_digit (n : Z) : ascii :=
  ascii_of_N (Z.to_N (if n <? 10 then 48 + n else 55 + n)).

Definition unhex (c : ascii) : option Z :=
  let n := byte_val c in
  if (48 <=? n) && (n <=? 57) then Some (n - 48)
  else if (97 <=? n) && (n <=? 102) then Some (n - 87)
  else if (65 <=? n) && (n <=? 70) then Some (n - 55)
  else None.

Definition unreserved (c : ascii) : bool :=
  let n := byte_val c in
  ((97 <=? n) && (n <=? 122)) || ((65 <=? n) && (n <=? 90)) || ((48 <=? n) && (n <=? 57)) ||
  in_set "-_.~" c.

Definition escape_byte (c : ascii) : string :=
  if unreserved c then String c ""
  else if Ascii.eqb c " " then "+"
  else String "%" (String (hex_digit (byte_val c / 16)) (String (hex_digit (byte_val c mod 16)) "")).

Fixpoint QueryEscape (s : string) : string :=
  match s with EmptyString => "" | String c s => escape_byte c +:+ QueryEscape s end.

Fixpoint QueryUnescape (s : string) : option string :=
  match s with
  | EmptyString => Some ""
  | String c rest =>
      if Ascii.eqb c "%" then
        match rest with
        | String a (String b rest') =>
            match unhex a, unhex b with
            | Some x, Some y => String (ascii_of_N (Z.to_N (x * 16 + y))) <$> QueryUnescape rest'
            | _, _ => None
            end
        | _ => None
        end
      else if Ascii.eqb c "+" then String " " <$> QueryUnescape rest
      else String c <$> QueryUnescape rest
  end.

(** ** Values *)

Abbreviation Values := (gmap string (list string)).

(** [m[key] = append(m[key], value)] *)
Definition Values_add (m : Values) (kv : string * string) : Values :=
  <[kv.1 := (default [] (m !! kv.1) ++ [kv.2])%list]> m.

Definition Values_Del (k : string) (m : Values) : Values := delete k m.

(** One [&]-separated part; [None] is a part that is skipped. *)
Definition parse_part (part : string) : option (string * string) :=
  if Contains part ";" then None
  else if String.eqb part "" then None
  else
    let '(k, v) := match CutByte "=" part with Some kv => kv | None => (part, "") end in
    match QueryUnescape k with
    | None => None
    | Some k => match QueryUnescape v with None => None | Some v => Some (k, v) end
    end.

(** [url.ParseQuery] with its error dropped, as [URL.Query] does. *)
Definition ParseQuery (query : string) : Values :=
  foldl Values_add ∅ (omap parse_part (Split query "&")).

Definition key_less (a b : string * list string) : bool := String.ltb a.1 b.1.

Definition encode_pair (kv : string * string) : string := QueryEscape kv.1 +:+ "=" +:+ QueryEscape kv.2.

Definition flatten_values (l : list (string * list string)) : list (string * string) :=
  l ≫= λ '(k, vs), pair k <$> vs.

Definition Values_Encode (m : Values) : string :=
  Join (encode_pair <$> flatten_values (stable_sort key_less (map_to_list m))) "&".

(** ** Round trip *)

Lemma hex_digit_unhex c :
  unhex (hex_digit (byte_val c / 16)) = Some (byte_val c / 16) ∧
  unhex (hex_digit (byte_val c mod 16)) = Some (byte_val c mod 16) ∧
  ascii_of_N (Z.to_N (byte_val c / 16 * 16 + byte_val c mod 16)) = c.
Proof. by destruct c as [[] [] [] [] [] [] [] []]. Qed.

Lemma unreserved_plain c : unreserved c = true → Ascii.eqb c "%" = false ∧ Ascii.eqb c "+" = false.
Proof. by destruct c as [[] [] [] [] [] [] [] []]. Qed.

Lemma str_app_nil_l s : "" +:+ s = s.
Proof. done. Qed.

Lemma Unescape_Escape_app s t r :
  QueryUnescape t = Some r → QueryUnescape (QueryEscape s +:+ t) = Some (s +:+ r).
Proof.
  intros Ht. induction s as [|c s IH]; [done|]. cbn [QueryEscape]. rewrite str_app_assoc.
  unfold escape_byte. destruct (unreserved c) eqn:Eu; [|destruct (Ascii.eqb_spec c " ") as [->|]].
  - rewrite str_app_cons, str_app_nil_l. cbn [QueryUnescape]. destruct (unreserved_plain _ Eu) as [-> ->].
    by rewrite IH.
  - rewrite str_app_cons, str_app_nil_l. cbn [QueryUnescape]. by rewrite IH.
  - rewrite !str_app_cons. rewrite str_app_nil_l.
    destruct (hex_digit_unhex c) as (H1 & H2 & H3). cbn [QueryUnescape].
    rewrite H1, H2. change (Ascii.eqb "%" "%") with true. cbv iota. rewrite IH, H3. done.
Qed.

Lemma QueryUnescape_Escape s : QueryUnescape (QueryEscape s) = Some s.
Proof. pose proof (Unescape_Escape_app s "" "" eq_refl) as H. by rewrite !str_app_nil_r in H. Qed.

(** Escaped text contains none of the separators. *)
Lemma escape_no_sep c s : in_set "&=;:?" c = true → no_byte c (QueryEscape s).
Proof.
  intros Hc. induction s as [|d s IH]; [apply no_byte_nil|]. cbn [QueryEscape].
  apply no_byte_app. split; [|done]. clear -Hc.
  assert (∀ d, forallb (λ c, negb (has_byte (Ascii.eqb c) (escape_byte d))) ["&"; "="; ";"; ":"; "?"]%char = true) as H
    by (clear; intros d; by destruct d as [[] [] [] [] [] [] [] []]).
  specialize (H d). rewrite forallb_forall in H. unfold no_byte. apply negb_true_iff, H.
  unfold in_set in Hc. cbn [has_byte] in Hc. rewrite orb_false_r in Hc.
  repeat (apply orb_true_iff in Hc as [Hc|Hc]; [apply Ascii.eqb_eq in Hc; subst; cbn; tauto|]).
  apply Ascii.eqb_eq in Hc. subst. cbn. tauto.
Qed.

Lemma Contains_byte s c : Contains s (String c "") = has_byte (Ascii.eqb c) s.
Proof.
  unfold Contains. induction s as [|d s IH]; [done|]. cbn [Index has_byte String.prefix].
  destruct (ascii_dec c d) as [->|Hn].
  - rewrite Ascii.eqb_refl. apply bool_decide_eq_true. destruct s; by eexists.
  - rewrite (proj2 (Ascii.eqb_neq _ _)) by done. cbn [orb]. rewrite <- IH. apply bool_decide_ext.
    by rewrite fmap_is_Some.
Qed.

Lemma encode_pair_no_byte c kv : in_set "&;:?" c = true → no_byte c (encode_pair kv).
Proof.
  intros Hc. unfold encode_pair.
  assert (in_set "&=;:?" c = true ∧ c ≠ "="%char) as [H1 H2]
    by (revert Hc; clear; by destruct c as [[] [] [] [] [] [] [] []]).
  rewrite !no_byte_app. split_and!; try by apply escape_no_sep.
  apply no_byte_cons. split; [done|apply no_byte_nil].
Qed.

Lemma parse_part_encode kv : parse_part (encode_pair kv) = Some kv.
Proof.
  unfold parse_part. rewrite Contains_byte.
  rewrite (encode_pair_no_byte ";" kv eq_refl).
  destruct (String.eqb_spec (encode_pair kv) "") as [E|_].
  { apply (f_equal String.length) in E. unfold encode_pair in E. rewrite !str_length_app in E. cbn in E. lia. }
  unfold encode_pair. change ("=" +:+ QueryEscape kv.2) with (String "=" (QueryEscape kv.2)).
  rewrite CutByte_app by (by apply escape_no_sep). rewrite !QueryUnescape_Escape. by destruct kv.
Qed.

Lemma foldl_add_values k vs (m : Values) :
  foldl Values_add m (pair k <$> vs) =
  match vs with [] => m | _ => <[k := (default [] (m !! k) ++ vs)%list]> m end.
Proof.
  revert m. induction vs as [|v vs IH]; intros m; [done|]. rewrite fmap_cons. cbn [foldl]. rewrite IH.
  unfold Values_add. cbn [fst snd]. destruct vs as [|v' vs]; [done|].
  rewrite lookup_insert_eq, insert_insert_eq. cbn [from_option id]. by rewrite <- app_assoc.
Qed.

Lemma foldl_add_flatten l (m : Values) :
  NoDup (l.*1) → Forall (λ kv, kv.2 ≠ []) l → (∀ k, k ∈ l.*1 → m !! k = None) →
  foldl Values_add m (flatten_values l) = list_to_map l ∪ m.
Proof.
  revert m. induction l as [|[k vs] l IH]; intros m Hnd Hne Hm.
  - cbn. by rewrite map_empty_union.
  - rewrite fmap_cons in Hnd. apply NoDup_cons in Hnd as [Hk Hnd]. apply Forall_cons in Hne as [Hvs Hne].
    change (flatten_values ((k, vs) :: l)) with ((pair k <$> vs) ++ flatten_values l)%list.
    rewrite foldl_app, foldl_add_values. rewrite (Hm k) by (rewrite fmap_cons; left). cbn [from_option id app] in *.
    destruct vs as [|v vs]; [done|].
    rewrite IH; [|done|done|].
    + cbn [list_to_map foldr fst snd]. rewrite <- insert_union_r by (by apply not_elem_of_list_to_map_1).
      by rewrite insert_union_l.
    + intros k' Hk'. rewrite lookup_insert_ne by (intros ->; done). apply Hm. rewrite fmap_cons. by right.
Qed.

Lemma Join_no_byte c l sep : no_byte c sep → Forall (no_byte c) l → no_byte c (Join l sep).
Proof.
  intros Hs Hl. induction Hl as [|x l Hx Hl IH]; [apply no_byte_nil|].
  destruct l as [|y l]; [done|]. rewrite Join_cons by done. by rewrite !no_byte_app.
Qed.

(** An encoded query contains none of [;], [:] and [?]. *)
Lemma Encode_no_byte c (m : Values) : in_set ";:?" c = true → no_byte c (Values_Encode m).
Proof.
  intros Hc. assert (in_set "&;:?" c = true ∧ c ≠ "&"%char) as [H1 H2]
    by (revert Hc; clear; by destruct c as [[] [] [] [] [] [] [] []]).
  apply Join_no_byte; [apply no_byte_cons; split; [done|apply no_byte_nil]|].
  apply Forall_fmap, Forall_forall. intros kv _. by apply encode_pair_no_byte.
Qed.

Lemma omap_parse_encode (l : list (string * string)) : omap parse_part (encode_pair <$> l) = l.
Proof. induction l as [|kv l IH]; [done|]. rewrite fmap_cons.
  change (omap parse_part (encode_pair kv :: (encode_pair <$> l)))
    with (match parse_part (encode_pair kv) with
          | Some y => y :: omap parse_part (encode_pair <$> l)
          | None => omap parse_part (encode_pair <$> l)
          end).
  by rewrite parse_part_encode, IH.
 Qed.

(** Parsing an encoded query gives the values back. *)
Lemma ParseQuery_Encode (m : Values) : map_Forall (λ _ vs, vs ≠ []) m → ParseQuery (Values_Encode m) = m.
Proof.
  intros Hm. unfold ParseQuery, Values_Encode. set (l := stable_sort key_less (map_to_list m)).
  assert (l ≡ₚ map_to_list m) as Hl by apply stable_sort_perm.
  assert (NoDup (l.*1)) as Hnd by (rewrite Hl; apply NoDup_fst_map_to_list).
  assert (Forall (λ kv, kv.2 ≠ []) l) as Hne.
  { rewrite Hl. apply Forall_forall. intros [k vs] Hk%elem_of_map_to_list. exact (Hm k vs Hk). }
  assert (omap parse_part (Split (Join (encode_pair <$> flatten_values l) "&") "&") = flatten_values l) as ->.
  { destruct (flatten_values l) as [|kv fl] eqn:E; [done|]. rewrite Split_Join, omap_parse_encode; [done|done|].
    apply Forall_fmap, Forall_forall. intros x _. by apply encode_pair_no_byte. }
  rewrite foldl_add_flatten by (done || (intros; apply lookup_empty)).
  rewrite map_union_empty, <- (list_to_map_to_list m). by apply list_to_map_proper.
Qed.

Lemma Values_add_nonempty (m : Values) kv :
  map_Forall (λ _ vs, vs ≠ []) m → map_Forall (λ _ vs, vs ≠ []) (Values_add m kv).
Proof. intros Hm. apply map_Forall_insert_2; [|done]. by destruct (default [] _). Qed.

Lemma ParseQuery_nonempty q : map_Forall (λ _ vs, vs ≠ []) (ParseQuery q).
Proof.
  unfold ParseQuery. assert (map_Forall (λ _ vs, vs ≠ []) (∅ : Values)) as H by apply map_Forall_empty.
  revert H. generalize (∅ : Values). induction (omap parse_part (Split q "&")) as [|kv l IH]; intros m Hm; [done|].
  cbn [foldl]. by apply IH, Values_add_nonempty.
Qed.

(** ** Paths *)

(** [shouldEscape(c, encodePath)] *)
Definition path_escaped (c : ascii) : bool := negb (unreserved c || in_set "$&+,/:;=@" c).

Fixpoint escapePath (s : string) : string :=
  match s with
  | "" => ""
  | String c s =>
      if path_escaped c
      then String "%" (String (hex_digit (byte_val c / 16)) (String (hex_digit (byte_val c mod 16)) (escapePath s)))
      else String c (escapePath s)
  end.

(** [unescape(s, encodePath)]; [None] is its error. *)
Fixpoint unescapePath (s : string) : option string :=
  match s with
  | "" => Some ""
  | String c rest =>
      if Ascii.eqb c "%" then
        match rest with
        | String a (String b rest') =>
            match unhex a, unhex b with
            | Some x, Some y => String (ascii_of_N (Z.to_N (x * 16 + y))) <$> unescapePath rest'
            | _, _ => None
            end
        | _ => None
        end
      else String c <$> unescapePath rest
  end.

(** [validEncoded(s, encodePath)] *)
Fixpoint validEncodedPath (s : string) : bool :=
  match s with
  | "" => true
  | String c s => (in_set "!$&'()*+,;=:@[]%" c || negb (path_escaped c)) && validEncodedPath s
  end.

(** [u.EscapedPath()] for the fields [RawPath] and [Path]. *)
Definition EscapedPath (raw path : string) : string :=
  if negb (String.eqb raw "") && validEncodedPath raw && bool_decide (unescapePath raw = Some path) then raw
  else if String.eqb path "*" then "*"
  else escapePath path.

(** The bytes [url.Parse] refuses: controls and DEL. *)
Definition ctl_byte (c : ascii) : bool := (byte_val c <? 32) || (byte_val c =? 127).

(** What follows the first [sep], or the whole string and nothing ([strings.Cut]). *)
Definition Cut (sep : ascii) (s : string) : string * string :=
  match CutByte sep s with Some ab => ab | None => (s, "") end.

(** [url.Parse] of a reference that starts with one slash, as the path, [EscapedPath] and the raw query;
    [None] is an error.  [setPath] keeps the raw path when it is not the default encoding. *)
Definition parseRooted (raw : string) : option (string * string * string) :=
  let '(u, frag) := Cut "#" raw in
  if has_byte ctl_byte u then None
  else
    let '(p, query) := Cut "?" u in
    match unescapePath p, unescapePath frag with
    | Some path, Some _ =>
        Some (path, EscapedPath (if String.eqb p (escapePath path) then "" else p) path, query)
    | _, _ => None
    end.

Lemma path_escaped_plain c : path_escaped c = false → Ascii.eqb c "%" = false.
Proof. intros H. destruct (Ascii.eqb_spec c "%") as [-> |]; [|done]. by vm_compute in H. Qed.

Lemma unescape_escape s : unescapePath (escapePath s) = Some s.
Proof.
  induction s as [|c s IH]; [done|]. cbn [escapePath]. destruct (path_escaped c) eqn:E.
  - destruct (hex_digit_unhex c) as (H1 & H2 & H3). cbn [unescapePath]. rewrite H1, H2, IH.
    change (Ascii.eqb "%" "%") with true. cbv iota. cbn [fmap option_fmap option_map]. by rewrite H3.
  - cbn [unescapePath]. by rewrite (path_escaped_plain c E), IH.
Qed.

Lemma EscapedPath_decodes raw path : unescapePath (EscapedPath raw path) = Some path.
Proof.
  unfold EscapedPath. case_bool_decide as E.
  - destruct (_ && _ && true); [done|]. destruct (String.eqb_spec path "*") as [-> |]; [done|apply unescape_escape].
  - rewrite andb_false_r. destruct (String.eqb_spec path "*") as [-> |]; [done|apply unescape_escape].
Qed.

(** ** An escaped path is read back *)

(** Bytes that end a path or that a reference may not contain. *)
Definition url_special (c : ascii) : bool := ctl_byte c || in_set "#?" c.

Lemma validEncoded_plain s : validEncodedPath s = true → has_byte url_special s = false.
Proof.
  induction s as [|c s IH]; [done|]. cbn [validEncodedPath has_byte]. intros [Hc Hs]%andb_true_iff.
  apply orb_false_iff. split; [|by apply IH]. revert Hc. clear. by destruct c as [[] [] [] [] [] [] [] []].
Qed.

Lemma escapePath_valid s : validEncodedPath (escapePath s) = true.
Proof.
  induction s as [|c s IH]; [done|]. cbn [escapePath]. destruct (path_escaped c) eqn:E.
  - cbn [validEncodedPath]. rewrite IH, andb_true_r. clear. by destruct c as [[] [] [] [] [] [] [] []].
  - cbn [validEncodedPath]. by rewrite IH, E, orb_true_r.
Qed.

Lemma EscapedPath_valid raw path : validEncodedPath (EscapedPath raw path) = true.
Proof.
  unfold EscapedPath. destruct (negb _ && validEncodedPath raw && _) eqn:E.
  - by apply andb_true_iff in E as [[_ E]%andb_true_iff _].
  - destruct (String.eqb_spec path "*") as [-> |]; [done|apply escapePath_valid].
Qed.

Lemma has_byte_app f a b : has_byte f (a +:+ b) = has_byte f a || has_byte f b.
Proof. induction a as [|c a IH]; [done|]. rewrite str_app_cons. cbn [has_byte]. by rewrite IH, orb_assoc. Qed.

Lemma has_byte_mono f g s : (∀ c, f c = true → g c = true) → has_byte g s = false → has_byte f s = false.
Proof.
  intros Hfg. induction s as [|c s IH]; [done|]. cbn [has_byte]. intros [Hc Hs]%orb_false_iff.
  rewrite (IH Hs), orb_false_r. destruct (f c) eqn:E; [|done]. by rewrite (Hfg c E) in Hc.
Qed.

Lemma special_no_byte c s : url_special c = true → has_byte url_special s = false → no_byte c s.
Proof.
  intros Hc Hs. unfold no_byte. revert Hs. apply has_byte_mono. intros d E. apply Ascii.eqb_eq in E. by subst d.
Qed.

Lemma EscapedPath_kept raw path :
  path ≠ "*" →
  let p := EscapedPath raw path in EscapedPath (if String.eqb p (escapePath path) then "" else p) path = p.
Proof.
  intros Hp p. assert (unescapePath p = Some path) as Hd by apply EscapedPath_decodes.
  assert (validEncodedPath p = true) as Hv by apply EscapedPath_valid. clearbody p.
  destruct (String.eqb_spec p (escapePath path)) as [E|Hn]; unfold EscapedPath.
  - cbn [String.eqb negb andb]. by rewrite (proj2 (String.eqb_neq _ _) Hp).
  - rewrite Hv, bool_decide_eq_true_2 by done. destruct (String.eqb_spec p "") as [-> |]; [|done].
    cbn in Hd. simplify_eq.
Qed.

(** [url.Parse] gives back the path, its escaped form and the query of a URL printed by
    [EscapedPath]. *)
Lemma parseRooted_escaped raw path query :
  path ≠ "*" → has_byte url_special query = false →
  let p := EscapedPath raw path in
  parseRooted p = Some (path, p, "") ∧ parseRooted (p +:+ String "?" query) = Some (path, p, query).
Proof.
  intros Hp Hq p. pose proof (EscapedPath_kept raw path Hp) as Hk. fold p in Hk.
  assert (unescapePath p = Some path) as Hd by apply EscapedPath_decodes.
  assert (has_byte url_special p = false) as Hs by (apply validEncoded_plain, EscapedPath_valid). cbv zeta in Hk. clearbody p.
  assert (has_byte ctl_byte p = false ∧ has_byte ctl_byte query = false) as [Hc1 Hc2].
  { split; [revert Hs|revert Hq]; apply has_byte_mono; intros c Hc; unfold url_special; by rewrite Hc. }
  unfold parseRooted, Cut. split.
  - rewrite (proj2 (CutByte_None "#" p)) by (by apply special_no_byte). cbn iota. rewrite Hc1.
    rewrite (proj2 (CutByte_None "?" p)) by (by apply special_no_byte). rewrite Hd. cbn [unescapePath]. by rewrite Hk.
  - rewrite (proj2 (CutByte_None "#" _)).
    2: { apply no_byte_app. split; [by apply special_no_byte|]. apply no_byte_cons. split; [done|by apply special_no_byte]. }
    cbn iota. rewrite has_byte_app. cbn [has_byte]. rewrite Hc1, Hc2. cbn [orb].
    change (ctl_byte "?") with false. cbn [orb]. rewrite CutByte_app by (by apply special_no_byte).
    rewrite Hd. cbn [unescapePath]. by rewrite Hk.
Qed.

(** An encoded query contains nothing special. *)
Lemma Encode_plain (m : Values) : has_byte url_special (Values_Encode m) = false.
Proof.
  assert (∀ s, has_byte url_special (QueryEscape s) = false) as He.
  { induction s as [|c s IH]; [done|]. cbn [QueryEscape]. rewrite has_byte_app, IH, orb_false_r. clear.
    by destruct c as [[] [] [] [] [] [] [] []]. }
  unfold Values_Encode. induction (flatten_values _) as [|kv l IH]; [done|]. rewrite fmap_cons.
  assert (has_byte url_special (encode_pair kv) = false) as Hkv by (unfold encode_pair; by rewrite !has_byte_app, !He).
  destruct (encode_pair <$> l) as [|x xs] eqn:E; [exact Hkv|]. rewrite Join_cons by done. by rewrite !has_byte_app, Hkv, IH.
Qed.
