(* ===== verification/CacheKey.v ===== *)
(** * Cache keys and representations

    [network/network.go] and [network/head_cache.go]: the key under which a response is cached,
    how the head watcher reads a key back, the deduplication key, and the content negotiation
    that selects between the JSON and the SSZ representation. *)

From S2P Require Import Prelude GoStrings GoFloat Regexp Url MemoryStore.
From Stdlib Require Import Ascii.
#[local] Open Scope string_scope.
#[local] Open Scope Z_scope.

(** [http.Header.Get] on a canonical name. *)
Definition Header_Get (h : Header) (name : string) : string :=
  match h !! name with Some (v :: _) => v | _ => "" end.

(** The parts of [*url.URL] the code reads; [EscapedPath] is kept as a field. *)
Record URL := { url_Path : string; url_EscapedPath : string; url_RawQuery : string }.

Record Request := { req_Method : string; req_URL : URL; req_Header : Header }.

(** ** Queries *)

Definition forwardableQuery (u : URL) : Values :=
  Values_Del "token" (Values_Del "use-upstream" (Values_Del "secret" (ParseQuery (url_RawQuery u)))).

Definition or_slash (path : string) : string := if String.eqb path "" then "/" else path.

(** [path + "?" + enc], or [path] when the encoding is empty. *)
Definition with_query (path enc : string) : string := if String.eqb enc "" then path else path +:+ "?" +:+ enc.

Definition pathAndQueryForUpstream (u : URL) : string :=
  let path := or_slash (url_EscapedPath u) in
  if String.eqb (url_RawQuery u) "" then path
  else with_query path (Values_Encode (forwardableQuery u)).

(** The built-in patterns, compiled once. *)
Definition noisyCacheQueryPathRe : option re := re_parse "^/eth/v\d+/node/(?:peer_count|syncing)$".
Definition peersCacheQueryPathRe : option re := re_parse "^/eth/v\d+/node/peers$".

Definition matches_builtin (r : option re) (s : string) : bool :=
  match r with Some r => re_matches r s | None => false end.

(** The query parameters that select peers. *)
Definition peers_filter (q : Values) : Values :=
  let keep k (m : Values) := match q !! k with Some vs => <[k := vs]> m | None => m end in
  keep "direction" (keep "state" ∅).

Definition pathAndQueryForCache (u : URL) : string :=
  let path := or_slash (url_EscapedPath u) in
  if String.eqb (url_RawQuery u) "" then path
  else
    let q := forwardableQuery u in
    if matches_builtin noisyCacheQueryPathRe path then path
    else if matches_builtin peersCacheQueryPathRe path then with_query path (Values_Encode (peers_filter q))
    else with_query path (Values_Encode q).

(** ** Content negotiation *)

Section accept.
(** [strconv.ParseFloat(s, 64)]; [None] is an error. *)
Context (ParseFloat : string → option float64).

(** The q-value of a media range: the last [q=] parameter that parses, 1 by default. *)
Definition part_q (params : list string) : float64 :=
  foldl (λ q p, match CutPrefix (TrimSpace p) "q=" with
                | Some v => match ParseFloat v with Some f => f | None => q end
                | None => q
                end) f64_one params.

(** How specific a media range is for a type: 3 exact, 2 [application/*], 1 [*/*], 0 none. *)
Definition specOf (type mediaType : string) : Z :=
  if String.eqb mediaType type then 3
  else if String.eqb mediaType "application/*" then 2
  else if String.eqb mediaType "*/*" then 1
  else 0.

(** [apply]: a more specific range replaces the q-value. *)
Definition apply_spec (spec : Z) (q : float64) (cur : float64 * Z) : float64 * Z :=
  if cur.2 <? spec then (q, spec) else cur.

Definition accept_part (acc : (float64 * Z) * (float64 * Z)) (part : string) : (float64 * Z) * (float64 * Z) :=
  let fields := Split part ";" in
  let mediaType := ToLower (TrimSpace (hd "" fields)) in
  let q := part_q (tl fields) in
  let '(octet, json) := acc in
  (apply_spec (specOf "application/octet-stream" mediaType) q octet,
   apply_spec (specOf "application/json" mediaType) q json).

Definition acceptPrefersSSZ (accept : string) : bool :=
  if String.eqb accept "" then false
  else
    let '(octet, json) := foldl accept_part ((f64_zero, 0), (f64_zero, 0)) (Split accept ",") in
    f64_ltb f64_zero octet.1 && f64_ltb json.1 octet.1.

Definition representationMatches (wantBinary : bool) (respHeader : Header) : bool :=
  Bool.eqb wantBinary (HasPrefix (ToLower (Header_Get respHeader "Content-Type")) "application/octet-stream").

(** ** Keys *)

Definition key_suffix (binary : bool) (scope : string) : string :=
  (if binary then ":accept=binary" else "") +:+ (if String.eqb scope "" then "" else ":upstream=" +:+ scope).

Definition buildCacheKey (networkID : string) (r : Request) (scope : string) : string :=
  networkID +:+ ":" +:+ req_Method r +:+ ":" +:+ pathAndQueryForCache (req_URL r) +:+
  key_suffix (acceptPrefersSSZ (Header_Get (req_Header r) "Accept")) scope.

(** [sha] is the hexadecimal text of the first eight bytes of the body's SHA-256. *)
Definition dedupKey (sha : string → string) (networkID method : string) (u : URL) (body scope : string)
    (acceptBinary : bool) : string :=
  networkID +:+ ":" +:+ method +:+ ":" +:+ pathAndQueryForUpstream u +:+
  (if String.eqb body "" then "" else ":" +:+ sha body) +:+
  (if acceptBinary then ":accept=binary" else "") +:+
  (if String.eqb scope "" then "" else ":scope=" +:+ scope).
End accept.

Record parsedCacheKey := {
  ck_method : string;
  ck_pathQuery : string;
  ck_path : string;
  ck_scope : string;
  ck_acceptBinary : bool;
}.

(** [idx < 0 || idx == len(key)-1]: no colon, or nothing after it. *)
Definition cut_colon (s : string) : option (string * string) :=
  match CutByte ":" s with
  | Some (a, b) => if String.eqb b "" then None else Some (a, b)
  | None => None
  end.

Definition min_index (s : string) (seps : list string) (end_ : nat) : nat :=
  foldl (λ e sep, match Index s sep with Some j => if (j <? e)%nat then j else e | None => e end) end_ seps.

Definition parseCacheKey (key : string) : option parsedCacheKey :=
  match cut_colon key with
  | None => None
  | Some (_, key) =>
      match cut_colon key with
      | None => None
      | Some (method, rest) =>
          let end_ := min_index rest [":accept="; ":upstream="] (String.length rest) in
          let pathQuery := str_take end_ rest in
          if String.eqb pathQuery "" then None
          else
            let suffix := str_drop end_ rest in
            Some {| ck_method := method;
                    ck_pathQuery := pathQuery;
                    ck_path := match CutByte "?" pathQuery with Some (p, _) => p | None => pathQuery end;
                    ck_scope := match Index suffix ":upstream=" with
                                | Some j => str_drop (j + String.length ":upstream=") suffix
                                | None => ""
                                end;
                    ck_acceptBinary := Contains suffix ":accept=binary" |}
      end
  end.

Definition cacheKeyPath (key : string) : string :=
  match parseCacheKey key with Some k => ck_path k | None => "" end.

(** ** Searching across a separator *)

Lemma prefix_stop c t a b : no_byte c t → String.prefix t (a +:+ String c b) = true → String.prefix t a = true.
Proof.
  revert a. induction t as [|d t IH]; intros a Ht H; [by destruct a|].
  apply no_byte_cons in Ht as [Hd Ht]. destruct a as [|e a].
  - rewrite str_app_nil_l in H. cbn [String.prefix] in H. by destruct (ascii_dec d c) as [->|].
  - rewrite str_app_cons in H. cbn [String.prefix] in *. destruct (ascii_dec d e); [|done]. by apply IH.
Qed.

(** A pattern that does not occur in [a], and whose tail avoids [c], is found in [a c b] only
    from [c] on. *)
Lemma Index_cross d t c a b :
  no_byte c t → Index a (String d t) = None →
  Index (a +:+ String c b) (String d t) = Nat.add (String.length a) <$> Index (String c b) (String d t).
Proof.
  intros Ht. induction a as [|e a IH]; intros Ha.
  - rewrite str_app_nil_l. by destruct (Index (String c b) (String d t)).
  - cbn [Index] in Ha. destruct (String.prefix (String d t) (String e a)) eqn:Ep; [done|].
    apply fmap_None in Ha. specialize (IH Ha). rewrite str_app_cons.
    set (r := Index (String c b) (String d t)) in *. clearbody r. cbn [Index]. rewrite IH.
    destruct (String.prefix (String d t) (String e (a +:+ String c b))) eqn:Eq.
    + cbn [String.prefix] in Ep, Eq. destruct (ascii_dec d e); [|done]. apply (prefix_stop c) in Eq; [|done].
      by rewrite Ep in Eq.
    + by destruct r.
Qed.

Lemma Index_no_byte d t s : no_byte d s → Index s (String d t) = None.
Proof.
  induction s as [|e s IH]; intros H; [done|]. apply no_byte_cons in H as [Hd Hs].
  cbn [Index String.prefix]. destruct (ascii_dec d e); [done|]. by rewrite IH.
Qed.

(** ** The path part of a key *)

(** The two separators of a key suffix, and what a path may not contain for the key to be read
    back. *)
Definition key_safe_path (path : string) : Prop :=
  Index path ":accept=" = None ∧ Index path ":upstream=" = None ∧ no_byte "?" path.

#[global] Instance key_safe_path_dec path : Decision (key_safe_path path).
Proof. unfold key_safe_path, no_byte. apply _. Defined.

Lemma or_slash_safe p : key_safe_path p → key_safe_path (or_slash p) ∧ or_slash p ≠ "".
Proof.
  intros H. unfold or_slash. destruct (String.eqb_spec p ""); [|done]. split; [|done].
  apply (bool_decide_eq_true_1 _). by vm_compute.
Qed.

Lemma with_query_cases path enc :
  with_query path enc = path ∨ with_query path enc = path +:+ String "?" enc.
Proof. unfold with_query. destruct (String.eqb enc ""); [by left|by right]. Qed.

(** A path with an encoded query. *)
Lemma pathAndQuery_encoded u :
  let path := or_slash (url_EscapedPath u) in
  pathAndQueryForCache u = path ∨ ∃ m, pathAndQueryForCache u = path +:+ String "?" (Values_Encode m).
Proof.
  unfold pathAndQueryForCache. cbv zeta. set (path := or_slash (url_EscapedPath u)).
  assert (∀ m, with_query path (Values_Encode m) = path ∨
    ∃ m', with_query path (Values_Encode m) = path +:+ String "?" (Values_Encode m')) as H.
  { intros m. destruct (with_query_cases path (Values_Encode m)) as [H|H]; [by left|]. right. by exists m. }
  destruct (String.eqb _ ""); [by left|]. destruct (matches_builtin noisyCacheQueryPathRe path); [by left|].
  destruct (matches_builtin peersCacheQueryPathRe path); apply H.
Qed.

Lemma pathAndQuery_shape u :
  let path := or_slash (url_EscapedPath u) in
  pathAndQueryForCache u = path ∨
  ∃ enc, pathAndQueryForCache u = path +:+ String "?" enc ∧ no_byte ":" enc.
Proof.
  intros path. destruct (pathAndQuery_encoded u) as [H|[m H]]; [by left|right].
  eexists. split; [exact H|]. by apply Encode_no_byte.
Qed.

Lemma pathQuery_safe u t :
  key_safe_path (url_EscapedPath u) → t = "accept=" ∨ t = "upstream=" →
  Index (pathAndQueryForCache u) (String ":" t) = None.
Proof.
  intros [(Ha & Hu & _) _]%or_slash_safe Ht. set (path := or_slash (url_EscapedPath u)) in *.
  assert (Index path (String ":" t) = None ∧ no_byte "?" t) as [Hi Hq] by (by destruct Ht; subst).
  destruct (pathAndQuery_shape u) as [->|(enc & -> & Henc)]; [done|].
  rewrite Index_cross by done. rewrite Index_no_byte; [done|]. by apply no_byte_cons.
Qed.

Lemma path_of_pathQuery u :
  key_safe_path (url_EscapedPath u) →
  match CutByte "?" (pathAndQueryForCache u) with Some (p, _) => p | None => pathAndQueryForCache u end =
  or_slash (url_EscapedPath u).
Proof.
  intros [(_ & _ & Hq) _]%or_slash_safe. destruct (pathAndQuery_shape u) as [->|(enc & -> & _)].
  - by rewrite (proj2 (CutByte_None _ _)).
  - by rewrite CutByte_app.
Qed.

Lemma pathQuery_nonempty u : key_safe_path (url_EscapedPath u) → pathAndQueryForCache u ≠ "".
Proof.
  intros [_ Hne]%or_slash_safe. destruct (pathAndQuery_shape u) as [->|(enc & -> & _)]; [done|].
  intros H%(f_equal String.length). rewrite str_length_app in H. cbn in H. lia.
Qed.

(** ** Reading a suffix back *)

Lemma suffix_accept binary scope :
  Index scope ":accept=binary" = None → Contains (key_suffix binary scope) ":accept=binary" = binary.
Proof.
  intros Hs. unfold key_suffix, Contains. destruct binary.
  - apply bool_decide_eq_true. by rewrite Index_app_here.
  - apply bool_decide_eq_false. destruct (String.eqb_spec scope "") as [->|]; [by intros [? ?]|].
    rewrite str_app_nil_l. change (":upstream=" +:+ scope) with (String ":" ("upstream=" +:+ scope)).
    rewrite eq_None_not_Some in Hs. intros H. apply Hs.
    do 10 (cbn [Index String.prefix String.append] in H; apply fmap_is_Some in H). exact H.
Qed.

Lemma suffix_scope binary scope :
  match Index (key_suffix binary scope) ":upstream=" with
  | Some j => str_drop (j + String.length ":upstream=") (key_suffix binary scope)
  | None => ""
  end = scope.
Proof.
  unfold key_suffix. destruct (String.eqb_spec scope "") as [->|Hne]; [by destruct binary|].
  destruct binary.
  - assert (Index (":accept=binary" +:+ ":upstream=" +:+ scope) ":upstream=" = Some 14%nat) as ->.
    { etransitivity; [exact (Index_cross ":" "upstream=" ":" ":accept=binary" ("upstream=" +:+ scope) eq_refl eq_refl)|].
      change (String ":" ("upstream=" +:+ scope)) with (":upstream=" +:+ scope). by rewrite Index_app_here. }
    change (":accept=binary" +:+ ":upstream=" +:+ scope) with ((":accept=binary" +:+ ":upstream=") +:+ scope).
    exact (str_drop_app (":accept=binary" +:+ ":upstream=") scope).
  - rewrite str_app_nil_l, Index_app_here. exact (str_drop_app ":upstream=" scope).
Qed.

(** The minimum of the two indices is the length of the part in front of the suffix. *)
Lemma min_index_two s i1 i2 e n :
  (∀ j, Index s i1 = Some j → (n <= j)%nat) → (∀ j, Index s i2 = Some j → (n <= j)%nat) → (n <= e)%nat →
  (Index s i1 = Some n ∨ Index s i2 = Some n ∨ e = n) → min_index s [i1; i2] e = n.
Proof.
  intros H1 H2 He Hn. unfold min_index. cbn [foldl].
  assert (∀ j e, (if (j <? e)%nat then j else e) = Nat.min j e) as Hmin.
  { intros j e'. destruct (Nat.ltb_spec j e'); lia. }
  destruct (Index s i1) as [j1|], (Index s i2) as [j2|];
    repeat match goal with H : ∀ j, Some ?x = Some j → _ |- _ => specialize (H x eq_refl) end;
    rewrite ?Hmin; destruct Hn as [Hn|[Hn|Hn]]; simplify_eq; lia.
Qed.

Lemma suffix_end u binary scope :
  key_safe_path (url_EscapedPath u) →
  let pq := pathAndQueryForCache u in
  let rest := pq +:+ key_suffix binary scope in
  min_index rest [":accept="; ":upstream="] (String.length rest) = String.length pq.
Proof.
  intros Hs pq rest. unfold rest.
  pose proof (pathQuery_safe u "accept=" Hs (or_introl eq_refl)) as Ha. fold pq in Ha.
  pose proof (pathQuery_safe u "upstream=" Hs (or_intror eq_refl)) as Hu. fold pq in Hu. clearbody pq.
  assert (key_suffix binary scope = "" ∨
    ∃ b, key_suffix binary scope = String ":" b ∧
         (Index (String ":" b) ":accept=" = Some O ∨ Index (String ":" b) ":upstream=" = Some O)) as Hk.
  { unfold key_suffix. destruct binary; [right; eexists; split; [reflexivity|by left]|].
    destruct (String.eqb scope ""); [by left|right; eexists; split; [reflexivity|]]. right. apply (Index_app_here ":upstream="). }
  apply min_index_two.
  - intros j Hj. destruct Hk as [Hk|(b & Hk & _)]; rewrite Hk in Hj.
    + rewrite str_app_nil_r, Ha in Hj. done.
    + rewrite Index_cross in Hj by done. destruct (Index (String ":" b) ":accept="); simplify_eq/=. lia.
  - intros j Hj. destruct Hk as [Hk|(b & Hk & _)]; rewrite Hk in Hj.
    + rewrite str_app_nil_r, Hu in Hj. done.
    + rewrite Index_cross in Hj by done. destruct (Index (String ":" b) ":upstream="); simplify_eq/=. lia.
  - rewrite str_length_app. lia.
  - destruct Hk as [Hk|(b & Hk & [Hb|Hb])]; rewrite Hk.
    + right; right. by rewrite str_app_nil_r.
    + left. rewrite Index_cross, Hb by done. cbn. f_equal. lia.
    + right; left. rewrite Index_cross, Hb by done. cbn. f_equal. lia.
Qed.

Lemma cut_colon_app a b : no_byte ":" a → b ≠ "" → cut_colon (a +:+ ":" +:+ b) = Some (a, b).
Proof.
  intros Ha Hb. unfold cut_colon. change (":" +:+ b) with (String ":" b). rewrite CutByte_app by done.
  by destruct (String.eqb_spec b "").
Qed.

Lemma parseCacheKey_ok ParseFloat networkID r scope :
  no_byte ":" networkID → no_byte ":" (req_Method r) → key_safe_path (url_EscapedPath (req_URL r)) →
  Index scope ":accept=binary" = None →
  parseCacheKey (buildCacheKey ParseFloat networkID r scope) = Some
    {| ck_method := req_Method r;
       ck_pathQuery := pathAndQueryForCache (req_URL r);
       ck_path := or_slash (url_EscapedPath (req_URL r));
       ck_scope := scope;
       ck_acceptBinary := acceptPrefersSSZ ParseFloat (Header_Get (req_Header r) "Accept") |}.
Proof.
  intros Hid Hm Hp Hs. unfold buildCacheKey. set (binary := acceptPrefersSSZ _ _).
  pose proof (pathQuery_nonempty _ Hp) as Hne. pose proof (path_of_pathQuery _ Hp) as Hpath.
  pose proof (suffix_end (req_URL r) binary scope Hp) as Hend. cbv zeta in Hend.
  set (pq := pathAndQueryForCache (req_URL r)) in *.
  assert (pq +:+ key_suffix binary scope ≠ "") as Hr by (by destruct pq).
  unfold parseCacheKey. rewrite cut_colon_app by (done || by destruct (req_Method r)).
  rewrite cut_colon_app by done. cbv zeta. rewrite Hend, str_take_app, str_drop_app.
  rewrite (proj2 (String.eqb_neq pq "")) by done.
  by rewrite suffix_accept, suffix_scope, Hpath.
Qed.


(** Decimal q-values such as [0.9], enough for the examples. *)
Definition toy_ParseFloat (s : string) : option float64 :=
  if String.eqb s "1.0" then Some f64_one else if String.eqb s "0.9" then Some (f64_lit 9 10) else None.

Definition demo_request (path query accept : string) : Request :=
  {| req_Method := "GET"; req_URL := {| url_Path := path; url_EscapedPath := path; url_RawQuery := query |};
     req_Header := {[ "Accept" := [accept] ]} |}.


(** ** Keys are canonical *)

Lemma forwardableQuery_nonempty u : map_Forall (λ _ vs, vs ≠ []) (forwardableQuery u).
Proof. unfold forwardableQuery, Values_Del. do 3 apply map_Forall_delete. apply ParseQuery_nonempty. Qed.

Lemma forwardable_no_query u : url_RawQuery u = "" → Values_Encode (forwardableQuery u) = "".
Proof. unfold forwardableQuery. by intros ->. Qed.

(** A path without query rules of its own. *)
Definition regular_path (u : URL) : Prop :=
  let path := or_slash (url_EscapedPath u) in
  matches_builtin noisyCacheQueryPathRe path = false ∧ matches_builtin peersCacheQueryPathRe path = false ∧
  no_byte "?" path.

Lemma pathAndQuery_regular u :
  regular_path u →
  pathAndQueryForCache u = with_query (or_slash (url_EscapedPath u)) (Values_Encode (forwardableQuery u)) ∧
  pathAndQueryForUpstream u = pathAndQueryForCache u.
Proof.
  intros (H1 & H2 & _). unfold pathAndQueryForCache, pathAndQueryForUpstream. cbv zeta. rewrite H1, H2.
  destruct (String.eqb_spec (url_RawQuery u) "") as [E|]; [|done].
  by rewrite forwardable_no_query.
Qed.

Lemma with_query_inj p1 p2 e1 e2 :
  no_byte "?" p1 → no_byte "?" p2 → with_query p1 e1 = with_query p2 e2 → p1 = p2 ∧ e1 = e2.
Proof.
  intros H1 H2. unfold with_query. destruct (String.eqb_spec e1 "") as [->|], (String.eqb_spec e2 "") as [->|];
    intros H; [done| | |]; apply (f_equal (CutByte "?")) in H; cbn [String.append] in H;
    rewrite ?(proj2 (CutByte_None _ _) H1), ?(proj2 (CutByte_None _ _) H2) in H; 
    change (p1 +:+ "?" +:+ e1) with (p1 +:+ String "?" e1) in H || idtac;
    change (p2 +:+ "?" +:+ e2) with (p2 +:+ String "?" e2) in H || idtac;
    rewrite ?CutByte_app in H by done; by simplify_eq.
Qed.

(** For ordinary paths, two requests use the same cache entry text exactly when the upstream
    would be asked for the same path with the same parameters; eBeacon's own parameters
    ([secret], [token], [use-upstream]), the order of the others and their escaping do not
    matter, and no secret enters a key. *)
Theorem cache_key_canonical u1 u2 :
  regular_path u1 → regular_path u2 →
  (pathAndQueryForCache u1 = pathAndQueryForCache u2 ↔
   or_slash (url_EscapedPath u1) = or_slash (url_EscapedPath u2) ∧ forwardableQuery u1 = forwardableQuery u2) ∧
  pathAndQueryForUpstream u1 = pathAndQueryForCache u1 ∧
  (∀ k, k ∈ ["secret"; "token"; "use-upstream"] → forwardableQuery u1 !! k = None).
Proof.
  intros Hr1 Hr2. destruct (pathAndQuery_regular u1 Hr1) as [E1 Eu], (pathAndQuery_regular u2 Hr2) as [E2 _].
  split_and!; [|done|].
  - rewrite E1, E2. split; [|by intros [-> ->]]. intros H.
    apply with_query_inj in H as [Hp He]; [|apply Hr1|apply Hr2]. split; [done|].
    rewrite <- (ParseQuery_Encode (forwardableQuery u1)), <- (ParseQuery_Encode (forwardableQuery u2))
      by apply forwardableQuery_nonempty. by rewrite He.
  - intros k Hk. unfold forwardableQuery, Values_Del.
    repeat (apply elem_of_cons in Hk as [->|Hk]; [by rewrite !lookup_delete_None; auto|]).
    by apply not_elem_of_nil in Hk.
Qed.

Lemma cache_key_canonical_witness :
  let u1 := req_URL (demo_request "/eth/v1/beacon/states/head/validators" "status=active&id=1&secret=x" "") in
  let u2 := req_URL (demo_request "/eth/v1/beacon/states/head/validators" "id=%31&status=active" "") in
  pathAndQueryForCache u1 = pathAndQueryForCache u2.
Proof.
  refine (proj2 (proj1 (cache_key_canonical
    (req_URL (demo_request "/eth/v1/beacon/states/head/validators" "status=active&id=1&secret=x" ""))
    (req_URL (demo_request "/eth/v1/beacon/states/head/validators" "id=%31&status=active" "")) _ _)) _);
    (split; [vm_compute; reflexivity|]); [split; vm_compute; reflexivity..|]; vm_compute; reflexivity.
Defined.

(** Outside [key_safe_path] the key is ambiguous: a path that spells a separator reads like a
    scoped request for a shorter path. *)
Lemma cache_key_ambiguous :
  let r1 := demo_request "/eth/v1/beacon/headers/head" "" "" in
  let r2 := demo_request "/eth/v1/beacon/headers/head:upstream=a" "" "" in
  buildCacheKey toy_ParseFloat "mainnet" r1 "a" = buildCacheKey toy_ParseFloat "mainnet" r2 "".
Proof. vm_compute. reflexivity. Qed.

(** ** Representations *)

(** The q-value of a type: that of the first among its most specific ranges. *)
Definition best_spec (specs : list (Z * float64)) : float64 * Z :=
  foldl (λ cur '(spec, q), apply_spec spec q cur) (f64_zero, 0) specs.

Lemma best_spec_max specs :
  Forall (λ x, 0 <= x.1) specs →
  let '(q, s) := best_spec specs in
  0 <= s ∧ (∀ s' q', (s', q') ∈ specs → s' <= s) ∧
  (0 < s → ∃ l k, specs = (l ++ (s, q) :: k)%list ∧ Forall (λ x, x.1 < s) l) ∧ (s = 0 → q = f64_zero).
Proof.
  unfold best_spec. induction specs as [|[s' q'] specs IH] using rev_ind; intros Hf.
  - cbn. split_and!; [lia|by intros ?? ?%not_elem_of_nil|lia|done].
  - apply Forall_app in Hf as [Hf [Hs' _]%Forall_cons]. specialize (IH Hf). rewrite foldl_app. cbn [foldl].
    destruct (foldl _ _ specs) as [q s] eqn:E. destruct IH as (H0 & H1 & H2 & H3). unfold apply_spec. cbn [fst snd] in *.
    destruct (Z.ltb_spec s s').
    + split_and!; [lia| | |lia].
      * intros ? ? [Hin|Hin%list_elem_of_singleton]%elem_of_app; [apply H1 in Hin; lia|by simplify_eq].
      * intros _. exists specs, []. split; [done|]. apply Forall_forall. intros [s1 q1] Hin.
        apply H1 in Hin. cbn. lia.
    + split_and!; [done| |intros Hs; destruct (H2 Hs) as (l & k & -> & Hl)|done].
      * intros ? ? [Hin|Hin%list_elem_of_singleton]%elem_of_app; [by apply H1 in Hin|by simplify_eq].
      * exists l, (k ++ [(s', q')])%list. split; [by rewrite <- app_assoc|done].
Qed.

(** The specificity and the q-value each range of an [Accept] header has for a type. *)
Definition ranges ParseFloat (type accept : string) : list (Z * float64) :=
  (λ part, let fields := Split part ";" in
           (specOf type (ToLower (TrimSpace (hd "" fields))), part_q ParseFloat (tl fields))) <$> Split accept ",".

(** SSZ is served exactly when its q-value is positive and above JSON's, where a type's q-value
    is [best_spec] of the header's ranges: ties and wildcards give JSON. *)
Lemma acceptPrefersSSZ_best ParseFloat accept :
  accept ≠ "" →
  acceptPrefersSSZ ParseFloat accept =
    (let octet := (best_spec (ranges ParseFloat "application/octet-stream" accept)).1 in
     let json := (best_spec (ranges ParseFloat "application/json" accept)).1 in
     f64_ltb f64_zero octet && f64_ltb json octet).
Proof.
  intros Hne. unfold acceptPrefersSSZ. rewrite (proj2 (String.eqb_neq _ _)) by done.
  assert (∀ parts a b, foldl (accept_part ParseFloat) (a, b) parts =
    (foldl (λ cur '(spec, q), apply_spec spec q cur) a
       ((λ part, let fields := Split part ";" in
           (specOf "application/octet-stream" (ToLower (TrimSpace (hd "" fields))), part_q ParseFloat (tl fields))) <$> parts),
     foldl (λ cur '(spec, q), apply_spec spec q cur) b
       ((λ part, let fields := Split part ";" in
           (specOf "application/json" (ToLower (TrimSpace (hd "" fields))), part_q ParseFloat (tl fields))) <$> parts)))
    as H.
  { induction parts as [|p parts IH]; intros a b; [done|]. rewrite !fmap_cons. cbn [foldl]. by rewrite <- IH. }
  by rewrite H.
Qed.

Example acceptPrefersSSZ_examples :
  acceptPrefersSSZ toy_ParseFloat "application/octet-stream;q=1.0,application/json;q=0.9" = true ∧
  acceptPrefersSSZ toy_ParseFloat "application/json, application/octet-stream" = false ∧
  acceptPrefersSSZ toy_ParseFloat "*/*" = false ∧
  acceptPrefersSSZ toy_ParseFloat "application/*;q=0.9,application/octet-stream" = true.
Proof. vm_compute. done. Qed.
