(* ===== verification/HeadWatcher.v ===== *)
(** * The head watcher

    [network/head_watcher.go]: the events of an upstream's stream and what they do to the pool
    and to the response cache.  [HeadJSON] stands for [encoding/json] on the payload types the
    code declares; the connection and its timers are [Watch], the warming requests [Warm]. *)

From S2P Require Import Prelude GoStrings GoFloat Config ScoreTracker AutoTuner BlockCache Upstream Selector Pool PoolState Health MemoryStore Regexp Cache ApiPath Paths Url CacheKey.
From Stdlib Require Import Ascii.
#[local] Open Scope string_scope.
#[local] Open Scope Z_scope.

(** ** Payloads *)

Record headPayload := { hp_Slot : string; hp_Block : string }.

Record headV2 := { hv_Block : string; hv_PayloadStatus : string }.

(** The anonymous payload of [recordHeadPayloadStatus]; [v2_flat] is the embedded struct. *)
Record headV2Payload := { v2_Version : string; v2_Data : option headV2; v2_flat : headV2 }.

(** [json.Unmarshal] into each payload type; [None] is an error. *)
Class HeadJSON := {
  json_head : string → option headPayload;
  json_headV2 : string → option headV2Payload;
  json_epoch : string → option string;
  json_slot : string → option string;
}.

Definition preGloasForks : list string := ["phase0"; "altair"; "bellatrix"; "capella"; "deneb"; "electra"; "fulu"].

(** ** Keys *)

(** [strings.HasPrefix(key, w.networkID+":")] *)
Definition ownsKey (networkID key : string) : bool := HasPrefix key (networkID +:+ ":").

Definition isNamedHeadCacheKey (key : string) : bool := pathHasNamedSlotID (cacheKeyPath key).

Section watcher.
Context `{RL : RateLib} `{RX : RegexpLib} `{HJ : HeadJSON}.

(** The watcher with the pool and the cache it shares; [hw_shared] tells whether the pool has
    shared state, [hw_cache] is [None] when caching is disabled. *)
Record headWatcher := {
  hw_networkID : string;
  hw_pool : Pool RL;
  hw_shared : bool;
  hw_cache : option (Cache RX);
}.

Definition hw_set_pool (p : Pool RL) (w : headWatcher) : headWatcher :=
  {| hw_networkID := hw_networkID w; hw_pool := p; hw_shared := hw_shared w; hw_cache := hw_cache w |}.
Definition hw_set_cache (c : Cache RX) (w : headWatcher) : headWatcher :=
  {| hw_networkID := hw_networkID w; hw_pool := hw_pool w; hw_shared := hw_shared w; hw_cache := Some c |}.

(** ** Handlers

    [now] is in nanoseconds; the slot clock counts seconds. *)

Definition recordHeadSeen (now : Z) (id data : string) (w : headWatcher) : headWatcher :=
  if String.eqb data "" then w
  else
    match json_head data with
    | None => w
    | Some payload =>
        match ParseUint (hp_Slot payload) with
        | None => w
        | Some slot =>
            if (slot =? 0) || String.eqb (hp_Block payload) "" then w
            else
              let p := update_upstream id (UpdateHeadBlock slot (hp_Block payload)) (hw_pool w) in
              let p := set_blockCache (AddBlock (now / Second) id slot (hp_Block payload) "" (p_blockCache p)) p in
              hw_set_pool (SyncCanonicalHead (hw_shared w) p).1 w
        end
    end.

Definition recordHeadPayloadStatus (id data : string) (w : headWatcher) : headWatcher :=
  match json_headV2 data with
  | None => w
  | Some payload =>
      if one_of (v2_Version payload) preGloasForks then w
      else
        let ev := default (v2_flat payload) (v2_Data payload) in
        if String.eqb (hv_Block ev) "" then w
        else if String.eqb (hv_PayloadStatus ev) "full" then
          hw_set_pool (update_upstream id (SetHeadPayloadStatus (hv_Block ev) true) (hw_pool w)) w
        else if String.eqb (hv_PayloadStatus ev) "empty" then
          hw_set_pool (update_upstream id (SetHeadPayloadStatus (hv_Block ev) false) (hw_pool w)) w
        else w
  end.

(** The second component is the list of keys handed to the warming goroutine. *)
Definition invalidateHeadCache (now : Z) (w : headWatcher) : headWatcher * list string :=
  match hw_cache w with
  | None => (w, [])
  | Some c =>
      let '(c, n, keys) := PurgeCollect now (λ key, ownsKey (hw_networkID w) key && isNamedHeadCacheKey key) c in
      (hw_set_cache c w, if n =? 0 then [] else keys)
  end.

Definition promotable (networkID : string) (epoch slotsPerEpoch : Z) (key : string) : bool :=
  if negb (ownsKey networkID key) then false
  else let path := cacheKeyPath key in
       negb (String.eqb path "") && isFinalizedPath path epoch slotsPerEpoch.

Definition handleFinalizedCheckpoint (now : Z) (data : string) (w : headWatcher) : headWatcher :=
  match json_epoch data with
  | None => w
  | Some text =>
      match ParseUint text with
      | None => w
      | Some epoch =>
          if epoch =? 0 then w
          else
            let '(p, epoch) := Pool_UpdateFinalizedEpoch (now / Second) epoch (hw_pool w) in
            let w := hw_set_pool p w in
            if epoch =? 0 then w
            else
              match hw_cache w with
              | None => w
              | Some c =>
                  hw_set_cache (Cache_PromoteIf now (promotable (hw_networkID w) epoch (SlotsPerEpoch p)) c).1 w
              end
      end
  end.

Definition orphanable (networkID : string) (reorgSlot : Z) (key : string) : bool :=
  if negb (ownsKey networkID key) then false
  else
    let path := cacheKeyPath key in
    if String.eqb path "" then false
    else if pathHasNamedSlotID path then true
    else match pathNumericSlot path with Some slot => reorgSlot <=? slot | None => false end.

Definition handleChainReorg (now : Z) (data : string) (w : headWatcher) : headWatcher :=
  match hw_cache w with
  | None => w
  | Some c =>
      match json_slot data with
      | None => w
      | Some text =>
          match ParseUint text with
          | None => w
          | Some reorgSlot =>
              if reorgSlot =? 0 then w
              else hw_set_cache (PurgeCollect now (orphanable (hw_networkID w) reorgSlot) c).1.1 w
          end
      end
  end.

Definition dispatchEvent (now : Z) (id : string) (isHead isHeadV2 isFinalized isReorg sawEventName : bool)
    (data : string) (w : headWatcher) : headWatcher * list string :=
  if isHeadV2 then (recordHeadPayloadStatus id data w, [])
  else if isHead || negb sawEventName then invalidateHeadCache now (recordHeadSeen now id data w)
  else if isFinalized then (handleFinalizedCheckpoint now data w, [])
  else if isReorg then (handleChainReorg now data w, [])
  else (w, []).

(** ** Event framing *)

Definition sseMaxEventBytes : Z := 4 * 2 ^ 20.

Record eventState := {
  ev_head : bool; ev_headV2 : bool; ev_finalized : bool; ev_reorg : bool;
  ev_sawName : bool; ev_sawData : bool; ev_payload : string;
}.

Definition ev_reset : eventState :=
  {| ev_head := false; ev_headV2 := false; ev_finalized := false; ev_reorg := false;
     ev_sawName := false; ev_sawData := false; ev_payload := "" |}.

Definition ev_dispatch (now : Z) (id : string) (ev : eventState) (w : headWatcher) : headWatcher * list string :=
  if ev_sawData ev then
    dispatchEvent now id (ev_head ev) (ev_headV2 ev) (ev_finalized ev) (ev_reorg ev) (ev_sawName ev) (ev_payload ev) w
  else (w, []).

Definition crlf : string := String (ascii_of_nat 13) (String (ascii_of_nat 10) "").

(** One non-empty line of the stream. *)
Definition watch_line (now : Z) (id line : string) (s : eventState * headWatcher)
    : eventState * headWatcher * list string :=
  let '(ev, w) := s in
  let line := TrimRight line crlf in
  if HasPrefix line "event:" then
    let name := TrimSpace (TrimPrefix line "event:") in
    ({| ev_head := EqualFold name "head"; ev_headV2 := EqualFold name "head_v2";
        ev_finalized := EqualFold name "finalized_checkpoint"; ev_reorg := EqualFold name "chain_reorg";
        ev_sawName := true; ev_sawData := ev_sawData ev; ev_payload := ev_payload ev |}, w, [])
  else if HasPrefix line "data:" then
    if ev_head ev || ev_headV2 ev || ev_finalized ev || ev_reorg ev || negb (ev_sawName ev) then
      let payload := TrimSpace (TrimPrefix line "data:") in
      ({| ev_head := ev_head ev; ev_headV2 := ev_headV2 ev; ev_finalized := ev_finalized ev;
          ev_reorg := ev_reorg ev; ev_sawName := ev_sawName ev; ev_sawData := true;
          ev_payload := if str_len (ev_payload ev) + str_len payload <=? sseMaxEventBytes
                        then ev_payload ev +:+ payload else ev_payload ev |}, w, [])
    else (ev, w, [])
  else if String.eqb line "" then
    let '(w, keys) := ev_dispatch now id ev w in (ev_reset, w, keys)
  else (ev, w, []).
End watcher.

(** ** Caching a response *)

Section permanence.
Context `{RL : RateLib} `{RX : RegexpLib} `{HJ : HeadJSON}.
Context (ParseFloat : string → option float64) (cfg : ChainConfig).

(** The end of a proxied GET: a successful response in the requested representation is stored
    with its lifetime.  [now] is in nanoseconds. *)
Definition cache_response (now : Z) (r : Request) (scope : string) (policyTTL status : Z) (hdr : Header)
    (body : string) (w : headWatcher) : headWatcher :=
  match hw_cache w with
  | None => w
  | Some c =>
      if (200 <=? status) && (status <? 300) &&
         representationMatches (acceptPrefersSSZ ParseFloat (Header_Get (req_Header r) "Accept")) hdr
      then
        let ttl := effectiveCacheTTL (hw_pool w) cfg (now / Second) policyTTL (url_Path (req_URL r)) in
        hw_set_cache (Cache_Set now (buildCacheKey ParseFloat (hw_networkID w) r scope) status hdr body ttl c) w
      else w
  end.

Inductive net_op :=
  | NStore (now : Z) (r : Request) (scope : string) (policyTTL status : Z) (hdr : Header) (body : string)
  | NGet (now : Z) (key : string)
  | NEvent (now : Z) (id : string) (isHead isHeadV2 isFinalized isReorg sawName : bool) (data : string).

Definition net_step (w : headWatcher) (op : net_op) : headWatcher :=
  match op with
  | NStore now r scope ttl status hdr body => cache_response now r scope ttl status hdr body w
  | NGet now key =>
      match hw_cache w with None => w | Some c => hw_set_cache (Cache_Get now key c).1 w end
  | NEvent now id h h2 f ro s data => (dispatchEvent now id h h2 f ro s data w).1
  end.

Definition net_run (w : headWatcher) (ops : list net_op) : headWatcher := foldl net_step w ops.

(** Requests whose key can be read back, under a policy that is not permanent itself. *)
Definition net_op_ok (op : net_op) : Prop :=
  match op with
  | NStore _ r scope ttl _ _ _ =>
      0 < ttl ∧ no_byte ":" (req_Method r) ∧ key_safe_path (url_EscapedPath (req_URL r)) ∧
      url_EscapedPath (req_URL r) = url_Path (req_URL r) ∧ Index scope ":accept=binary" = None
  | _ => True
  end.

Definition hw_entries (w : headWatcher) : list Entry :=
  match hw_cache w with Some c => ms_abs (c_store c) | None => [] end.

Definition hw_epoch (w : headWatcher) : Z := Pool_FinalizedEpoch (hw_pool w).
Definition hw_spe (w : headWatcher) : Z := SlotsPerEpoch (hw_pool w).

(** An entry that never expires holds finalized data. *)
Definition permanent_ok (w : headWatcher) (e : Entry) : Prop :=
  ownsKey (hw_networkID w) (e_key e) = true → e_expires e = None →
  isFinalizedPath (cacheKeyPath (e_key e)) (hw_epoch w) (hw_spe w) = true.

Record hw_inv (w : headWatcher) : Prop := {
  hi_rep : ∀ c, hw_cache w = Some c → ms_rep (c_store c);
  hi_perm : ∀ e, e ∈ hw_entries w → permanent_ok w e;
}.

(** What no operation changes, and the finalized epoch, which only grows. *)
Record hw_frame (w w' : headWatcher) : Prop := {
  hf_id : hw_networkID w' = hw_networkID w;
  hf_spe : hw_spe w' = hw_spe w;
  hf_epoch : hw_epoch w <= hw_epoch w';
}.

Lemma hw_frame_refl w : hw_frame w w.
Proof. by split. Qed.

Lemma Sync_frame b (p : Pool RL) :
  p_finalizedEpoch (SyncCanonicalHead b p).1 = p_finalizedEpoch p ∧
  SlotsPerEpoch (SyncCanonicalHead b p).1 = SlotsPerEpoch p.
Proof.
  unfold SyncCanonicalHead. destruct b; [|done]. cbn [negb].
  destruct (LocalCanonicalHead _) as [slot root]. destruct (_ || _); [done|]. by destruct (bool_decide _).
Qed.

Lemma recordHeadSeen_frame now id data w :
  hw_frame w (recordHeadSeen now id data w) ∧ hw_cache (recordHeadSeen now id data w) = hw_cache w ∧
  hw_epoch (recordHeadSeen now id data w) = hw_epoch w.
Proof.
  unfold recordHeadSeen. destruct (String.eqb data ""); [by split; [apply hw_frame_refl|]|].
  destruct (json_head data) as [pl|]; [|by split; [apply hw_frame_refl|]].
  destruct (ParseUint _) as [slot|]; [|by split; [apply hw_frame_refl|]].
  destruct (_ || _); [by split; [apply hw_frame_refl|]|]. cbv zeta.
  set (p := set_blockCache _ _). destruct (Sync_frame (hw_shared w) p) as [H1 H2].
  split; [|split; [done|exact H1]]. split; [done|exact H2|]. unfold hw_epoch. simpl. unfold Pool_FinalizedEpoch. rewrite H1. reflexivity.
Qed.

Lemma recordHeadPayloadStatus_frame id data w :
  hw_frame w (recordHeadPayloadStatus id data w) ∧ hw_cache (recordHeadPayloadStatus id data w) = hw_cache w ∧
  hw_epoch (recordHeadPayloadStatus id data w) = hw_epoch w.
Proof.
  unfold recordHeadPayloadStatus. cbv zeta.
  repeat match goal with
  | |- context [match ?x with Some _ => _ | None => _ end] => destruct x
  | |- context [if ?b then _ else _] => destruct b
  end; (split; [split; done || reflexivity|done]).
Qed.

Lemma UpdateFinalizedEpoch_frame now epoch (p : Pool RL) :
  let '(p', e) := Pool_UpdateFinalizedEpoch now epoch p in
  e = p_finalizedEpoch p' ∧ p_finalizedEpoch p <= e ∧ SlotsPerEpoch p' = SlotsPerEpoch p.
Proof.
  unfold Pool_UpdateFinalizedEpoch, cas_max. destruct (plausibleFinalizedEpoch _ _ _); [|split_and!; done || lia].
  destruct (Z.leb_spec epoch (p_finalizedEpoch p)); split_and!; simpl; done || lia.
Qed.

Lemma permanent_mono w w' e :
  hw_frame w w' → 0 <= hw_epoch w → 0 < hw_spe w → hw_epoch w' * hw_spe w' < u64_modulus →
  permanent_ok w e → permanent_ok w' e.
Proof.
  intros [H1 H2 H3] H0 Hs Hb H. unfold permanent_ok in *. rewrite H1, H2 in *. intros Ho He.
  apply (isFinalizedPath_mono _ (hw_epoch w)); [lia|done|done|by apply H].
Qed.

(** Operations that only shrink the cache keep the invariant. *)
Lemma hw_inv_sub w w' :
  hw_frame w w' → 0 <= hw_epoch w → 0 < hw_spe w → hw_epoch w' * hw_spe w' < u64_modulus →
  (∀ c, hw_cache w' = Some c → ms_rep (c_store c)) → (∀ e, e ∈ hw_entries w' → e ∈ hw_entries w) →
  hw_inv w → hw_inv w'.
Proof.
  intros Hf H0 Hs Hb Hr Hsub [_ Hp]. split; [done|]. intros e He.
  apply (permanent_mono w); [done..|]. by apply Hp, Hsub.
Qed.

Lemma hw_purge_sub now f w c :
  hw_cache w = Some c → hw_inv w →
  let w' := hw_set_cache (PurgeCollect now f c).1.1 w in
  hw_frame w w' ∧ (∀ c', hw_cache w' = Some c' → ms_rep (c_store c')) ∧
  (∀ e, e ∈ hw_entries w' → e ∈ hw_entries w ∧ f (e_key e) = false).
Proof.
  intros Hc [Hr _] w'. pose proof (PurgeCollect_run now f c (Hr c Hc)) as H.
  unfold w', hw_entries. rewrite Hc. destruct (PurgeCollect now f c) as [[c' n] ks].
  destruct H as (_ & _ & Ha & Hm). cbn [fst hw_set_cache hw_cache]. split_and!; [by split|by intros ? [= <-]|].
  rewrite Ha. intros e [He Hf%negb_true_iff]%elem_of_bfilter. by apply elem_of_bfilter in He as [He _].
Qed.

(** Promotion drops the expiry of finalized entries only. *)
Lemma hw_promote_inv now w c :
  hw_cache w = Some c → hw_inv w →
  hw_inv (hw_set_cache (Cache_PromoteIf now (promotable (hw_networkID w) (hw_epoch w) (hw_spe w)) c).1 w).
Proof.
  intros Hc [Hr Hp]. set (f := promotable _ _ _). pose proof (Cache_PromoteIf_run now f c (Hr c Hc)) as H.
  destruct (Cache_PromoteIf now f c) as [c' n]. destruct H as (Ha & _ & Hm). cbn [fst].
  split; [by intros ? [= <-]|]. unfold hw_entries. cbn [hw_set_cache hw_cache]. rewrite Ha.
  intros e' (e & -> & [He _]%elem_of_bfilter)%list_elem_of_fmap. unfold promote.
  assert (permanent_ok w e) as Hpe by (apply Hp; unfold hw_entries; by rewrite Hc).
  destruct (e_expires e) as [t|] eqn:Ee; [|exact Hpe]. destruct (f (e_key e)) eqn:Ef; [|exact Hpe].
  intros _ _. unfold f, promotable in Ef. destruct (negb _) in Ef; [done|]. by apply andb_true_iff in Ef as [_ Ef].
Qed.

Lemma hw_set_pool_frame w (p : Pool RL) :
  p_finalizedEpoch (hw_pool w) <= p_finalizedEpoch p → SlotsPerEpoch p = SlotsPerEpoch (hw_pool w) →
  hw_frame w (hw_set_pool p w).
Proof. by split. Qed.

(** ** Each operation *)

Lemma finalized_inv now data w :
  let w' := handleFinalizedCheckpoint now data w in
  hw_inv w → 0 <= hw_epoch w → 0 < hw_spe w →
  hw_frame w w' ∧ (hw_epoch w' * hw_spe w' < u64_modulus → hw_inv w').
Proof.
  intros w' Hi H0 Hs. unfold w', handleFinalizedCheckpoint.
  destruct (json_epoch data) as [text|]; [|by split; [apply hw_frame_refl|]].
  destruct (ParseUint text) as [epoch|]; [|by split; [apply hw_frame_refl|]].
  destruct (epoch =? 0); [by split; [apply hw_frame_refl|]|].
  pose proof (UpdateFinalizedEpoch_frame (now / Second) epoch (hw_pool w)) as H.
  destruct (Pool_UpdateFinalizedEpoch (now / Second) epoch (hw_pool w)) as [p e]. destruct H as (-> & Hle & Hspe).
  pose proof (hw_set_pool_frame w p Hle Hspe) as Hf. set (w1 := hw_set_pool p w) in *. cbv zeta.
  assert (hw_epoch w1 * hw_spe w1 < u64_modulus → hw_inv w1) as Hi1.
  { intros Hb. apply (hw_inv_sub w); [done..|apply Hi|done|done]. }
  destruct (p_finalizedEpoch p =? 0); [done|]. destruct (hw_cache w1) as [c|] eqn:Hc; [|done].
  split; [by destruct Hf; split|]. intros Hb. apply (hw_promote_inv now w1 c Hc). by apply Hi1.
Qed.

Lemma event_inv now id h h2 f ro s data w :
  let w' := (dispatchEvent now id h h2 f ro s data w).1 in
  hw_inv w → 0 <= hw_epoch w → 0 < hw_spe w →
  hw_frame w w' ∧ (hw_epoch w' * hw_spe w' < u64_modulus → hw_inv w').
Proof.
  intros w' Hi H0 Hs. unfold w', dispatchEvent. destruct h2.
  { destruct (recordHeadPayloadStatus_frame id data w) as (Hf & Hc & _). split; [done|]. intros Hb.
    apply (hw_inv_sub w); [done..| | |done]; unfold hw_entries; cbn [fst]; rewrite Hc; [apply Hi|done]. }
  destruct (h || negb s).
  { destruct (recordHeadSeen_frame now id data w) as (Hf & Hc & Hep). set (w1 := recordHeadSeen now id data w) in *.
    assert (hw_epoch w1 * hw_spe w1 < u64_modulus → hw_inv w1) as Hi1.
    { intros Hb. apply (hw_inv_sub w); [done..| | |done]; unfold hw_entries; rewrite Hc; [apply Hi|done]. }
    unfold invalidateHeadCache. destruct (hw_cache w1) as [c|] eqn:Hc1; [|done].
    set (g := λ key, _). destruct (PurgeCollect now g c) as [[c' n] ks] eqn:Ep. cbn [fst].
    split; [by destruct Hf; split|]. intros Hb. change (hw_epoch w1 * hw_spe w1 < u64_modulus) in Hb.
    destruct (hw_purge_sub now g w1 c Hc1 (Hi1 Hb)) as (Hf2 & Hr2 & Hsub). rewrite Ep in *. cbn [fst] in *.
    assert (0 <= hw_epoch w1) by lia. assert (0 < hw_spe w1) by (rewrite (hf_spe _ _ Hf); done).
    apply (hw_inv_sub w1); [done..| |by apply Hi1]. intros e He. by apply Hsub. }
  destruct f; [by apply finalized_inv|]. destruct ro; [|by split; [apply hw_frame_refl|]]. cbn [fst].
  unfold handleChainReorg. destruct (hw_cache w) as [c|] eqn:Hc; [|by split; [apply hw_frame_refl|]].
  destruct (json_slot data) as [text|]; [|by split; [apply hw_frame_refl|]].
  destruct (ParseUint text) as [slot|]; [|by split; [apply hw_frame_refl|]].
  destruct (slot =? 0); [by split; [apply hw_frame_refl|]|].
  destruct (hw_purge_sub now (orphanable (hw_networkID w) slot) w c Hc Hi) as (Hf & Hr & Hsub).
  split; [done|]. intros Hb. apply (hw_inv_sub w); [done..| |done]. intros e He. by apply Hsub.
Qed.

Lemma slot_remaining_pos c now : Second <= slot_remaining c now.
Proof. unfold slot_remaining. cbv zeta. set (x := wrap_i64 _). destruct (Z.ltb_spec x Second); lia. Qed.

(** Only finalized data gets an unlimited lifetime from a limited policy. *)
Lemma effectiveCacheTTL_zero (p : Pool RL) now ttl path :
  0 < ttl → effectiveCacheTTL p cfg now ttl path <= 0 →
  isFinalizedPath path (Pool_FinalizedEpoch p) (SlotsPerEpoch p) = true.
Proof.
  intros Ht. unfold effectiveCacheTTL. destruct (isFinalizedPath _ _ _); [done|].
  pose proof (slot_remaining_pos cfg now) as Hr. assert (0 < Second) by done.
  destruct (_ && _); [destruct (_ <? _)|]; lia.
Qed.

Lemma isFinalizedPath_or_slash p E spe : isFinalizedPath (or_slash p) E spe = isFinalizedPath p E spe.
Proof. unfold or_slash. by destruct (String.eqb_spec p "") as [->|]. Qed.

Lemma store_inv now r scope ttl status hdr body w :
  no_byte ":" (hw_networkID w) → net_op_ok (NStore now r scope ttl status hdr body) → hw_inv w →
  let w' := cache_response now r scope ttl status hdr body w in hw_frame w w' ∧ hw_inv w'.
Proof.
  intros Hid (Ht & Hm & Hs & Hesc & Hsc) Hi w'. unfold w', cache_response.
  destruct (hw_cache w) as [c|] eqn:Hc; [|by split; [apply hw_frame_refl|]].
  destruct (_ && _); [|by split; [apply hw_frame_refl|]]. cbv zeta. split; [by split|].
  set (lifetime := effectiveCacheTTL _ _ _ _ _). set (key := buildCacheKey _ _ _ _).
  destruct (Cache_Set_sub now key status hdr body lifetime c (hi_rep _ Hi c Hc)) as [Hr Hsub].
  split; [intros ? [= <-]; exact Hr|]. unfold hw_entries. cbn [hw_set_cache hw_cache].
  intros e [->|He]%Hsub.
  - intros _. simpl e_expires. simpl e_key. destruct (Z.ltb_spec 0 lifetime); [done|]. intros _.
    unfold cacheKeyPath, key. rewrite parseCacheKey_ok by done. cbn [ck_path].
    rewrite isFinalizedPath_or_slash, Hesc. by apply (effectiveCacheTTL_zero _ (now / Second) ttl).
  - apply (hi_perm _ Hi). unfold hw_entries. by rewrite Hc.
Qed.

Lemma net_step_inv op w :
  no_byte ":" (hw_networkID w) → net_op_ok op → hw_inv w → 0 <= hw_epoch w → 0 < hw_spe w →
  hw_frame w (net_step w op) ∧
  (hw_epoch (net_step w op) * hw_spe (net_step w op) < u64_modulus → hw_inv (net_step w op)).
Proof.
  intros Hid Hok Hi H0 Hs. destruct op as [now r scope ttl status hdr body|now key|now id h h2 f ro s data].
  - destruct (store_inv now r scope ttl status hdr body w Hid Hok Hi) as [? ?]. by split.
  - cbn [net_step]. destruct (hw_cache w) as [c|] eqn:Hc; [|by split; [apply hw_frame_refl|]].
    destruct (Cache_Get_sub now key c (hi_rep _ Hi c Hc)) as [Hr Hsub]. split; [by split|]. intros Hb.
    apply (hw_inv_sub w); [by split|done..| | |done]; cbn [hw_set_cache hw_cache]; [by intros ? [= <-]|].
    unfold hw_entries. cbn [hw_set_cache hw_cache]. rewrite Hc. apply Hsub.
  - by apply event_inv.
Qed.

(** No operation lowers the finalized epoch, whatever the state. *)
Lemma net_step_frame op w : hw_frame w (net_step w op).
Proof.
  destruct op as [now r scope ttl status hdr body|now key|now id h h2 f ro s data]; cbn [net_step].
  - unfold cache_response. destruct (hw_cache w); [|apply hw_frame_refl]. by destruct (_ && _).
  - by destruct (hw_cache w).
  - unfold dispatchEvent. destruct h2; [apply recordHeadPayloadStatus_frame|].
    destruct (h || negb s).
    + destruct (recordHeadSeen_frame now id data w) as (Hf & _ & _). unfold invalidateHeadCache.
      destruct (hw_cache _); [|done]. destruct (PurgeCollect _ _ _) as [[? ?] ?]. by destruct Hf; split.
    + destruct f; [|destruct ro; [|apply hw_frame_refl]]; cbn [fst].
      * unfold handleFinalizedCheckpoint. destruct (json_epoch data); [|apply hw_frame_refl].
        destruct (ParseUint _) as [epoch|]; [|apply hw_frame_refl]. destruct (epoch =? 0); [apply hw_frame_refl|].
        pose proof (UpdateFinalizedEpoch_frame (now / Second) epoch (hw_pool w)) as H.
        destruct (Pool_UpdateFinalizedEpoch (now / Second) epoch (hw_pool w)) as [p e]. destruct H as (-> & Hle & Hspe).
        cbv zeta. destruct (p_finalizedEpoch p =? 0); [by split|]. by destruct (hw_cache _); split.
      * unfold handleChainReorg. destruct (hw_cache w); [|apply hw_frame_refl].
        destruct (json_slot data); [|apply hw_frame_refl].
        destruct (ParseUint _) as [slot|]; [|apply hw_frame_refl]. by destruct (slot =? 0).
Qed.

Lemma net_run_frame ops w : hw_frame w (net_run w ops).
Proof.
  revert w. induction ops as [|op ops IH]; intros w; [apply hw_frame_refl|].
  destruct (net_step_frame op w) as [H1 H2 H3], (IH (net_step w op)) as [H4 H5 H6].
  unfold net_run in *. cbn [foldl]. split; [congruence|congruence|lia].
Qed.

End permanence.

(** ** Reorganisations *)

Section reorg.
Context `{RL : RateLib} `{RX : RegexpLib} `{HJ : HeadJSON}.

End reorg.

(** ** Witnesses *)

(** Payloads written as bare values, enough to run the handlers. *)
#[local] Instance ToyJSON : HeadJSON := {|
  json_head := λ d, match CutByte "," d with
                    | Some (s, b) => Some {| hp_Slot := s; hp_Block := b |}
                    | None => None
                    end;
  json_headV2 := λ _, None;
  json_epoch := Some;
  json_slot := Some;
|}.

Definition demo_watcher : headWatcher (RX := MiniRegexp) :=
  {| hw_networkID := "mainnet"; hw_pool := demo_pool (NewBlockCache 64 2); hw_shared := false;
     hw_cache := Some {| c_store := NewMemoryStore 100; c_policies := [] |} |}.

Definition demo_cfg : ChainConfig := {| ch_GenesisTime := 0; ch_SecondsPerSlot := 12 |}.

Definition demo_store (now : Z) (path : string) : net_op :=
  NStore now (demo_request path "" "") "" (12 * Second) 200 ∅ "{}".

(** Two blocks and a state are cached, then epoch 200 is reported final and slot 7000 is
    reorganised. *)
Definition demo_ops : list net_op :=
  [demo_store 10 "/eth/v2/beacon/blocks/6400"; demo_store 20 "/eth/v2/beacon/blocks/7000";
   demo_store 30 "/eth/v1/beacon/headers/head";
   NEvent 40 "a" false false true false true "200"; NEvent 50 "a" false false false true true "7000"].

Definition demo_after : headWatcher := net_run toy_ParseFloat demo_cfg demo_watcher demo_ops.

Lemma demo_watcher_inv : hw_inv demo_watcher.
Proof.
  split; [intros c [= <-]; apply NewMemoryStore_rep|]. intros e He. by apply not_elem_of_nil in He.
Qed.

Example demo_after_entries :
  (λ e, (e_key e, e_expires e)) <$> hw_entries demo_after = [("mainnet:GET:/eth/v2/beacon/blocks/6400", None)].
Proof. vm_compute. reflexivity. Qed.

Lemma demo_ops_ok : Forall net_op_ok demo_ops.
Proof.
  unfold demo_ops. repeat (constructor; [vm_compute; repeat split; reflexivity|]). constructor.
Qed.



(** The handlers read the escaped path out of the key while lifetimes and policies are decided
    on the decoded path: a request that spells the slot with a percent escape is cached as slot
    7000 and survives a reorg at slot 7000. *)
Lemma reorg_misses_escaped_path :
  let r := {| req_Method := "GET"; req_Header := ∅;
              req_URL := {| url_Path := "/eth/v2/beacon/blocks/7000";
                            url_EscapedPath := "/eth/v2/beacon/blocks/%37000"; url_RawQuery := "" |} |} in
  pathNumericSlot (url_Path (req_URL r)) = Some 7000 ∧
  orphanable "mainnet" 7000 (buildCacheKey toy_ParseFloat "mainnet" r "") = false.
Proof. vm_compute. done. Qed.
