(* ===== verification/Consensus.v ===== *)
(** * Consensus reads

    [network/consensus.go]: a request is sent to several upstreams and answered with the response
    of the largest agreeing group.  Each participant is a function of its upstream and of what the
    network did ([participant_io]); participants touch different upstreams, so their
    interleaving does not matter.  SHA-256 is an argument. *)

From S2P Require Import Prelude GoStrings GoFloat Config CircuitBreaker ScoreTracker AutoTuner BlockCache Upstream MemoryStore.
#[local] Open Scope string_scope.
#[local] Open Scope Z_scope.

Record ConsensusPolicy := { cp_MaxParticipants : Z; cp_AgreementThreshold : Z; cp_MaxBodyBytes : Z }.

Definition NewConsensusPolicy (cfg : option ConsensusConfig) : option ConsensusPolicy :=
  match cfg with
  | None => None
  | Some c =>
      if negb (cs_Enabled c) then None
      else Some {| cp_MaxParticipants := if cs_MaxParticipants c <=? 0 then 3 else cs_MaxParticipants c;
                   cp_AgreementThreshold := if cs_AgreementThreshold c <=? 0 then 2 else cs_AgreementThreshold c;
                   cp_MaxBodyBytes := 0 |}
  end.

(** [readBodyCapped] of a body that delivers [content] and then ends, or fails ([err]). *)
Definition readBodyCapped (limit : Z) (content : string) (err : bool) : option string :=
  if limit <=? 0 then (if err then None else Some content)
  else if limit <? str_len content then None
  else if err then None else Some content.

Inductive part_error := EBuild | EGated | ETransport | ERead.

#[global] Instance part_error_eq_dec : EqDecision part_error.
Proof. solve_decision. Defined.

Record consensusResult := {
  cr_body : string;
  cr_status : Z;
  cr_headers : Header;
  cr_upstream : string;
  cr_err : option part_error;
}.

Definition err_result (id : string) (e : part_error) : consensusResult :=
  {| cr_body := ""; cr_status := 0; cr_headers := ∅; cr_upstream := id; cr_err := Some e |}.

Definition is_ok (r : consensusResult) : bool := match cr_err r with None => true | Some _ => false end.

(** What happens on the network for one participant. *)
Inductive participant_io :=
  | IOBuildErr
  | IOTransportErr (clientCancel : bool)
  | IOResponse (status : Z) (headers : Header) (content : string) (readErr : bool).

Section participants.
Context `{RL : RateLib}.

Definition settleTokenForStatus (tok : CBToken) (status now : Z) : Upstream RL → Upstream RL :=
  Upstream_settle tok (if 500 <=? status then cbSettleFailure else cbSettleSuccess) now.

(** The body of a participant's goroutine, its deferred [tok.Release()] included. *)
Definition participant (now maxBody : Z) (io : participant_io) (u : Upstream RL)
    : Upstream RL * consensusResult :=
  let id := u_ID u in
  let failed tok (cancel : bool) u e :=
    let u := if cancel then u else Upstream_settle tok cbSettleFailure now u in
    (Upstream_settle tok cbSettleRelease now u, err_result id e) in
  match io with
  | IOBuildErr => (u, err_result id EBuild)
  | IOTransportErr cancel =>
      let '(u, res, tok) := Upstream_Do now (TransportErr "transport") u in
      let gated := match res with DoRefused => true | _ => false end in
      failed tok (cancel && negb gated) u (if gated then EGated else ETransport)
  | IOResponse status headers content readErr =>
      let '(u, res, tok) := Upstream_Do now (TransportResp status true) u in
      match res with
      | DoResp status tracked =>
          let body := readBodyCapped maxBody content readErr in
          let u := (trackedBody_Close false u).1 in
          let u := RecordResponseStatus now status u in
          match body with
          | None => failed tok false u ERead
          | Some body =>
              let u := settleTokenForStatus tok status now u in
              (Upstream_settle tok cbSettleRelease now u,
               {| cr_body := body; cr_status := status; cr_headers := headers; cr_upstream := id; cr_err := None |})
          end
      | _ => failed tok false u EGated
      end
  end.
End participants.

(** ** The vote *)

Section vote.
Context (sha : string → string).

Definition bodyKey (r : consensusResult) : Z * string := (cr_status r, sha (cr_body r)).

Definition vote_counts (results : list consensusResult) : gmap (Z * string) Z :=
  foldl (λ m r, if is_ok r then <[bodyKey r := default 0 (m !! bodyKey r) + 1]> m else m) ∅ results.

(** The zero value [best] starts from. *)
Definition zero_result : consensusResult :=
  {| cr_body := ""; cr_status := 0; cr_headers := ∅; cr_upstream := ""; cr_err := None |}.

(** The first result of the largest group. *)
Definition best_result (results : list consensusResult) : consensusResult * Z :=
  let counts := vote_counts results in
  foldl (λ '(best, bestCount) r,
           if is_ok r then
             let n := default 0 (counts !! bodyKey r) in
             if bestCount <? n then (r, n) else (best, bestCount)
           else (best, bestCount)) (zero_result, 0) results.

Inductive consensus_error :=
  | ENoUpstreams
  | EUnavailable (gated n need : Z)
  | ENotReached (n need : Z).

Definition is_gated (r : consensusResult) : bool := bool_decide (cr_err r = Some EGated).

Definition decide_consensus (cp : ConsensusPolicy) (results : list consensusResult)
    : consensus_error + consensusResult :=
  let n := Z.of_nat (length results) in
  let '(best, bestCount) := best_result results in
  if cp_AgreementThreshold cp <=? bestCount then inr best
  else
    let gated := Z.of_nat (length (bfilter is_gated results)) in
    if (0 <? gated) && (n - gated <? cp_AgreementThreshold cp)
    then inl (EUnavailable gated n (cp_AgreementThreshold cp))
    else inl (ENotReached n (cp_AgreementThreshold cp)).

Definition Consensus_Execute `{RL : RateLib} (now : Z) (cp : ConsensusPolicy) (upstreams : list (Upstream RL))
    (ios : list participant_io) : list (Upstream RL) * (consensus_error + consensusResult) :=
  let n := Z.to_nat (Z.min (cp_MaxParticipants cp) (Z.of_nat (length upstreams))) in
  if (n =? 0)%nat then (upstreams, inl ENoUpstreams)
  else
    let ran := zip_with (λ u io, participant now (cp_MaxBodyBytes cp) io u) (take n upstreams) (take n ios) in
    (ran.*1 ++ drop n upstreams, decide_consensus cp ran.*2)%list.
End vote.

(** ** Agreement *)

(** The participants that answered with this status and body. *)
Definition agreeing (status : Z) (body : string) (results : list consensusResult) : Z :=
  Z.of_nat (length (bfilter (λ r, is_ok r && (cr_status r =? status) && String.eqb (cr_body r) body) results)).

(** No two answers of the round collide. *)
Definition no_collision (sha : string → string) (results : list consensusResult) : Prop :=
  ∀ r r', r ∈ results → r' ∈ results → sha (cr_body r) = sha (cr_body r') → cr_body r = cr_body r'.

Lemma vote_counts_spec sha results k :
  default 0 (vote_counts sha results !! k) =
  Z.of_nat (length (bfilter (λ r, is_ok r && bool_decide (bodyKey sha r = k)) results)).
Proof.
  unfold vote_counts. induction results as [|r results IH] using rev_ind; [done|].
  rewrite foldl_app, bfilter_app, length_app. cbn [foldl bfilter].
  destruct (is_ok r); cbn [andb length]; [|rewrite IH; lia].
  destruct (decide (bodyKey sha r = k)) as [<-|Hne].
  - rewrite lookup_insert_eq. cbn [from_option id]. rewrite IH, bool_decide_true by done. cbn [length]. lia.
  - rewrite lookup_insert_ne by done. rewrite IH, bool_decide_false by done. cbn [length]. lia.
Qed.

Lemma votes_agreeing sha results r :
  no_collision sha results → r ∈ results →
  default 0 (vote_counts sha results !! bodyKey sha r) = agreeing (cr_status r) (cr_body r) results.
Proof.
  intros Hc Hr. rewrite vote_counts_spec. unfold agreeing. do 2 f_equal. apply bfilter_ext. intros r' Hr'.
  destruct (is_ok r'); [|done]. cbn [andb]. apply eq_true_iff_eq.
  rewrite bool_decide_eq_true, andb_true_iff, Z.eqb_eq, String.eqb_eq. unfold bodyKey. split.
  - intros [= -> Hs]. split; [done|]. by apply Hc.
  - intros [-> ->]. done.
Qed.

Lemma best_result_spec sha results :
  let '(best, n) := best_result sha results in
  0 <= n ∧
  (∀ r, r ∈ results → is_ok r = true → default 0 (vote_counts sha results !! bodyKey sha r) <= n) ∧
  (0 < n → ∃ l k, results = (l ++ best :: k)%list ∧ is_ok best = true ∧
     n = default 0 (vote_counts sha results !! bodyKey sha best) ∧
     ∀ r, r ∈ l → is_ok r = true → default 0 (vote_counts sha results !! bodyKey sha r) < n).
Proof.
  unfold best_result. cbv zeta. generalize (vote_counts sha results) as counts. intros counts.
  induction results as [|r results IH] using rev_ind.
  - cbn. split_and!; [lia|by intros r ?%not_elem_of_nil|lia].
  - rewrite foldl_app. cbn [foldl]. destruct (foldl _ _ results) as [best n]. destruct IH as (H0 & H1 & H2).
    assert (0 < n → ∃ l k, (results ++ [r])%list = (l ++ best :: k)%list ∧ is_ok best = true ∧
      n = default 0 (counts !! bodyKey sha best) ∧
      ∀ r, r ∈ l → is_ok r = true → default 0 (counts !! bodyKey sha r) < n) as H2'.
    { intros Hn. destruct (H2 Hn) as (l & k & -> & Hb). exists l, (k ++ [r])%list. by rewrite <- app_assoc. }
    destruct (is_ok r) eqn:Er; [destruct (Z.ltb_spec n (default 0 (counts !! bodyKey sha r)))|].
    + split_and!; [lia| |].
      * intros r' [Hr'|Hr'%list_elem_of_singleton]%elem_of_app Hok; [specialize (H1 r' Hr' Hok)|subst r']; lia.
      * intros _. exists results, []. split_and!; try done. intros r' Hr' Hok. specialize (H1 r' Hr' Hok). lia.
    + split_and!; [done| |done].
      intros r' [Hr'|Hr'%list_elem_of_singleton]%elem_of_app Hok; [by apply H1|subst r'; lia].
    + split_and!; [done| |done].
      intros r' [Hr'|Hr'%list_elem_of_singleton]%elem_of_app Hok; [by apply H1|congruence].
Qed.

(** C21: a consensus read answers exactly when some status and body was returned by at least
    [AgreementThreshold] participants; the answer is then the first response of the largest
    agreeing group, and a failed round means that no group was large enough. *)
Theorem consensus_agreement sha cp results :
  no_collision sha results → 0 < cp_AgreementThreshold cp →
  match decide_consensus sha cp results with
  | inr best =>
      cp_AgreementThreshold cp <= agreeing (cr_status best) (cr_body best) results ∧
      (∀ s b, agreeing s b results <= agreeing (cr_status best) (cr_body best) results) ∧
      ∃ l k, results = (l ++ best :: k)%list ∧ is_ok best = true ∧
        ∀ r, r ∈ l → is_ok r = true →
          agreeing (cr_status r) (cr_body r) results < agreeing (cr_status best) (cr_body best) results
  | inl _ => ∀ s b, agreeing s b results < cp_AgreementThreshold cp
  end.
Proof.
  intros Hc Ht. unfold decide_consensus. pose proof (best_result_spec sha results) as H.
  destruct (best_result sha results) as [best n]. destruct H as (H0 & H1 & H2).
  assert (∀ s b, agreeing s b results <= n) as Hall.
  { intros s b. destruct (decide (agreeing s b results = 0)) as [->|Hne]; [done|].
    assert (∃ r, r ∈ bfilter (λ r, is_ok r && (cr_status r =? s) && String.eqb (cr_body r) b) results) as [r Hr].
    { unfold agreeing in Hne. destruct (bfilter _ results) as [|r l]; [done|]. exists r. by left. }
    apply elem_of_bfilter in Hr as [Hr Hk]. b2p. subst. rewrite <- (votes_agreeing sha results r Hc Hr). by apply H1. }
  destruct (Z.leb_spec (cp_AgreementThreshold cp) n).
  - destruct (H2 ltac:(lia)) as (l & k & Hres & Hok & Hn & Hl).
    assert (best ∈ results) as Hb by (rewrite Hres; set_solver). rewrite (votes_agreeing _ _ _ Hc Hb) in Hn.
    rewrite <- Hn. split_and!; [done|done|]. exists l, k. split_and!; [done..|].
    intros r Hr Hok'. rewrite <- (votes_agreeing sha results r Hc); [by apply Hl|]. rewrite Hres. set_solver.
  - destruct (_ && _); intros s b; specialize (Hall s b); lia.
Qed.

(** ** Participants *)

Lemma settle_keeps_free t o now c : cbProbeInFlight c = false → cbProbeInFlight (settle t o now c) = false.
Proof.
  intros Hc. unfold settle. destruct (tok_u t); [|done]. destruct (tok_probe t); [by rewrite Hc|].
  destruct (_ || _); [done|].
  destruct o; [done| |done]. unfold cbRecordFailureLocked, cbOpenLocked, cbTransitionLocked.
  destruct (_ <=? _); [|done]. by destruct (decide _).
Qed.

(** Settling the token of an admission frees the probe it may hold. *)
Lemma settle_frees uid o now now' c :
  cbProbeInFlight c = false →
  let '(c1, tok, _) := CBTryAcquire uid now c in cbProbeInFlight (settle tok o now' c1) = false.
Proof.
  intros Hc. unfold CBTryAcquire.
  assert (∀ c0, let '(c1, tok) := cbGrantProbeLocked uid c0 in cbProbeInFlight (settle tok o now' c1) = false) as Hg.
  { intros c0. unfold cbGrantProbeLocked, settle. cbv zeta.
    cbn [tok_u tok_probe tok_gen cbProbeInFlight cbProbeGen set_cbProbe negb orb]. rewrite Z.eqb_refl. cbn [negb].
    unfold settle_probe. destruct o; [|unfold cbFailAndOpenLocked, cbOpenLocked|done];
      unfold cbTransitionLocked; repeat case_match; done. }
  destruct (cbState c); [by apply settle_keeps_free| |].
  - destruct (cbWindowElapsed now c); [apply Hg|by apply settle_keeps_free].
  - rewrite Hc. apply Hg.
Qed.

(** A breaker whose probe is free admits the request. *)
Lemma acquire_free uid now c : cbProbeInFlight c = false → (CBTryAcquire uid now c).2 = true.
Proof.
  intros Hc. unfold CBTryAcquire, cbGrantProbeLocked. rewrite Hc.
  destruct (cbState c); [done| |done]. by destruct (cbWindowElapsed now c).
Qed.

Section no_leak.
Context `{RL : RateLib}.

(** A consensus participant gives back everything it takes, whatever the network does: a
    recovery probe that was free before is free afterwards, and the upstream's active-request
    counter returns to its value. *)
Theorem participant_no_leak now maxBody io (u : Upstream RL) :
  0 <= u_activeConns u < 2 ^ 63 - 1 → cbProbeInFlight (u_cb u) = false →
  let u' := (participant now maxBody io u).1 in
  cbProbeInFlight (u_cb u') = false ∧ u_activeConns u' = u_activeConns u.
Proof.
  intros Ha Hp u'. unfold u', participant. cbv zeta.
  pose proof (settle_frees (u_ID u) cbSettleFailure now now (u_cb u) Hp) as HF.
  pose proof (settle_frees (u_ID u) cbSettleSuccess now now (u_cb u) Hp) as HS.
  pose proof (settle_frees (u_ID u) cbSettleRelease now now (u_cb u) Hp) as HR.
  assert (wrap_i64 (wrap_i64 (u_activeConns u + 1) - 1) = u_activeConns u) as Hw
    by (rewrite !wrap_i64_small; lia || (rewrite wrap_i64_small; lia)).
  pose proof (acquire_free (u_ID u) now (u_cb u) Hp) as Hok.
  unfold Upstream_Do. destruct (CBTryAcquire (u_ID u) now (u_cb u)) as [[c tok] ok]. cbn [snd] in Hok. subst ok.
  destruct io as [|cancel|status headers content readErr]; [done| |]; cbn [negb].
  - destruct cancel; cbn [andb negb fst]; (split; [|exact Hw]); [exact HR|apply settle_keeps_free; exact HF].
  - cbn [TrackResponse]. destruct (readBodyCapped maxBody content readErr); cbn [fst]; (split; [|exact Hw]).
    + unfold settleTokenForStatus. destruct (500 <=? status); apply settle_keeps_free; [exact HF|exact HS].
    + apply settle_keeps_free. exact HF.
Qed.
End no_leak.

(** ** Witnesses *)

Definition demo_ok (id body : string) : consensusResult :=
  {| cr_body := body; cr_status := 200; cr_headers := ∅; cr_upstream := id; cr_err := None |}.

Lemma consensus_agreement_witness :
  let results := [demo_ok "a" "x"; demo_ok "b" "y"; demo_ok "c" "y"; err_result "d" ETransport] in
  let cp := {| cp_MaxParticipants := 4; cp_AgreementThreshold := 2; cp_MaxBodyBytes := 0 |} in
  decide_consensus id cp results = inr (demo_ok "b" "y") ∧ 2 <= agreeing 200 "y" results.
Proof.
  split; [vm_compute; reflexivity|].
  exact (proj1 (consensus_agreement id {| cp_MaxParticipants := 4; cp_AgreementThreshold := 2; cp_MaxBodyBytes := 0 |}
    [demo_ok "a" "x"; demo_ok "b" "y"; demo_ok "c" "y"; err_result "d" ETransport] (λ _ _ _ _ H, H) eq_refl)).
Defined.

(** The answer of an admitted participant fails to read. *)
Lemma participant_no_leak_witness :
  cbProbeInFlight (u_cb (participant 5 0 (IOResponse 200 ∅ "x" true)
    (Upstream_New 0 "mainnet" demo_upstream_cfg None 2 : Upstream ToyRate)).1) = false.
Proof.
  refine (proj1 (participant_no_leak 5 0 (IOResponse 200 ∅ "x" true)
    (Upstream_New 0 "mainnet" demo_upstream_cfg None 2 : Upstream ToyRate) _ _)).
  - split; vm_compute; congruence.
  - reflexivity.
Defined.
