(* ===== verification/Session.v ===== *)
(** * Client sessions

    [network/session.go]: the address a request is attributed to, the per-address sessions with
    their rate limiters, and the rebalancing of sticky sessions.  [NetLib] is [net] and
    [net/netip] as the code uses them; a map is iterated in an arbitrary order, which is an
    argument. *)

From S2P Require Import Prelude GoStrings GoFloat Config ScoreTracker AutoTuner BlockCache Upstream Selector Pool MemoryStore Url CacheKey.
From Stdlib Require Import Ascii.
#[local] Open Scope string_scope.
#[local] Open Scope Z_scope.

(** ** Addresses *)

Class NetLib := {
  Addr : Type;
  Prefix : Type;
  ParseAddr : string → option Addr;
  ParsePrefix : string → option Prefix;
  Addr_Unmap : Addr → Addr;
  Prefix_Masked : Prefix → Prefix;
  PrefixOfAddr : Addr → Prefix; (* [netip.PrefixFrom(a, a.BitLen())] *)
  Prefix_Contains : Prefix → Addr → bool;
  SplitHostPort : string → option string; (* the host *)
}.

Section client_ip.
Context `{NL : NetLib}.

(** [SetTrustedProxies]: [None] is an error, [Some None] the legacy behaviour. *)
Definition parse_trusted (c : string) : option Prefix :=
  let c := TrimSpace c in
  match ParsePrefix c with
  | Some p => Some (Prefix_Masked p)
  | None => match ParseAddr c with Some a => Some (PrefixOfAddr a) | None => None end
  end.

Definition SetTrustedProxies (cidrs : list string) : option (option (list Prefix)) :=
  match cidrs with
  | [] => Some None
  | _ => match mapM parse_trusted cidrs with Some l => Some (Some l) | None => None end
  end.

Definition isTrustedProxyAddr (prefixes : list Prefix) (ip : string) : bool :=
  match ParseAddr ip with
  | None => false
  | Some a => let a := Addr_Unmap a in existsb (λ p, Prefix_Contains p a) prefixes
  end.

Definition remoteAddrHost (remoteAddr : string) : string :=
  match SplitHostPort remoteAddr with Some ip => ip | None => remoteAddr end.

(** The loop from the last entry: the first one that is neither empty nor trusted. *)
Definition xff_walk (prefixes : list Prefix) (parts : list string) : option string :=
  find_first (λ e, negb (String.eqb e "") && negb (isTrustedProxyAddr prefixes e)) (TrimSpace <$> rev parts).

Definition ClientIP (trusted : option (list Prefix)) (h : Header) (remoteAddr : string) : string :=
  let xff := Header_Get h "X-Forwarded-For" in
  match trusted with
  | None =>
      if negb (String.eqb xff "") then
        match CutByte "," xff with Some (a, _) => TrimSpace a | None => TrimSpace xff end
      else
        let xri := Header_Get h "X-Real-Ip" in
        if negb (String.eqb xri "") then TrimSpace xri else remoteAddrHost remoteAddr
  | Some prefixes =>
      let peer := remoteAddrHost remoteAddr in
      let from_real_ip :=
        let xri := TrimSpace (Header_Get h "X-Real-Ip") in
        if negb (String.eqb xri "") then xri else peer in
      if negb (isTrustedProxyAddr prefixes peer) then peer
      else if negb (String.eqb xff "") then
        let parts := Split xff "," in
        match xff_walk prefixes parts with
        | Some entry => entry
        | None =>
            let first := TrimSpace (hd "" parts) in
            if negb (String.eqb first "") then first else from_real_ip
        end
      else from_real_ip
  end.

(** The header with this [X-Forwarded-For] value. *)
Definition with_xff (xff : string) (h : Header) : Header := <["X-Forwarded-For" := [xff]]> h.

Lemma Header_Get_xff xff h : Header_Get (with_xff xff h) "X-Forwarded-For" = xff.
Proof. unfold Header_Get, with_xff. by rewrite lookup_insert_eq. Qed.

Lemma Split_comma_app a b : Split (a +:+ "," +:+ b) "," = (Split a "," ++ Split b ",")%list.
Proof.
  induction a as [|c a IH]; [done|]. rewrite str_app_cons. cbn [Split]. rewrite IH.
  destruct (Ascii.eqb c ","); [done|]. destruct (Split a ",") as [|x l] eqn:E; [by apply Split_nonempty in E|done].
Qed.

Lemma find_first_app {A} (f : A → bool) l k :
  find_first f (l ++ k) = match find_first f l with Some x => Some x | None => find_first f k end.
Proof. induction l as [|x l IH]; [done|]. cbn. by destruct (f x). Qed.

End client_ip.

(** ** Sessions *)

Section sessions.
Context `{RL : RateLib}.

Record Session := {
  s_ip : string;
  s_limiter : option limiter;
  s_stickyID : string;
  s_lastSeen : Z;
}.

Definition Session_Allow (now : Z) (s : Session) : Session * bool :=
  match s_limiter s with
  | None => (s, true)
  | Some l =>
      let '(ok, l) := lim_Allow l now in
      ({| s_ip := s_ip s; s_limiter := Some l; s_stickyID := s_stickyID s; s_lastSeen := s_lastSeen s |}, ok)
  end.

Definition StickyUpstream (s : Session) : string := s_stickyID s.

Definition SetSticky (id : string) (s : Session) : Session :=
  {| s_ip := s_ip s; s_limiter := s_limiter s; s_stickyID := id; s_lastSeen := s_lastSeen s |}.

Definition touch (now : Z) (s : Session) : Session :=
  {| s_ip := s_ip s; s_limiter := s_limiter s; s_stickyID := s_stickyID s; s_lastSeen := now |}.

(** [sm_lim] is [None] for [rate.Inf]. *)
Record SessionManager := {
  sm_byIP : gmap string Session;
  sm_lim : option float64;
  sm_burst : Z;
  sm_timeout : Z;
}.

Definition newSessionManager (ratePerSec : float64) (burst sessionTimeout : Z) : SessionManager :=
  {| sm_byIP := ∅; sm_lim := if f64_ltb f64_zero ratePerSec then Some ratePerSec else None;
     sm_burst := if burst =? 0 then 1 else burst; sm_timeout := sessionTimeout |}.

Definition sm_set (m : gmap string Session) (sm : SessionManager) : SessionManager :=
  {| sm_byIP := m; sm_lim := sm_lim sm; sm_burst := sm_burst sm; sm_timeout := sm_timeout sm |}.

(** [Get] for the address [ip]: an existing session is touched, otherwise one is created. *)
Definition SessionManager_Get (now : Z) (ip : string) (sm : SessionManager) : SessionManager * Session :=
  match sm_byIP sm !! ip with
  | Some s => let s := touch now s in (sm_set (<[ip := s]> (sm_byIP sm)) sm, s)
  | None =>
      let s := {| s_ip := ip; s_limiter := (λ r, NewLimiter r (sm_burst sm)) <$> sm_lim sm;
                  s_stickyID := ""; s_lastSeen := now |} in
      (sm_set (<[ip := s]> (sm_byIP sm)) sm, s)
  end.

(** One tick of the cleanup goroutine. *)
Definition cleanup (now : Z) (sm : SessionManager) : SessionManager :=
  sm_set (filter (λ '(_, s), ¬ s_lastSeen s < now - sm_timeout sm) (sm_byIP sm)) sm.

Definition ActiveSessions (sm : SessionManager) : Z := Z.of_nat (size (sm_byIP sm)).

(** Counting sticky sessions, in the iteration order [sessions]. *)
Definition count_sticky (sessions : list (string * Session)) : gmap string Z :=
  foldl (λ m '(_, s), if String.eqb (s_stickyID s) "" then m
                      else <[s_stickyID s := default 0 (m !! s_stickyID s) + 1]> m) ∅ sessions.

Definition StickyCounts (sm : SessionManager) : gmap string Z := count_sticky (map_to_list (sm_byIP sm)).

(** The state of the moving loop: sessions, counts, moved and the rotation index. *)
Record sweep := {
  sw_byIP : gmap string Session;
  sw_counts : gmap string Z;
  sw_moved : Z;
  sw_uidx : nat;
}.

Definition sweep_step (maxLoad : float64) (maxSweep : Z) (underloaded : list string) (st : sweep)
    (x : string * Session) : sweep :=
  let '(ip, s) := x in
  if maxSweep <=? sw_moved st then st
  else if negb (String.eqb (s_stickyID s) "") &&
          f64_ltb maxLoad (f64_of_Z (default 0 (sw_counts st !! s_stickyID s))) then
    let oldID := s_stickyID s in
    let newID := nth (sw_uidx st mod length underloaded) underloaded "" in
    let counts := <[oldID := default 0 (sw_counts st !! oldID) - 1]> (sw_counts st) in
    {| sw_byIP := <[ip := SetSticky newID s]> (sw_byIP st);
       sw_counts := <[newID := default 0 (counts !! newID) + 1]> counts;
       sw_moved := sw_moved st + 1;
       sw_uidx := S (sw_uidx st) |}
  else st.

Definition underloaded_ids (now : Z) (pool : Pool RL) (counts : gmap string Z) (mean : float64) : list string :=
  u_ID <$> bfilter (λ u, IsReady now u && f64_ltb (f64_of_Z (default 0 (counts !! u_ID u))) mean) (p_upstreams pool).

(** [rebalance]; [order] is the order in which the second loop visits the sessions. *)
Definition rebalance (now : Z) (pool : Pool RL) (threshold : float64) (maxSweep : Z)
    (order : list (string * Session)) (sm : SessionManager) : SessionManager :=
  let counts := StickyCounts sm in
  if (size counts =? 0)%nat then sm
  else
    let total := map_fold (λ _ c acc, acc + c) 0 counts in
    let mean := f64_div (f64_of_Z total) (f64_of_Z (Z.of_nat (size counts))) in
    let maxLoad := f64_mul mean threshold in
    let underloaded := underloaded_ids now pool counts mean in
    if (length underloaded =? 0)%nat then sm
    else
      let st := foldl (sweep_step maxLoad maxSweep underloaded)
                  {| sw_byIP := sm_byIP sm; sw_counts := counts; sw_moved := 0; sw_uidx := 0 |} order in
      sm_set (sw_byIP st) sm.

(** ** Rebalancing *)

(** What a sweep may do to the sessions [m] it started from. *)
Record sweep_ok (m : gmap string Session) (targets : list string) (rest : list (string * Session)) (st : sweep)
    : Prop := {
  so_moved : 0 <= sw_moved st;
  so_dom ip : is_Some (sw_byIP st !! ip) ↔ is_Some (m !! ip);
  so_same ip s' : sw_byIP st !! ip = Some s' →
    ∃ s, m !! ip = Some s ∧ (s' = s ∨ ∃ id, id ∈ targets ∧ s_stickyID s ≠ "" ∧ s' = SetSticky id s);
  so_rest ip s : (ip, s) ∈ rest → sw_byIP st !! ip = Some s;
  so_card : ∃ ips, NoDup ips ∧ Z.of_nat (length ips) <= sw_moved st ∧
    ∀ ip, ip ∉ ips → sw_byIP st !! ip = m !! ip;
}.

Lemma sweep_step_ok m targets maxLoad maxSweep rest st ip s :
  targets ≠ [] → NoDup ((ip, s) :: rest).*1 → sweep_ok m targets ((ip, s) :: rest) st → sw_moved st <= Z.max 0 maxSweep →
  sweep_ok m targets rest (sweep_step maxLoad maxSweep targets st (ip, s)) ∧
  sw_moved (sweep_step maxLoad maxSweep targets st (ip, s)) <= Z.max 0 maxSweep.
Proof.
  intros Ht Hnd [H1 H2 H3 H4 (ips & H5 & H6 & H7)] Hmax. unfold sweep_step.
  assert (sweep_ok m targets rest st) as Hsame.
  { split; [done|done|done|intros; apply H4; by right|by exists ips]. }
  destruct (Z.leb_spec maxSweep (sw_moved st)); [done|]. destruct (_ && _) eqn:E; [|done].
  apply andb_true_iff in E as [E _]. b2p.
  pose proof (H4 ip s (list_elem_of_here _ _)) as Hip.
  destruct (H3 ip s Hip) as (s0 & Hs0 & Hor).
  set (newID := nth _ targets ""). assert (newID ∈ targets) as Hin.
  { apply list_elem_of_In, nth_In. apply Nat.mod_upper_bound. by destruct targets. }
  rewrite fmap_cons in Hnd. apply NoDup_cons in Hnd as [Hni _]. cbn [fst] in Hni.
  split; [|simpl; lia]. split; simpl.
  - lia.
  - intros ip'. destruct (decide (ip = ip')) as [<-|].
    + rewrite lookup_insert_eq, Hs0. split; by eexists.
    + rewrite lookup_insert_ne by done. apply H2.
  - intros ip' s'. destruct (decide (ip = ip')) as [<-|].
    + rewrite lookup_insert_eq. intros [= <-]. exists s0. split; [done|]. right. exists newID.
      destruct Hor as [->|(id & Hid & Hne & ->)]; split_and!; done.
    + rewrite lookup_insert_ne by done. apply H3.
  - intros ip' s' Hr. rewrite lookup_insert_ne; [apply H4; by right|].
    intros <-. apply Hni. apply list_elem_of_fmap. by exists (ip, s').
  - destruct (decide (ip ∈ ips)) as [Hi|Hi].
    + exists ips. split_and!; [done|lia|]. intros ip' Hn. rewrite lookup_insert_ne by congruence. by apply H7.
    + exists (ip :: ips). split_and!; [by constructor|cbn [length]; lia|].
      intros ip' Hn. rewrite lookup_insert_ne by set_solver. apply H7. set_solver.
Qed.
Lemma sweep_run_ok m targets maxLoad maxSweep order st :
  targets ≠ [] → NoDup order.*1 → sweep_ok m targets order st → sw_moved st <= Z.max 0 maxSweep →
  let st' := foldl (sweep_step maxLoad maxSweep targets) st order in
  sweep_ok m targets [] st' ∧ sw_moved st' <= Z.max 0 maxSweep.
Proof.
  intros Ht. revert st. induction order as [|[ip s] order IH]; intros st Hnd Hok Hmax; [done|].
  cbn [foldl]. destruct (sweep_step_ok m targets maxLoad maxSweep order st ip s Ht Hnd Hok Hmax) as [Hok' Hmax'].
  apply IH; [|done|done]. rewrite fmap_cons in Hnd. by apply NoDup_cons in Hnd as [_ ?].
Qed.

(** In whatever order the sessions are visited, a rebalancing sweep keeps every session with
    its limiter and last use, changes at most [maxSweep] of them, and only moves sticky
    sessions to upstreams of the pool that are ready. *)
Theorem rebalance_safe now (pool : Pool RL) threshold maxSweep order sm :
  order ≡ₚ map_to_list (sm_byIP sm) →
  let sm' := rebalance now pool threshold maxSweep order sm in
  (∀ ip, is_Some (sm_byIP sm' !! ip) ↔ is_Some (sm_byIP sm !! ip)) ∧
  (∀ ip s', sm_byIP sm' !! ip = Some s' → ∃ s, sm_byIP sm !! ip = Some s ∧
     (s' = s ∨ ∃ u, u ∈ p_upstreams pool ∧ IsReady now u = true ∧ s_stickyID s ≠ "" ∧ s' = SetSticky (u_ID u) s)) ∧
  ∃ ips, NoDup ips ∧ Z.of_nat (length ips) <= Z.max 0 maxSweep ∧
    ∀ ip, ip ∉ ips → sm_byIP sm' !! ip = sm_byIP sm !! ip.
Proof.
  intros Hord sm'. unfold sm', rebalance. cbv zeta.
  assert (∃ ips : list string, NoDup ips ∧ Z.of_nat (length ips) <= Z.max 0 maxSweep ∧
    ∀ ip, ip ∉ ips → sm_byIP sm !! ip = sm_byIP sm !! ip) as Hnone.
  { exists []. split_and!; [constructor|cbn [length]; lia|done]. }
  destruct (size (StickyCounts sm) =? 0)%nat; [split_and!; eauto|].
  set (mean := f64_div _ _). set (targets := underloaded_ids now pool (StickyCounts sm) mean).
  destruct (Nat.eqb_spec (length targets) 0) as [|Hne]; [split_and!; eauto|].
  assert (targets ≠ []) as Ht by (by intros Hn; rewrite Hn in Hne).
  destruct (sweep_run_ok (sm_byIP sm) targets (f64_mul mean threshold) maxSweep order
    {| sw_byIP := sm_byIP sm; sw_counts := StickyCounts sm; sw_moved := 0; sw_uidx := 0 |} Ht)
    as [[_ H2 H3 _ (ips & H5 & H6 & H7)] Hmax].
  - rewrite Hord. apply NoDup_fst_map_to_list.
  - split; simpl; [lia|done|eauto| |].
    + intros ip s. rewrite Hord. apply elem_of_map_to_list.
    + exists []. split_and!; [constructor|cbn [length]; lia|done].
  - simpl. lia.
  - cbn [sm_set sm_byIP]. split_and!; [done| |exists ips; split_and!; [done|lia|done]].
    intros ip s' Hs'. destruct (H3 ip s' Hs') as (s & Hs & [->|(id & Hid & Hst & ->)]); exists s; (split; [done|]).
    + by left.
    + right. apply list_elem_of_fmap in Hid as (u & -> & Hu). apply elem_of_bfilter in Hu as [Hu Hr]. b2p.
      by exists u.
Qed.
End sessions.

(** ** Witnesses *)

(** Addresses are texts and a prefix trusts one of them. *)
#[local] Instance ToyNet : NetLib := {|
  Addr := string; Prefix := string;
  ParseAddr s := if String.eqb s "" then None else Some s;
  ParsePrefix _ := None;
  Addr_Unmap a := a; Prefix_Masked p := p; PrefixOfAddr a := a;
  Prefix_Contains := String.eqb;
  SplitHostPort s := fst <$> CutByte ":" s;
|}.


Definition demo_session (ip id : string) : Session (RL := ToyRate) :=
  {| s_ip := ip; s_limiter := None; s_stickyID := id; s_lastSeen := 0 |}.

Definition demo_sessions : SessionManager (RL := ToyRate) :=
  {| sm_byIP := {[ "1" := demo_session "1" "a"; "2" := demo_session "2" "a"; "3" := demo_session "3" "a" ]};
     sm_lim := None; sm_burst := 1; sm_timeout := Minute |}.

Lemma rebalance_safe_witness :
  let sm' := rebalance 0 (demo_pool (NewBlockCache 64 2)) f64_zero 1
               (map_to_list (sm_byIP demo_sessions)) demo_sessions in
  is_Some (sm_byIP sm' !! "2") ↔ is_Some (sm_byIP demo_sessions !! "2").
Proof.
  exact (proj1 (rebalance_safe 0 (demo_pool (NewBlockCache 64 2)) f64_zero 1
    (map_to_list (sm_byIP demo_sessions)) demo_sessions (Permutation_refl _)) "2").
Defined.
