(* ===== verification/Routing.v ===== *)
(** * Client prefixes and route rules

    [network/routing.go]: compilation of the configured routes, the rewriting of client-prefixed
    paths and the ordered route rules. *)

From S2P Require Import Prelude GoStrings GoFloat Config ScoreTracker AutoTuner BlockCache Upstream Selector Pool Health MemoryStore Regexp Url CacheKey.
From Stdlib Require Import Ascii.
#[local] Open Scope string_scope.
#[local] Open Scope Z_scope.

Record compiledClientRoute := { ccr_prefix : string; ccr_upstreamID : string }.

Definition normalizeClientPathPrefix (p : string) : string :=
  let p := TrimSpace p in
  if String.eqb p "" then ""
  else
    let p := if negb (HasPrefix p "/") then "/" +:+ p else p in
    if negb (HasSuffix p "/") then p +:+ "/" else p.

(** [strings.HasPrefix(rest, "eth/v") || rest == "healthz"] *)
Definition api_rest (rest : string) : bool := HasPrefix rest "eth/v" || String.eqb rest "healthz".

Section routing.
Context `{RL : RateLib} `{RX : RegexpLib}.

(** [methods] is [None] when every method matches. *)
Record pathMethodRule := { pm_re : Regexp; pm_methods : option (list string) }.

Definition compilePathMethodRule (pattern : string) (methods : list string) : option pathMethodRule :=
  match re_Compile pattern with
  | None => None
  | Some re =>
      Some {| pm_re := re;
              pm_methods := match methods with
                            | [] => None
                            | _ => Some ((λ m, ToUpper (TrimSpace m)) <$> methods)
                            end |}
  end.

Definition pm_matches (r : pathMethodRule) (method path : string) : bool :=
  match pm_methods r with None => true | Some l => bool_decide (method ∈ l) end && re_MatchString (pm_re r) path.

Record compiledRouteRule := { crr_rule : pathMethodRule; crr_upstreamID : string; crr_deny : bool }.

Record compiledRouting := { clientRoutes : list compiledClientRoute; routeRules : list compiledRouteRule }.

Definition compile_client_route (cr : ClientRouteConfig) : option compiledClientRoute :=
  let prefix := normalizeClientPathPrefix (cr_PathPrefix cr) in
  if String.eqb prefix "" then None else Some {| ccr_prefix := prefix; ccr_upstreamID := cr_UpstreamID cr |}.

Definition compile_route_rule (rr : RouteRuleConfig) : option compiledRouteRule :=
  match compilePathMethodRule (rr_PathPattern rr) (rr_Methods rr) with
  | None => None
  | Some rule => Some {| crr_rule := rule; crr_upstreamID := rr_UpstreamID rr; crr_deny := rr_Deny rr |}
  end.

(** [None] is an error, [Some None] the nil result of an empty configuration. *)
Definition compileRouting (cfg : RoutingConfig) : option (option compiledRouting) :=
  match ro_ClientRoutes cfg, ro_RouteRules cfg with
  | [], [] => Some None
  | _, _ =>
      match mapM compile_client_route (ro_ClientRoutes cfg) with
      | None => None
      | Some crs =>
          match mapM compile_route_rule (ro_RouteRules cfg) with
          | None => None
          | Some rules => Some (Some {| clientRoutes := crs; routeRules := rules |})
          end
      end
  end.

(** The body of the loop for one route; [None] is [continue]. *)
Definition apply_route (path : string) (cr : compiledClientRoute) : option (string * string) :=
  let base := TrimSuffix (ccr_prefix cr) "/" in
  if String.eqb base "" then None
  else if negb (String.eqb path base) && negb (HasPrefix path (ccr_prefix cr)) then None
  else
    let rest := if HasPrefix path (ccr_prefix cr) then TrimPrefix path (ccr_prefix cr) else "" in
    let rest := if negb (String.eqb rest "") && negb (HasPrefix rest "/") then "/" +:+ rest else rest in
    let rest := if String.eqb rest "" then "/" else rest in
    let trim := TrimPrefix rest "/" in
    if api_rest trim then Some ("/" +:+ trim, ccr_upstreamID cr) else Some (path, ccr_upstreamID cr).

Fixpoint apply_routes (path : string) (routes : list compiledClientRoute) : string * string :=
  match routes with
  | [] => (path, "")
  | cr :: routes => match apply_route path cr with Some r => r | None => apply_routes path routes end
  end.

Definition applyClientPrefix (r : option compiledRouting) (path : string) : string * string :=
  match r with None => (path, "") | Some r => apply_routes path (clientRoutes r) end.

(** The answer: deny, the pinned upstream, and whether a rule matched. *)
Definition matchRouteRule (r : option compiledRouting) (method path : string) : bool * string * bool :=
  match r with
  | None => (false, "", false)
  | Some r =>
      let m := ToUpper method in
      match find_first (λ rule, pm_matches (crr_rule rule) m path) (routeRules r) with
      | None => (false, "", false)
      | Some rule => if crr_deny rule then (true, "", true) else (false, crr_upstreamID rule, true)
      end
  end.

Definition client_selector (clientType : string) : Selector :=
  {| sel_ID := ""; sel_Glob := ""; sel_ClientType := clientType |}.

(** The rewritten path and the selector, if the path names one. *)
Definition inferClientSelectorPath (path : string) (pool : Pool RL) : option (string * string) :=
  match CutByte "/" (TrimPrefix path "/") with
  | None => None
  | Some (selector, rest) =>
      if String.eqb selector "" then None
      else if negb (api_rest rest) then None
      else
        let clientType := ToLower selector in
        if IsKnownClientType selector && HasMatching pool (client_selector clientType)
        then Some ("/" +:+ rest, "client:" +:+ clientType)
        else match ByID pool selector with
             | Some _ => Some ("/" +:+ rest, selector)
             | None => None
             end
  end.

(** [cloneRequestWithPath]: the raw path is dropped, so [EscapedPath] is computed from the new
    path ([escape] is [url.URL.EscapedPath] of a URL without raw path). *)
Definition cloneRequestWithPath (escape : string → string) (r : Request) (path : string) : Request :=
  {| req_Method := req_Method r; req_Header := req_Header r;
     req_URL := {| url_Path := path; url_EscapedPath := escape path; url_RawQuery := url_RawQuery (req_URL r) |} |}.

Definition rewriteClientPath (escape : string → string) (routing : option compiledRouting) (pool : Pool RL)
    (r : Request) : Request * string :=
  let path := url_Path (req_URL r) in
  let renamed newPath := if String.eqb newPath path then r else cloneRequestWithPath escape r newPath in
  let '(newPath, clientUpstream) := applyClientPrefix routing path in
  if bool_decide (is_Some routing) && negb (String.eqb clientUpstream "") then (renamed newPath, clientUpstream)
  else
    match inferClientSelectorPath path pool with
    | Some (newPath, clientUpstream) => (renamed newPath, clientUpstream)
    | None => (r, "")
    end.
End routing.

(** ** Rewriting *)

Lemma normalizeClientPathPrefix_slash p : normalizeClientPathPrefix p ≠ "" → HasSuffix (normalizeClientPathPrefix p) "/" = true.
Proof.
  unfold normalizeClientPathPrefix. cbv zeta. destruct (String.eqb (TrimSpace p) ""); [done|]. intros _.
  set (q := if negb (HasPrefix _ _) then _ else _). destruct (HasSuffix q "/") eqn:E; [done|]. cbn [negb].
  apply HasSuffix_spec. by exists q.
Qed.

(** [path'] is [path] without its first segments, and an API path. *)
Definition stripped (path path' : string) : Prop :=
  ∃ pre rest, path = pre +:+ "/" +:+ rest ∧ path' = "/" +:+ rest ∧ api_rest rest = true.

Lemma stripped_intro pre rest : api_rest rest = true → stripped (pre +:+ "/" +:+ rest) ("/" +:+ rest).
Proof. by exists pre, rest. Qed.

Section rewriting.
Context `{RL : RateLib} `{RX : RegexpLib}.

Definition routing_wf (r : compiledRouting) : Prop :=
  Forall (λ cr, HasSuffix (ccr_prefix cr) "/" = true) (clientRoutes r).

Lemma compileRouting_wf cfg r : compileRouting cfg = Some (Some r) → routing_wf r.
Proof.
  intros H. assert (∃ crs rules, mapM compile_client_route (ro_ClientRoutes cfg) = Some crs ∧
    r = {| clientRoutes := crs; routeRules := rules |}) as (crs & rules & Hm & ->).
  { unfold compileRouting in H. destruct (ro_ClientRoutes cfg) as [|c cs] eqn:Ec, (ro_RouteRules cfg) as [|x xs];
      try done; destruct (mapM compile_client_route _) as [l|] in H |- *; try done;
      destruct (mapM compile_route_rule _) in H; try done; injection H as <-; eauto. }
  unfold routing_wf. cbn [clientRoutes]. apply mapM_Some in Hm.
  clear H. revert Hm. generalize (ro_ClientRoutes cfg) as cs. intros cs Hm. induction Hm as [|c x l k Hx Hm IH]; [constructor|].
  constructor; [|done]. unfold compile_client_route in Hx. cbv zeta in Hx.
  destruct (String.eqb_spec (normalizeClientPathPrefix (cr_PathPrefix c)) ""); [done|].
  injection Hx as <-. by apply normalizeClientPathPrefix_slash.
Qed.

Lemma apply_route_sound path cr path' up :
  HasSuffix (ccr_prefix cr) "/" = true → apply_route path cr = Some (path', up) → path' = path ∨ stripped path path'.
Proof.
  intros [base Hb]%HasSuffix_spec. unfold apply_route. rewrite Hb, TrimSuffix_app. cbv zeta.
  destruct (String.eqb base ""); [done|]. destruct (_ && _); [done|].
  destruct (HasPrefix path (base +:+ "/")) eqn:Hp; [|destruct (api_rest _) eqn:Ea; [by vm_compute in Ea|intros [= <- _]; by left]].
  apply HasPrefix_spec in Hp as [rest ->]. rewrite TrimPrefix_app.
  set (full := if negb (String.eqb rest "") && negb (HasPrefix rest "/") then "/" +:+ rest else rest).
  assert (TrimPrefix (if String.eqb full "" then "/" else full) "/" = rest ∨
          rest = "/" +:+ TrimPrefix (if String.eqb full "" then "/" else full) "/") as Ht.
  { unfold full. clear full. destruct (String.eqb_spec rest "") as [->|Hne]; [by left|]. cbn [negb andb].
    destruct (HasPrefix rest "/") eqn:Er; cbn [negb].
    - apply HasPrefix_spec in Er as [t ->]. right. rewrite (proj2 (String.eqb_neq ("/" +:+ t) "")) by done. by rewrite TrimPrefix_app.
    - left. rewrite (proj2 (String.eqb_neq ("/" +:+ rest) "")) by done. by rewrite TrimPrefix_app. }
  set (trim := TrimPrefix _ "/") in *. clearbody trim. clear full. destruct (api_rest trim) eqn:Ea; intros [= <- _]; [|by left]. right.
  destruct Ht as [Ht|Hr]; [subst rest|].
  - rewrite str_app_assoc. by apply stripped_intro.
  - rewrite Hr. by apply stripped_intro.
Qed.

Lemma applyClientPrefix_sound r path path' up :
  routing_wf r → applyClientPrefix (Some r) path = (path', up) → path' = path ∨ stripped path path'.
Proof.
  unfold routing_wf. cbn [applyClientPrefix]. generalize (clientRoutes r) as crs. intros crs Hwf.
  induction Hwf as [|cr crs Hcr Hwf IH]; cbn [apply_routes]; [intros [= <- _]; by left|].
  destruct (apply_route path cr) as [[p u]|] eqn:E; [|done]. intros [= -> ->]. by eapply apply_route_sound.
Qed.

Lemma inferClientSelectorPath_sound path (pool : Pool RL) path' sel :
  inferClientSelectorPath path pool = Some (path', sel) →
  stripped path path' ∧
  (∃ ct, sel = "client:" +:+ ct ∧ HasMatching pool (client_selector ct) = true) ∨
  stripped path path' ∧ is_Some (ByID pool sel).
Proof.
  unfold inferClientSelectorPath. destruct (CutByte "/" _) as [[s rest]|] eqn:Ec; [|done].
  destruct (String.eqb s ""); [done|]. destruct (api_rest rest) eqn:Ea; [|done]. cbn [negb].
  apply CutByte_spec in Ec as [Ec _].
  assert (stripped path ("/" +:+ rest)) as Hs.
  { destruct (HasPrefix path "/") eqn:Hp.
    - apply HasPrefix_spec in Hp as [t ->]. rewrite TrimPrefix_app in Ec. subst t.
      change (s +:+ String "/" rest) with (s +:+ "/" +:+ rest). rewrite <- str_app_assoc. by apply stripped_intro.
    - unfold TrimPrefix in Ec. rewrite Hp in Ec. subst path. by apply stripped_intro. }
  destruct (IsKnownClientType s && HasMatching pool _) eqn:Ek.
  - intros [= <- <-]. left. split; [done|]. exists (ToLower s). by apply andb_true_iff in Ek as [_ Ek].
  - destruct (ByID pool s) eqn:Eb; [|done]. intros [= <- <-]. right. split; [done|]. by rewrite Eb.
Qed.

(** Rewriting a client-prefixed request keeps its method, headers and query, and leaves the path
    alone or only strips leading segments from it, down to a Beacon API or health path; the
    selector it adds when no route is configured always names an upstream of the pool. *)
Theorem rewriteClientPath_sound escape cfg routing (pool : Pool RL) r :
  compileRouting cfg = Some routing →
  let '(r', sel) := rewriteClientPath escape routing pool r in
  req_Method r' = req_Method r ∧ req_Header r' = req_Header r ∧
  url_RawQuery (req_URL r') = url_RawQuery (req_URL r) ∧
  (r' = r ∨ stripped (url_Path (req_URL r)) (url_Path (req_URL r'))) ∧
  (routing = None → sel ≠ "" → is_Some (ByID pool sel) ∨
     ∃ ct, sel = "client:" +:+ ct ∧ HasMatching pool (client_selector ct) = true).
Proof.
  intros Hc. unfold rewriteClientPath. cbv zeta. set (path := url_Path (req_URL r)).
  assert (∀ p', p' = path ∨ stripped path p' →
    let r' := if String.eqb p' path then r else cloneRequestWithPath escape r p' in
    req_Method r' = req_Method r ∧ req_Header r' = req_Header r ∧
    url_RawQuery (req_URL r') = url_RawQuery (req_URL r) ∧
    (r' = r ∨ stripped path (url_Path (req_URL r')))) as Hren.
  { intros p' Hp'. cbv zeta. destruct (String.eqb_spec p' path); [split_and!; auto|].
    split_and!; try done. right. by destruct Hp'. }
  destruct (applyClientPrefix routing path) as [p' up] eqn:Ea.
  destruct (bool_decide (is_Some routing) && negb (String.eqb up "")) eqn:Eu.
  - b2p. destruct routing as [rt|]; [|by destruct H]. apply applyClientPrefix_sound in Ea; [|by apply (compileRouting_wf cfg)].
    destruct (Hren p' Ea) as (?&?&?&?). split_and!; done.
  - destruct (inferClientSelectorPath path pool) as [[p2 sel]|] eqn:Ei; [|by split_and!; auto].
    apply inferClientSelectorPath_sound in Ei.
    destruct (Hren p2 ltac:(right; by destruct Ei as [[? _]|[? _]])) as (?&?&?&?). split_and!; try done.
    intros _ _. destruct Ei as [[_ ?]|[_ ?]]; auto.
Qed.
End rewriting.

Definition demo_routing_cfg : RoutingConfig :=
  {| ro_LoadBalancing := ""; ro_StickySession := false; ro_StickyTimeout := 0; ro_BlockedPaths := [];
     ro_RebalanceInterval := 0; ro_RebalanceThreshold := f64_zero; ro_RebalanceMaxSweep := 0;
     ro_ScoreWeights := None; ro_ScoreWindowSize := 0;
     ro_ClientRoutes := [{| cr_PathPrefix := "lh"; cr_UpstreamID := "a" |}];
     ro_RouteRules := [{| rr_PathPattern := "^/eth/v\d+/debug/"; rr_Methods := ["get"]; rr_UpstreamID := ""; rr_Deny := true |}] |}.

Definition demo_compiled : option compiledRouting := default None (compileRouting (RX := MiniRegexp) demo_routing_cfg).

Example demo_route_rule :
  matchRouteRule demo_compiled "GET" "/eth/v2/debug/beacon/states/head" = (true, "", true) ∧
  matchRouteRule demo_compiled "POST" "/eth/v2/debug/beacon/states/head" = (false, "", false).
Proof. vm_compute. done. Qed.

Lemma rewriteClientPath_sound_witness :
  let '(r', sel) := rewriteClientPath id demo_compiled (demo_pool (NewBlockCache 64 2))
                      (demo_request "/lh/eth/v1/node/version" "x=1" "") in
  url_Path (req_URL r') = "/eth/v1/node/version" ∧ sel = "a" ∧ req_Method r' = "GET".
Proof.
  pose proof (rewriteClientPath_sound id demo_routing_cfg demo_compiled (demo_pool (NewBlockCache 64 2))
    (demo_request "/lh/eth/v1/node/version" "x=1" "") eq_refl) as H.
  destruct (rewriteClientPath id demo_compiled _ _) as [r' sel] eqn:E. destruct H as (Hm & _).
  split_and!; [| |exact Hm]; vm_compute in E; by injection E as <- <-.
Defined.
