(* ===== verification/ConfigFile.v ===== *)
(** * Loading a configuration file

    [config/config.go]: the whole [Config], its defaults ([applyDefaults]), the expansion of
    environment variables in secrets ([expandSecrets]) and validation ([validate]), composed as
    [Load] composes them.  YAML decoding, [os.ExpandEnv] and [url.Parse] are arguments; a
    validation error is its message without the name of the section.

    Validation is what the other components rely on: the theorems say what a network of a loaded
    configuration is guaranteed to satisfy. *)

From S2P Require Import Prelude GoStrings GoFloat Config MemoryStore Regexp Cache Paths Session.
From Stdlib Require Import Ascii.
#[local] Open Scope string_scope.
#[local] Open Scope Z_scope.

(** ** Data *)

Record APIKeyConfig := {
  ak_ID : string;
  ak_Description : string;
  ak_Secret : string;
  ak_Tier : string;
  ak_RateLimiting : option RateLimitConfig;
}.

Record TierConfig := { ti_Name : string; ti_Description : string; ti_RateLimiting : option RateLimitConfig }.

Record AuthConfig := { au_Secret : string; au_Keys : list APIKeyConfig; au_Tiers : list TierConfig }.

Record ServerConfig := {
  sv_Host : string;
  sv_Port : Z;
  sv_MaxTimeout : Z;
  sv_EnableGzip : option bool;
  sv_MaxResponseBodyBytes : Z;
  sv_TrustedProxies : list string;
}.

Record DebugLoggingConfig := {
  dl_Enabled : bool;
  dl_Path : string;
  dl_MaxSizeMB : Z;
  dl_MaxBackups : Z;
  dl_MaxBodyBytes : Z;
}.

Record PprofConfig := { pp_Enabled : bool; pp_Host : string; pp_Port : Z }.

(** [None] is the nil slice of an absent key. *)
Record CORSConfig := {
  co_AllowedOrigins : option (list string);
  co_AllowedMethods : option (list string);
  co_AllowedHeaders : option (list string);
  co_ExposedHeaders : option (list string);
  co_AllowCredentials : option bool;
  co_MaxAge : Z;
}.

Record FailsafeOverride := { fo_PathPattern : string; fo_Methods : list string; fo_Failsafe : FailsafeConfig }.

Record RedisConfig := {
  rd_URL : string;
  rd_Username : string;
  rd_Password : string;
  rd_DB : Z;
  rd_MaxRetries : Z;
}.

Record RedisCacheConfig := { rc_Redis : RedisConfig; rc_KeyPrefix : string }.

Record CacheConfig := {
  cc_Enabled : bool;
  cc_MaxSize : Z;
  cc_Driver : string;
  cc_Redis : option RedisCacheConfig;
  cc_Policies : list CachePolicy;
}.

Record NetworkConfig := {
  nc_ID : string;
  nc_GenesisTime : Z;
  nc_SecondsPerSlot : Z;
  nc_SlotsPerEpoch : Z;
  nc_Upstreams : list UpstreamConfig;
  nc_Failsafe : option FailsafeConfig;
  nc_FailsafeOverrides : list FailsafeOverride;
  nc_Routing : RoutingConfig;
  nc_Cache : CacheConfig;
  nc_Health : option HealthConfig;
  nc_RateLimiting : option RateLimitingConfig;
}.

Record MetricsConfig := { me_Enabled : bool; me_Path : string }.
Record StateConfig := { st_Driver : string; st_Redis : option RedisConfig }.
Record UIConfig := { ui_Enabled : bool; ui_BasePath : string; ui_Auth : option AuthConfig }.

(** [cf_LegacyProjects] says whether the unsupported key [projects] is present. *)
Record ConfigFile := {
  cf_LogLevel : string;
  cf_DebugLogging : DebugLoggingConfig;
  cf_Server : ServerConfig;
  cf_Pprof : PprofConfig;
  cf_CORS : option CORSConfig;
  cf_Auth : option AuthConfig;
  cf_Networks : list NetworkConfig;
  cf_LegacyProjects : bool;
  cf_Failsafe : FailsafeConfig;
  cf_RateLimiting : RateLimitingConfig;
  cf_Health : HealthConfig;
  cf_Metrics : MetricsConfig;
  cf_State : StateConfig;
  cf_UI : UIConfig;
}.

Definition GzipEnabled (s : ServerConfig) : bool := default true (sv_EnableGzip s).

(** What [redis.ParseURL] returns, with the fields the code overrides. *)
Record RedisOptions := { ro_User : string; ro_Pass : string; ro_DBIndex : Z; ro_Retries : Z }.

Definition Redis_Options (ParseRedisURL : string → option RedisOptions) (r : RedisConfig) : option RedisOptions :=
  match ParseRedisURL (rd_URL r) with
  | None => None
  | Some o =>
      Some {| ro_User := if String.eqb (rd_Username r) "" then ro_User o else rd_Username r;
              ro_Pass := if String.eqb (rd_Password r) "" then ro_Pass o else rd_Password r;
              ro_DBIndex := or_base (rd_DB r) (ro_DBIndex o);
              ro_Retries := if 0 <? rd_MaxRetries r then rd_MaxRetries r else ro_Retries o |}
  end.

(** ** Defaults *)

Definition or_base_s (override base : string) : string := if String.eqb override "" then base else override.

Definition applyCORSDefaults (c : CORSConfig) : CORSConfig :=
  {| co_AllowedOrigins := Some (default ["*"] (co_AllowedOrigins c));
     co_AllowedMethods := Some (default ["GET"; "HEAD"; "POST"; "OPTIONS"] (co_AllowedMethods c));
     co_AllowedHeaders :=
       Some (default ["content-type"; "authorization"; "x-ebeacon-secret-token"; "x-api-key"] (co_AllowedHeaders c));
     co_ExposedHeaders := co_ExposedHeaders c;
     co_AllowCredentials := Some (default false (co_AllowCredentials c));
     co_MaxAge := or_base (co_MaxAge c) 3600 |}.

Definition applyDebugLoggingDefaults (d : DebugLoggingConfig) : DebugLoggingConfig :=
  {| dl_Enabled := dl_Enabled d; dl_Path := dl_Path d;
     dl_MaxSizeMB := or_base (dl_MaxSizeMB d) 100;
     dl_MaxBackups := or_base (dl_MaxBackups d) 10;
     dl_MaxBodyBytes := or_base (dl_MaxBodyBytes d) (64 * 2 ^ 10) |}.

Definition knownGenesisTimes : list (string * Z) :=
  [("mainnet", 1606824023); ("sepolia", 1655733600); ("hoodi", 1742213400)].

Definition knownSlotsPerEpoch : list (string * Z) := [("gnosis", 16); ("chiado", 16)].

Definition known (l : list (string * Z)) (id : string) : option Z :=
  snd <$> find_first (λ kv, String.eqb kv.1 (ToLower id)) l.

Definition routing_defaults (r : RoutingConfig) : RoutingConfig :=
  {| ro_LoadBalancing := or_base_s (ro_LoadBalancing r) "round-robin";
     ro_StickySession := ro_StickySession r;
     ro_StickyTimeout := or_base (ro_StickyTimeout r) (10 * Minute);
     ro_BlockedPaths := ro_BlockedPaths r;
     ro_RebalanceInterval := or_base (ro_RebalanceInterval r) (30 * Second);
     ro_RebalanceThreshold := or_base_f (ro_RebalanceThreshold r) (f64_lit 3 2);
     ro_RebalanceMaxSweep := or_base (ro_RebalanceMaxSweep r) 10;
     ro_ScoreWeights := ro_ScoreWeights r;
     ro_ScoreWindowSize := or_base (ro_ScoreWindowSize r) 100;
     ro_ClientRoutes := ro_ClientRoutes r;
     ro_RouteRules := ro_RouteRules r |}.

Definition cache_defaults (id : string) (c : CacheConfig) : CacheConfig :=
  let driver := or_base_s (cc_Driver c) "memory" in
  {| cc_Enabled := cc_Enabled c;
     cc_MaxSize := or_base (cc_MaxSize c) 2048;
     cc_Driver := driver;
     cc_Redis :=
       if String.eqb driver "redis" then
         (λ r, {| rc_Redis := rc_Redis r; rc_KeyPrefix := or_base_s (rc_KeyPrefix r) ("ebeacon:" +:+ id +:+ ":") |})
           <$> cc_Redis c
       else cc_Redis c;
     cc_Policies := cc_Policies c |}.

Definition upstream_defaults (u : UpstreamConfig) : UpstreamConfig :=
  {| uc_ID := uc_ID u; uc_URL := uc_URL u; uc_Headers := uc_Headers u; uc_Failsafe := uc_Failsafe u;
     uc_Priority := uc_Priority u; uc_Weight := or_base (uc_Weight u) 1; uc_Archive := uc_Archive u;
     uc_RateLimiting := uc_RateLimiting u |}.

Definition applyNetworkDefaults (n : NetworkConfig) : NetworkConfig :=
  {| nc_ID := nc_ID n;
     nc_GenesisTime := or_base (nc_GenesisTime n) (default 0 (known knownGenesisTimes (nc_ID n)));
     nc_SecondsPerSlot := or_base (nc_SecondsPerSlot n) DefaultSecondsPerSlot;
     nc_SlotsPerEpoch :=
       or_base (nc_SlotsPerEpoch n) (default DefaultSlotsPerEpoch (known knownSlotsPerEpoch (nc_ID n)));
     nc_Upstreams := upstream_defaults <$> nc_Upstreams n;
     nc_Failsafe := nc_Failsafe n; nc_FailsafeOverrides := nc_FailsafeOverrides n;
     nc_Routing := routing_defaults (nc_Routing n);
     nc_Cache := cache_defaults (nc_ID n) (nc_Cache n);
     nc_Health := nc_Health n; nc_RateLimiting := nc_RateLimiting n |}.

Definition health_defaults (h : HealthConfig) : HealthConfig :=
  {| h_CheckInterval := or_base (h_CheckInterval h) (15 * Second);
     h_FinalityInterval := or_base (h_FinalityInterval h) (60 * Second);
     h_MaxSyncDistance := or_base (h_MaxSyncDistance h) 10;
     h_FollowDistance := or_base (h_FollowDistance h) 32;
     h_MaxHeadDistance := or_base (h_MaxHeadDistance h) 2 |}.

Definition server_defaults (s : ServerConfig) : ServerConfig :=
  {| sv_Host := or_base_s (sv_Host s) "0.0.0.0";
     sv_Port := or_base (sv_Port s) 5555;
     sv_MaxTimeout := or_base (sv_MaxTimeout s) (60 * Second);
     sv_EnableGzip := sv_EnableGzip s;
     sv_MaxResponseBodyBytes := or_base (sv_MaxResponseBodyBytes s) (2 * 2 ^ 30);
     sv_TrustedProxies := sv_TrustedProxies s |}.

Definition applyDefaults (c : ConfigFile) : ConfigFile :=
  {| cf_LogLevel := or_base_s (cf_LogLevel c) "info";
     cf_DebugLogging := applyDebugLoggingDefaults (cf_DebugLogging c);
     cf_Server := server_defaults (cf_Server c);
     cf_Pprof := cf_Pprof c;
     cf_CORS := applyCORSDefaults <$> cf_CORS c;
     cf_Auth := cf_Auth c;
     cf_Networks := applyNetworkDefaults <$> cf_Networks c;
     cf_LegacyProjects := cf_LegacyProjects c;
     cf_Failsafe := applyFailsafeDefaults (cf_Failsafe c);
     cf_RateLimiting := cf_RateLimiting c;
     cf_Health := health_defaults (cf_Health c);
     cf_Metrics := {| me_Enabled := me_Enabled (cf_Metrics c); me_Path := or_base_s (me_Path (cf_Metrics c)) "/metrics" |};
     cf_State := {| st_Driver := or_base_s (st_Driver (cf_State c)) "local"; st_Redis := st_Redis (cf_State c) |};
     cf_UI := {| ui_Enabled := ui_Enabled (cf_UI c); ui_BasePath := or_base_s (ui_BasePath (cf_UI c)) "/webui";
                 ui_Auth := ui_Auth (cf_UI c) |} |}.

(** ** Secrets *)

Section expand.
Context (ExpandEnv : string → string).

(** [if s != "" { s = os.ExpandEnv(s) }] *)
Definition expand (s : string) : string := if String.eqb s "" then s else ExpandEnv s.

Definition expand_auth (a : AuthConfig) : AuthConfig :=
  {| au_Secret := expand (au_Secret a);
     au_Keys := (λ k, {| ak_ID := ak_ID k; ak_Description := ak_Description k; ak_Secret := expand (ak_Secret k);
                         ak_Tier := ak_Tier k; ak_RateLimiting := ak_RateLimiting k |}) <$> au_Keys a;
     au_Tiers := au_Tiers a |}.

Definition expandEnv (r : RedisConfig) : RedisConfig :=
  {| rd_URL := rd_URL r; rd_Username := expand (rd_Username r); rd_Password := expand (rd_Password r);
     rd_DB := rd_DB r; rd_MaxRetries := rd_MaxRetries r |}.

Definition expand_upstream (u : UpstreamConfig) : UpstreamConfig :=
  {| uc_ID := uc_ID u; uc_URL := expand (uc_URL u); uc_Headers := expand <$> uc_Headers u;
     uc_Failsafe := uc_Failsafe u; uc_Priority := uc_Priority u; uc_Weight := uc_Weight u;
     uc_Archive := uc_Archive u; uc_RateLimiting := uc_RateLimiting u |}.

Definition expand_network (n : NetworkConfig) : NetworkConfig :=
  let c := nc_Cache n in
  {| nc_ID := nc_ID n; nc_GenesisTime := nc_GenesisTime n; nc_SecondsPerSlot := nc_SecondsPerSlot n;
     nc_SlotsPerEpoch := nc_SlotsPerEpoch n; nc_Upstreams := expand_upstream <$> nc_Upstreams n;
     nc_Failsafe := nc_Failsafe n; nc_FailsafeOverrides := nc_FailsafeOverrides n; nc_Routing := nc_Routing n;
     nc_Cache := {| cc_Enabled := cc_Enabled c; cc_MaxSize := cc_MaxSize c; cc_Driver := cc_Driver c;
                    cc_Redis := (λ r, {| rc_Redis := expandEnv (rc_Redis r); rc_KeyPrefix := rc_KeyPrefix r |}) <$> cc_Redis c;
                    cc_Policies := cc_Policies c |};
     nc_Health := nc_Health n; nc_RateLimiting := nc_RateLimiting n |}.

Definition expandSecrets (c : ConfigFile) : ConfigFile :=
  let d := cf_DebugLogging c in
  {| cf_LogLevel := cf_LogLevel c;
     cf_DebugLogging := {| dl_Enabled := dl_Enabled d; dl_Path := expand (dl_Path d); dl_MaxSizeMB := dl_MaxSizeMB d;
                           dl_MaxBackups := dl_MaxBackups d; dl_MaxBodyBytes := dl_MaxBodyBytes d |};
     cf_Server := cf_Server c; cf_Pprof := cf_Pprof c; cf_CORS := cf_CORS c;
     cf_Auth := expand_auth <$> cf_Auth c;
     cf_Networks := expand_network <$> cf_Networks c;
     cf_LegacyProjects := cf_LegacyProjects c; cf_Failsafe := cf_Failsafe c; cf_RateLimiting := cf_RateLimiting c;
     cf_Health := cf_Health c; cf_Metrics := cf_Metrics c;
     cf_State := {| st_Driver := st_Driver (cf_State c); st_Redis := expandEnv <$> st_Redis (cf_State c) |};
     cf_UI := {| ui_Enabled := ui_Enabled (cf_UI c); ui_BasePath := ui_BasePath (cf_UI c);
                 ui_Auth := expand_auth <$> ui_Auth (cf_UI c) |} |}.
End expand.

(** ** Validation *)

(** [if bad { return fmt.Errorf(msg) }]; [None] is the nil error. *)
Definition check (bad : bool) (msg : string) : option string := if bad then Some msg else None.

Notation "e1 >>> e2" := (match e1 with Some err => Some err | None => e2 end) (at level 60, right associativity) : go_scope.
#[local] Open Scope go_scope.

(** The first error of a loop. *)
Fixpoint first_error {A} (f : A → option string) (l : list A) : option string :=
  match l with [] => None | x :: l => f x >>> first_error f l end.

(** A loop that also refuses a repeated name. *)
Fixpoint first_error_unique {A} (name : A → string) (dup : string) (before after : A → option string)
    (seen : list string) (l : list A) : option string :=
  match l with
  | [] => None
  | x :: l =>
      before x >>> check (bool_decide (name x ∈ seen)) dup >>> after x >>>
      first_error_unique name dup before after (name x :: seen) l
  end.

Definition alnum (c : ascii) : bool :=
  let n := byte_val c in ((97 <=? n) && (n <=? 122)) || ((65 <=? n) && (n <=? 90)) || is_digit c.

(** [validIdentifier.MatchString] *)
Definition validIdentifier (s : string) : bool :=
  match s with
  | EmptyString => false
  | String c rest => alnum c && negb (has_byte (λ c, negb (alnum c || in_set "._-" c)) rest)
  end.

(** [unicode.IsControl] or [unicode.IsSpace] on some rune: ASCII controls and blanks, the C1 controls
    and the space runes beyond ASCII. *)
Fixpoint has_control_or_space (s : string) : bool :=
  match s with
  | EmptyString => false
  | String c rest =>
      (byte_val c <=? 32) || (byte_val c =? 127) ||
      match rest with
      | String d _ => (byte_val c =? 194) && (128 <=? byte_val d) && (byte_val d <=? 159)
      | EmptyString => false
      end ||
      existsb (λ r, HasPrefix s r) space_runes || has_control_or_space rest
  end.

Definition validateLiteralServeMuxPath (value : string) : option string :=
  check (negb (HasPrefix value "/")) "must start with a slash" >>>
  check (ContainsAny value "{}?#" || has_control_or_space value) "must be a literal HTTP path" >>>
  let cleaned := Clean value in
  let trailingSlashOK := negb (String.eqb cleaned "/") && String.eqb value (cleaned +:+ "/") in
  check (negb (String.eqb value cleaned) && negb trailingSlashOK) "must be a clean HTTP path".

Definition validateLogLevel (level : string) : option string :=
  check (negb (bool_decide (level ∈ ["debug"; "info"; "warn"; "error"]))) "invalid logLevel".

Definition validateDebugLogging (d : DebugLoggingConfig) : option string :=
  if negb (dl_Enabled d) then None
  else
    check (String.eqb (TrimSpace (dl_Path d)) "") "debugLogging.path is required" >>>
    check (dl_MaxSizeMB d <=? 0) "debugLogging.maxSizeMB must be > 0" >>>
    check (dl_MaxBackups d <=? 0) "debugLogging.maxBackups must be > 0" >>>
    check (dl_MaxBodyBytes d <=? 0) "debugLogging.maxBodyBytes must be > 0".

Definition blank (s : string) : bool := String.eqb (TrimSpace s) "".

Definition validateCORS (c : option CORSConfig) : option string :=
  match c with
  | None => None
  | Some c =>
      let origins := default [] (co_AllowedOrigins c) in
      check (length origins =? 0)%nat "cors.allowedOrigins must contain at least one origin" >>>
      first_error (λ o, check (blank o) "cors.allowedOrigins must not be empty") origins >>>
      first_error (λ m, check (blank m) "cors.allowedMethods must not be empty") (default [] (co_AllowedMethods c)) >>>
      first_error (λ h, check (blank h) "cors.allowedHeaders must not be empty") (default [] (co_AllowedHeaders c)) >>>
      first_error (λ h, check (blank h) "cors.exposedHeaders must not be empty") (default [] (co_ExposedHeaders c)) >>>
      check (co_MaxAge c <? 0) "cors.maxAge must be >= 0"
  end.

Definition validateHealth (h : HealthConfig) : option string :=
  check (h_CheckInterval h <=? 0) "checkInterval must be > 0" >>>
  check (h_FinalityInterval h <=? 0) "finalityInterval must be > 0".

Definition validatePartialHealth (h : option HealthConfig) : option string :=
  match h with
  | None => None
  | Some h => check (h_CheckInterval h <? 0) "checkInterval must be >= 0" >>>
              check (h_FinalityInterval h <? 0) "finalityInterval must be >= 0"
  end.

Definition validateRateLimit (rl : option RateLimitConfig) : option string :=
  match rl with
  | None => None
  | Some rl => check (f64_leb (rl_Limit rl) f64_zero) "limit must be > 0" >>>
               check (rl_Burst rl <? 1) "burst must be >= 1"
  end.

Definition validateRateLimiting (rl : option RateLimitingConfig) : option string :=
  match rl with
  | None => None
  | Some rl => validateRateLimit (rl_PerIP rl) >>> validateRateLimit (rl_Global rl)
  end.

Definition validateAuthRateLimit (rl : option RateLimitConfig) : option string :=
  match rl with
  | None => None
  | Some rl => check (f64_leb (rl_Limit rl) f64_zero) "limit must be > 0" >>>
               check (rl_Burst rl <? 0) "burst must be >= 0"
  end.

Definition validateAuth (auth : option AuthConfig) : option string :=
  match auth with
  | None => None
  | Some a =>
      let tierNames := ti_Name <$> au_Tiers a in
      first_error_unique ti_Name "duplicate tier name"
        (λ t, check (String.eqb (ti_Name t) "") "name is required")
        (λ t, validateAuthRateLimit (ti_RateLimiting t)) [] (au_Tiers a) >>>
      first_error_unique ak_ID "duplicate key id"
        (λ k, check (String.eqb (ak_ID k) "") "id is required")
        (λ k, check (String.eqb (ak_Secret k) "") "secret is required" >>>
              check (negb (String.eqb (ak_Tier k) "") && negb (bool_decide (ak_Tier k ∈ tierNames))) "unknown tier" >>>
              validateAuthRateLimit (ak_RateLimiting k)) [] (au_Keys a) >>>
      check (negb (String.eqb (au_Secret a) "") && bool_decide ("default" ∈ (ak_ID <$> au_Keys a)))
        "key id conflicts with the legacy secret" >>>
      check (String.eqb (au_Secret a) "" && (length (au_Keys a) =? 0)%nat) "no secret or keys configured"
  end.

(** What the decoder yields for a document: the end of the input, an error, or a value. *)
Inductive decoded (A : Type) := DEOF | DErr | DVal (x : A).
Arguments DEOF {A}.
Arguments DErr {A}.
Arguments DVal {A} x.

Section validate.
Context `{RX : RegexpLib} `{NL : NetLib}.
(** [url.Parse]: scheme and host. *)
Context (ParseURL : string → option (string * string)).

Definition bad_regex (p : string) : bool := match re_Compile p with None => true | Some _ => false end.

Definition validateServer (s : ServerConfig) : option string :=
  check ((sv_Port s <? 1) || (65535 <? sv_Port s)) "server.port must be between 1 and 65535" >>>
  check (sv_MaxTimeout s <=? 0) "server.maxTimeout must be > 0" >>>
  check (sv_MaxResponseBodyBytes s <=? 0) "server.maxResponseBodyBytes must be > 0" >>>
  first_error (λ tp, let v := TrimSpace tp in
                     match ParsePrefix v, ParseAddr v with
                     | Some _, _ => None
                     | None, Some _ => None
                     | None, None => Some "server.trustedProxies: not a valid CIDR or IP"
                     end) (sv_TrustedProxies s).

Definition validateUpstreamURL (raw : string) : option string :=
  match ParseURL raw with
  | None => Some "invalid url"
  | Some (scheme, host) =>
      check (negb (String.eqb scheme "http") && negb (String.eqb scheme "https")) "url must use http or https" >>>
      check (String.eqb host "") "url must include a host"
  end.

Definition failsafe_error (fs : option FailsafeConfig) : option string :=
  check (negb (validateFailsafe fs)) "invalid failsafe".

Definition validate_policy (p : CachePolicy) : option string :=
  check (String.eqb (cp_Pattern p) "") "pattern is required" >>>
  check (bad_regex (cp_Pattern p)) "invalid pattern" >>>
  check (cp_TTL p <? 0) "ttl must be >= 0" >>>
  first_error (λ m, check (blank m) "methods must not contain empty values") (cp_Methods p).

Definition validate_client_route (ids : list string) (cr : ClientRouteConfig) : option string :=
  check (String.eqb (cr_PathPrefix cr) "") "pathPrefix is required" >>>
  check (String.eqb (cr_UpstreamID cr) "") "upstreamId is required" >>>
  check (negb (HasPrefix (cr_UpstreamID cr) "client:") && negb (bool_decide (cr_UpstreamID cr ∈ ids))) "unknown upstream id".

Definition validate_route_rule (ids : list string) (rr : RouteRuleConfig) : option string :=
  check (String.eqb (rr_PathPattern rr) "") "pathPattern is required" >>>
  check (bad_regex (rr_PathPattern rr)) "invalid pathPattern" >>>
  check (rr_Deny rr && negb (String.eqb (rr_UpstreamID rr) "")) "deny and upstreamId are mutually exclusive" >>>
  check (negb (rr_Deny rr) && String.eqb (rr_UpstreamID rr) "") "set upstreamId or deny: true" >>>
  check (negb (String.eqb (rr_UpstreamID rr) "") && negb (bool_decide (rr_UpstreamID rr ∈ ids))) "unknown upstream id" >>>
  first_error (λ m, check (String.eqb m "") "empty method in methods list") (rr_Methods rr).

Definition validateNetworkRouting (n : NetworkConfig) : option string :=
  let ids := uc_ID <$> nc_Upstreams n in
  first_error (validate_client_route ids) (ro_ClientRoutes (nc_Routing n)) >>>
  first_error (validate_route_rule ids) (ro_RouteRules (nc_Routing n)).

Definition validate_upstream (u : UpstreamConfig) : option string :=
  check (String.eqb (uc_URL u) "") "url is required" >>>
  validateUpstreamURL (uc_URL u) >>>
  failsafe_error (uc_Failsafe u) >>>
  match uc_RateLimiting u with
  | Some rl => check (ur_AdjustmentPeriod rl <? 0) "rateLimiting.adjustmentPeriod must be >= 0"
  | None => None
  end.

Definition validateNetwork (n : NetworkConfig) : option string :=
  let r := nc_Routing n in
  let c := nc_Cache n in
  check (length (nc_Upstreams n) =? 0)%nat "at least one upstream is required" >>>
  check (nc_SecondsPerSlot n <=? 0) "secondsPerSlot must be > 0" >>>
  check (nc_SlotsPerEpoch n <=? 0) "slotsPerEpoch must be > 0" >>>
  failsafe_error (nc_Failsafe n) >>>
  validatePartialHealth (nc_Health n) >>>
  validateRateLimiting (nc_RateLimiting n) >>>
  check (negb (bool_decide (ro_LoadBalancing r ∈ ["round-robin"; "random"; "least-conn"; "score"; ""]))) "invalid loadBalancing" >>>
  check (ro_StickyTimeout r <=? 0) "stickyTimeout must be > 0" >>>
  check (ro_RebalanceInterval r <=? 0) "rebalanceInterval must be > 0" >>>
  first_error (λ p, check (bad_regex p) "blockedPaths: invalid regex") (ro_BlockedPaths r) >>>
  check (cc_MaxSize c <=? 0) "cache.maxSize must be > 0" >>>
  check (negb (bool_decide (cc_Driver c ∈ ["memory"; "redis"; ""]))) "invalid cache.driver" >>>
  check (cc_Enabled c && String.eqb (cc_Driver c) "redis" &&
         match cc_Redis c with None => true | Some rc => String.eqb (rd_URL (rc_Redis rc)) "" end) "cache.redis.url is required" >>>
  first_error validate_policy (cc_Policies c) >>>
  first_error_unique uc_ID "duplicate upstream id"
    (λ u, check (String.eqb (uc_ID u) "") "id is required" >>> check (negb (validIdentifier (uc_ID u))) "invalid id")
    validate_upstream [] (nc_Upstreams n) >>>
  validateNetworkRouting n.

Definition validate_metrics (c : ConfigFile) : option string :=
  if negb (me_Enabled (cf_Metrics c)) then None
  else
    let p := me_Path (cf_Metrics c) in
    validateLiteralServeMuxPath p >>>
    check (String.eqb (TrimRight p "/") "") "metrics.path must not be the root" >>>
    check (ui_Enabled (cf_UI c) && String.eqb (TrimRight p "/") (TrimRight (ui_BasePath (cf_UI c)) "/"))
      "metrics.path conflicts with ui.basePath".

Definition validate_ui (u : UIConfig) : option string :=
  check (ui_Enabled u && match ui_Auth u with None => true | Some a => (length (au_Keys a) =? 0)%nat end)
    "ui.auth with at least one key is required" >>>
  if ui_Enabled u then
    validateLiteralServeMuxPath (ui_BasePath u) >>>
    check (String.eqb (TrimRight (ui_BasePath u) "/") "") "ui.basePath must not be the root path"
  else None.

Definition validate (c : ConfigFile) : option string :=
  validateLogLevel (cf_LogLevel c) >>>
  validateServer (cf_Server c) >>>
  validateDebugLogging (cf_DebugLogging c) >>>
  validateCORS (cf_CORS c) >>>
  failsafe_error (Some (cf_Failsafe c)) >>>
  validateHealth (cf_Health c) >>>
  validateRateLimiting (Some (cf_RateLimiting c)) >>>
  validateAuth (cf_Auth c) >>>
  validateAuth (ui_Auth (cf_UI c)) >>>
  validate_metrics c >>>
  check (negb (bool_decide (st_Driver (cf_State c) ∈ ["local"; "redis"; ""]))) "invalid state.driver" >>>
  check (String.eqb (st_Driver (cf_State c)) "redis" &&
         match st_Redis (cf_State c) with None => true | Some r => String.eqb (rd_URL r) "" end) "state.redis.url is required" >>>
  validate_ui (cf_UI c) >>>
  check (cf_LegacyProjects c) "top-level projects is no longer supported" >>>
  check (length (cf_Networks c) =? 0)%nat "at least one network is required" >>>
  first_error_unique nc_ID "duplicate network id"
    (λ n, check (String.eqb (nc_ID n) "") "id is required" >>> check (negb (validIdentifier (nc_ID n))) "invalid id")
    (λ n, validateNetwork n >>> validateHealth (EffectiveHealth (cf_Health c) (nc_Health n))) [] (cf_Networks c).

(** The loop over the remaining documents, [false] for a null one. *)
Fixpoint drain_documents (docs : list (decoded bool)) : option string :=
  match docs with
  | [] | DEOF :: _ => None
  | DErr :: _ => Some "parse config"
  | DVal nonnull :: docs => if nonnull then Some "multiple YAML documents are not supported" else drain_documents docs
  end.

Context (ExpandEnv : string → string).

(** [Load] after the file has been read; [zero] is [&Config{}]. *)
Definition Load (zero : ConfigFile) (first : decoded ConfigFile) (rest : list (decoded bool)) : string + ConfigFile :=
  match (match first with DErr => None | DEOF => Some zero | DVal c => Some c end) with
  | None => inl "parse config"
  | Some c =>
      match drain_documents rest with
      | Some e => inl e
      | None =>
          let c := expandSecrets ExpandEnv (applyDefaults c) in
          match validate c with Some e => inl e | None => inr c end
      end
  end.

(** The sections that are accepted where they have no effect: the upstreams and the overrides
    warned about. *)
Definition warnIgnoredFailsafe (n : NetworkConfig) : list string * list string :=
  (uc_ID <$> bfilter (λ u, match uc_Failsafe u with
                           | Some fs => bool_decide (is_Some (fs_Timeout fs)) || bool_decide (is_Some (fs_Retry fs)) ||
                                        bool_decide (is_Some (fs_Hedge fs)) || bool_decide (is_Some (fs_Consensus fs))
                           | None => false
                           end) (nc_Upstreams n),
   fo_PathPattern <$> bfilter (λ fo, bool_decide (is_Some (fs_CircuitBreaker (fo_Failsafe fo))) ||
                                     bool_decide (is_Some (fs_Consensus (fo_Failsafe fo)))) (nc_FailsafeOverrides n)).
End validate.

(** ** What validation establishes *)

(** Split a sequence of checks that found nothing. *)
Ltac checks H :=
  repeat match type of H with
  | (match ?e with Some _ => _ | None => _ end) = None =>
      let Hc := fresh "Hc" in destruct e eqn:Hc; [discriminate H|]
  end.

Lemma check_None bad msg : check bad msg = None ↔ bad = false.
Proof. unfold check. by destruct bad. Qed.

Lemma first_error_None {A} (f : A → option string) l : first_error f l = None ↔ ∀ x, x ∈ l → f x = None.
Proof.
  induction l as [|y l IH]; cbn; [set_solver|]. destruct (f y) eqn:E.
  - split; [done|]. intros H. specialize (H y ltac:(by left)). congruence.
  - rewrite IH. set_solver.
Qed.

Lemma first_error_unique_None {A} (name : A → string) dup before after seen l :
  first_error_unique name dup before after seen l = None →
  NoDup (name <$> l) ∧ ∀ x, x ∈ l → (name x ∉ seen) ∧ before x = None ∧ after x = None.
Proof.
  revert seen. induction l as [|y l IH]; intros seen H; cbn in *.
  { split; [constructor|by intros x ?%not_elem_of_nil]. }
  checks H. apply check_None, bool_decide_eq_false in Hc0. destruct (IH _ H) as [H1 H2]. split.
  - apply NoDup_cons. split; [|done]. intros (x & E & Hx)%list_elem_of_fmap_1. apply (H2 x Hx). rewrite E. by left.
  - intros x [-> |Hx]%elem_of_cons; [done|]. destruct (H2 x Hx) as (Hs & Hr). split; [|done].
    intros Hin. apply Hs. by right.
Qed.

(** A merged retry section keeps non-negative counts. *)
Lemma mergeRetry_valid b o r :
  opt_all validateRetry b = true → opt_all validateRetry o = true → mergeRetryConfig b o = Some r → 0 <= rt_MaxAttempts r.
Proof.
  unfold mergeRetryConfig, validateRetry. intros Hb Ho H.
  destruct o as [o|]; [|subst b; cbn in Hb; b2p; lia]. injection H as <-. cbn in *. b2p. unfold or_base.
  destruct (rt_MaxAttempts o =? 0); [|lia]. destruct b; cbn in *; b2p; lia.
Qed.

Lemma mergeHedge_valid b o h :
  opt_all (λ h, (0 <=? hg_Delay h) && (0 <=? hg_MaxCount h)) b = true →
  opt_all (λ h, (0 <=? hg_Delay h) && (0 <=? hg_MaxCount h)) o = true →
  mergeHedgeConfig b o = Some h → 0 <= hg_MaxCount h.
Proof.
  unfold mergeHedgeConfig. intros Hb Ho H.
  destruct o as [o|]; [|subst b; cbn in Hb; b2p; lia]. injection H as <-. cbn in *. b2p. unfold or_base.
  destruct (hg_MaxCount o =? 0); [|lia]. destruct b; cbn in *; b2p; lia.
Qed.

Lemma effective_failsafe_budget global net :
  validateFailsafe (Some global) = true → validateFailsafe net = true →
  let fs := EffectiveFailsafe global net in
  0 < MaxAttempts fs ∧ ∀ h, fs_Hedge fs = Some h → 0 <= hg_MaxCount h.
Proof.
  intros Hg Hn. cbn in Hg. b2p. cbv zeta. unfold EffectiveFailsafe, MaxAttempts.
  set (m := match net with None => _ | Some _ => _ end).
  assert ((∀ r, fs_Retry m = Some r → 0 <= rt_MaxAttempts r) ∧ (∀ h, fs_Hedge m = Some h → 0 <= hg_MaxCount h)) as [Hr Hh].
  { unfold m. destruct net as [n|].
    - cbn in Hn. b2p. cbn [fs_Retry fs_Hedge]. split.
      + intros r Er. destruct (fs_Retry n) as [rn|] eqn:En; [|rewrite Er in *; cbn in *; unfold validateRetry in *; b2p; lia].
        eapply mergeRetry_valid; [| |exact Er]; done.
      + intros h Eh. destruct (fs_Hedge n) as [hn|] eqn:En; [|rewrite Eh in *; cbn in *; b2p; lia].
        eapply mergeHedge_valid; [| |exact Eh]; done.
    - split; intros x Ex; rewrite Ex in *; cbn in *; unfold validateRetry in *; b2p; lia. }
  cbn [applyFailsafeDefaults fs_Retry fs_Hedge]. split; [|done].
  destruct (fs_Retry m) as [r|]; cbn [fmap option_fmap option_map]; [|lia]. cbn [default_retry rt_MaxAttempts].
  apply or_base_pos; [by apply Hr|lia].
Qed.

Section loaded.
Context `{RX : RegexpLib} `{NL : NetLib}.
Context (ParseURL : string → option (string * string)) (ExpandEnv : string → string).

(** A network as the other components expect it. *)
Record network_sound (c : ConfigFile) (n : NetworkConfig) : Prop := {
  ns_upstreams : nc_Upstreams n ≠ [];
  ns_unique : NoDup (uc_ID <$> nc_Upstreams n);
  ns_ids u : u ∈ nc_Upstreams n → validIdentifier (uc_ID u) = true;
  ns_timing : 0 < nc_SecondsPerSlot n ∧ 0 < nc_SlotsPerEpoch n;
  ns_budget : let fs := EffectiveFailsafe (cf_Failsafe c) (nc_Failsafe n) in
              0 < MaxAttempts fs ∧ ∀ h, fs_Hedge fs = Some h → 0 <= hg_MaxCount h;
  ns_health : let h := EffectiveHealth (cf_Health c) (nc_Health n) in 0 < h_CheckInterval h ∧ 0 < h_FinalityInterval h;
  ns_rebalance : 0 < ro_RebalanceInterval (nc_Routing n);
  ns_cache : 0 < cc_MaxSize (nc_Cache n) ∧
             ∀ p, p ∈ cc_Policies (nc_Cache n) → is_Some (re_Compile (cp_Pattern p)) ∧ 0 <= cp_TTL p;
  ns_blocked p : p ∈ ro_BlockedPaths (nc_Routing n) → is_Some (re_Compile p);
  ns_rules rr : rr ∈ ro_RouteRules (nc_Routing n) →
    is_Some (re_Compile (rr_PathPattern rr)) ∧
    (rr_Deny rr = true ∧ rr_UpstreamID rr = "" ∨
     rr_Deny rr = false ∧ rr_UpstreamID rr ∈ (uc_ID <$> nc_Upstreams n));
}.

Lemma bad_regex_false p : bad_regex p = false → is_Some (re_Compile p).
Proof. unfold bad_regex. destruct (re_Compile p); [by eexists|done]. Qed.

Lemma validate_networks c : validate ParseURL c = None →
  validateFailsafe (Some (cf_Failsafe c)) = true ∧ NoDup (nc_ID <$> cf_Networks c) ∧ cf_Networks c ≠ [] ∧
  ∀ n, n ∈ cf_Networks c → validateNetwork ParseURL n = None ∧ validIdentifier (nc_ID n) = true ∧
    validateHealth (EffectiveHealth (cf_Health c) (nc_Health n)) = None.
Proof.
  unfold validate. intros H. checks H. apply check_None, negb_false_iff in Hc3.
  apply first_error_unique_None in H as [H1 H2]. split_and!; [done|done| |].
  - apply check_None in Hc13. by destruct (cf_Networks c).
  - intros n Hn. destruct (H2 n Hn) as (_ & Hb & Ha). checks Hb. checks Ha. apply check_None, negb_false_iff in Hb. done.
Qed.

Lemma validateNetwork_sound c n :
  validateFailsafe (Some (cf_Failsafe c)) = true → validateNetwork ParseURL n = None →
  validateHealth (EffectiveHealth (cf_Health c) (nc_Health n)) = None → network_sound c n.
Proof.
  intros Hg H Hh. unfold validateNetwork in H. checks H. unfold validateNetworkRouting in H. checks H.
  unfold validateHealth in Hh. checks Hh.
  repeat match goal with Hx : check _ _ = None |- _ => apply check_None in Hx end.
  match goal with Hx : failsafe_error _ = None |- _ => apply check_None, negb_false_iff in Hx as Hfs end.
  match goal with Hx : first_error_unique _ _ _ _ _ _ = None |- _ => apply first_error_unique_None in Hx as [Hnd Hups] end.
  repeat match goal with Hx : first_error _ _ = None |- _ => rewrite first_error_None in Hx end.
  b2p. constructor.
  - by destruct (nc_Upstreams n).
  - done.
  - intros u Hu. destruct (Hups u Hu) as (_ & Hb & _). checks Hb. by apply check_None, negb_false_iff in Hb.
  - lia.
  - by apply effective_failsafe_budget.
  - cbv zeta. lia.
  - lia.
  - split; [lia|]. intros p Hp.
    match goal with Hx : ∀ x, x ∈ cc_Policies _ → _ |- _ => specialize (Hx p Hp); unfold validate_policy in Hx; checks Hx end.
    repeat match goal with Hx : check _ _ = None |- _ => apply check_None in Hx end. b2p.
    split; [by apply bad_regex_false|lia].
  - intros p Hp. match goal with Hx : ∀ x, x ∈ ro_BlockedPaths _ → _ |- _ => specialize (Hx p Hp); apply check_None in Hx end.
    by apply bad_regex_false.
  - intros rr Hr. specialize (H rr Hr). unfold validate_route_rule in H. checks H.
    repeat match goal with Hx : check _ _ = None |- _ => apply check_None in Hx end.
    split; [by apply bad_regex_false|].
    destruct (rr_Deny rr), (String.eqb_spec (rr_UpstreamID rr) ""); cbn [andb negb] in *; try done; [by left|].
    right. split; [done|]. match goal with Hx : negb (bool_decide _) = false |- _ => apply negb_false_iff, bool_decide_eq_true in Hx end. done.
Qed.

Lemma Load_validated zero first rest c : Load ParseURL ExpandEnv zero first rest = inr c → validate ParseURL c = None.
Proof.
  unfold Load. destruct (match first with DErr => _ | DEOF => _ | DVal _ => _ end) as [c0|]; [|done].
  destruct (drain_documents rest); [done|]. cbv zeta. destruct (validate ParseURL _) eqn:Ev; [done|]. by intros [= <-].
Qed.

Lemma Load_networks zero first rest c :
  Load ParseURL ExpandEnv zero first rest = inr c →
  cf_Networks c ≠ [] ∧ NoDup (nc_ID <$> cf_Networks c) ∧
  ∀ n, n ∈ cf_Networks c → validIdentifier (nc_ID n) = true ∧ network_sound c n.
Proof.
  intros Ev%Load_validated. apply validate_networks in Ev as (H1 & H2 & H3 & H4). split_and!; [done|done|]. intros n Hn.
  destruct (H4 n Hn) as (Hv & Hi & Hh). split; [done|]. by apply validateNetwork_sound.
Qed.

End loaded.

(** ** Witnesses *)

Module ConfigDemo.
#[local] Instance DemoNet : NetLib := {|
  Addr := string; Prefix := string; ParseAddr := Some; ParsePrefix := Some; Addr_Unmap := id;
  Prefix_Masked := id; PrefixOfAddr := id; Prefix_Contains := String.eqb; SplitHostPort := Some |}.

Definition no_failsafe : FailsafeConfig :=
  {| fs_Timeout := None; fs_Retry := None; fs_Hedge := None; fs_CircuitBreaker := None; fs_Consensus := None |}.

(** A file that only names a network and an upstream; [overrides] are its path overrides. *)
Definition demo_network (overrides : list FailsafeOverride) : NetworkConfig :=
  {| nc_ID := "mainnet"; nc_GenesisTime := 0; nc_SecondsPerSlot := 0; nc_SlotsPerEpoch := 0;
     nc_Upstreams := [{| uc_ID := "node-1"; uc_URL := "http://10.0.0.1:5052"; uc_Headers := ∅; uc_Failsafe := None;
                         uc_Priority := 0; uc_Weight := 0; uc_Archive := false; uc_RateLimiting := None |}];
     nc_Failsafe := None; nc_FailsafeOverrides := overrides;
     nc_Routing := {| ro_LoadBalancing := ""; ro_StickySession := false; ro_StickyTimeout := 0; ro_BlockedPaths := [];
                      ro_RebalanceInterval := 0; ro_RebalanceThreshold := f64_zero; ro_RebalanceMaxSweep := 0;
                      ro_ScoreWeights := None; ro_ScoreWindowSize := 0; ro_ClientRoutes := []; ro_RouteRules := [] |};
     nc_Cache := {| cc_Enabled := true; cc_MaxSize := 0; cc_Driver := ""; cc_Redis := None; cc_Policies := [] |};
     nc_Health := None; nc_RateLimiting := None |}.

Definition demo_file (overrides : list FailsafeOverride) : ConfigFile :=
  {| cf_LogLevel := "";
     cf_DebugLogging := {| dl_Enabled := false; dl_Path := ""; dl_MaxSizeMB := 0; dl_MaxBackups := 0; dl_MaxBodyBytes := 0 |};
     cf_Server := {| sv_Host := ""; sv_Port := 0; sv_MaxTimeout := 0; sv_EnableGzip := None; sv_MaxResponseBodyBytes := 0;
                     sv_TrustedProxies := [] |};
     cf_Pprof := {| pp_Enabled := false; pp_Host := ""; pp_Port := 0 |};
     cf_CORS := None; cf_Auth := None; cf_Networks := [demo_network overrides]; cf_LegacyProjects := false;
     cf_Failsafe := no_failsafe; cf_RateLimiting := {| rl_PerIP := None; rl_Global := None |};
     cf_Health := {| h_CheckInterval := 0; h_FinalityInterval := 0; h_MaxSyncDistance := 0; h_FollowDistance := 0;
                     h_MaxHeadDistance := 0 |};
     cf_Metrics := {| me_Enabled := false; me_Path := "" |}; cf_State := {| st_Driver := ""; st_Redis := None |};
     cf_UI := {| ui_Enabled := false; ui_BasePath := ""; ui_Auth := None |} |}.

Definition demo_url (_ : string) : option (string * string) := Some ("http", "10.0.0.1:5052").

Definition demo_loaded (overrides : list FailsafeOverride) : ConfigFile :=
  expandSecrets id (applyDefaults (demo_file overrides)).


(** Path overrides are not validated: a file whose override asks for a negative number of attempts
    loads, and the requests the override matches run with that budget. *)
Definition demo_override : FailsafeOverride :=
  {| fo_PathPattern := "^/eth/"; fo_Methods := [];
     fo_Failsafe := {| fs_Timeout := None;
                       fs_Retry := Some {| rt_MaxAttempts := -1; rt_Delay := 0; rt_Backoff := f64_zero; rt_Jitter := 0; rt_MaxDelay := 0 |};
                       fs_Hedge := None; fs_CircuitBreaker := None; fs_Consensus := None |} |}.

Lemma override_not_validated :
  Load (RX := MiniRegexp) demo_url id (demo_file []) (DVal (demo_file [demo_override])) [] = inr (demo_loaded [demo_override]) ∧
  MaxAttempts (mergeFailsafe (EffectiveFailsafe (cf_Failsafe (demo_loaded [demo_override])) None) (fo_Failsafe demo_override)) = -1.
Proof. split; vm_compute; reflexivity. Qed.
End ConfigDemo.
