(* ===== verification/RedisStore.v ===== *)
(** * The Redis cache store

    [cache/redis.go]: responses kept in a Redis database that several processes may share.  The
    server is the class [RedisLib] with its documented behaviour ([RedisLaws]); [encoding/gob] is a pair of
    functions of which decoding inverts encoding.  Any command may fail: a failed write may or
    may not have been applied, and a failed read is a miss. *)

From S2P Require Import Prelude GoStrings GoFloat Config MemoryStore Regexp Url CacheKey Cache ConfigFile.
From Stdlib Require Import Ascii.
#[local] Open Scope string_scope.
#[local] Open Scope Z_scope.

(** ** The server *)

(** Commands with the time at which the server runs them.  [rd_TTL] is the remaining lifetime, [-1] without an expiry,
    [-2] for a missing key; [rd_Scan] is a full iteration, batch by batch. *)
Class RedisLib := {
  redis : Type;
  rd_Get : Z → string → redis → option string;
  rd_Set : Z → string → string → Z → redis → redis;
  rd_Del : string → redis → redis;
  rd_Expire : Z → string → Z → redis → redis;
  rd_TTL : Z → string → redis → Z;
  rd_Scan : Z → string → redis → list (list string);
}.

(** The characters with a meaning in a [MATCH] pattern. *)
Definition glob_special (c : ascii) : bool := in_set "*?[]\^" c.

Class RedisLaws `(R : RedisLib) : Prop := {
  Get_Set now later k k' v ttl s : now <= later → 0 < ttl →
    rd_Get later k' (rd_Set now k v ttl s) =
    if String.eqb k' k then (if later <? now + ttl then Some v else None) else rd_Get later k' s;
  Get_Del later k k' s : rd_Get later k' (rd_Del k s) = if String.eqb k' k then None else rd_Get later k' s;
  Get_Expire now later k k' ttl s : now <= later → 0 < ttl →
    rd_Get later k' (rd_Expire now k ttl s) =
    if String.eqb k' k then (if later <? now + ttl then rd_Get now k s else None) else rd_Get later k' s;
  Scan_complete now prefix s k : has_byte glob_special prefix = false →
    HasPrefix k prefix = true → is_Some (rd_Get now k s) → k ∈ mjoin (rd_Scan now (prefix +:+ "*") s);
  Scan_sound now pattern s k : k ∈ mjoin (rd_Scan now pattern s) → is_Some (rd_Get now k s);
}.

(** ** Entries *)

Record redisEntry := { re_Key : string; re_Status : Z; re_Headers : Header; re_Body : string; re_Created : Z }.

Definition foreverTTL : Z := 24 * Hour * 365.
Definition lenCacheTTL : Z := 10 * Second.

Definition to_redis (e : Entry) : redisEntry :=
  {| re_Key := e_key e; re_Status := e_status e; re_Headers := e_headers e; re_Body := e_body e; re_Created := e_created e |}.

Definition of_redis (r : redisEntry) : Entry :=
  {| e_key := re_Key r; e_status := re_Status r; e_headers := re_Headers r; e_body := re_Body r; e_created := re_Created r;
     e_expires := None; e_gzip := None |}.

Section redis_store.
Context `{R : RedisLib} (gob_Encode : redisEntry → option string) (gob_Decode : string → option redisEntry).

(** [rst_countAt] is [None] for the zero time. *)
Record RedisStore := { rst_keyPrefix : string; rst_count : Z; rst_countAt : option Z }.

(** [NewRedisStore]; [ping] tells whether the server answered, [None] is an error. *)
Definition NewRedisStore (ParseRedisURL : string → option RedisOptions) (ping : RedisOptions → bool) (cfg : RedisCacheConfig)
    : option RedisStore :=
  match Redis_Options ParseRedisURL (rc_Redis cfg) with
  | None => None
  | Some opts => if ping opts then Some {| rst_keyPrefix := rc_KeyPrefix cfg; rst_count := 0; rst_countAt := None |} else None
  end.

Definition prefixed (r : RedisStore) (key : string) : string := rst_keyPrefix r +:+ key.

Definition decodeRedisPayload (data : string) : option Entry := of_redis <$> gob_Decode data.

Definition RedisStore_Get (ok : bool) (now : Z) (key : string) (r : RedisStore) (s : redis) : option Entry :=
  if ok then rd_Get now (prefixed r key) s ≫= decodeRedisPayload else None.

Definition RedisStore_Set (applied : bool) (now : Z) (key : string) (entry : Entry) (ttl : Z) (r : RedisStore) (s : redis) : redis :=
  match gob_Encode (to_redis entry) with
  | None => s
  | Some data =>
      let ttl := if ttl <=? 0 then foreverTTL else ttl in
      if applied then rd_Set now (prefixed r key) data ttl s else s
  end.

Definition RedisStore_Delete (applied : bool) (key : string) (r : RedisStore) (s : redis) : redis :=
  if applied then rd_Del (prefixed r key) s else s.

(** The keys of a scan of which the first [calls] commands succeed. *)
Definition scanned (calls : nat) (now : Z) (r : RedisStore) (s : redis) : list string :=
  mjoin (take calls (rd_Scan now (prefixed r "*") s)).

Definition RedisStore_Keys (calls : nat) (now : Z) (r : RedisStore) (s : redis) : list string :=
  omap (λ k, CutPrefix k (rst_keyPrefix r)) (scanned calls now r s).

(** The pipeline of [PromoteIf]: which commands are applied, and which are answered. *)
Definition RedisStore_PromoteIf (calls : nat) (applied replied : string → bool) (now : Z) (fn : string → bool) (r : RedisStore) (s : redis)
    : redis * Z :=
  let matched := bfilter fn (RedisStore_Keys calls now r s) in
  foldl (λ '(s, n) key,
           let found := bool_decide (is_Some (rd_Get now (prefixed r key) s)) in
           (if applied key then rd_Expire now (prefixed r key) foreverTTL s else s,
            if applied key && replied key && found then n + 1 else n)) (s, 0) matched.

(** Newest first, then by key. *)
Definition entry_before (a b : Entry) : bool :=
  if e_created a =? e_created b then String.ltb (e_key a) (e_key b) else e_created b <? e_created a.

(** One scanned key of [Entries]: whether [GET] and [TTL] succeed. *)
Definition redis_snapshot (gets ttls : string → bool) (now : Z) (s : redis) (key : string) : option Entry :=
  if gets key then
    match rd_Get now key s ≫= decodeRedisPayload with
    | None => None
    | Some e =>
        if ttls key then
          let ttl := rd_TTL now key s in
          if 0 <? ttl then Some (set_expires (Some (now + ttl)) e) else if ttl =? -2 then None else Some e
        else Some e
    end
  else None.

Definition RedisStore_Entries (calls : nat) (gets ttls : string → bool) (now limit : Z) (r : RedisStore) (s : redis) : list Entry :=
  let entries := stable_sort entry_before (omap (redis_snapshot gets ttls now s) (scanned calls now r s)) in
  if (0 <? limit) && (limit <? Z.of_nat (length entries)) then take (Z.to_nat limit) entries else entries.

(** The count is refreshed at most every ten seconds; a scan that fails keeps the old one. *)
Definition RedisStore_Len (calls : nat) (now : Z) (r : RedisStore) (s : redis) : RedisStore * Z :=
  if match rst_countAt r with Some at_ => now - at_ <? lenCacheTTL | None => false end then (r, rst_count r)
  else
    let batches := rd_Scan now (prefixed r "*") s in
    let count := if (length batches <=? calls)%nat then Z.of_nat (length (mjoin batches)) else rst_count r in
    ({| rst_keyPrefix := rst_keyPrefix r; rst_count := count; rst_countAt := Some now |}, count).
End redis_store.

(** ** What the store guarantees *)

(** What is kept of an entry: the expiry and the compressed body are not. *)
Definition persisted (e : Entry) : Entry := of_redis (to_redis e).

(** The prefix that configuration gives a network without one of its own. *)
Definition default_prefix (id : string) : string := "ebeacon:" +:+ id +:+ ":".

Section redis_safety.
Context `{R : RedisLib} `{L : !RedisLaws R} (gob_Encode : redisEntry → option string) (gob_Decode : string → option redisEntry).
Context (gob_roundtrip : ∀ x data, gob_Encode x = Some data → gob_Decode data = Some x).
Implicit Types r : RedisStore.
Implicit Types s : redis.

Lemma forever_pos : 0 < foreverTTL.
Proof. by vm_compute. Qed.

Lemma prefixed_inj r k k' : String.eqb (prefixed r k') (prefixed r k) = String.eqb k' k.
Proof.
  unfold prefixed. destruct (String.eqb_spec k' k) as [->|Hn]; [apply String.eqb_refl|].
  apply String.eqb_neq. intros H. by apply str_app_inj_l in H.
Qed.


(** ** Scans *)

Lemma redis_keys_spec calls now r s key :
  (key ∈ RedisStore_Keys calls now r s → is_Some (rd_Get now (prefixed r key) s)) ∧
  (has_byte glob_special (rst_keyPrefix r) = false → (length (rd_Scan now (prefixed r "*") s) <= calls)%nat →
   is_Some (rd_Get now (prefixed r key) s) → key ∈ RedisStore_Keys calls now r s).
Proof.
  unfold RedisStore_Keys. split.
  - intros (k & Hk & Hc)%list_elem_of_omap. unfold CutPrefix in Hc. destruct (HasPrefix k _) eqn:Ep; [|done]. injection Hc as Hc.
    apply HasPrefix_spec in Ep as [t ->]. rewrite str_drop_app in Hc. subst t. apply (Scan_sound now (prefixed r "*")).
    unfold scanned in Hk. rewrite list_elem_of_join in *. destruct Hk as (b & Hb & Hin). exists b. split; [done|].
    by eapply elem_of_take in Hin as (i & Hi & _); apply list_elem_of_lookup; exists i.
  - intros Hg Hall Hl. apply list_elem_of_omap. exists (prefixed r key). split.
    + unfold scanned. rewrite take_ge by done. apply Scan_complete; [done|apply HasPrefix_app|done].
    + unfold CutPrefix, prefixed. by rewrite HasPrefix_app, str_drop_app.
Qed.

(** The keys a scan lists are exactly the keys that can be read: for a prefix without glob characters and a scan whose
    commands all succeed, a key is listed if and only if a lookup of it would reach an entry;
    and whatever the prefix is and wherever a scan breaks off, every listed key is one of the store's own. *)
Theorem redis_keys_exact calls now r s key :
  (key ∈ RedisStore_Keys calls now r s → is_Some (rd_Get now (prefixed r key) s)) ∧
  (has_byte glob_special (rst_keyPrefix r) = false → (length (rd_Scan now (prefixed r "*") s) <= calls)%nat →
   is_Some (rd_Get now (prefixed r key) s) → key ∈ RedisStore_Keys calls now r s).
Proof. apply redis_keys_spec. Qed.

Lemma promote_fold now keys r s n :
  (∀ k, k ∈ keys → is_Some (rd_Get now (prefixed r k) s)) →
  let '(s', n') := foldl (λ '(s, n) key,
           let found := bool_decide (is_Some (rd_Get now (prefixed r key) s)) in
           (if true then rd_Expire now (prefixed r key) foreverTTL s else s,
            if true && true && found then n + 1 else n)) (s, n) keys in
  n' = n + Z.of_nat (length keys) ∧
  ∀ later full, now <= later < now + foreverTTL →
    rd_Get later full s' = if bool_decide (full ∈ prefixed r <$> keys) then rd_Get now full s else rd_Get later full s.
Proof.
  revert s n. induction keys as [|k keys IH]; intros s n Hk; cbn [foldl].
  - split; [cbn; lia|]. intros later full _. by rewrite bool_decide_false by (by intros ?%not_elem_of_nil).
  - rewrite bool_decide_true by (apply Hk; by left). cbn [andb].
    assert (∀ later full, now <= later < now + foreverTTL →
      rd_Get later full (rd_Expire now (prefixed r k) foreverTTL s) =
      if String.eqb full (prefixed r k) then rd_Get now full s else rd_Get later full s) as Hx.
    { intros later full Hl. rewrite Get_Expire by (lia || apply forever_pos). destruct (String.eqb_spec full (prefixed r k)) as [->|]; [|done].
      by rewrite (proj2 (Z.ltb_lt _ _)) by lia. }
    assert (∀ full, rd_Get now full (rd_Expire now (prefixed r k) foreverTTL s) = rd_Get now full s) as Hnow.
    { intros full. pose proof forever_pos. rewrite Hx by lia. by destruct (String.eqb _ _). }
    specialize (IH (rd_Expire now (prefixed r k) foreverTTL s) (n + 1)). 
    destruct (foldl _ (rd_Expire now (prefixed r k) foreverTTL s, n + 1) keys) as [s' n'].
    destruct IH as [H1 H2]; [intros k' Hk'; rewrite Hnow; apply Hk; by right|]. split; [cbn; lia|].
    intros later full Hl. rewrite H2, Hnow, Hx by done. rewrite fmap_cons.
    destruct (String.eqb_spec full (prefixed r k)) as [->|Hne].
    + rewrite (bool_decide_true (prefixed r k ∈ prefixed r k :: _)) by (by left). by case_bool_decide.
    + rewrite (bool_decide_ext (full ∈ prefixed r k :: (prefixed r <$> keys)) (full ∈ prefixed r <$> keys)); [done|].
      rewrite elem_of_cons. tauto.
Qed.

(** Promotion extends exactly the entries it selects: when the scan is complete and the commands succeed, every selected entry
    that is live stays readable for a year from now on, every other key keeps its lifetime, and the
    result counts the selected keys of the scan (also those promoted before). *)
Theorem redis_promote calls now fn r s :
  has_byte glob_special (rst_keyPrefix r) = false → (length (rd_Scan now (prefixed r "*") s) <= calls)%nat →
  let '(s', n) := RedisStore_PromoteIf calls (λ _, true) (λ _, true) now fn r s in
  n = Z.of_nat (length (bfilter fn (RedisStore_Keys calls now r s))) ∧
  ∀ later key, now <= later < now + foreverTTL →
    RedisStore_Get gob_Decode true later key r s' =
    if fn key && bool_decide (is_Some (rd_Get now (prefixed r key) s)) then RedisStore_Get gob_Decode true now key r s
    else RedisStore_Get gob_Decode true later key r s.
Proof.
  intros Hg Hall. unfold RedisStore_PromoteIf. cbv zeta. set (matched := bfilter fn (RedisStore_Keys calls now r s)).
  assert (∀ key, key ∈ matched ↔ fn key && bool_decide (is_Some (rd_Get now (prefixed r key) s)) = true) as Hm.
  { intros key. unfold matched. rewrite elem_of_bfilter, andb_true_iff, bool_decide_eq_true.
    destruct (redis_keys_spec calls now r s key). naive_solver. }
  pose proof (promote_fold now matched r s 0) as H. destruct (foldl _ _ matched) as [s' n].
  destruct H as [H1 H2]; [intros k [_ Hk%bool_decide_eq_true]%Hm%andb_true_iff; exact Hk|]. split; [lia|].
  intros later key Hl. unfold RedisStore_Get. rewrite H2 by done.
  assert (prefixed r key ∈ prefixed r <$> matched ↔ key ∈ matched) as Hin.
  { rewrite list_elem_of_fmap. split; [|by eexists]. intros (k & E & Hk). unfold prefixed in E. by apply str_app_inj_l in E as ->. }
  rewrite (bool_decide_ext _ _ Hin). destruct (fn key && _) eqn:E.
  - by rewrite bool_decide_true by (by apply Hm).
  - rewrite bool_decide_false; [done|]. intros Hk%Hm. congruence.
Qed.

(** The prefix that loading a configuration fills in. *)
Lemma default_prefix_loaded id c cfg :
  cc_Redis (cache_defaults id c) = Some cfg → or_base_s (cc_Driver c) "memory" = "redis" →
  rc_KeyPrefix cfg = default_prefix id ∨ ∃ cfg0, cc_Redis c = Some cfg0 ∧ rc_KeyPrefix cfg = rc_KeyPrefix cfg0 ∧ rc_KeyPrefix cfg ≠ "".
Proof.
  intros H Hd. unfold cache_defaults in H. cbn [cc_Redis] in H. rewrite Hd in H. cbn in H.
  destruct (cc_Redis c) as [cfg0|]; [|done]. injection H as <-. cbn [rc_KeyPrefix]. unfold or_base_s.
  destruct (String.eqb_spec (rc_KeyPrefix cfg0) ""); [by left|right]. by exists cfg0.
Qed.

Lemma valid_plain id : validIdentifier id = true → no_byte ":" id ∧ has_byte glob_special id = false.
Proof.
  destruct id as [|c rest]; [done|]. cbn [validIdentifier]. intros [Hc Hr%negb_true_iff]%andb_true_iff. split.
  - apply no_byte_cons. split; [intros E; subst c; by vm_compute in Hc|]. revert Hr. apply has_byte_mono. intros d E%Ascii.eqb_eq. subst d. by vm_compute.
  - cbn [has_byte]. apply orb_false_iff. split.
    + revert Hc. clear. by destruct c as [[] [] [] [] [] [] [] []].
    + revert Hr. apply has_byte_mono. clear. intros d. by destruct d as [[] [] [] [] [] [] [] []].
Qed.

(** Networks that share a database do not see each other: the keys written under the default prefixes of two networks
    with valid, distinct identifiers never coincide, and a scan for one lists no key of the other. *)
Theorem default_prefixes_isolate id1 id2 c1 c2 key1 key2 :
  validIdentifier id1 = true → validIdentifier id2 = true → id1 ≠ id2 →
  let r1 := {| rst_keyPrefix := default_prefix id1; rst_count := c1; rst_countAt := None |} in
  let r2 := {| rst_keyPrefix := default_prefix id2; rst_count := c2; rst_countAt := None |} in
  has_byte glob_special (default_prefix id1) = false ∧ prefixed r1 key1 ≠ prefixed r2 key2 ∧
  CutPrefix (prefixed r2 key2) (rst_keyPrefix r1) = None.
Proof.
  intros H1 H2 Hne r1 r2. destruct (valid_plain id1 H1) as [N1 G1], (valid_plain id2 H2) as [N2 _].
  assert (∀ t, prefixed r2 key2 ≠ default_prefix id1 +:+ t) as Hp.
  { intros t E. unfold prefixed, r2, default_prefix in E. cbn [rst_keyPrefix] in E. rewrite !str_app_assoc in E.
    apply str_app_inj_l, (f_equal (CutByte ":")) in E. change (":" +:+ key2) with (String ":" key2) in E.
    change (":" +:+ t) with (String ":" t) in E. rewrite !CutByte_app in E by done. congruence. }
  split_and!.
  - unfold default_prefix. by rewrite !has_byte_app, G1.
  - intros E. by apply (Hp key1).
  - unfold CutPrefix. destruct (HasPrefix (prefixed r2 key2) (rst_keyPrefix r1)) eqn:E; [|done].
    apply HasPrefix_spec in E as [t E]. by destruct (Hp t).
Qed.
End redis_safety.

Module RedisDemo.
(** A database as a map from keys to values with the time from which they are gone. *)
Abbreviation db := (gmap string (string * Z)).

Definition live (now : Z) (x : string * Z) : bool := now <? x.2.

#[local] Instance DemoRedis : RedisLib := {|
  redis := db;
  rd_Get := λ now k s, match s !! k with Some x => if live now x then Some x.1 else None | None => None end;
  rd_Set := λ now k v ttl s, <[k := (v, now + ttl)]> s;
  rd_Del := λ k s, delete k s;
  rd_Expire := λ now k ttl s, match s !! k with
                              | Some x => if live now x then <[k := (x.1, now + ttl)]> s else delete k s
                              | None => s
                              end;
  rd_TTL := λ now k s, match s !! k with Some x => if live now x then x.2 - now else -2 | None => -2 end;
  rd_Scan := λ now pattern s, [(bfilter (λ x, live now x.2 && HasPrefix x.1 (TrimSuffix pattern "*")) (map_to_list s)).*1];
|}.

#[local] Instance DemoLaws : RedisLaws DemoRedis.
Proof.
  constructor; change redis with db; cbn [rd_Get rd_Set rd_Del rd_Expire rd_Scan DemoRedis].
  - intros now later k k' v ttl s _ _. destruct (String.eqb_spec k' k) as [->|Hn]; [|by rewrite lookup_insert_ne].
    rewrite lookup_insert_eq. done.
  - intros later k k' s. destruct (String.eqb_spec k' k) as [->|Hn]; [by rewrite lookup_delete_eq|by rewrite lookup_delete_ne].
  - intros now later k k' ttl s Hl Ht. destruct (String.eqb_spec k' k) as [->|Hn].
    + destruct (s !! k) as [x|] eqn:E; [|rewrite E; by destruct (later <? now + ttl)]. destruct (live now x).
      * by rewrite lookup_insert_eq.
      * rewrite lookup_delete_eq. by destruct (later <? now + ttl).
    + destruct (s !! k) as [x|]; [|done]. destruct (live now x); [by rewrite lookup_insert_ne|by rewrite lookup_delete_ne].
  - intros now prefix s k _ Hp [v Hv]. cbn [mjoin list_join]. rewrite app_nil_r, TrimSuffix_app.
    destruct (s !! k) as [x|] eqn:E; [|done]. destruct (live now x) eqn:El; [|done].
    apply list_elem_of_fmap. exists (k, x). split; [done|]. apply elem_of_bfilter. split; [by apply elem_of_map_to_list|]. cbn [fst snd]. by rewrite El, Hp.
  - intros now pattern s k. cbn [mjoin list_join]. rewrite app_nil_r. intros ((k0 & x) & -> & [Hx%elem_of_map_to_list Hl]%elem_of_bfilter)%list_elem_of_fmap.
    cbn [fst snd] in *. apply andb_true_iff in Hl as [Hl _]. rewrite Hx, Hl. by eexists.
Qed.

(** Entries printed as their body, enough to run the store. *)
Definition demo_entry (body : string) : redisEntry :=
  {| re_Key := "k"; re_Status := 200; re_Headers := ∅; re_Body := body; re_Created := 1 |}.

#[local] Instance redisEntry_eq_dec : EqDecision redisEntry.
Proof. solve_decision. Defined.

Definition demo_encode (x : redisEntry) : option string := if decide (x = demo_entry (re_Body x)) then Some (re_Body x) else None.
Definition demo_decode (s : string) : option redisEntry := Some (demo_entry s).

Lemma demo_gob x data : demo_encode x = Some data → demo_decode data = Some x.
Proof. unfold demo_encode, demo_decode. destruct (decide _) as [E|]; [|done]. intros [= <-]. by rewrite <- E. Qed.

Definition demo_store : RedisStore := {| rst_keyPrefix := default_prefix "mainnet"; rst_count := 0; rst_countAt := None |}.
Definition demo_other : RedisStore := {| rst_keyPrefix := default_prefix "hoodi"; rst_count := 0; rst_countAt := None |}.
Definition demo_cached : Entry := of_redis (demo_entry "{}").
Definition demo_db : redis := RedisStore_Set demo_encode true 10 "k" demo_cached 5 demo_store ∅.


Lemma redis_promote_witness :
  let '(s', n) := RedisStore_PromoteIf 1 (λ _, true) (λ _, true) 12 (λ _, true) demo_store demo_db in
  n = 1 ∧ RedisStore_Get demo_decode true (12 + Hour) "k" demo_store s' = Some (persisted demo_cached).
Proof.
  pose proof (redis_promote demo_decode 1 12 (λ _, true) demo_store demo_db eq_refl ltac:(by vm_compute)) as H.
  destruct (RedisStore_PromoteIf 1 (λ _, true) (λ _, true) 12 (λ _, true) demo_store demo_db) as [s' n]. destruct H as [-> H]. split; [vm_compute; reflexivity|].
  rewrite H by (vm_compute; split; congruence). vm_compute. reflexivity.
Defined.

Lemma redis_keys_exact_witness : RedisStore_Keys 1 12 demo_store demo_db = ["k"] ∧ "k" ∈ RedisStore_Keys 1 12 demo_store demo_db.
Proof.
  split; [vm_compute; reflexivity|]. apply (redis_keys_exact 1 12 demo_store demo_db "k"); [vm_compute; reflexivity|by vm_compute|].
  by exists "{}".
Defined.

Lemma default_prefixes_isolate_witness :
  prefixed demo_store "GET:/a" ≠ prefixed demo_other "GET:/a" ∧ default_prefix "mainnet" = "ebeacon:mainnet:".
Proof.
  split; [|reflexivity].
  exact (proj1 (proj2 (default_prefixes_isolate "mainnet" "hoodi" 0 0 "GET:/a" "GET:/a" eq_refl eq_refl ltac:(congruence)))).
Defined.
End RedisDemo.
