(* ===== verification/Headers.v ===== *)
(** * Headers, bodies and small request helpers

    [network/network.go]: which headers cross the proxy, the request that is sent to an upstream
    ([newUpstreamRequest], the header part of [forward], [probeRequest]), the upstream directive, the response
    body helpers, and [retryDelay].  What the code uses of [net/http.Header] and
    [net/textproto] comes first.

    A header map is iterated in an order the language does not fix; the order is the one of
    [map_to_list] here, and no statement below depends on it. *)

From S2P Require Import Prelude GoStrings GoFloat Config ScoreTracker AutoTuner Upstream MemoryStore Url CacheKey Historical Session Consensus.
From Stdlib Require Import Ascii SpecFloat.
#[local] Open Scope string_scope.
#[local] Open Scope Z_scope.

(** ** [net/http.Header] *)

(** The bytes of an HTTP token. *)
Definition token_byte (c : ascii) : bool :=
  let n := byte_val c in
  ((97 <=? n) && (n <=? 122)) || ((65 <=? n) && (n <=? 90)) || is_digit c || in_set "!#$%&'*+-.^_`|~" c.

Definition upper_ascii (c : ascii) : ascii :=
  let n := byte_val c in if (97 <=? n) && (n <=? 122) then ascii_of_N (Z.to_N (n - 32)) else c.
Definition lower_ascii (c : ascii) : ascii :=
  let n := byte_val c in if (65 <=? n) && (n <=? 90) then ascii_of_N (Z.to_N (n + 32)) else c.

Fixpoint canonical_from (upper : bool) (s : string) : string :=
  match s with
  | EmptyString => ""
  | String c s =>
      let c := if upper then upper_ascii c else lower_ascii c in
      String c (canonical_from (Ascii.eqb c "-") s)
  end.

(** [textproto.CanonicalMIMEHeaderKey]: a name with a byte that no token has is left alone. *)
Definition CanonicalKey (s : string) : string :=
  if has_byte (λ c, negb (token_byte c)) s then s else canonical_from true s.

Definition hdr_get (h : Header) (k : string) : string := Header_Get h (CanonicalKey k).
Definition hdr_values (h : Header) (k : string) : list string := default [] (h !! CanonicalKey k).
Definition hdr_set (k v : string) (h : Header) : Header := <[CanonicalKey k := [v]]> h.
Definition hdr_add (k v : string) (h : Header) : Header :=
  <[CanonicalKey k := (hdr_values h k ++ [v])%list]> h.
Definition hdr_del (k : string) (h : Header) : Header := delete (CanonicalKey k) h.

(** ** Hop-by-hop headers *)

Definition hopByHopHeaders : list string :=
  ["Connection"; "Keep-Alive"; "Proxy-Authenticate"; "Proxy-Authorization";
   "Proxy-Connection"; "Te"; "Trailer"; "Trailers"; "Transfer-Encoding"; "Upgrade";
   "X-EBEACON-Use-Upstream"; "X-EBEACON-Secret-Token"; "X-API-Key"; "Authorization"].

Definition hopByHopHeaderSet : gset string := list_to_set (ToLower <$> hopByHopHeaders).

(** The inner loop over the tokens of one [Connection] value; the map [nominated] is cloned from
    the static set on the first token that is not in it. *)
Definition nominate (nominated : option (gset string)) (token : string) : option (gset string) :=
  let name := ToLower (TrimSpace token) in
  if String.eqb name "" then nominated
  else if bool_decide (name ∈ hopByHopHeaderSet) then nominated
  else Some ({[name]} ∪ default hopByHopHeaderSet nominated).

Definition hopByHopHeadersFor (headers : Header) : gset string :=
  match foldl (λ n value, foldl nominate n (Split value ",")) None (hdr_values headers "Connection") with
  | None => hopByHopHeaderSet
  | Some n => n
  end.

Definition copyEndToEndHeaders (dst src : Header) : Header :=
  let skip := hopByHopHeadersFor src in
  foldl (λ dst '(k, vv),
           if bool_decide (ToLower k ∈ skip) then dst
           else foldl (λ dst v, hdr_add k v dst) dst vv) dst (map_to_list src).

(** ** Requests *)

(** An inbound request with the parts the pipeline reads; [in_Body] is the buffered body,
    [None] the nil slice. *)
Record Inbound := {
  in_req : Request;
  in_Host : string;
  in_RemoteAddr : string;
  in_Body : option string;
}.

(** The parts of the outbound [*http.Request] that are sent. *)
Record Outbound := {
  out_Method : string;
  out_URL : string;
  out_Header : Header;
  out_Body : option string;
}.

(** GET only. *)
Definition isEventStream (r : Request) : bool :=
  String.eqb (req_Method r) "GET" &&
  (Contains (hdr_get (req_Header r) "Accept") "text/event-stream" ||
   HasSuffix (TrimRight (url_Path (req_URL r)) "/") "/events").

(** [url.Values.Get] *)
Definition Values_Get (m : Values) (k : string) : string := match m !! k with Some (v :: _) => v | _ => "" end.

Definition upstreamDirective (r : Request) : string :=
  let v := TrimSpace (hdr_get (req_Header r) "X-EBEACON-Use-Upstream") in
  if negb (String.eqb v "") then v
  else
    let v := TrimSpace (Values_Get (ParseQuery (url_RawQuery (req_URL r))) "use-upstream") in
    if negb (String.eqb v "") then v else "".

Section outbound.
Context `{RL : RateLib} `{NL : NetLib}.
(** [http.NewRequestWithContext] accepts this method and URL. *)
Context (NewRequest_ok : string → string → bool).

(** [newUpstreamRequest]; [None] is its error. *)
Definition newUpstreamRequest (u : Upstream RL) (method : string) (r : Inbound) : option Outbound :=
  let url := u_URL u +:+ pathAndQueryForUpstream (req_URL (in_req r)) in
  if NewRequest_ok method url then
    let h := copyEndToEndHeaders ∅ (req_Header (in_req r)) in
    let h := foldl (λ h '(k, v), hdr_set k v h) h (map_to_list (u_Headers u)) in
    Some {| out_Method := method; out_URL := url; out_Header := h; out_Body := in_Body r |}
  else None.

(** [probeRequest] of the health monitor. *)
Definition probeRequest (u : Upstream RL) (path : string) : option Outbound :=
  let url := u_URL u +:+ path in
  if NewRequest_ok "GET" url then
    Some {| out_Method := "GET"; out_URL := url; out_Header := foldl (λ h '(k, v), hdr_set k v h) ∅ (map_to_list (u_Headers u)); out_Body := None |}
  else None.

Definition set_out_Header (h : Header) (o : Outbound) : Outbound :=
  {| out_Method := out_Method o; out_URL := out_URL o; out_Header := h; out_Body := out_Body o |}.

(** The part of [forward] before [u.Do]. *)
Definition forward_request (gzipEnabled : bool) (u : Upstream RL) (r : Inbound) : option Outbound :=
  match newUpstreamRequest u (req_Method (in_req r)) r with
  | None => None
  | Some req =>
      let h := out_Header req in
      let h := if gzipEnabled && negb (isEventStream (in_req r)) then hdr_set "Accept-Encoding" "gzip" h else h in
      let peer := remoteAddrHost (in_RemoteAddr r) in
      let existing := hdr_get h "X-Forwarded-For" in
      let h := if negb (String.eqb existing "") then hdr_set "X-Forwarded-For" (existing +:+ ", " +:+ peer) h
               else hdr_set "X-Forwarded-For" peer h in
      let h := hdr_set "X-Forwarded-Host" (in_Host r) h in
      Some (set_out_Header h req)
  end.
End outbound.

(** ** Responses *)

(** A response: its body delivers [rs_content] and then ends, or fails ([rs_readErr]). *)
Record Response := {
  rs_Status : Z;
  rs_Header : Header;
  rs_content : string;
  rs_readErr : bool;
  rs_reqMethod : string;
}.

Definition set_rs_Header (h : Header) (r : Response) : Response :=
  {| rs_Status := rs_Status r; rs_Header := h; rs_content := rs_content r; rs_readErr := rs_readErr r;
     rs_reqMethod := rs_reqMethod r |}.

(** [strconv.Itoa] of a length. *)
Definition Itoa (n : Z) : string := FormatUint n.

Definition finalizeResponseBody (headers : Header) (body : string) : Header * string :=
  (hdr_set "Content-Length" (Itoa (str_len body)) headers, body).

(** The response with its finalized header, and the body; [None] is a read error. *)
Definition readAndFinalizeResponseBody (resp : Response) (limit : Z) : Response * option string :=
  match readBodyCapped limit (rs_content resp) (rs_readErr resp) with
  | None => (resp, None)
  | Some body =>
      if String.eqb (rs_reqMethod resp) "HEAD" then (resp, Some body)
      else let '(h, body) := finalizeResponseBody (rs_Header resp) body in (set_rs_Header h resp, Some body)
  end.

(** [peekBodyForPruning]: what is peeked, and whether the peek failed.  The bytes are replayed to
    later readers, so the response itself does not change; a failed peek consumes what it read. *)
Definition peekBodyForPruning (resp : Response) (target : HistoricalTarget) : string * bool * Response :=
  if negb (rs_Status resp =? 400) || negb (bool_decide (t_Kind target = BlobSidecars)) ||
     negb (IsHistorical target) || negb (String.eqb (t_Named target) "")
  then ("", false, resp)
  else if rs_readErr resp && (str_len (rs_content resp) <? Z.of_nat peerDASBodyPeekLimit)
  then ("", true, {| rs_Status := rs_Status resp; rs_Header := rs_Header resp; rs_content := "";
                     rs_readErr := true; rs_reqMethod := rs_reqMethod resp |})
  else (str_take peerDASBodyPeekLimit (rs_content resp), false, resp).

Definition httpStatusClass (code : Z) : string :=
  let c := Z.quot code 100 in
  if c =? 1 then "1xx" else if c =? 2 then "2xx" else if c =? 3 then "3xx"
  else if c =? 4 then "4xx" else if c =? 5 then "5xx" else "0xx".

Definition shouldTreatStatusAsPathError (apiPath : string) (statusCode : Z) : bool :=
  if (statusCode =? 404) || (statusCode =? 405) || (statusCode =? 501) then
    if Contains apiPath "/beacon/rewards/" then true
    else if Contains apiPath "/beacon/blobs/" then true
    else Contains apiPath "/beacon/blob_sidecars/"
  else false.

(** ** Obfuscated upstream identifiers *)

Definition hex_lower (n : Z) : ascii := ascii_of_N (Z.to_N (if n <? 10 then 48 + n else 87 + n)).

(** The [k] low hexadecimal digits of [n]; [%08x] of a [uint32] is [hex_digits 8]. *)
Fixpoint hex_digits (k : nat) (n : Z) : string :=
  match k with
  | O => ""
  | S k => hex_digits k (n / 16) +:+ String (hex_lower (n mod 16)) ""
  end.

(** [ObfuscateUpstreamID], without its memo table. *)
Definition ObfuscateUpstreamID (id : string) : string := hex_digits 8 (fnv32a id).

(** ** Writing a response *)

(** Whether [writeBody] compresses. *)
Definition writeBody_gzip (gzipEnabled : bool) (reqHeader hdr : Header) (body : string) : bool :=
  negb (negb gzipEnabled || negb (Contains (hdr_get reqHeader "Accept-Encoding") "gzip") ||
        negb (String.eqb (hdr_get hdr "Content-Encoding") "") || (str_len body <=? 1024) ||
        EqualFold (hdr_get hdr "Content-Type") "application/octet-stream").

(** What reaches the client: status, headers, and the body, compressed by [gzip] if so decided. *)
Record Written := { wr_Status : Z; wr_Header : Header; wr_Body : string; wr_gzip : bool }.

Definition writeBody (gzipEnabled : bool) (reqHeader w : Header) (status : Z) (hdr : Header) (body : string) : Written :=
  if writeBody_gzip gzipEnabled reqHeader hdr body then
    {| wr_Status := status; wr_Header := hdr_del "Content-Length" (hdr_set "Content-Encoding" "gzip" w);
       wr_Body := body; wr_gzip := true |}
  else {| wr_Status := status; wr_Header := w; wr_Body := body; wr_gzip := false |}.

(** ** Retry delay *)

Section retry_delay.
(** [time.Duration(f)] for a value outside the range of [int64], which the language leaves to the
    target. *)
Context (oob : float64 → Z).

Definition f64_to_duration (f : float64) : Z :=
  match f with
  | S754_zero _ => 0
  | S754_finite _ _ _ =>
      let z := f64_to_int f in if (- 2 ^ 63 <=? z) && (z <? 2 ^ 63) then z else oob f
  | _ => oob f
  end.

(** [rand] is the draw [rand.Float64()]. *)
Definition retryDelay (cfg : RetryConfig) (attempt : nat) (rand : float64) : Z :=
  let delay := Nat.iter attempt (λ d, f64_mul d (rt_Backoff cfg)) (f64_of_Z (rt_Delay cfg)) in
  let delay := if (0 <? rt_MaxDelay cfg) && (rt_MaxDelay cfg <? f64_to_duration delay)
               then f64_of_Z (rt_MaxDelay cfg) else delay in
  let delay := if 0 <? rt_Jitter cfg then f64_add delay (f64_mul rand (f64_of_Z (rt_Jitter cfg))) else delay in
  f64_to_duration delay.
End retry_delay.

(** ** Names *)

Lemma upper_lower c : lower_byte (upper_ascii c) = lower_byte c.
Proof. by destruct c as [[] [] [] [] [] [] [] []]. Qed.

Lemma lower_lower c : lower_byte (lower_ascii c) = lower_byte c.
Proof. by destruct c as [[] [] [] [] [] [] [] []]. Qed.

(** Canonicalisation changes the case of a name only. *)
Lemma canonical_from_lower b s : ToLower (canonical_from b s) = ToLower s.
Proof.
  unfold ToLower. revert b. induction s as [|c s IH]; intros b; [done|].
  cbn [canonical_from str_map]. rewrite IH. f_equal. destruct b; [apply upper_lower|apply lower_lower].
Qed.

Lemma CanonicalKey_lower s : ToLower (CanonicalKey s) = ToLower s.
Proof. unfold CanonicalKey. destruct (has_byte _ s); [done|]. apply canonical_from_lower. Qed.

(** ** What is stripped *)

(** A name is nominated by the message's [Connection] header. *)
Definition nominated_by (headers : Header) (name : string) : Prop :=
  name ≠ "" ∧ ∃ value token, value ∈ hdr_values headers "Connection" ∧ token ∈ Split value "," ∧
    name = ToLower (TrimSpace token).

Definition stripped (headers : Header) (name : string) : Prop :=
  name ∈ hopByHopHeaderSet ∨ nominated_by headers name.

Lemma nominate_spec n token x :
  x ∈ default hopByHopHeaderSet (nominate n token) ↔
  x ∈ default hopByHopHeaderSet n ∨ (x ≠ "" ∧ x = ToLower (TrimSpace token) ∧ x ∉ hopByHopHeaderSet) ∨
  (x ∈ default hopByHopHeaderSet n ∧ x ∈ hopByHopHeaderSet).
Proof.
  unfold nominate. cbv zeta. destruct (String.eqb_spec (ToLower (TrimSpace token)) "") as [E|E].
  { split; [by left|]. intros [?|[(Hx & -> & _)|[? _]]]; [done| |done]. by rewrite E in Hx. }
  case_bool_decide as Hs.
  { split; [by left|]. intros [?|[(_ & -> & Hx)|[? _]]]; done. }
  cbn [from_option]; unfold id at 1. rewrite elem_of_union, elem_of_singleton. split.
  - intros [->|?]; [right; left; done|by left].
  - intros [?|[(_ & -> & _)|[? _]]]; auto.
Qed.

Lemma nominate_tokens tokens n x :
  hopByHopHeaderSet ⊆ default hopByHopHeaderSet n →
  (x ∈ default hopByHopHeaderSet (foldl nominate n tokens) ↔
   x ∈ default hopByHopHeaderSet n ∨ (x ≠ "" ∧ ∃ t, t ∈ tokens ∧ x = ToLower (TrimSpace t))) ∧
  hopByHopHeaderSet ⊆ default hopByHopHeaderSet (foldl nominate n tokens).
Proof.
  revert n. induction tokens as [|t tokens IH]; intros n Hn; cbn [foldl].
  { split; [|done]. split; [by left|]. intros [?|(_ & t & H & _)]; [done|by apply not_elem_of_nil in H]. }
  assert (hopByHopHeaderSet ⊆ default hopByHopHeaderSet (nominate n t)) as Hn'.
  { intros y Hy. apply nominate_spec. left. by apply Hn. }
  destruct (IH _ Hn') as [H1 H2]. split; [|done]. rewrite H1, nominate_spec. split.
  - intros [[?|[(Hx & -> & _)|[? _]]]|(Hx & t' & Ht' & ->)]; [by left| |by left|].
    + right. split; [done|]. exists t. split; [by left|done].
    + right. split; [done|]. exists t'. split; [by right|done].
  - intros [?|(Hx & t' & [->|Ht']%elem_of_cons & ->)]; [by left; left| |].
    + left. destruct (decide (ToLower (TrimSpace t) ∈ hopByHopHeaderSet)); [left; by apply Hn|right; by left].
    + right. split; [done|]. by exists t'.
Qed.

Lemma nominate_values values n x :
  hopByHopHeaderSet ⊆ default hopByHopHeaderSet n →
  x ∈ default hopByHopHeaderSet (foldl (λ n value, foldl nominate n (Split value ",")) n values) ↔
  x ∈ default hopByHopHeaderSet n ∨
  (x ≠ "" ∧ ∃ v t, v ∈ values ∧ t ∈ Split v "," ∧ x = ToLower (TrimSpace t)).
Proof.
  revert n. induction values as [|v values IH]; intros n Hn; cbn [foldl].
  { split; [by left|]. intros [?|(_ & v & t & H & _)]; [done|by apply not_elem_of_nil in H]. }
  destruct (nominate_tokens (Split v ",") n x Hn) as [H1 H2]. rewrite IH by done. rewrite H1. split.
  - intros [[?|(Hx & t & Ht & ->)]|(Hx & v' & t & Hv & Ht & ->)]; [by left| |].
    + right. split; [done|]. exists v, t. split_and!; [by left|done|done].
    + right. split; [done|]. exists v', t. split_and!; [by right|done|done].
  - intros [?|(Hx & v' & t & [->|Hv]%elem_of_cons & Ht & ->)]; [by left; left| |].
    + left. right. split; [done|]. by exists t.
    + right. split; [done|]. by exists v', t.
Qed.

(** The skip set is the static set and the nominated names. *)
Lemma hopByHopHeadersFor_spec headers x : x ∈ hopByHopHeadersFor headers ↔ stripped headers x.
Proof.
  unfold hopByHopHeadersFor, stripped, nominated_by.
  pose proof (nominate_values (hdr_values headers "Connection") None x) as H. cbn [from_option] in H.
  specialize (H ltac:(done)). by destruct (foldl _ None _).
Qed.

(** ** What is copied *)

Lemma hdr_add_lookup k v h k' :
  hdr_add k v h !! k' = if decide (CanonicalKey k = k') then Some (default [] (h !! k') ++ [v])%list else h !! k'.
Proof.
  unfold hdr_add, hdr_values. destruct (decide _) as [<-|]; [by rewrite lookup_insert_eq|by rewrite lookup_insert_ne].
Qed.

Lemma hdr_adds_dom k vv dst k' :
  is_Some (foldl (λ dst v, hdr_add k v dst) dst vv !! k') → is_Some (dst !! k') ∨ k' = CanonicalKey k.
Proof.
  revert dst. induction vv as [|v vv IH]; intros dst H; [by left|]. cbn [foldl] in H.
  apply IH in H as [H| ->]; [|by right]. rewrite hdr_add_lookup in H. destruct (decide _); [by right|by left].
Qed.

Lemma copy_dom dst src k :
  is_Some (copyEndToEndHeaders dst src !! k) →
  is_Some (dst !! k) ∨ ∃ k0, is_Some (src !! k0) ∧ k = CanonicalKey k0 ∧ ¬ stripped src (ToLower k0).
Proof.
  unfold copyEndToEndHeaders. cbv zeta.
  assert (∀ k0 vv, (k0, vv) ∈ map_to_list src → is_Some (src !! k0)) as Hsrc.
  { intros k0 vv H%elem_of_map_to_list. by eexists. }
  revert Hsrc dst. generalize (map_to_list src) as l. intros l Hl dst. revert dst.
  induction l as [|[k0 vv] l IH]; intros dst H; [by left|]. cbn [foldl] in H.
  specialize (IH (λ a b Hab, Hl a b (list_elem_of_further _ _ _ Hab))).
  case_bool_decide as Hs; [by apply IH in H|].
  apply IH in H as [H|H]; [|by right]. apply hdr_adds_dom in H as [H| ->]; [by left|].
  right. exists k0. split_and!; [by eapply Hl; left|done|]. by rewrite <- hopByHopHeadersFor_spec.
Qed.

(** No stripped name survives the copy. *)
Lemma copy_strips src k : stripped src (ToLower k) → copyEndToEndHeaders ∅ src !! k = None.
Proof.
  intros Hs. apply eq_None_not_Some. intros [H|(k0 & _ & -> & H)]%copy_dom.
  - rewrite lookup_empty in H. by destruct H.
  - by rewrite CanonicalKey_lower in Hs.
Qed.

(** A header as the HTTP server delivers it: canonical names, each with a value. *)
Definition served_header (h : Header) : Prop := map_Forall (λ k vv, CanonicalKey k = k ∧ vv ≠ []) h.

Lemma hdr_adds_lookup k vv dst k' :
  CanonicalKey k = k → vv ≠ [] →
  foldl (λ dst v, hdr_add k v dst) dst vv !! k' =
  if decide (k = k') then Some (default [] (dst !! k') ++ vv)%list else dst !! k'.
Proof.
  intros Hk. revert dst. induction vv as [|v vv IH]; intros dst Hv; [done|]. cbn [foldl].
  destruct vv as [|v' vv].
  - cbn [foldl]. rewrite hdr_add_lookup, Hk. by destruct (decide _).
  - rewrite IH by done. rewrite hdr_add_lookup, Hk. destruct (decide (k = k')) as [<-|]; [|done].
    cbn [from_option id]. by rewrite <- app_assoc.
Qed.

(** Every other header passes unchanged. *)
Lemma copy_keeps src k : served_header src → ¬ stripped src (ToLower k) → copyEndToEndHeaders ∅ src !! k = src !! k.
Proof.
  intros Hsrc Hs. rewrite <- hopByHopHeadersFor_spec in Hs. unfold copyEndToEndHeaders. cbv zeta.
  revert Hs. generalize (hopByHopHeadersFor src) as skip. intros skip Hs.
  rewrite <- (list_to_map_to_list src) at 2.
  assert (Forall (λ kv, CanonicalKey kv.1 = kv.1 ∧ kv.2 ≠ []) (map_to_list src)) as Hl.
  { apply Forall_forall. intros [k0 vv] H%elem_of_map_to_list. exact (Hsrc k0 vv H). }
  pose proof (NoDup_fst_map_to_list src) as Hnd. revert Hnd Hl. generalize (map_to_list src) as l. intros l Hnd Hl.
  assert (∀ dst, dst !! k = None →
    foldl (λ dst '(k, vv), if bool_decide (ToLower k ∈ skip) then dst else foldl (λ dst v, hdr_add k v dst) dst vv)
      dst l !! k = (list_to_map l : Header) !! k) as H; [|by apply H].
  induction l as [|[k0 vv] l IH]; intros dst Hd; [done|]. cbn [foldl]. rewrite list_to_map_cons.
  apply Forall_cons in Hl as [[Hc Hv] Hl]. cbn [fst snd] in Hc, Hv. apply NoDup_cons in Hnd as [Hni Hnd].
  destruct (decide (k0 = k)) as [-> |Hne].
  - rewrite bool_decide_false by done. rewrite lookup_insert_eq.
    assert (∀ dst l, k ∉ l.*1 → Forall (λ kv : string * list string, CanonicalKey kv.1 = kv.1 ∧ kv.2 ≠ []) l →
      foldl (λ dst '(k, vv), if bool_decide (ToLower k ∈ skip) then dst else foldl (λ dst v, hdr_add k v dst) dst vv)
        dst l !! k = (dst : Header) !! k) as Hrest.
    { clear. intros dst l. revert dst. induction l as [|[k1 v1] l IH]; intros dst Hni Hl; [done|]. cbn [foldl].
      apply Forall_cons in Hl as [[Hc Hv] Hl]. cbn [fmap list_fmap fst] in Hni. apply not_elem_of_cons in Hni as [Hne Hni].
      rewrite IH by done. case_bool_decide; [done|]. rewrite hdr_adds_lookup by done. by rewrite decide_False by done. }
    rewrite Hrest by done. rewrite hdr_adds_lookup by done. rewrite decide_True by done. by rewrite Hd.
  - rewrite lookup_insert_ne by done. apply IH; [done|done|]. case_bool_decide; [done|].
    rewrite hdr_adds_lookup by done. by rewrite decide_False by done.
Qed.

Lemma hdr_sets_lookup (l : list (string * string)) h k :
  (∀ k0 v, (k0, v) ∈ l → CanonicalKey k0 ≠ k) → foldl (λ h '(k, v), hdr_set k v h) h l !! k = h !! k.
Proof.
  revert h. induction l as [|[k0 v] l IH]; intros h Hl; [done|]. cbn [foldl].
  rewrite IH by (intros k1 v1 H; apply (Hl k1 v1); by right).
  unfold hdr_set. rewrite lookup_insert_ne; [done|]. apply (Hl k0 v). by left.
Qed.

Lemma hdr_sets_some (l : list (string * string)) h k :
  is_Some (foldl (λ h '(k, v), hdr_set k v h) h l !! k) ↔ is_Some (h !! k) ∨ ∃ k0 v, (k0, v) ∈ l ∧ CanonicalKey k0 = k.
Proof.
  revert h. induction l as [|[k0 v] l IH]; intros h; cbn [foldl].
  - split; [by left|]. intros [?|(k0 & v & H%not_elem_of_nil & _)]; done.
  - rewrite IH. unfold hdr_set. rewrite lookup_insert_is_Some. setoid_rewrite elem_of_cons. split.
    + intros [[Hk|[_ H]]|(k1 & v1 & H & Hk)]; [right; exists k0, v; by split; [left|]|by left|right; exists k1, v1; by split; [right|]].
    + intros [H|(k1 & v1 & [[= -> ->]|H] & Hk)]; [|by left; left|right; by exists k1, v1].
      destruct (decide (CanonicalKey k0 = k)) as [?|?]; left; [by left|by right].
Qed.

(** ** The request an upstream receives *)

Section outbound_safety.
Context `{RL : RateLib} `{NL : NetLib} (NewRequest_ok : string → string → bool).

(** The headers the proxy itself sets. *)
Definition proxy_headers : list string := ["Accept-Encoding"; "X-Forwarded-For"; "X-Forwarded-Host"].

(** The operator configured this header for the upstream. *)
Definition configured (u : Upstream RL) (k : string) : Prop :=
  ∃ k0, is_Some (u_Headers u !! k0) ∧ CanonicalKey k0 = k.

Lemma out_header_copied u method r o k :
  newUpstreamRequest NewRequest_ok u method r = Some o → ¬ configured u k →
  out_Header o !! k = copyEndToEndHeaders ∅ (req_Header (in_req r)) !! k.
Proof.
  unfold newUpstreamRequest. cbv zeta. destruct (NewRequest_ok _ _); [|done]. intros [= <-] Hc. cbn [out_Header].
  apply hdr_sets_lookup. intros k0 v H%elem_of_map_to_list <-. apply Hc. exists k0. by split; [eexists|].
Qed.

(** A probe carries the headers that the operator configured and no other. *)
Lemma probe_headers u path o k : probeRequest NewRequest_ok u path = Some o → is_Some (out_Header o !! k) ↔ configured u k.
Proof.
  unfold probeRequest. cbv zeta. destruct (NewRequest_ok _ _); [|done]. intros [= <-]. cbn [out_Header].
  assert (is_Some (foldl (λ h '(k, v), hdr_set k v h) (∅ : Header) (map_to_list (u_Headers u)) !! k) ↔
    is_Some ((∅ : Header) !! k) ∨ ∃ k0 v, (k0, v) ∈ map_to_list (u_Headers u) ∧ CanonicalKey k0 = k) as -> by apply hdr_sets_some.
  unfold configured. setoid_rewrite elem_of_map_to_list. rewrite lookup_empty. split.
  - intros [[? H]|(k0 & v & H & Hk)]; [done|]. exists k0. by rewrite H.
  - intros (k0 & [v H] & Hk). right. by exists k0, v.
Qed.

Lemma out_header_base u method r o k :
  newUpstreamRequest NewRequest_ok u method r = Some o → stripped (req_Header (in_req r)) (ToLower k) →
  ¬ configured u k → out_Header o !! k = None.
Proof. intros Ho Hs Hc. rewrite (out_header_copied _ _ _ _ _ Ho Hc). by apply copy_strips. Qed.

Lemma hdr_set_ne k v h k' : CanonicalKey k ≠ k' → hdr_set k v h !! k' = h !! k'.
Proof. intros. unfold hdr_set. by rewrite lookup_insert_ne. Qed.

Lemma hdr_set_eq k v h k' : CanonicalKey k = k' → hdr_set k v h !! k' = Some [v].
Proof. intros <-. unfold hdr_set. by rewrite lookup_insert_eq. Qed.

Lemma query_of_upstream (u : URL) :
  pathAndQueryForUpstream u = or_slash (url_EscapedPath u) ∨
  ∃ query, pathAndQueryForUpstream u = or_slash (url_EscapedPath u) +:+ "?" +:+ query ∧
    ParseQuery query = forwardableQuery u.
Proof.
  unfold pathAndQueryForUpstream. cbv zeta. destruct (String.eqb _ ""); [by left|].
  unfold with_query. destruct (String.eqb _ ""); [by left|]. right. eexists. split; [done|].
  apply ParseQuery_Encode, forwardableQuery_nonempty.
Qed.

End outbound_safety.

(** ** Status classes and identifiers *)

(** An obfuscated identifier is eight hexadecimal digits. *)
Lemma hex_digits_length k n : String.length (hex_digits k n) = k.
Proof. revert n. induction k as [|k IH]; intros n; [done|]. cbn [hex_digits]. rewrite str_length_app, IH. cbn. lia. Qed.

(** ** Witnesses *)

Module HeaderDemo.
(** A toy [net] in which an address is text and a prefix contains itself. *)
#[local] Instance DemoNet : NetLib := {|
  Addr := string; Prefix := string; ParseAddr := Some; ParsePrefix := Some; Addr_Unmap := id;
  Prefix_Masked := id; PrefixOfAddr := id; Prefix_Contains := String.eqb;
  SplitHostPort := λ s, match CutByte ":" s with Some (h, _) => Some h | None => None end |}.

Definition demo_request : Inbound :=
  {| in_req := {| req_Method := "GET";
                  req_URL := {| url_Path := "/eth/v1/node/version"; url_EscapedPath := "/eth/v1/node/version";
                                url_RawQuery := "secret=s3&x=1" |};
                  req_Header := list_to_map [("Connection", ["X-Forwarded-For, close"]); ("X-Api-Key", ["k"]);
                                             ("Accept", ["application/json"]); ("X-Forwarded-For", ["6.6.6.6"])] |};
     in_Host := "proxy"; in_RemoteAddr := "10.0.0.1:99"; in_Body := None |}.

Definition demo_upstream : Upstream ToyRate := Upstream_New 0 "mainnet" demo_upstream_cfg None 2.

End HeaderDemo.
