(* ===== verification/Exec.v ===== *)
(** * Executing a request against the upstreams

    [network/network.go]: [forward], [executeSelectedFS], [executeSelectedCandidatesFS],
    [promoteToArchive], [ensurePreferredUpstreamFirst] and [executeFS], except for the hedged branch,
    which is [Hedge].

    The state is a [World]: the pool, the response bodies this request has not closed yet (each is
    a handle that belongs to an upstream; closing one decrements that upstream's counter, once),
    the log of upstreams dispatched to, and the script of what the network answers.  Every
    [forward] takes the next entry of the script, so a statement for all scripts covers every
    behaviour of the upstreams.  Upstreams are referred to by their identifiers, which the
    configuration requires to be distinct. *)

From S2P Require Import Prelude GoStrings GoFloat Config CircuitBreaker ScoreTracker AutoTuner BlockCache.
From S2P Require Import Upstream Selector PoolOrder Pool PoolState Health MemoryStore Regexp Url CacheKey Paths Historical Session HeadWatcher Consensus Headers.
#[local] Open Scope string_scope.
#[local] Open Scope Z_scope.

(** ** The network *)

Inductive reply :=
  | RErr
  | RResp (status : Z) (header : Header) (content : string) (readErr : bool).

(** One attempt: when it is dispatched and when it is done; whether the request context ends
    during the retry delay before it; whether the client is gone when an error is
    looked at; and the answer. *)
Record io := {
  io_now : Z;
  io_done : Z;
  io_ctxDone : bool;
  io_cancel : bool;
  io_reply : reply;
}.

Definition io_silent : io :=
  {| io_now := 0; io_done := 0; io_ctxDone := false; io_cancel := false; io_reply := RErr |}.

(** Why [forward] fails: the request cannot be built, the breaker refuses, the transport fails, or the
    response claims gzip and is not. *)
Inductive fwd_error := FBuild | FGated | FTransport | FGzip.

#[global] Instance fwd_error_eq_dec : EqDecision fwd_error.
Proof. solve_decision. Defined.

(** [isClientCancel]: only errors that come from the connection can be cancellations. *)
Definition isClientCancel (i : io) (e : fwd_error) : bool :=
  io_cancel i && match e with FTransport | FGzip => true | _ => false end.

(** The error an execution remembers of its last attempt. *)
Inductive exec_cause :=
  | CForward (e : fwd_error)
  | CStatus (status : Z)
  | CPruned (status : Z)
  | CContext.

(** Why an execution fails.  [XOutOfFuel] is the model's own; [executeFS_attempts] shows that
    it is never returned. *)
Inductive exec_error :=
  | XSelected (selector : string) (cause : option exec_cause)
  | XConsensus (e : consensus_error)
  | XNoUpstreams
  | XContext
  | XCanceled
  | XAllFailed (n : nat) (last : option exec_cause)
  | XHedgesFailed (last : option exec_cause)
  | XPruneRead
  | XOutOfFuel.

Section exec.
Context `{RL : RateLib} `{NL : NetLib}.

Record World := {
  w_pool : Pool RL;
  w_next : nat;
  w_open : gmap nat string;
  w_log : list string;
  w_io : list io;
}.

Definition set_pool (p : Pool RL) (w : World) : World :=
  {| w_pool := p; w_next := w_next w; w_open := w_open w; w_log := w_log w; w_io := w_io w |}.

(** A method call on the upstream [id]. *)
Definition on_upstream (id : string) (f : Upstream RL → Upstream RL) (w : World) : World :=
  set_pool (update_upstream id f (w_pool w)) w.

(** [tok.Success()], [tok.Failure()] or [tok.Release()]. *)
Definition settle_token (t : CBToken) (o : cbOutcome) (now : Z) (w : World) : World :=
  match tok_u t with
  | None => w
  | Some id => on_upstream id (Upstream_settle t o now) w
  end.

(** [resp.Body.Close()] on a tracked body: the first call decrements the counter. *)
Definition close_body (h : nat) (w : World) : World :=
  match w_open w !! h with
  | None => w
  | Some id =>
      on_upstream id (λ u, (trackedBody_Close false u).1)
        {| w_pool := w_pool w; w_next := w_next w; w_open := delete h (w_open w); w_log := w_log w; w_io := w_io w |}
  end.

(** The body of a response that is not tracked has no handle. *)
Definition close_opt (h : option nat) (w : World) : World :=
  match h with None => w | Some h => close_body h w end.

Definition pop_io (w : World) : io * World :=
  match w_io w with
  | [] => (io_silent, w)
  | i :: rest => (i, {| w_pool := w_pool w; w_next := w_next w; w_open := w_open w; w_log := w_log w; w_io := rest |})
  end.

(** What the next attempt will meet during its retry delay. *)
Definition next_io (w : World) : io := hd io_silent (w_io w).

Definition log_dispatch (id : string) (w : World) : World :=
  {| w_pool := w_pool w; w_next := w_next w; w_open := w_open w; w_log := (w_log w ++ [id])%list; w_io := w_io w |}.

Definition open_body (id : string) (w : World) : nat * World :=
  (w_next w,
   {| w_pool := w_pool w; w_next := S (w_next w); w_open := <[w_next w := id]> (w_open w); w_log := w_log w;
      w_io := w_io w |}).

(** A response in hand: its body's handle, the upstream it came from and its token. *)
Record Exec := { ex_handle : option nat; ex_resp : Response; ex_uid : string; ex_tok : CBToken }.

Context (NewRequest_ok : string → string → bool).
(** [gzip.NewReader] on a body and what reading through it delivers; [None] is its error. *)
Context (gunzip : string → bool → option (string * bool)).
Context (sha : string → string).

(** [forward]: the script entry it used, the world, the token, and the error or the response. *)
Definition forward (gzipEnabled : bool) (id : string) (r : Inbound) (w : World)
    : io * World * CBToken * (fwd_error + (nat * Response)) :=
  let '(i, w) := pop_io w in
  let w := log_dispatch id w in
  match ByID (w_pool w) id with
  | None => (i, w, zero_token, inl FBuild)
  | Some u =>
      match forward_request NewRequest_ok gzipEnabled u r with
      | None => (i, w, zero_token, inl FBuild)
      | Some _ =>
          let tr := match io_reply i with RErr => TransportErr "transport" | RResp s _ _ _ => TransportResp s true end in
          let '(u', res, tok) := Upstream_Do (io_now i) tr u in
          let w := on_upstream id (λ _, u') w in
          match res, io_reply i with
          | DoResp status _, RResp _ hdr content readErr =>
              let '(h, w) := open_body id w in
              let resp := {| rs_Status := status; rs_Header := hdr; rs_content := content; rs_readErr := readErr;
                             rs_reqMethod := req_Method (in_req r) |} in
              if String.eqb (hdr_get hdr "Content-Encoding") "gzip" then
                match gunzip content readErr with
                | None => (i, close_body h w, tok, inl FGzip)
                | Some (plain, err) =>
                    (i, w, tok,
                     inr (h, {| rs_Status := status;
                                rs_Header := hdr_del "Content-Length" (hdr_del "Content-Encoding" hdr);
                                rs_content := plain; rs_readErr := err; rs_reqMethod := req_Method (in_req r) |}))
                end
              else (i, w, tok, inr (h, resp))
          | DoRefused, _ => (i, w, tok, inl FGated)
          | _, _ => (i, w, tok, inl FTransport)
          end
      end
  end.

(** [recordUpstreamFailure]; the error metrics have no reader. *)
Definition recordUpstreamFailure (id : string) (t : CBToken) (apiPath : string) (now : Z) (w : World) : World :=
  on_upstream id (RecordScoreErrorForPath apiPath) (settle_token t cbSettleFailure now w).

(** ** Upstreams the client asked for *)

(** The response kept while later candidates are tried. *)
Definition dropBuffered (now : Z) (last : option Exec) (w : World) : World :=
  match last with
  | None => w
  | Some e => settle_token (ex_tok e) cbSettleRelease now (close_opt (ex_handle e) w)
  end.

(** The loop of [executeSelectedCandidatesFS] at index [i]; [more] is [i < len(ups)-1]. *)
Fixpoint candidates_loop (gz : bool) (r : Inbound) (sel : string) (fs : FailsafeConfig) (target : HistoricalTarget)
    (apiPath : string) (i : nat) (ups : list string) (last : option Exec) (lastErr : option exec_cause) (w : World)
    : World * (exec_error + Exec) :=
  match ups with
  | [] =>
      match last with
      | Some e => (w, inr e)
      | None => (w, inl (XSelected sel lastErr))
      end
  | id :: rest =>
      let more := negb (Nat.eqb (length rest) 0) in
      if (0 <? i)%nat && bool_decide (is_Some (fs_Retry fs)) && io_ctxDone (next_io w)
      then (dropBuffered (io_now (next_io w)) last w, inl (XSelected sel (Some CContext)))
      else
        match forward gz id r w with
        | (o, w, tok, inl e) =>
            if isClientCancel o e then
              (dropBuffered (io_done o) last (settle_token tok cbSettleRelease (io_done o) w), inl XCanceled)
            else if bool_decide (e = FGated) then
              candidates_loop gz r sel fs target apiPath (S i) rest last (Some (CForward e)) w
            else
              let w := settle_token tok cbSettleFailure (io_done o) w in
              let w := on_upstream id (RecordScoreErrorForPath apiPath) w in
              candidates_loop gz r sel fs target apiPath (S i) rest last (Some (CForward e)) w
        | (o, w, tok, inr (h, resp)) =>
            if rs_Status resp <? 500 then
              let '(peeked, _, resp) := peekBodyForPruning resp target in
              let e := {| ex_handle := Some h; ex_resp := resp; ex_uid := id; ex_tok := tok |} in
              if more && isPruningError (rs_Status resp) peeked target then
                let w := on_upstream id (RecordResponseStatus (io_done o) (rs_Status resp)) w in
                let w := dropBuffered (io_done o) last w in
                candidates_loop gz r sel fs target apiPath (S i) rest (Some e) (Some (CPruned (rs_Status resp))) w
              else (dropBuffered (io_done o) last w, inr e)
            else
              let w := settle_token tok cbSettleFailure (io_done o) w in
              let w := if more then on_upstream id (RecordScoreErrorForPath apiPath) w else w in
              let w := dropBuffered (io_done o) last w in
              let e := {| ex_handle := Some h; ex_resp := resp; ex_uid := id; ex_tok := zero_token |} in
              candidates_loop gz r sel fs target apiPath (S i) rest (Some e) (Some (CStatus (rs_Status resp))) w
        end
  end.

Definition executeSelectedCandidatesFS (gz : bool) (r : Inbound) (required : Selector) (fs : FailsafeConfig)
    (ups : list string) (apiPath : string) (w : World) : World * (exec_error + Exec) :=
  candidates_loop gz r (Selector_String required) fs (classifyHistoricalTarget (url_Path (req_URL (in_req r))))
    apiPath 0 ups None None w.

Definition executeSelectedFS (gz : bool) (now : Z) (r : Inbound) (required : Selector) (fs : FailsafeConfig)
    (apiPath : string) (w : World) : World * (exec_error + Exec) :=
  let sel := Selector_String required in
  if nonempty (sel_ID required) then
    match ByID (w_pool w) (sel_ID required) with
    | None => (w, inl (XSelected sel None))
    | Some u =>
        let id := u_ID u in
        match forward gz id r w with
        | (o, w, tok, inl e) =>
            let w := if isClientCancel o e then settle_token tok cbSettleRelease (io_done o) w
                     else if bool_decide (e = FGated) then w
                     else recordUpstreamFailure id tok apiPath (io_done o) w in
            (w, inl (XSelected sel (Some (CForward e))))
        | (o, w, tok, inr (h, resp)) =>
            (w, inr {| ex_handle := Some h; ex_resp := resp; ex_uid := id; ex_tok := tok |})
        end
    end
  else
    let '(p, ups) := SelectMatching now (w_pool w) required apiPath (Z.to_nat (MaxAttempts fs)) in
    let w := set_pool p w in
    match ups with
    | [] => (w, inl (XSelected sel None))
    | _ => executeSelectedCandidatesFS gz r required fs (u_ID <$> ups) apiPath w
    end.

(** ** The preferred upstream *)

Definition trimUpstreamSlice (ups : list string) (maxLen : Z) : list string :=
  if (0 <? maxLen) && (maxLen <? Z.of_nat (length ups)) then take (Z.to_nat maxLen) ups else ups.

(** [ups[0], ups[i] = ups[i], ups[0]] *)
Definition swap_front (ups : list string) (i : nat) : list string :=
  match ups !! O, ups !! i with
  | Some a, Some b => <[i := a]> (<[O := b]> ups)
  | _, _ => ups
  end.

Definition ensurePreferredUpstreamFirst (now : Z) (pool : Pool RL) (ups : list string) (preferID : string) (maxLen : Z)
    : list string :=
  if String.eqb preferID "" || (length ups =? 0)%nat then ups
  else
    match list_find (λ id, id = preferID) ups with
    | Some (i, id) =>
        if IsForked id (p_blockCache pool) then ups
        else trimUpstreamSlice (if (i =? 0)%nat then ups else swap_front ups i) maxLen
    | None =>
        match ByID pool preferID with
        | Some pu =>
            if IsReady now pu && negb (IsForked (u_ID pu) (p_blockCache pool))
            then trimUpstreamSlice (u_ID pu :: ups) maxLen else ups
        | None => ups
        end
    end.

(** ** Archive promotion *)

Fixpoint promote_loop (gz : bool) (r : Inbound) (target : HistoricalTarget) (ups : list string) (tried : list string)
    (lastErr : option exec_cause) (w : World) : World * (option exec_cause + Exec) :=
  match ups with
  | [] => (w, inl lastErr)
  | id :: rest =>
      if bool_decide (id ∈ tried) then promote_loop gz r target rest tried lastErr w
      else
        match forward gz id r w with
        | (o, w, tok, inl e) =>
            if isClientCancel o e then (settle_token tok cbSettleRelease (io_done o) w, inl (Some (CForward e)))
            else if bool_decide (e = FGated) then promote_loop gz r target rest tried (Some (CForward e)) w
            else promote_loop gz r target rest tried (Some (CForward e)) (settle_token tok cbSettleFailure (io_done o) w)
        | (o, w, tok, inr (h, resp)) =>
            if 500 <=? rs_Status resp then
              promote_loop gz r target rest tried (Some (CStatus (rs_Status resp)))
                (settle_token tok cbSettleFailure (io_done o) (close_body h w))
            else
              let '(peeked, _, resp) := peekBodyForPruning resp target in
              if isPruningError (rs_Status resp) peeked target then
                promote_loop gz r target rest tried (Some (CPruned (rs_Status resp)))
                  (settle_token tok cbSettleRelease (io_done o) (close_body h w))
              else (w, inr {| ex_handle := Some h; ex_resp := resp; ex_uid := id; ex_tok := tok |})
        end
  end.

(** [promoteToArchive]: [inl None] is a nil response without an error. *)
Definition promoteToArchive (gz : bool) (now : Z) (apiPath : string) (r : Inbound) (tried : list string) (maxAttempts : Z)
    (target : HistoricalTarget) (w : World) : World * (option exec_cause + Exec) :=
  let maxAttempts := if maxAttempts <? 1 then 1 else maxAttempts in
  let '(p, ups) := SelectForPathArchive now (w_pool w) apiPath (Z.to_nat maxAttempts) in
  let w := set_pool p w in
  match ups with
  | [] => (w, inl None)
  | _ => promote_loop gz r target (u_ID <$> ups) tried None w
  end.

(** ** The sequential loop *)

(** The loop of [executeFS] at index [i] with [rest] the upstreams from there on; promotion replaces
    what is left of the slice.  [fuel] bounds the iterations. *)
Fixpoint seq_loop (fuel : nat) (gz : bool) (r : Inbound) (fs : FailsafeConfig) (target : HistoricalTarget)
    (apiPath : string) (maxAttempts : Z) (i : nat) (rest tried : list string) (archiveBiased : bool)
    (lastErr : option exec_cause) (w : World) : World * (exec_error + Exec) :=
  match fuel with
  | O => (w, inl XOutOfFuel)
  | S fuel =>
      match rest with
      | [] => (w, inl (XAllFailed i lastErr))
      | id :: rest =>
          let continue := seq_loop fuel gz r fs target apiPath maxAttempts (S i) in
          if bool_decide (id ∈ tried) then continue rest tried archiveBiased lastErr w
          else
            let tried := id :: tried in
            if (0 <? i)%nat && bool_decide (is_Some (fs_Retry fs)) && io_ctxDone (next_io w) then (w, inl XContext)
            else
              match forward gz id r w with
              | (o, w, tok, inl e) =>
                  if isClientCancel o e then (settle_token tok cbSettleRelease (io_done o) w, inl XCanceled)
                  else if bool_decide (e = FGated) then continue rest tried archiveBiased (Some (CForward e)) w
                  else continue rest tried archiveBiased (Some (CForward e))
                         (recordUpstreamFailure id tok apiPath (io_done o) w)
              | (o, w, tok, inr (h, resp)) =>
                  if rs_Status resp <? 500 then
                    let '(peeked, _, resp) := peekBodyForPruning resp target in
                    let e := {| ex_handle := Some h; ex_resp := resp; ex_uid := id; ex_tok := tok |} in
                    if negb archiveBiased && isPruningError (rs_Status resp) peeked target then
                      if negb (HasArchive (w_pool w)) then (w, inr e)
                      else
                        let remaining := Z.max (maxAttempts - (Z.of_nat i + 1)) 1 in
                        let '(p, archiveUps) :=
                          SelectForPathArchive (io_done o) (w_pool w) apiPath (Z.to_nat remaining) in
                        let w := set_pool p w in
                        match archiveUps with
                        | [] => (w, inr e)
                        | _ =>
                            let w := settle_token tok cbSettleRelease (io_done o) (close_body h w) in
                            let w := on_upstream id (RecordResponseStatus (io_done o) (rs_Status resp)) w in
                            continue (u_ID <$> archiveUps) tried true (Some (CPruned (rs_Status resp))) w
                        end
                    else (w, inr e)
                  else continue rest tried archiveBiased (Some (CStatus (rs_Status resp)))
                         (recordUpstreamFailure id tok apiPath (io_done o) (close_body h w))
              end
      end
  end.

(** The iterations the loop can make: the slice, one replacement of it, and the exit. *)
Definition seq_fuel (w : World) (ups : list string) : nat := length ups + length (p_upstreams (w_pool w)) + 1.

(** ** [executeFS] *)

(** Either the execution is over, or control passes to the hedged execution of these upstreams. *)
Inductive exec_step :=
  | XDone (res : exec_error + Exec)
  | XHedge (ups : list string) (preferID : string) (target : HistoricalTarget) (archiveBiased : bool).

(** [selectForPath]: the selection the routing decision picks. *)
Definition selectForPath (proactiveArchive preferCanonicalHead : bool) (now : Z) (p : Pool RL) (apiPath : string) (n : nat)
    : Pool RL * list (Upstream RL) :=
  if proactiveArchive then SelectForPathArchive now p apiPath n
  else if preferCanonicalHead then SelectForPathPreferCanonicalHead now p apiPath n
  else SelectForPath now p apiPath n.

(** The upstreams after a consensus round. *)
Definition write_back (ups : list (Upstream RL)) (w : World) : World :=
  foldl (λ w u, on_upstream (u_ID u) (λ _, u) w) w ups.

(** The response of a consensus round has a plain body and no request. *)
Definition consensus_exec (c : consensusResult) : Exec :=
  {| ex_handle := None;
     ex_resp := {| rs_Status := cr_status c; rs_Header := cr_headers c; rs_content := cr_body c; rs_readErr := false;
                   rs_reqMethod := "" |};
     ex_uid := cr_upstream c; ex_tok := zero_token |}.

(** The part of [executeFS] after the consensus attempt. *)
Definition execute_rest (gz : bool) (now : Z) (r : Inbound) (preferID : string) (fs : FailsafeConfig) (apiPath : string)
    (target : HistoricalTarget) (proactiveArchive preferCanonicalHead : bool) (w : World) : World * exec_step :=
  let maxAttempts := MaxAttempts fs in
  let sequential w :=
    let '(p, ups) := selectForPath proactiveArchive preferCanonicalHead now (w_pool w) apiPath (Z.to_nat maxAttempts) in
    let w := set_pool p w in
    match ups with
    | [] => (w, XDone (inl XNoUpstreams))
    | _ =>
        let ids := ensurePreferredUpstreamFirst now (w_pool w) (u_ID <$> ups) preferID maxAttempts in
        let '(w, res) := seq_loop (seq_fuel w ids) gz r fs target apiPath maxAttempts 0 ids [] proactiveArchive None w in
        (w, XDone res)
    end in
  match fs_Hedge fs with
  | Some hedge =>
      let '(p, ups) := selectForPath proactiveArchive preferCanonicalHead now (w_pool w) apiPath
                         (Z.to_nat (hg_MaxCount hedge + 1)) in
      let w := set_pool p w in
      if (1 <? length ups)%nat then (w, XHedge (u_ID <$> ups) preferID target proactiveArchive) else sequential w
  | None => sequential w
  end.

Definition executeFS (consensus : option ConsensusPolicy) (gz : bool) (now : Z) (r : Inbound) (preferID : string)
    (required : Selector) (fs : FailsafeConfig) (apiPath : string) (cios : list participant_io) (w : World)
    : World * exec_step :=
  if Selector_Enabled required then
    let '(w, res) := executeSelectedFS gz now r required fs apiPath w in (w, XDone res)
  else
    let path := url_Path (req_URL (in_req r)) in
    let preferCanonicalHead := pathHasNamedSlotID path in
    let target := classifyHistoricalTarget path in
    let proactiveArchive := HasArchive (w_pool w) &&
      RequiresArchive target (MaxSlot (p_blockCache (w_pool w))) (SlotsPerEpoch (w_pool w)) in
    let preferID :=
      if proactiveArchive && negb (String.eqb preferID "") then
        match ByID (w_pool w) preferID with
        | Some pu => if IsArchive pu then preferID else ""
        | None => ""
        end
      else preferID in
    let rest := execute_rest gz now r preferID fs apiPath target proactiveArchive preferCanonicalHead in
    match consensus with
    | None => rest w
    | Some cp =>
        let '(p, ups) := selectForPath proactiveArchive preferCanonicalHead now (w_pool w) apiPath
                           (Z.to_nat (cp_MaxParticipants cp)) in
        let w := set_pool p w in
        if cp_AgreementThreshold cp <=? Z.of_nat (length ups) then
          let '(ups, res) := Consensus_Execute sha now cp ups cios in
          let w := write_back ups w in
          match res with
          | inr c => (w, XDone (inr (consensus_exec c)))
          | inl (EUnavailable _ _ _) => rest w
          | inl e => (w, XDone (inl (XConsensus e)))
          end
        else rest w
    end.
End exec.
Arguments World _ : clear implicits.
