(* ===== verification/Ownership.v ===== *)
(** * Ownership of probes and response bodies

    A request that runs through [Exec] takes two resources from an upstream: an admission token,
    which may own the breaker's recovery probe, and an open response body, which counts as an
    active connection.  [holding F base O l w] says that in the world [w] the request holds exactly
    the responses [l]: every probe in flight belongs to a token of [l] or of [F] (the
    tokens of other requests), every active-connection counter is the [base] of other requests plus
    the open bodies, and the open bodies are those of [l] on top of [O].  The lemmas say what each
    primitive does to it; the executions are then verified by composing them. *)

From S2P Require Import Prelude GoStrings GoFloat Config CircuitBreaker ScoreTracker AutoTuner BlockCache.
From S2P Require Import Upstream Selector PoolOrder Pool PoolState Health MemoryStore Regexp Url CacheKey Paths Historical Session HeadWatcher Consensus Headers Exec.
#[local] Open Scope string_scope.
#[local] Open Scope Z_scope.

(** ** Counters *)

Lemma wrap_i64_add a b : wrap_i64 (wrap_i64 a + b) = wrap_i64 (a + b).
Proof. apply wrap_i64_mod. rewrite Z.add_mod by done. rewrite wrap_i64_congr. by rewrite <- Z.add_mod. Qed.

Section ownership.
Context `{RL : RateLib} `{NL : NetLib}.
Implicit Types w : World RL.

(** ** Reading the pool *)

Lemma ByID_update (p : Pool RL) id f id' :
  (∀ u, u_ID u = id → u_ID (f u) = id) →
  ByID (update_upstream id f p) id' = if decide (id = id') then f <$> ByID p id' else ByID p id'.
Proof.
  intros Hf. unfold ByID, update_upstream. cbn [p_upstreams]. induction (p_upstreams p) as [|u l IH]; cbn.
  { by destruct (decide _). }
  destruct (String.eqb_spec (u_ID u) id) as [E|E].
  - rewrite (Hf u E). destruct (decide (id = id')) as [<-|Hne].
    + rewrite E, String.eqb_refl. done.
    + rewrite (proj2 (String.eqb_neq id id')), E by done. rewrite (proj2 (String.eqb_neq id id')) by done. done.
  - destruct (String.eqb_spec (u_ID u) id') as [E'|E']; [|done]. subst id'. by rewrite decide_False by done.
Qed.

Lemma ByID_id (p : Pool RL) id u : ByID p id = Some u → u_ID u = id.
Proof. intros [_ H]%find_first_Some. by apply String.eqb_eq. Qed.

(** ** The invariant *)

Definition probe_owned (T : list CBToken) (id : string) (c : CB) : Prop :=
  cbProbeInFlight c = true →
  ∃ t, t ∈ T ∧ tok_u t = Some id ∧ tok_probe t = true ∧ tok_gen t = cbProbeGen c.

Definition open_count (id : string) (m : gmap nat string) : Z :=
  Z.of_nat (size (filter (λ hi : nat * string, hi.2 = id) m)).

Record owned (T : list CBToken) (base : string → Z) w : Prop := {
  own_probe id v : ByID (w_pool w) id = Some v → probe_owned T id (u_cb v);
  own_active id v : ByID (w_pool w) id = Some v → u_activeConns v = wrap_i64 (base id + open_count id (w_open w));
  own_next h id : w_open w !! h = Some id → (h < w_next w)%nat;
}.

(** The open bodies of the responses in hand. *)
Definition handles (l : list Exec) : list (nat * string) :=
  omap (λ e, (λ h, (h, ex_uid e)) <$> ex_handle e) l.

Record holding (F : list CBToken) (base : string → Z) (O : gmap nat string) (l : list Exec) w : Prop := {
  hold_owned : owned ((ex_tok <$> l) ++ F)%list base w;
  hold_open : w_open w = list_to_map (handles l) ∪ O;
  hold_nodup : NoDup (handles l).*1;
  hold_fresh h : h ∈ (handles l).*1 → O !! h = None;
}.

Lemma probe_weaken T T' id c : T ⊆ T' → probe_owned T id c → probe_owned T' id c.
Proof. intros HT H Hp. destruct (H Hp) as (t & Ht & Hr). exists t. split; [by apply HT|done]. Qed.

(** A token of another upstream does not matter. *)
Lemma probe_other t T id c : tok_u t ≠ Some id → probe_owned (t :: T) id c → probe_owned T id c.
Proof.
  intros Hne H Hp. destruct (H Hp) as (t' & [-> |Ht]%elem_of_cons & Hr); [|by exists t']. by destruct Hr.
Qed.

Lemma owned_mono T T' base w : T ⊆ T' → owned T base w → owned T' base w.
Proof. intros HT [H1 H2 H3]. constructor; [|done..]. intros id v Hv. eapply probe_weaken; [exact HT|by apply H1]. Qed.

(** A zero token owns nothing. *)
Lemma owned_zero T base w : owned (zero_token :: T) base w → owned T base w.
Proof. intros [H1 H2 H3]. constructor; [|done..]. intros id v Hv. apply (probe_other zero_token); [done|by apply H1]. Qed.

(** ** Updates of one upstream *)

(** [f] touches neither the breaker nor the counter. *)
Definition neutral (f : Upstream RL → Upstream RL) : Prop :=
  ∀ u, u_ID (f u) = u_ID u ∧ u_cb (f u) = u_cb u ∧ u_activeConns (f u) = u_activeConns u.

Lemma neutral_score path : neutral (RecordScoreErrorForPath path).
Proof. intros u. unfold RecordScoreErrorForPath, record_for_path. by destruct (String.eqb _ _). Qed.
Lemma neutral_success path d : neutral (RecordSuccessForPath path d).
Proof. intros u. unfold RecordSuccessForPath, record_for_path. by destruct (String.eqb _ _). Qed.
Lemma neutral_status now s : neutral (RecordResponseStatus now s).
Proof. by intros u. Qed.

Lemma owned_update T T' base w id f :
  owned T base w → (∀ u, u_ID u = id → u_ID (f u) = id) →
  (∀ u, ByID (w_pool w) id = Some u → probe_owned T' id (u_cb (f u)) ∧ u_activeConns (f u) = u_activeConns u) →
  (∀ id', id' ≠ id → ∀ c, probe_owned T id' c → probe_owned T' id' c) →
  owned T' base (on_upstream id f w).
Proof.
  intros [H1 H2 H3] Hid Hf Hother. constructor; cbn [on_upstream set_pool w_pool w_open w_next]; [| |done].
  - intros id' v. rewrite ByID_update by done. destruct (decide (id = id')) as [<-|Hne].
    + intros (u & Hu & ->)%fmap_Some. by apply Hf.
    + intros Hv. apply Hother; [done|]. by apply H1.
  - intros id' v. rewrite ByID_update by done. destruct (decide (id = id')) as [<-|Hne].
    + intros (u & Hu & ->)%fmap_Some. rewrite (proj2 (Hf u Hu)). by apply H2.
    + by apply H2.
Qed.

Lemma owned_neutral T base w id f : neutral f → owned T base w → owned T base (on_upstream id f w).
Proof.
  intros Hf Ho. eapply owned_update; [done| | |done].
  - intros u <-. apply Hf.
  - intros u Hu. destruct (Hf u) as (_ & -> & ->). split; [|done]. by apply (own_probe _ _ _ Ho).
Qed.

(** A settlement leaves the probe alone, or clears it when it is the token's own. *)
Lemma settle_probe_flag t o now c :
  (cbProbeInFlight (settle t o now c) = cbProbeInFlight c ∧ cbProbeGen (settle t o now c) = cbProbeGen c ∧
   (cbProbeInFlight c = true → tok_probe t = true → tok_gen t ≠ cbProbeGen c ∨ tok_u t = None)) ∨
  cbProbeInFlight (settle t o now c) = false.
Proof.
  unfold settle. destruct (tok_u t) as [uid|] eqn:Eu; [|left; by split_and!; auto].
  destruct (tok_probe t) eqn:Ep.
  - destruct (cbProbeInFlight c) eqn:Ec; cbn [negb orb]; [|by right].
    destruct (Z.eqb_spec (cbProbeGen c) (tok_gen t)) as [E|E]; cbn [negb].
    + right. unfold settle_probe, cbFailAndOpenLocked, cbOpenLocked, cbTransitionLocked. by repeat case_match.
    + left. split_and!; [done|done|]. intros _ _. left. congruence.
  - left. destruct (_ || _); [done|].
    destruct o; cbn; try done.
    unfold cbRecordFailureLocked, cbOpenLocked, cbTransitionLocked. cbn. by repeat case_match.
Qed.

Lemma probe_settle t T id o now c : probe_owned (t :: T) id c → probe_owned T id (settle t o now c).
Proof.
  intros H Hp. destruct (settle_probe_flag t o now c) as [(E1 & E2 & E3)|E]; [|congruence].
  rewrite E1 in Hp. destruct (H Hp) as (t' & [-> |Ht]%elem_of_cons & Ht1 & Ht2 & Ht3).
  - destruct (E3 Hp Ht2) as [?|?]; congruence.
  - exists t'. by rewrite E2.
Qed.

Lemma owned_settle t T base o now w : owned (t :: T) base w → owned T base (settle_token t o now w).
Proof.
  intros Ho. unfold settle_token. destruct (tok_u t) as [id|] eqn:Eu.
  - eapply owned_update; [exact Ho|done| |].
    + intros u Hu. split; [|done]. by apply probe_settle, (own_probe _ _ _ Ho).
    + intros id' Hne c. apply probe_other. congruence.
  - constructor; [|apply Ho..]. intros id v Hv. apply (probe_other t); [congruence|]. by apply (own_probe _ _ _ Ho).
Qed.

(** ** Bodies *)

Lemma open_count_insert h id m id' :
  m !! h = None → open_count id' (<[h := id]> m) = open_count id' m + (if decide (id = id') then 1 else 0).
Proof.
  intros Hm. unfold open_count. destruct (decide (id = id')) as [<-|Hne].
  - rewrite map_filter_insert_True by done. rewrite map_size_insert_None; [lia|].
    apply map_lookup_filter_None. by left.
  - rewrite map_filter_insert_not'; [lia|done|]. intros x Hx. congruence.
Qed.

Lemma open_count_delete h id m id' :
  m !! h = Some id → open_count id' (delete h m) = open_count id' m - (if decide (id = id') then 1 else 0).
Proof.
  intros Hm. rewrite <- (insert_delete_id m h id Hm) at 2. rewrite open_count_insert by apply lookup_delete_eq. lia.
Qed.

Lemma owned_close T base h w : owned T base w → owned T base (close_body h w).
Proof.
  intros Ho. unfold close_body. destruct (w_open w !! h) as [id|] eqn:Eh; [|done].
  constructor; cbn [on_upstream set_pool w_pool w_open w_next].
  - intros id' v. rewrite ByID_update by done. destruct (decide (id = id')) as [<-|Hne].
    + intros (u & Hu & ->)%fmap_Some. cbn. by apply (own_probe _ _ _ Ho).
    + by apply (own_probe _ _ _ Ho).
  - intros id' v. rewrite ByID_update, (open_count_delete h id) by done. destruct (decide (id = id')) as [<-|Hne].
    + intros (u & Hu & ->)%fmap_Some. cbn [trackedBody_Close fst DecrActive with_active u_activeConns].
      rewrite (own_active _ _ _ Ho id u Hu). rewrite <- Z.add_opp_r, wrap_i64_add. f_equal. lia.
    + intros Hv. rewrite (own_active _ _ _ Ho id' v Hv). f_equal. lia.
  - intros h' id' [_ H]%lookup_delete_Some. by apply (own_next _ _ _ Ho h' id').
Qed.

Lemma close_open h w : w_open (close_body h w) = delete h (w_open w).
Proof.
  unfold close_body. destruct (w_open w !! h) eqn:Eh; [done|]. symmetry. by apply delete_id.
Qed.
Lemma settle_open t o now w : w_open (settle_token t o now w) = w_open w.
Proof. unfold settle_token. by destruct (tok_u t). Qed.

(** ** Responses in hand *)

Context (F : list CBToken) (base : string → Z) (O : gmap nat string).
Abbreviation holds := (holding F base O).

Lemma holds_update l w id f : neutral f → holds l w → holds l (on_upstream id f w).
Proof. intros Hf [H1 H2 H3 H4]. constructor; [by apply owned_neutral|done..]. Qed.

(** Selection only advances the round-robin counter. *)
Lemma holds_select l w p : p_upstreams p = p_upstreams (w_pool w) → holds l w → holds l (set_pool p w).
Proof.
  intros Hp [[H1 H2 H3] H4 H5 H6].
  assert (∀ id, ByID p id = ByID (w_pool w) id) as HB by (intros id; unfold ByID; by rewrite Hp).
  constructor; [constructor; cbn [set_pool w_pool w_open w_next]|done..].
  - intros id v. rewrite HB. apply H1.
  - intros id v. rewrite HB. apply H2.
  - apply H3.
Qed.

Lemma handles_perm l l' : l ≡ₚ l' → handles l ≡ₚ handles l'.
Proof. apply omap_Permutation. Qed.

Lemma holds_perm l l' w : l ≡ₚ l' → holds l w → holds l' w.
Proof.
  intros Hl [H1 H2 H3 H4]. pose proof (handles_perm _ _ Hl) as Hh. constructor.
  - eapply owned_mono; [|exact H1]. intros t. by rewrite !elem_of_app, Hl.
  - rewrite H2. f_equal. by apply list_to_map_proper.
  - by rewrite <- Hh.
  - intros h. rewrite <- Hh. apply H4.
Qed.

(** The token and the body of a response, one after the other. *)
Definition disarm (e : Exec) : Exec :=
  {| ex_handle := ex_handle e; ex_resp := ex_resp e; ex_uid := ex_uid e; ex_tok := zero_token |}.

Lemma holds_settle e l o now w : holds (e :: l) w → holds (disarm e :: l) (settle_token (ex_tok e) o now w).
Proof.
  intros [H1 H2 H3 H4]. constructor; [|by rewrite settle_open|done..].
  eapply owned_mono; [|eapply owned_settle; exact H1]. intros t Ht. by right.
Qed.

(** Closing a body gives it up; the token moves to the frame. *)
Lemma holds_close h e l w :
  ex_handle e = Some h → holds (e :: l) w → holding (ex_tok e :: F) base O l (close_body h w).
Proof.
  intros Hh [H1 H2 H3 H4]. unfold handles in *. cbn [omap list_omap] in *. rewrite Hh in *.
  cbn [fmap option_fmap option_map list_fmap fst] in *. apply NoDup_cons in H3 as [Hni Hnd]. constructor; [| |done|].
  - apply owned_close. eapply owned_mono; [|exact H1]. intros t.
    rewrite ?elem_of_app, ?elem_of_cons, ?elem_of_app. cbn [app]. rewrite ?elem_of_cons, ?elem_of_app. tauto.
  - rewrite close_open, H2. cbn [list_to_map foldr uncurry]. apply map_eq. intros i.
    destruct (decide (i = h)) as [-> |Hne].
    + rewrite lookup_delete_eq. symmetry. apply lookup_union_None. split; [|apply H4; by left].
      by apply not_elem_of_list_to_map_1.
    + rewrite lookup_delete_ne by done. rewrite !lookup_union. f_equal. by apply lookup_insert_ne.
  - intros h' Hh'. apply H4. by right.
Qed.

Lemma holds_close_resp h resp id tok l w :
  holds ({| ex_handle := Some h; ex_resp := resp; ex_uid := id; ex_tok := tok |} :: l) w →
  holding (tok :: F) base O l (close_body h w).
Proof. by apply (holds_close h {| ex_handle := Some h; ex_resp := resp; ex_uid := id; ex_tok := tok |}). Qed.

(** Settling a token of the frame. *)
Lemma holds_settle_frame t l o now w : holding (t :: F) base O l w → holds l (settle_token t o now w).
Proof.
  intros [H1 H2 H3 H4]. constructor; [|by rewrite settle_open|done..]. eapply owned_settle.
  eapply owned_mono; [|exact H1]. intros t'. rewrite !elem_of_app, !elem_of_cons, elem_of_app. tauto.
Qed.

Lemma holds_zero_frame l w : holding (zero_token :: F) base O l w → holds l w.
Proof.
  intros [H1 H2 H3 H4]. constructor; [|done..]. apply owned_zero. eapply owned_mono; [|exact H1].
  intros t'. rewrite !elem_of_app, !elem_of_cons, elem_of_app. tauto.
Qed.

(** Closing the body and settling the token gives a response up. *)
Lemma holds_drop e l o now w :
  holds (e :: l) w → holds l (settle_token (ex_tok e) o now (close_opt (ex_handle e) w)).
Proof.
  intros H. apply holds_settle_frame. destruct (ex_handle e) as [h|] eqn:Eh; cbn [close_opt]; [by apply holds_close|].
  destruct H as [H1 H2 H3 H4]. unfold handles in *. cbn [omap list_omap] in *. rewrite Eh in *. cbn in *.
  constructor; [|done..]. eapply owned_mono; [|exact H1].
  intros t'. rewrite !elem_of_cons, !elem_of_app, !elem_of_cons. tauto.
Qed.

(** A response whose body is not tracked and whose token is settled. *)
Lemma holds_skip e l w : ex_handle e = None → ex_tok e = zero_token → holds l w → holds (e :: l) w.
Proof.
  intros Eh Et [H1 H2 H3 H4]. assert (handles (e :: l) = handles l) as Hl by (unfold handles; cbn; by rewrite Eh).
  constructor; [|by rewrite Hl..]. eapply owned_mono; [|exact H1]. intros t Ht. cbn. by right.
Qed.

(** What the response says does not matter. *)
Lemma holds_same e e' l w :
  ex_handle e' = ex_handle e → ex_uid e' = ex_uid e → ex_tok e' = ex_tok e → holds (e :: l) w → holds (e' :: l) w.
Proof.
  intros E1 E2 E3 [H1 H2 H3 H4].
  assert (handles (e' :: l) = handles (e :: l)) as Hl by (unfold handles; cbn; by rewrite E1, E2).
  constructor; [|by rewrite Hl..]. cbn [fmap list_fmap] in *. by rewrite E3.
Qed.

(** ** [forward] *)


Lemma acquire_probe uid now c :
  let '(c', tok, ok) := CBTryAcquire uid now c in
  (ok = false → tok = zero_token) ∧ ∀ T, probe_owned T uid c → probe_owned (tok :: T) uid c'.
Proof.
  assert (∀ T c0 tok0, probe_owned T uid c → cbProbeInFlight c0 = cbProbeInFlight c → cbProbeGen c0 = cbProbeGen c →
    probe_owned (tok0 :: T) uid c0) as Hsame.
  { intros T c0 tok0 H E1 E2 Hp. rewrite E1 in Hp. destruct (H Hp) as (t & Ht & Hr). exists t. rewrite E2.
    split; [by right|done]. }
  assert (∀ T c0, let '(c', tok) := cbGrantProbeLocked uid c0 in probe_owned (tok :: T) uid c') as Hg.
  { intros T c0. cbn. intros _. eexists. split; [by left|done]. }
  unfold CBTryAcquire. destruct (cbState c).
  - split; [done|]. intros T H. by eapply Hsame.
  - destruct (cbWindowElapsed now c).
    + destruct (cbGrantProbeLocked _ _) as [c' tok] eqn:E. split; [done|]. intros T _.
      specialize (Hg T (set_cbSuccess 0 (cbTransitionLocked CBHalfOpen c))). by rewrite E in Hg.
    + split; [done|]. intros T H. by eapply Hsame.
  - destruct (cbProbeInFlight c) eqn:Ep.
    + split; [done|]. intros T H. by eapply Hsame.
    + destruct (cbGrantProbeLocked _ _) as [c' tok] eqn:E. split; [done|]. intros T _.
      specialize (Hg T c). by rewrite E in Hg.
Qed.

(** [Upstream.Do]: the token joins the frame; a response counts as one connection. *)
Lemma do_spec now tr u :
  let '(u', res, tok) := Upstream_Do now tr u in
  u_ID u' = u_ID u ∧
  (∀ T, probe_owned T (u_ID u) (u_cb u) → probe_owned (tok :: T) (u_ID u) (u_cb u')) ∧
  match res with
  | DoRefused => tok = zero_token ∧ u_activeConns u' = u_activeConns u
  | DoErr _ => u_activeConns u' = wrap_i64 (wrap_i64 (u_activeConns u + 1) - 1)
  | DoResp _ tracked =>
      u_activeConns u' = if tracked then wrap_i64 (u_activeConns u + 1)
                         else wrap_i64 (wrap_i64 (u_activeConns u + 1) - 1)
  end.
Proof.
  unfold Upstream_Do. pose proof (acquire_probe (u_ID u) now (u_cb u)) as H.
  destruct (CBTryAcquire _ _ _) as [[c tok] ok]. destruct H as [H1 H2]. destruct ok; cbn [negb].
  - destruct tr as [e|s b]; [by split_and!|]. unfold TrackResponse. by destruct b; split_and!.
  - rewrite (H1 eq_refl) in *. by split_and!.
Qed.

Lemma wrap_up_down x : wrap_i64 (wrap_i64 (wrap_i64 x + 1) - 1) = wrap_i64 x.
Proof. rewrite <- Z.add_opp_r, wrap_i64_add, <- Z.add_assoc, wrap_i64_add. f_equal. lia. Qed.

(** Another token in the frame, and other counters. *)
Lemma holds_script l w w' :
  w_pool w' = w_pool w → w_open w' = w_open w → w_next w' = w_next w → holds l w → holds l w'.
Proof.
  intros Ep Eo En [[H1 H2 H3] H4 H5 H6]. constructor; [constructor|congruence|done..].
  - intros id v. rewrite Ep. apply H1.
  - intros id v. rewrite Ep, Eo. apply H2.
  - intros h id. rewrite Eo, En. apply H3.
Qed.

Lemma holds_frame t l w : holds l w → holding (t :: F) base O l w.
Proof.
  intros [H1 H2 H3 H4]. constructor; [|done..]. eapply owned_mono; [|exact H1].
  intros t'. rewrite !elem_of_app, elem_of_cons. tauto.
Qed.

Lemma holds_dispatch now tr id u l w :
  ByID (w_pool w) id = Some u → holds l w →
  let '(u', res, tok) := Upstream_Do now tr u in
  let w' := on_upstream id (λ _, u') w in
  match res with
  | DoResp _ true => ∀ resp, let '(h, w') := open_body id w' in
      holds ({| ex_handle := Some h; ex_resp := resp; ex_uid := id; ex_tok := tok |} :: l) w'
  | _ => holding (tok :: F) base O l w' ∧ (res = DoRefused → tok = zero_token)
  end.
Proof.
  intros Hu [[H1 H2 H3] H4 H5 H6]. pose proof (ByID_id _ _ _ Hu) as Eid. pose proof (do_spec now tr u) as Hd.
  destruct (Upstream_Do now tr u) as [[u' res] tok]. destruct Hd as (Ei & Hp & Ha). rewrite Eid in *. cbv zeta.
  assert (∀ id' v, ByID (update_upstream id (λ _, u') (w_pool w)) id' = Some v →
    v = u' ∧ id' = id ∨ id' ≠ id ∧ ByID (w_pool w) id' = Some v) as Hby.
  { intros id' v. rewrite ByID_update by done. destruct (decide (id = id')) as [<-|Hne].
    - intros (x & _ & ->)%fmap_Some. by left.
    - intros Hv. by right. }
  assert (∀ id' v, ByID (update_upstream id (λ _, u') (w_pool w)) id' = Some v →
    probe_owned (tok :: (ex_tok <$> l) ++ F)%list id' (u_cb v)) as Hprobe.
  { intros id' v [[-> ->]|[Hne Hv]]%Hby; [by apply Hp, H1|]. intros Hf. destruct (H1 id' v Hv Hf) as (t & Ht & Hr).
    exists t. split; [by right|done]. }
  assert (u_activeConns u = u_activeConns u' → holding (tok :: F) base O l (on_upstream id (λ _, u') w)) as Hframe.
  { intros Ea. constructor; [|done..]. constructor; cbn [on_upstream set_pool w_pool w_open w_next]; [| |done].
    - intros id' v Hv%Hprobe. intros Hf. destruct (Hv Hf) as (t & Ht & Hr). exists t. split; [|done].
      revert Ht. rewrite elem_of_app, !elem_of_cons, elem_of_app. tauto.
    - intros id' v [[-> ->]|[Hne Hv]]%Hby; [rewrite <- Ea|]; by apply H2. }
  pose proof (H2 id u Hu) as Hb.
  destruct res as [|e|s [|]].
  - destruct Ha as [Ht Ea]. split; [by apply Hframe|done].
  - split; [|done]. apply Hframe. rewrite Ha, Hb. symmetry. apply wrap_up_down.
  - intros resp. cbn [open_body]. assert (w_open w !! w_next w = None) as Hn.
    { destruct (w_open w !! w_next w) as [x|] eqn:E; [|done]. apply H3 in E. lia. }
    pose proof Hn as Hn'. rewrite H4, lookup_union_None in Hn'. destruct Hn' as [Hn1 Hn2].
    constructor; cbn [handles omap list_omap ex_handle fmap option_fmap option_map list_fmap fst ex_uid];
      fold (handles l).
    + constructor; cbn [on_upstream set_pool w_pool w_open w_next].
      * exact Hprobe.
      * intros id' v [[-> ->]|[Hne Hv]]%Hby; rewrite open_count_insert by done.
        -- rewrite decide_True by done. rewrite Ha, Hb, wrap_i64_add. f_equal. lia.
        -- rewrite decide_False by done. rewrite Z.add_0_r. by apply H2.
      * intros h id'. destruct (decide (h = w_next w)) as [-> |Hne]; [lia|]. rewrite lookup_insert_ne by done.
        intros ?%H3. lia.
    + cbn [on_upstream set_pool w_open w_next]. rewrite H4. cbn [list_to_map foldr uncurry].
      by rewrite <- insert_union_l.
    + apply NoDup_cons. split; [|done]. intros Hin. apply not_elem_of_list_to_map_2 in Hn1. done.
    + cbn [on_upstream set_pool w_next]. intros h [-> |Hh]%elem_of_cons; [done|by apply H6].
  - split; [|done]. apply Hframe. rewrite Ha, Hb. symmetry. apply wrap_up_down.
Qed.

Context (NewRequest_ok : string → string → bool) (gunzip : string → bool → option (string * bool)).

(** [forward] adds one response to those in hand, or only its token. *)
Lemma holds_forward gz id r l w :
  holds l w →
  match forward NewRequest_ok gunzip gz id r w with
  | (o, w', tok, inl e) => holding (tok :: F) base O l w' ∧ (e = FGated → tok = zero_token)
  | (o, w', tok, inr (h, _)) =>
      ∀ resp, holds ({| ex_handle := Some h; ex_resp := resp; ex_uid := id; ex_tok := tok |} :: l) w'
  end.
Proof.
  intros Hw. unfold forward. destruct (pop_io w) as [i w1] eqn:Epop.
  assert (w_pool w1 = w_pool w ∧ w_open w1 = w_open w ∧ w_next w1 = w_next w) as (Ep & Eo & En).
  { unfold pop_io in Epop. destruct (w_io w); injection Epop as <- <-; done. }
  assert (holds l (log_dispatch id w1)) as Hw1 by (by apply (holds_script l w)).
  set (w2 := log_dispatch id w1) in *. clearbody w2.
  destruct (ByID (w_pool w2) id) as [u|] eqn:Eu; [|split; [by apply holds_frame|done]].
  destruct (forward_request _ _ _ _) as [out|]; [|split; [by apply holds_frame|done]].
  set (tr := match io_reply i with RErr => _ | _ => _ end).
  pose proof (holds_dispatch (io_now i) tr id u l w2 Eu Hw1) as H.
  destruct (Upstream_Do (io_now i) tr u) as [[u' res] tok] eqn:Ed. cbv zeta in H.
  destruct res as [|e|s tracked].
  - split; [apply H|]. intros _. by apply H.
  - split; [|done]. by destruct (io_reply i); apply H.
  - destruct (io_reply i) as [|s' hdr content err].
    + exfalso. unfold tr in Ed. unfold Upstream_Do in Ed. by repeat case_match.
    + assert (tracked = true) as ->.
      { unfold tr, Upstream_Do, TrackResponse in Ed. repeat case_match; congruence. }
      destruct (open_body id (on_upstream id (λ _, u') w2)) as [h w3] eqn:Eop.
      destruct (String.eqb _ "gzip"); [|exact H].
      destruct (gunzip content err) as [[plain perr]|]; [exact H|].
      split; [|done]. exact (holds_close_resp _ _ _ _ _ _ (H (ex_resp (consensus_exec zero_result)))).
Qed.
End ownership.

(** ** Handing responses to the frame

    What one request leaves to be drained is part of the frame of the next one. *)

Definition frame_tokens (l : list Exec) (F : list CBToken) : list CBToken := ((ex_tok <$> l) ++ F)%list.
Definition frame_open (l : list Exec) (O : gmap nat string) : gmap nat string := list_to_map (handles l) ∪ O.

Lemma holds_absorb `{RL : RateLib} F base O l (w : World RL) :
  holding F base O l w → holding (frame_tokens l F) base (frame_open l O) [] w.
Proof.
  intros [H1 H2 H3 H4]. constructor; [exact H1|rewrite H2; symmetry; apply map_empty_union|apply NoDup_nil_2|].
  intros h Hh. by apply not_elem_of_nil in Hh.
Qed.

Lemma handles_app l k : handles (l ++ k)%list = (handles l ++ handles k)%list.
Proof. apply omap_app. Qed.

Lemma holds_restore `{RL : RateLib} F base O l k (w0 w : World RL) :
  holding F base O l w0 → holding (frame_tokens l F) base (frame_open l O) k w → holding F base O (k ++ l)%list w.
Proof.
  intros [_ _ N1 N2] [H1 H2 H3 H4]. unfold frame_tokens, frame_open in *.
  assert (∀ h, h ∈ (handles k).*1 → h ∉ (handles l).*1 ∧ O !! h = None) as Hf.
  { intros h [E1 E2]%H4%lookup_union_None. split; [|done]. by apply not_elem_of_list_to_map. }
  constructor; rewrite ?handles_app, ?fmap_app.
  - by rewrite <- app_assoc.
  - by rewrite H2, list_to_map_app, assoc by apply _.
  - apply NoDup_app. split_and!; [done| |done]. intros h Hh. by apply Hf.
  - intros h [Hh|Hh]%elem_of_app; [by apply Hf|by apply N2].
Qed.

(** A world in which nothing has been taken. *)
Lemma fresh_holds `{RL : RateLib} (w : World RL) :
  w_open w = ∅ → (∀ u, u ∈ p_upstreams (w_pool w) → cbProbeInFlight (u_cb u) = false ∧ u_activeConns u = 0) →
  holding [] (λ _, 0) ∅ [] w.
Proof.
  intros Ho Hu.
  assert (∀ id v, ByID (w_pool w) id = Some v → cbProbeInFlight (u_cb v) = false ∧ u_activeConns v = 0) as H.
  { intros id v [Hv _]%find_first_Some. by apply Hu. }
  constructor; [constructor| | |].
  - intros id v Hv Hpr. destruct (H id v Hv). congruence.
  - intros id v Hv. destruct (H id v Hv) as [_ ->]. rewrite Ho. done.
  - intros h id. by rewrite Ho.
  - by rewrite Ho.
  - apply NoDup_nil_2.
  - intros h Hh. by apply not_elem_of_nil in Hh.
Qed.
