(* ===== verification/ExecSafety.v ===== *)
(** * What an execution gives back, tries and returns

    The executions of [Exec] are verified against the ownership lemmas: whatever the upstreams
    answer, an execution that fails has given back every probe and every connection it took, and one
    that succeeds hands exactly its response to the caller.  The sequential loop terminates, tries no
    upstream twice and stays within its budget. *)

From S2P Require Import Prelude GoStrings GoFloat Config CircuitBreaker ScoreTracker AutoTuner BlockCache.
From S2P Require Import Upstream Selector PoolOrder Pool PoolState Health MemoryStore Regexp Url CacheKey Paths Historical Session HeadWatcher Consensus Headers Exec Ownership.
#[local] Open Scope string_scope.
#[local] Open Scope Z_scope.

(** ** Selection *)

Lemma NoDup_submseteq_l {A} (l k : list A) : l ⊆+ k → NoDup k → NoDup l.
Proof. intros (k' & ->)%submseteq_Permutation. by intros [? _]%NoDup_app. Qed.

Section selection.
Context `{RL : RateLib}.

Lemma select_pool now (p : Pool RL) all n path prefer :
  p_upstreams (selectFromCandidatesForPath now p all n path prefer).1 = p_upstreams p.
Proof. done. Qed.

Lemma selectForPath_pool a c now (p : Pool RL) path n : p_upstreams (selectForPath a c now p path n).1 = p_upstreams p.
Proof.
  unfold selectForPath, SelectForPathArchive. destruct a; [|by destruct c].
  by destruct (length _ =? 0)%nat.
Qed.

(** Selected upstreams are distinct members of the pool. *)
Lemma select_submseteq now (p : Pool RL) all n path prefer :
  (selectFromCandidatesForPath now p all n path prefer).2 ⊆+ all.
Proof.
  destruct (select_order now p all n path prefer) as (ordered & -> & Hp & _).
  etransitivity; [apply sublist_submseteq, sublist_take|]. rewrite Hp. apply sublist_submseteq, candidates_sublist.
Qed.

Lemma selectForPath_submseteq a c now (p : Pool RL) path n : (selectForPath a c now p path n).2 ⊆+ p_upstreams p.
Proof.
  unfold selectForPath, SelectForPathArchive. destruct a; [|destruct c; apply select_submseteq].
  destruct (length _ =? 0)%nat; [apply submseteq_nil_l|].
  etransitivity; [apply select_submseteq|]. apply sublist_submseteq, bfilter_sublist.
Qed.

Lemma selectForPath_length a c now (p : Pool RL) path n : (length (selectForPath a c now p path n).2 <= n)%nat.
Proof.
  assert (∀ all prefer, (length (selectFromCandidatesForPath now p all n path prefer).2 <= n)%nat) as H.
  { intros all prefer. destruct (select_order now p all n path prefer) as (ordered & -> & _ & _).
    rewrite length_take. lia. }
  unfold selectForPath, SelectForPathArchive. destruct a; [|destruct c; apply H].
  destruct (length _ =? 0)%nat; [cbn; lia|apply H].
Qed.
End selection.

Section safety.
Context `{RL : RateLib} `{NL : NetLib}.
Context (NewRequest_ok : string → string → bool) (gunzip : string → bool → option (string * bool)) (sha : string → string).
Context (F : list CBToken) (base : string → Z) (O : gmap nat string).
Abbreviation holds := (holding F base O).
Implicit Types w : World RL.

(** The result of an execution that began with [l] in hand. *)
Definition finishes (l : list Exec) (wr : World RL * (exec_error + Exec)) : Prop :=
  match wr.2 with inl _ => holds l wr.1 | inr e => holds (e :: l) wr.1 end.

(** A failed attempt: its token is settled. *)
Lemma holds_record_failure l id tok path now w :
  holding (tok :: F) base O l w → holds l (recordUpstreamFailure id tok path now w).
Proof. intros H. apply holds_update; [apply neutral_score|]. by apply holds_settle_frame. Qed.

Lemma holds_dropBuffered now last l w :
  holds (option_list last ++ l)%list w → holds l (dropBuffered now last w).
Proof. destruct last as [e|]; [|done]. apply holds_drop. Qed.

Lemma holds_dropBuffered_under now e last l w :
  holds (e :: option_list last ++ l)%list w → holds (e :: l) (dropBuffered now last w).
Proof. intros H. apply holds_dropBuffered. eapply holds_perm; [|exact H]. apply Permutation_middle. Qed.

Lemma peek_spec resp target : (peekBodyForPruning resp target).2 = resp ∨ rs_Status resp = 400.
Proof.
  unfold peekBodyForPruning. destruct (Z.eqb_spec (rs_Status resp) 400) as [E|E]; [by right|]. by left.
Qed.

(** Case analysis on an attempt, with what it leaves in hand. *)
Ltac step_forward Hw :=
  match goal with
  | |- context [forward ?nr ?gu ?gz ?id ?r ?w] =>
      let Hf := fresh "Hf" in
      pose proof (holds_forward _ _ _ nr gu gz id r _ w Hw) as Hf;
      destruct (forward nr gu gz id r w) as [[[?o ?w'] ?tok] [?e|[?h ?resp]]]
  end.

Lemma candidates_loop_finishes gz r sel fs target path i ups last lastErr l w :
  holds (option_list last ++ l)%list w →
  finishes l (candidates_loop NewRequest_ok gunzip gz r sel fs target path i ups last lastErr w).
Proof.
  revert i last lastErr w. induction ups as [|id rest IH]; intros i last lastErr w Hw; cbn [candidates_loop].
  { destruct last; exact Hw. }
  destruct (_ && _ && _); [by apply holds_dropBuffered|]. step_forward Hw.
  - destruct Hf as [Hf Hz]. destruct (isClientCancel o e).
    { by apply holds_dropBuffered, holds_settle_frame. }
    case_bool_decide as Eg.
    + apply IH. apply holds_zero_frame. by rewrite <- (Hz Eg).
    + apply IH. apply holds_update; [apply neutral_score|]. by apply holds_settle_frame.
  - destruct (rs_Status resp <? 500).
    + destruct (peekBodyForPruning resp target) as [[peeked err] resp'].
      destruct (_ && isPruningError _ _ _).
      * apply IH. cbn [option_list app]. apply holds_dropBuffered_under, holds_update; [apply neutral_status|].
        exact (Hf resp').
      * apply holds_dropBuffered_under. exact (Hf resp').
    + apply IH. cbn [option_list app]. apply holds_dropBuffered_under.
      specialize (Hf resp). apply (holds_settle _ _ _ _ _ cbSettleFailure (io_done o)) in Hf.
      set (w1 := settle_token tok _ _ w') in *.
      destruct (negb _); [apply holds_update; [apply neutral_score|]|]; exact Hf.
Qed.

Lemma executeSelectedFS_finishes gz now r required fs path l w :
  holds l w → finishes l (executeSelectedFS NewRequest_ok gunzip gz now r required fs path w).
Proof.
  intros Hw. unfold executeSelectedFS. destruct (nonempty _).
  - destruct (ByID _ _) as [u|]; [|exact Hw]. step_forward Hw; [|exact (Hf resp)]. destruct Hf as [Hf Hz].
    unfold finishes. cbn [fst snd]. destruct (isClientCancel o e); [by apply holds_settle_frame|].
    case_bool_decide as Eg; [|by apply holds_record_failure].
    apply holds_zero_frame. by rewrite <- (Hz Eg).
  - pose proof (select_pool now (w_pool w) (bfilter (Selector_Match required) (p_upstreams (w_pool w)))
      (Z.to_nat (MaxAttempts fs)) path false) as Hp.
    unfold SelectMatching. destruct (selectFromCandidatesForPath _ _ _ _ _ _) as [p ups]. cbn [fst] in Hp.
    apply (holds_select _ _ _ _ _ _ Hp) in Hw. destruct ups as [|u ups]; [exact Hw|].
    by apply candidates_loop_finishes.
Qed.

Lemma promote_loop_finishes gz r target ups tried lastErr l w :
  holds l w →
  match promote_loop NewRequest_ok gunzip gz r target ups tried lastErr w with
  | (w', inl _) => holds l w'
  | (w', inr e) => holds (e :: l) w'
  end.
Proof.
  revert lastErr w. induction ups as [|id rest IH]; intros lastErr w Hw; cbn [promote_loop]; [done|].
  case_bool_decide; [by apply IH|]. step_forward Hw.
  - destruct Hf as [Hf Hz]. destruct (isClientCancel o e); [by apply holds_settle_frame|].
    case_bool_decide as Eg; apply IH; [|by apply holds_settle_frame].
    apply holds_zero_frame. by rewrite <- (Hz Eg).
  - destruct (500 <=? rs_Status resp).
    + apply IH. exact (holds_drop _ _ _ _ _ _ _ _ (Hf resp)).
    + destruct (peekBodyForPruning resp target) as [[peeked err] resp']. destruct (isPruningError _ _ _).
      * apply IH. exact (holds_drop _ _ _ _ _ _ _ _ (Hf resp')).
      * exact (Hf resp').
Qed.

Lemma promoteToArchive_finishes gz now path r tried n target l w :
  holds l w →
  match promoteToArchive NewRequest_ok gunzip gz now path r tried n target w with
  | (w', inl _) => holds l w'
  | (w', inr e) => holds (e :: l) w'
  end.
Proof.
  intros Hw. unfold promoteToArchive. cbv zeta. set (m := Z.to_nat _).
  pose proof (selectForPath_pool true false now (w_pool w) path m) as Hp. unfold selectForPath in Hp.
  destruct (SelectForPathArchive _ _ _ _) as [p ups]. cbn [fst] in Hp.
  apply (holds_select _ _ _ _ _ _ Hp) in Hw. destruct ups as [|u ups]; [exact Hw|]. by apply promote_loop_finishes.
Qed.

Lemma seq_loop_finishes fuel gz r fs target path n i rest tried biased lastErr l w :
  holds l w →
  finishes l (seq_loop NewRequest_ok gunzip fuel gz r fs target path n i rest tried biased lastErr w).
Proof.
  revert i rest tried biased lastErr w. induction fuel as [|fuel IH]; intros i rest tried biased lastErr w Hw; [exact Hw|].
  cbn [seq_loop]. destruct rest as [|id rest]; [exact Hw|]. case_bool_decide; [by apply IH|].
  destruct (_ && _ && _); [exact Hw|]. step_forward Hw.
  - destruct Hf as [Hf Hz]. destruct (isClientCancel o e); [by apply holds_settle_frame|].
    case_bool_decide as Eg; apply IH; [|by apply holds_record_failure].
    apply holds_zero_frame. by rewrite <- (Hz Eg).
  - destruct (rs_Status resp <? 500).
    + destruct (peekBodyForPruning resp target) as [[peeked err] resp'].
      destruct (_ && isPruningError _ _ _); [|exact (Hf resp')].
      destruct (negb (HasArchive _)); [exact (Hf resp')|].
      set (m := Z.to_nat _). pose proof (selectForPath_pool true false (io_done o) (w_pool w') path m) as Hp.
      unfold selectForPath in Hp. destruct (SelectForPathArchive _ _ _ _) as [p ups]. cbn [fst] in Hp.
      pose proof (holds_select _ _ _ _ _ _ Hp (Hf resp')) as Hf'. destruct ups as [|u ups]; [exact Hf'|].
      apply IH. apply holds_update; [apply neutral_status|]. exact (holds_drop _ _ _ _ _ _ _ _ Hf').
    + apply IH. apply holds_record_failure. exact (holds_close_resp _ _ _ _ _ _ _ _ _ (Hf resp)).
Qed.

(** ** Consensus *)

(** [u'] is [u] after operations that give back what they took. *)
Definition gave_back (u u' : Upstream RL) : Prop :=
  u_ID u' = u_ID u ∧ (∀ T, probe_owned T (u_ID u) (u_cb u) → probe_owned T (u_ID u) (u_cb u')) ∧
  ∀ x, u_activeConns u = wrap_i64 x → u_activeConns u' = wrap_i64 x.

Lemma gave_back_refl u : gave_back u u.
Proof. by split_and!. Qed.

Lemma probe_settle2 t T id o o' now now' c :
  probe_owned (t :: T) id c → probe_owned T id (settle t o now (settle t o' now' c)).
Proof.
  intros H. apply probe_settle. eapply probe_weaken; [|by apply probe_settle]. intros x Hx. by right.
Qed.

Lemma participant_gives_back now maxBody io u : gave_back u (participant now maxBody io u).1.
Proof.
  unfold participant. cbv zeta.
  destruct io as [|cancel|status headers content readErr]; [apply gave_back_refl| |].
  - pose proof (do_spec now (TransportErr "transport") u) as Hd.
    destruct (Upstream_Do _ _ u) as [[u1 res] tok] eqn:Ed. destruct Hd as (E & Hp & Ha).
    assert (∀ x, u_activeConns u = wrap_i64 x → u_activeConns u1 = wrap_i64 x) as Hact.
    { intros x Hx. destruct res as [|e|s b]; [by destruct Ha as [_ ->]|by rewrite Ha, Hx, wrap_up_down|].
      unfold Upstream_Do in Ed. by repeat case_match. }
    destruct (cancel && _); cbn [fst]; (split_and!; [done| |done]); intros T HT;
      [by apply probe_settle, Hp|by apply probe_settle2, Hp].
  - pose proof (do_spec now (TransportResp status true) u) as Hd.
    destruct (Upstream_Do _ _ u) as [[u1 res] tok] eqn:Ed. destruct Hd as (E & Hp & Ha).
    destruct res as [|e|s b].
    + destruct Ha as [_ Ha]. cbn [fst]. split_and!; [done| |]; [intros T HT; by apply probe_settle2, Hp|].
      intros x Hx. cbn. by rewrite Ha.
    + unfold Upstream_Do, TrackResponse in Ed. by repeat case_match.
    + assert (b = true) as -> by (unfold Upstream_Do, TrackResponse in Ed; repeat case_match; congruence).
      assert (∀ x, u_activeConns u = wrap_i64 x → wrap_i64 (u_activeConns u1 - 1) = wrap_i64 x) as Hact
        by (intros x Hx; by rewrite Ha, Hx, wrap_up_down).
      destruct (readBodyCapped _ _ _); cbn [fst]; (split_and!; [done| |done]); intros T HT.
      * unfold settleTokenForStatus. by apply probe_settle2, Hp.
      * by apply probe_settle2, Hp.
Qed.

Lemma holds_write_back l ups w :
  NoDup (u_ID <$> ups) → (∀ u', u' ∈ ups → ∃ u, ByID (w_pool w) (u_ID u') = Some u ∧ gave_back u u') →
  holds l w → holds l (write_back ups w).
Proof.
  revert w. induction ups as [|u' ups IH]; intros w Hnd Hups Hw; [done|]. cbn [write_back foldl fmap list_fmap] in *.
  apply NoDup_cons in Hnd as [Hni Hnd]. destruct (Hups u' ltac:(by left)) as (u & Hu & Hid & Hp & Ha).
  apply IH; [done| |].
  - intros v' Hv'. destruct (Hups v' ltac:(by right)) as (v & Hv & Hb). exists v. split; [|done].
    cbn [on_upstream set_pool w_pool]. rewrite ByID_update by done. rewrite decide_False; [done|].
    intros E. apply Hni. rewrite E. by apply list_elem_of_fmap_2.
  - destruct Hw as [Ho H4 H5 H6]. constructor; [|done..].
    pose proof (own_active _ _ _ Ho _ _ Hu) as Hact. pose proof (ByID_id _ _ _ Hu) as Eid.
    eapply owned_update; [exact Ho|done| |done]. intros v Hv. rewrite Hu in Hv. injection Hv as <-. split.
    + rewrite <- Eid. apply Hp. rewrite Eid. by apply (own_probe _ _ _ Ho).
    + rewrite Hact. by apply Ha.
Qed.

(** The upstreams a consensus round returns. *)
Lemma consensus_ups now cp ups ios :
  let ups' := (Consensus_Execute sha now cp ups ios).1 in
  (u_ID <$> ups') `sublist_of` (u_ID <$> ups) ∧
  ∀ u', u' ∈ ups' → ∃ u, u ∈ ups ∧ gave_back u u'.
Proof.
  unfold Consensus_Execute. cbv zeta. set (n := Z.to_nat _). destruct (n =? 0)%nat; cbn [fst].
  { split; [done|]. intros u' Hu'. exists u'. split; [done|apply gave_back_refl]. }
  set (f := λ u io, participant now (cp_MaxBodyBytes cp) io u).
  assert (∀ us xs, (u_ID <$> (zip_with f us xs).*1) `sublist_of` (u_ID <$> us) ∧
    ∀ u', u' ∈ (zip_with f us xs).*1 → ∃ u, u ∈ us ∧ gave_back u u') as H.
  { intros us. induction us as [|u us IH]; intros xs; [split; [done|by intros u' ?%not_elem_of_nil]|].
    destruct xs as [|io xs]; [split; [apply sublist_nil_l|by intros u' ?%not_elem_of_nil]|].
    destruct (IH xs) as [H1 H2]. cbn [zip_with fmap list_fmap]. pose proof (participant_gives_back now (cp_MaxBodyBytes cp) io u) as Hg.
    split.
    - unfold f at 1. rewrite (proj1 Hg). by constructor.
    - intros u' [-> |Hu']%elem_of_cons; [exists u; split; [by left|done]|].
      destruct (H2 u' Hu') as (v & Hv & Hgv). exists v. split; [by right|done]. }
  destruct (H (take n ups) (take n ios)) as [H1 H2]. split.
  - rewrite fmap_app. replace (u_ID <$> ups) with ((u_ID <$> take n ups) ++ (u_ID <$> drop n ups))%list
      by (rewrite <- fmap_app; by rewrite take_drop). by apply sublist_app.
  - intros u' [Hu'|Hu']%elem_of_app.
    + destruct (H2 u' Hu') as (u & Hu & Hg). exists u. split; [|done]. rewrite <- (take_drop n ups). set_solver.
    + exists u'. split; [|apply gave_back_refl]. rewrite <- (take_drop n ups). set_solver.
Qed.

(** ** [executeFS] *)

Lemma ByID_unique (p : Pool RL) u : NoDup (u_ID <$> p_upstreams p) → u ∈ p_upstreams p → ByID p (u_ID u) = Some u.
Proof.
  unfold ByID. induction (p_upstreams p) as [|v l IH]; intros Hnd Hu; [by apply not_elem_of_nil in Hu|].
  cbn in *. apply NoDup_cons in Hnd as [Hni Hnd]. destruct (String.eqb_spec (u_ID v) (u_ID u)) as [E|E].
  - apply elem_of_cons in Hu as [-> |Hu]; [done|]. exfalso. apply Hni. rewrite E. by apply list_elem_of_fmap_2.
  - apply elem_of_cons in Hu as [-> |Hu]; [done|]. by apply IH.
Qed.

Lemma execute_rest_finishes gz now r preferID fs path target a c l w :
  holds l w →
  match execute_rest NewRequest_ok gunzip gz now r preferID fs path target a c w with
  | (w', XDone res) => finishes l (w', res)
  | (w', XHedge _ _ _ _) => holds l w'
  end.
Proof.
  intros Hw. unfold execute_rest. cbv zeta.
  assert (∀ n, p_upstreams (selectForPath a c now (w_pool w) path n).1 = p_upstreams (w_pool w)) as Hsel
    by (intros; apply selectForPath_pool).
  assert (∀ w, holds l w → match
    (let '(p, ups) := selectForPath a c now (w_pool w) path (Z.to_nat (MaxAttempts fs)) in
     let w := set_pool p w in
     match ups with
     | [] => (w, XDone (inl XNoUpstreams))
     | _ =>
         let ids := ensurePreferredUpstreamFirst now (w_pool w) (u_ID <$> ups) preferID (MaxAttempts fs) in
         let '(w, res) := seq_loop NewRequest_ok gunzip (seq_fuel w ids) gz r fs target path (MaxAttempts fs) 0 ids [] a None w in
         (w, XDone res)
     end) with
    | (w', XDone res) => finishes l (w', res)
    | (w', XHedge _ _ _ _) => holds l w'
    end) as Hseq.
  { clear w Hw Hsel. intros w Hw. pose proof (selectForPath_pool a c now (w_pool w) path (Z.to_nat (MaxAttempts fs))) as Hp.
    destruct (selectForPath _ _ _ _ _ _) as [p ups]. cbn [fst] in Hp. apply (holds_select _ _ _ _ _ _ Hp) in Hw.
    destruct ups as [|u ups]; [exact Hw|]. cbv zeta. set (ids := ensurePreferredUpstreamFirst _ _ _ _ _).
    pose proof (seq_loop_finishes (seq_fuel (set_pool p w) ids) gz r fs target path (MaxAttempts fs) 0 ids [] a None l _ Hw) as H.
    by destruct (seq_loop _ _ _ _ _ _ _ _ _ _ _ _ _ _). }
  destruct (fs_Hedge fs) as [hedge|]; [|by apply Hseq].
  pose proof (Hsel (Z.to_nat (hg_MaxCount hedge + 1))) as Hp.
  destruct (selectForPath _ _ _ _ _ _) as [p ups]. cbn [fst] in Hp. apply (holds_select _ _ _ _ _ _ Hp) in Hw.
  destruct (1 <? length ups)%nat; [done|by apply Hseq].
Qed.

Lemma executeFS_finishes consensus gz now r preferID required fs path cios l w :
  NoDup (u_ID <$> p_upstreams (w_pool w)) → holds l w →
  match executeFS NewRequest_ok gunzip sha consensus gz now r preferID required fs path cios w with
  | (w', XDone res) => finishes l (w', res)
  | (w', XHedge _ _ _ _) => holds l w'
  end.
Proof.
  intros Hnd Hw. unfold executeFS. cbv zeta. destruct (Selector_Enabled required).
  { pose proof (executeSelectedFS_finishes gz now r required fs path l w Hw) as H. by destruct (executeSelectedFS _ _ _ _ _ _ _ _ _). }
  set (a := HasArchive _ && _). set (c := pathHasNamedSlotID _). set (target := classifyHistoricalTarget _).
  set (pid := if a && _ then _ else _). clearbody pid a c.
  destruct consensus as [cp|]; [|by apply execute_rest_finishes].
  pose proof (selectForPath_pool a c now (w_pool w) path (Z.to_nat (cp_MaxParticipants cp))) as Hp.
  pose proof (selectForPath_submseteq a c now (w_pool w) path (Z.to_nat (cp_MaxParticipants cp))) as Hs.
  destruct (selectForPath _ _ _ _ _ _) as [p ups]. cbn [fst snd] in Hp, Hs. apply (holds_select _ _ _ _ _ _ Hp) in Hw.
  destruct (_ <=? _); [|by apply execute_rest_finishes].
  destruct (consensus_ups now cp ups cios) as [H1 H2]. destruct (Consensus_Execute _ _ _ _ _) as [ups' res]. cbn [fst] in H1, H2.
  assert (holds l (write_back ups' (set_pool p w))) as Hw'.
  { apply holds_write_back; [| |done].
    - eapply sublist_NoDup; [|exact H1]. eapply NoDup_submseteq_l; [|exact Hnd]. by apply fmap_submseteq.
    - intros u' Hu'. destruct (H2 u' Hu') as (u & Hu & Hg). exists u. split; [|done]. rewrite (proj1 Hg).
      cbn [set_pool w_pool]. apply ByID_unique; rewrite Hp; [done|]. by eapply elem_of_submseteq. }
  destruct res as [e|best]; [destruct e|]; try exact Hw'; [by apply execute_rest_finishes|].
  by apply holds_skip.
Qed.
End safety.

(** ** A world to run in *)

Module ExecDemo.
Definition demo_world (ios : list io) : World ToyRate :=
  {| w_pool := demo_pool (NewBlockCache 64 2); w_next := 0; w_open := ∅; w_log := []; w_io := ios |}.

Lemma demo_world_holds ios : holding [] (λ _, 0) ∅ [] (demo_world ios).
Proof.
  apply fresh_holds; [done|]. intros u Hu. change (u ∈ demo_ups) in Hu. unfold demo_ups in Hu.
  rewrite !elem_of_cons, elem_of_nil in Hu. by destruct Hu as [-> |[-> |[]]].
Qed.

Lemma demo_world_ids ios : NoDup (u_ID <$> p_upstreams (w_pool (demo_world ios))).
Proof. apply (bool_decide_eq_true_1 _). by vm_compute. Qed.
End ExecDemo.
