(* ===== verification/ExecBounds.v ===== *)
(** * Attempts: termination, budget, and what is returned

    Every execution of [Exec] ends, dispatches to each upstream at most once, makes at most one attempt
    more than configured (the archive pass always gets one), and, outside client-selected
    upstreams and consensus, returns no server error as a response. *)

From S2P Require Import Prelude GoStrings GoFloat Config CircuitBreaker ScoreTracker AutoTuner BlockCache.
From S2P Require Import Upstream Selector PoolOrder Pool PoolState Health MemoryStore Regexp Url CacheKey Paths Historical Session HeadWatcher Consensus Headers Exec Ownership ExecSafety.
#[local] Open Scope string_scope.
#[local] Open Scope Z_scope.

Section attempts.
Context `{RL : RateLib} `{NL : NetLib}.
Context (NewRequest_ok : string → string → bool) (gunzip : string → bool → option (string * bool)) (sha : string → string).
Implicit Types w : World RL.

Definition pool_ids w : list string := u_ID <$> p_upstreams (w_pool w).

(** An operation that dispatches to [ids] and leaves the pool's members alone. *)
Definition dispatches (ids : list string) w w' : Prop := pool_ids w' = pool_ids w ∧ w_log w' = (w_log w ++ ids)%list.

Lemma dispatches_trans a b w1 w2 w3 : dispatches a w1 w2 → dispatches b w2 w3 → dispatches (a ++ b)%list w1 w3.
Proof. intros [E1 E2] [E3 E4]. split; [congruence|]. by rewrite E4, E2, app_assoc. Qed.

Lemma dispatches_refl w : dispatches [] w w.
Proof. split; [done|]. by rewrite app_nil_r. Qed.

Lemma dispatches_then a w1 w2 w3 : dispatches a w1 w2 → dispatches [] w2 w3 → dispatches a w1 w3.
Proof. intros H1 H2. rewrite <- (app_nil_r a). by eapply dispatches_trans. Qed.

Lemma update_ids id f (p : Pool RL) :
  (∀ u, u_ID u = id → u_ID (f u) = id) → u_ID <$> p_upstreams (update_upstream id f p) = u_ID <$> p_upstreams p.
Proof.
  intros Hf. unfold update_upstream. cbn [p_upstreams]. rewrite <- list_fmap_compose. apply list_fmap_ext.
  intros i u _. cbn. destruct (String.eqb_spec (u_ID u) id) as [E|E]; [|done]. by rewrite Hf.
Qed.

Lemma quiet_on id f w : (∀ u, u_ID u = id → u_ID (f u) = id) → dispatches [] w (on_upstream id f w).
Proof. intros Hf. split; [by apply update_ids|]. cbn. by rewrite app_nil_r. Qed.

Lemma quiet_neutral id f w : neutral f → dispatches [] w (on_upstream id f w).
Proof. intros Hf. apply quiet_on. intros u <-. apply Hf. Qed.

Lemma quiet_settle t o now w : dispatches [] w (settle_token t o now w).
Proof. unfold settle_token. destruct (tok_u t); [by apply quiet_on|apply dispatches_refl]. Qed.

Lemma quiet_close h w : dispatches [] w (close_body h w).
Proof.
  unfold close_body. destruct (w_open w !! h) as [id|]; [|apply dispatches_refl].
  destruct (quiet_on id (λ u, (trackedBody_Close false u).1)
    {| w_pool := w_pool w; w_next := w_next w; w_open := delete h (w_open w); w_log := w_log w; w_io := w_io w |})
    as [E1 E2]; done.
Qed.

Lemma quiet_drop now last w : dispatches [] w (dropBuffered now last w).
Proof.
  destruct last as [e|]; [|apply dispatches_refl]. cbn. eapply dispatches_then; [|apply quiet_settle].
  destruct (ex_handle e); [apply quiet_close|apply dispatches_refl].
Qed.

Lemma quiet_failure id t path now w : dispatches [] w (recordUpstreamFailure id t path now w).
Proof. eapply dispatches_then; [apply quiet_settle|]. apply quiet_neutral, neutral_score. Qed.

Lemma quiet_select p w : p_upstreams p = p_upstreams (w_pool w) → dispatches [] w (set_pool p w).
Proof. intros E. split; [unfold pool_ids; cbn; by rewrite E|]. cbn. by rewrite app_nil_r. Qed.

Lemma forward_dispatches gz id r w : dispatches [id] w (forward NewRequest_ok gunzip gz id r w).1.1.2.
Proof.
  unfold forward. destruct (pop_io w) as [i w1] eqn:Epop.
  assert (w_pool w1 = w_pool w ∧ w_log w1 = w_log w) as [Ep El].
  { unfold pop_io in Epop. destruct (w_io w); injection Epop as <- <-; done. }
  assert (dispatches [id] w (log_dispatch id w1)) as H2.
  { split; [unfold pool_ids; cbn; by rewrite Ep|]. cbn. by rewrite El. }
  set (w2 := log_dispatch id w1) in *. clearbody w2.
  destruct (ByID (w_pool w2) id) as [u|] eqn:Eu; [|done].
  destruct (forward_request _ _ _ _) as [out|]; [|done].
  set (tr := match io_reply i with RErr => _ | _ => _ end).
  pose proof (do_spec (io_now i) tr u) as Hd. destruct (Upstream_Do (io_now i) tr u) as [[u' res] tok].
  destruct Hd as (Ei & _).
  assert (dispatches [id] w (on_upstream id (λ _, u') w2)) as H3.
  { eapply dispatches_then; [exact H2|]. apply quiet_on. intros v <-. rewrite Ei. by apply ByID_id in Eu. }
  destruct res as [|e|s tracked]; [exact H3|by destruct (io_reply i)|].
  destruct (io_reply i) as [|s' hdr content err]; [exact H3|]. cbn [open_body].
  set (w3 := {| w_pool := _; w_next := S _; w_open := _; w_log := _; w_io := _ |}).
  assert (dispatches [id] w w3) as H4 by exact H3. clearbody w3.
  destruct (String.eqb _ "gzip"); [|exact H4].
  destruct (gunzip content err) as [[plain perr]|]; [exact H4|]. eapply dispatches_then; [exact H4|apply quiet_close].
Qed.

(** ** The loops *)

(** An execution that tried [ids] of the candidates, without fuel running out. *)
Definition tried_only (P : list string → Prop) w (wr : World RL * (exec_error + Exec)) : Prop :=
  wr.2 ≠ inl XOutOfFuel ∧ ∃ ids, dispatches ids w wr.1 ∧ P ids.

Lemma tried_stop (P : list string → Prop) w w1 w' res ids :
  dispatches ids w w1 → dispatches [] w1 w' → res ≠ inl XOutOfFuel → P ids → tried_only P w (w', res).
Proof. intros H1 H2 Hr HP. split; [done|]. exists ids. split; [|done]. by eapply dispatches_then. Qed.

Lemma tried_step (P Q : list string → Prop) w w1 w2 wr id :
  dispatches [id] w w1 → dispatches [] w1 w2 → tried_only Q w2 wr → (∀ ids, Q ids → P (id :: ids)) → tried_only P w wr.
Proof.
  intros H1 H2 [Hr (ids & H3 & HQ)] HPQ. split; [done|]. exists (id :: ids). split; [|by apply HPQ].
  change (id :: ids) with ([id] ++ ids)%list. eapply dispatches_trans; [by eapply dispatches_then|done].
Qed.

Ltac forward_cases gz id r w :=
  let Hd := fresh "Hd" in
  pose proof (forward_dispatches gz id r w) as Hd;
  destruct (forward NewRequest_ok gunzip gz id r w) as [[[?o ?w'] ?tok] [?e|[?h ?resp]]]; cbn [fst snd] in Hd.

Lemma candidates_loop_tries gz r sel fs target path i ups last lastErr w :
  tried_only (λ ids, ids `prefix_of` ups) w
    (candidates_loop NewRequest_ok gunzip gz r sel fs target path i ups last lastErr w).
Proof.
  revert i last lastErr w. induction ups as [|id rest IH]; intros i last lastErr w; cbn [candidates_loop].
  { destruct last; (eapply tried_stop; [apply dispatches_refl|apply dispatches_refl|done|done]). }
  assert (∀ ids, ids `prefix_of` rest → id :: ids `prefix_of` id :: rest) as Hpre by (intros ids; apply prefix_cons).
  assert ([id] `prefix_of` id :: rest) as Hone by (by exists rest).
  destruct (_ && _ && _).
  { eapply tried_stop; [apply dispatches_refl|apply quiet_drop|done|apply prefix_nil]. }
  forward_cases gz id r w.
  - destruct (isClientCancel o e).
    { eapply tried_stop; [exact Hd| |done|done]. eapply dispatches_then; [apply quiet_settle|apply quiet_drop]. }
    case_bool_decide; (eapply tried_step; [exact Hd| |apply IH|exact Hpre]); [apply dispatches_refl|].
    eapply dispatches_then; [apply quiet_settle|apply quiet_neutral, neutral_score].
  - destruct (rs_Status resp <? 500).
    + destruct (peekBodyForPruning resp target) as [[peeked err] resp']. destruct (_ && isPruningError _ _ _).
      * eapply tried_step; [exact Hd| |apply IH|exact Hpre].
        eapply dispatches_then; [apply quiet_neutral, neutral_status|apply quiet_drop].
      * eapply tried_stop; [exact Hd|apply quiet_drop|done|done].
    + eapply tried_step; [exact Hd| |apply IH|exact Hpre].
      eapply dispatches_then; [|apply quiet_drop]. eapply dispatches_then; [apply quiet_settle|].
      destruct (negb _); [apply quiet_neutral, neutral_score|apply dispatches_refl].
Qed.

(** The archive slice a promotion puts in place. *)
Lemma archive_slice now (p : Pool RL) path n :
  let ups := (SelectForPathArchive now p path n).2 in
  (length ups <= n)%nat ∧ (length ups <= length (p_upstreams p))%nat ∧ (u_ID <$> ups) ⊆ (u_ID <$> p_upstreams p).
Proof.
  pose proof (selectForPath_length true false now p path n) as H1.
  pose proof (selectForPath_submseteq true false now p path n) as H2. unfold selectForPath in H1, H2. cbv zeta.
  split_and!; [done|by apply submseteq_length|]. intros id (u & -> & Hu)%list_elem_of_fmap_1.
  apply list_elem_of_fmap_2. by eapply elem_of_submseteq.
Qed.

(** What the sequential loop may dispatch to from index [i] on. *)
Definition seq_tries (w : World RL) (n : Z) (i : nat) (rest tried : list string) (biased : bool) (ids : list string) : Prop :=
  NoDup ids ∧ (∀ id, id ∈ ids → id ∉ tried) ∧ (∀ id, id ∈ ids → id ∈ rest ∨ id ∈ pool_ids w) ∧
  Z.of_nat (length ids) <= (if biased then Z.of_nat (length rest)
                            else Z.max (Z.of_nat (length rest)) (Z.max n (Z.of_nat (i + length rest) + 1) - Z.of_nat i)).

Lemma seq_tries_nil w n i rest tried biased : seq_tries w n i rest tried biased [].
Proof.
  split_and!; [constructor|by intros id ?%not_elem_of_nil..|]. cbn. destruct biased; lia.
Qed.

Lemma seq_tries_cons w w' n i id rest tried biased biased' rest' ids :
  pool_ids w' = pool_ids w → id ∉ tried → (biased = true → biased' = true) →
  (∀ x, x ∈ rest' → x ∈ rest ∨ x ∈ pool_ids w) →
  (biased' = biased → Z.of_nat (length rest') <= Z.of_nat (length rest)) →
  (biased' ≠ biased → Z.of_nat (length rest') <= Z.max (n - (Z.of_nat i + 1)) 1) →
  seq_tries w' n (S i) rest' (id :: tried) biased' ids → seq_tries w n i (id :: rest) tried biased (id :: ids).
Proof.
  intros Ep Hid Hb Hr Hl1 Hl2 (H1 & H2 & H3 & H4). split_and!.
  - apply NoDup_cons. split; [|done]. intros Hin. apply (H2 id Hin). by left.
  - intros x [-> |Hx]%elem_of_cons; [done|]. intros Hx'. apply (H2 x Hx). by right.
  - intros x [-> |Hx]%elem_of_cons; [left; by left|]. destruct (H3 x Hx) as [Hx'|Hx']; [|right; by rewrite <- Ep].
    destruct (Hr x Hx'); [left; by right|by right].
  - cbn [length] in *. destruct biased, biased'; try (specialize (Hb eq_refl); congruence).
    + specialize (Hl1 eq_refl). lia.
    + specialize (Hl2 ltac:(done)). lia.
    + specialize (Hl1 eq_refl). lia.
Qed.

Lemma seq_tries_next w w' n i id rest tried biased ids :
  pool_ids w' = pool_ids w → id ∉ tried →
  seq_tries w' n (S i) rest (id :: tried) biased ids → seq_tries w n i (id :: rest) tried biased (id :: ids).
Proof.
  intros Ep Hid H. eapply (seq_tries_cons w w' n i id rest tried biased biased rest); try done. by left.
Qed.

Lemma seq_tries_skip w n i id rest tried biased ids :
  seq_tries w n (S i) rest tried biased ids → seq_tries w n i (id :: rest) tried biased ids.
Proof.
  intros (H1 & H2 & H3 & H4). split_and!; [done|done| |cbn [length] in *; destruct biased; lia].
  intros x Hx. destruct (H3 x Hx); [left; by right|by right].
Qed.

Lemma tried_weaken (P Q : list string → Prop) w wr : (∀ ids, Q ids → P ids) → tried_only Q w wr → tried_only P w wr.
Proof. intros HPQ [Hr (ids & H & HQ)]. split; [done|]. exists ids. split; [done|by apply HPQ]. Qed.

Lemma seq_loop_tries fuel gz r fs target path n i rest tried (biased : bool) lastErr w :
  (length rest + (if biased then 0 else length (pool_ids w)) < fuel)%nat →
  tried_only (seq_tries w n i rest tried biased) w
    (seq_loop NewRequest_ok gunzip fuel gz r fs target path n i rest tried biased lastErr w).
Proof.
  revert i rest tried biased lastErr w. induction fuel as [|fuel IH]; intros i rest tried biased lastErr w Hf; [lia|].
  cbn [seq_loop]. destruct rest as [|id rest].
  { eapply tried_stop; [apply dispatches_refl|apply dispatches_refl|done|apply seq_tries_nil]. }
  cbn [length] in Hf. case_bool_decide as Hid.
  { eapply tried_weaken; [apply seq_tries_skip|]. apply IH. lia. }
  destruct (_ && _ && _).
  { eapply tried_stop; [apply dispatches_refl|apply dispatches_refl|done|apply seq_tries_nil]. }
  assert (seq_tries w n i (id :: rest) tried biased [id]) as Hone.
  { eapply seq_tries_next; [done|done|apply seq_tries_nil]. }
  assert (∀ w1 w2 lastErr, dispatches [id] w w1 → dispatches [] w1 w2 →
    tried_only (seq_tries w n i (id :: rest) tried biased) w
      (seq_loop NewRequest_ok gunzip fuel gz r fs target path n (S i) rest (id :: tried) biased lastErr w2)) as Hnext.
  { intros w1 w2 le H1 H2. assert (pool_ids w2 = pool_ids w) as Ep by (by destruct (dispatches_then _ _ _ _ H1 H2)).
    eapply tried_step; [exact H1|exact H2|apply IH; rewrite Ep; lia|]. intros ids. by apply seq_tries_next. }
  forward_cases gz id r w.
  - destruct (isClientCancel o e); [eapply tried_stop; [exact Hd|apply quiet_settle|done|done]|].
    case_bool_decide; (eapply Hnext; [exact Hd|]); [apply dispatches_refl|apply quiet_failure].
  - destruct (rs_Status resp <? 500).
    2: { eapply Hnext; [exact Hd|]. eapply dispatches_then; [apply quiet_close|apply quiet_failure]. }
    destruct (peekBodyForPruning resp target) as [[peeked err] resp'].
    destruct biased; cbn [negb andb]; [eapply tried_stop; [exact Hd|apply dispatches_refl|done|done]|].
    destruct (isPruningError _ _ _); [|eapply tried_stop; [exact Hd|apply dispatches_refl|done|done]].
    destruct (negb (HasArchive _)); [eapply tried_stop; [exact Hd|apply dispatches_refl|done|done]|].
    set (m := Z.to_nat _). pose proof (selectForPath_pool true false (io_done o) (w_pool w') path m) as Hp.
    pose proof (archive_slice (io_done o) (w_pool w') path m) as (Hl1 & Hl2 & Hl3).
    unfold selectForPath in Hp. destruct (SelectForPathArchive _ _ _ _) as [p ups]. cbn [fst snd] in *.
    destruct ups as [|u ups]; [eapply tried_stop; [exact Hd|by apply quiet_select|done|done]|].
    set (rest' := u_ID <$> u :: ups) in *. set (w3 := on_upstream id _ _).
    assert (dispatches [] w' w3) as H3.
    { unfold w3. eapply dispatches_then; [|apply quiet_neutral, neutral_status].
      eapply dispatches_then; [|apply quiet_settle]. eapply dispatches_then; [by apply quiet_select|apply quiet_close]. }
    destruct Hd as [Ep El]. pose proof (proj1 H3) as Ep3. rewrite Ep in Ep3.
    assert (length rest' = length (u :: ups)) as Hlen by (unfold rest'; apply length_fmap).
    assert (length (p_upstreams (w_pool w')) = length (pool_ids w)) as Hlp by (rewrite <- Ep; unfold pool_ids; by rewrite length_fmap).
    eapply (tried_step _ _ w w' w3); [by split|exact H3|apply IH; lia|]. intros ids. apply seq_tries_cons; try done.
    + intros x Hx. right. rewrite <- Ep. by apply Hl3.
    + unfold m in Hl1. intros _. lia.
Qed.

Lemma peek_status resp target : rs_Status (peekBodyForPruning resp target).2 = rs_Status resp.
Proof. unfold peekBodyForPruning. by repeat case_match. Qed.

(** The loop never returns a server error as a response. *)
Lemma seq_loop_status fuel gz r fs target path n i rest tried biased lastErr w e :
  (seq_loop NewRequest_ok gunzip fuel gz r fs target path n i rest tried biased lastErr w).2 = inr e →
  rs_Status (ex_resp e) < 500.
Proof.
  revert i rest tried biased lastErr w. induction fuel as [|fuel IH]; intros i rest tried biased lastErr w; [done|].
  cbn [seq_loop]. destruct rest as [|id rest]; [done|]. case_bool_decide; [apply IH|]. destruct (_ && _ && _); [done|].
  destruct (forward _ _ _ _ _ _) as [[[o w'] tok] [err|[h resp]]].
  - destruct (isClientCancel o err); [done|]. case_bool_decide; apply IH.
  - destruct (Z.ltb_spec (rs_Status resp) 500) as [Hs|Hs]; [|apply IH].
    pose proof (peek_status resp target) as Hpk. destruct (peekBodyForPruning resp target) as [[peeked perr] resp'].
    cbn [snd] in Hpk. rewrite <- Hpk in Hs.
    destruct (_ && isPruningError _ _ _); [|by intros [= <-]]. destruct (negb (HasArchive _)); [by intros [= <-]|].
    destruct (SelectForPathArchive _ _ _ _) as [p ups]. destruct ups; [by intros [= <-]|apply IH].
Qed.

(** ** The preferred upstream *)

Lemma trim_length ups n : (length (trimUpstreamSlice ups n) <= length ups)%nat ∧
  (0 < n → Z.of_nat (length (trimUpstreamSlice ups n)) <= n).
Proof.
  unfold trimUpstreamSlice. destruct (Z.ltb_spec 0 n), (Z.ltb_spec n (Z.of_nat (length ups))); cbn [andb]; rewrite ?length_take; lia.
Qed.

Lemma trim_sub ups n x : x ∈ trimUpstreamSlice ups n → x ∈ ups.
Proof. unfold trimUpstreamSlice. destruct (_ && _); [|done]. intros (i & Hx%lookup_take_Some)%list_elem_of_lookup. apply list_elem_of_lookup. exists i. apply Hx. Qed.

Lemma swap_front_perm ups i : swap_front ups i ≡ₚ ups.
Proof.
  unfold swap_front. destruct ups as [|a ups]; [done|]. destruct i as [|i]; [done|].
  change ((a :: ups) !! O) with (Some a). change ((a :: ups) !! S i) with (ups !! i).
  destruct (ups !! i) as [b|] eqn:Ei; [|done].
  change (<[S i := a]> (<[O := b]> (a :: ups))) with (b :: <[i := a]> ups).
  pose proof (lookup_lt_Some _ _ _ Ei) as Hi. rewrite (insert_take_drop ups i a Hi).
  rewrite <- (take_drop_middle ups i b Ei) at 3. rewrite <- !Permutation_middle. constructor.
Qed.

Lemma ensurePreferred_spec now (p : Pool RL) ups preferID n :
  let ups' := ensurePreferredUpstreamFirst now p ups preferID n in
  (0 < n → Z.of_nat (length ups) <= n → Z.of_nat (length ups') <= n) ∧
  (∀ x, x ∈ ups' → x ∈ ups ∨ x ∈ (u_ID <$> p_upstreams p)).
Proof.
  unfold ensurePreferredUpstreamFirst. destruct (_ || _); [by split; [lia|left]|].
  destruct (list_find _ ups) as [[i id]|] eqn:Ef.
  - destruct (IsForked _ _); [by split; [lia|left]|]. cbv zeta. split.
    + intros Hn _. by apply trim_length.
    + intros x Hx%trim_sub. left. destruct (i =? 0)%nat; [done|]. by rewrite swap_front_perm in Hx.
  - destruct (ByID p preferID) as [pu|] eqn:Eb; [|by split; [lia|left]].
    destruct (_ && _); [|by split; [lia|left]]. cbv zeta. split.
    + intros Hn _. by apply trim_length.
    + intros x [-> |Hx]%trim_sub%elem_of_cons; [right|by left]. apply list_elem_of_fmap_2.
      by apply find_first_Some in Eb as [? _].
Qed.

(** ** [executeFS] *)

(** Attempts within the budget, each at a different member of the pool. *)
Definition within_budget w (fs : FailsafeConfig) (ids : list string) : Prop :=
  NoDup ids ∧ (∀ id, id ∈ ids → id ∈ pool_ids w) ∧ Z.of_nat (length ids) <= MaxAttempts fs + 1.

Definition hedge_slice w (fs : FailsafeConfig) (ups : list string) : Prop :=
  ∃ hedge, fs_Hedge fs = Some hedge ∧ (1 < length ups)%nat ∧ Z.of_nat (length ups) <= hg_MaxCount hedge + 1 ∧
    ups ⊆+ pool_ids w.

Definition bounded_step w (fs : FailsafeConfig) (ws : World RL * exec_step) : Prop :=
  match ws with
  | (w', XDone res) => tried_only (within_budget w fs) w (w', res)
  | (w', XHedge ups _ _ _) => dispatches [] w w' ∧ hedge_slice w fs ups
  end.

Lemma select_ids a c now w path n : (u_ID <$> (selectForPath a c now (w_pool w) path n).2) ⊆+ pool_ids w.
Proof. unfold pool_ids. apply fmap_submseteq, selectForPath_submseteq. Qed.

Lemma sequential_bounded gz now r preferID fs path target a c w :
  0 <= MaxAttempts fs →
  let '(p, ups) := selectForPath a c now (w_pool w) path (Z.to_nat (MaxAttempts fs)) in
  let w1 := set_pool p w in
  match ups with
  | [] => dispatches [] w w1
  | _ =>
      let ids := ensurePreferredUpstreamFirst now (w_pool w1) (u_ID <$> ups) preferID (MaxAttempts fs) in
      tried_only (within_budget w fs) w
        (seq_loop NewRequest_ok gunzip (seq_fuel w1 ids) gz r fs target path (MaxAttempts fs) 0 ids [] a None w1)
  end.
Proof.
  intros Hn. pose proof (selectForPath_pool a c now (w_pool w) path (Z.to_nat (MaxAttempts fs))) as Hp.
  pose proof (selectForPath_length a c now (w_pool w) path (Z.to_nat (MaxAttempts fs))) as Hl.
  pose proof (select_ids a c now w path (Z.to_nat (MaxAttempts fs))) as Hs.
  destruct (selectForPath _ _ _ _ _ _) as [p ups]. cbn [fst snd] in Hp, Hl, Hs. cbv zeta.
  assert (dispatches [] w (set_pool p w)) as Hq by (by apply quiet_select).
  destruct ups as [|u ups]; [done|]. set (us := u_ID <$> u :: ups) in *.
  assert (length us = length (u :: ups)) as Elen by apply length_fmap. cbn [length] in Hl, Elen.
  destruct (ensurePreferred_spec now (w_pool (set_pool p w)) us preferID (MaxAttempts fs)) as [H1 H2].
  set (ids := ensurePreferredUpstreamFirst _ _ _ _ _) in *. specialize (H1 ltac:(lia) ltac:(lia)).
  assert (pool_ids (set_pool p w) = pool_ids w) as Ep by apply Hq.
  edestruct (seq_loop_tries (seq_fuel (set_pool p w) ids) gz r fs target path (MaxAttempts fs) 0 ids [] a None (set_pool p w))
    as [Hr (tried & Hd & (T1 & _ & T3 & T4))].
  { unfold seq_fuel, pool_ids. rewrite length_fmap. destruct a; lia. }
  split; [done|]. exists tried. split; [by eapply (dispatches_trans [])|]. split_and!; [done| |].
  - intros id Hid. destruct (T3 id Hid) as [Hi|Hi]; [|by rewrite <- Ep]. destruct (H2 id Hi) as [Hi'|Hi'].
    + by eapply elem_of_submseteq.
    + by rewrite <- Ep.
  - destruct a; lia.
Qed.

Lemma execute_rest_bounded gz now r preferID fs path target a c w :
  0 <= MaxAttempts fs →
  bounded_step w fs (execute_rest NewRequest_ok gunzip gz now r preferID fs path target a c w).
Proof.
  intros Hn. unfold execute_rest. cbv zeta.
  assert (∀ w0, dispatches [] w w0 → bounded_step w fs
    (let '(p, ups) := selectForPath a c now (w_pool w0) path (Z.to_nat (MaxAttempts fs)) in
     match ups with
     | [] => (set_pool p w0, XDone (inl XNoUpstreams))
     | _ =>
         let '(w, res) := seq_loop NewRequest_ok gunzip (seq_fuel (set_pool p w0)
             (ensurePreferredUpstreamFirst now (w_pool (set_pool p w0)) (u_ID <$> ups) preferID (MaxAttempts fs)))
             gz r fs target path (MaxAttempts fs) 0
             (ensurePreferredUpstreamFirst now (w_pool (set_pool p w0)) (u_ID <$> ups) preferID (MaxAttempts fs))
             [] a None (set_pool p w0) in
         (w, XDone res)
     end)) as Hseq.
  { intros w0 H0. pose proof (sequential_bounded gz now r preferID fs path target a c w0 Hn) as H.
    destruct (selectForPath _ _ _ _ _ _) as [p ups]. cbv zeta in H. destruct ups as [|u ups].
    - eapply tried_stop; [exact H0|exact H|done|]. split_and!; [constructor|by intros id ?%not_elem_of_nil|]. cbn. lia.
    - destruct (seq_loop _ _ _ _ _ _ _ _ _ _ _ _ _ _) as [w' res]. destruct H as [Hr (ids & Hd & H1 & H2 & H3)].
      split; [done|]. exists ids. split; [by eapply (dispatches_trans [])|]. split_and!; [done| |done].
      intros id Hid. rewrite <- (proj1 H0). by apply H2. }
  destruct (fs_Hedge fs) as [hedge|] eqn:Eh; [|apply Hseq, dispatches_refl].
  pose proof (selectForPath_pool a c now (w_pool w) path (Z.to_nat (hg_MaxCount hedge + 1))) as Hp.
  pose proof (selectForPath_length a c now (w_pool w) path (Z.to_nat (hg_MaxCount hedge + 1))) as Hl.
  pose proof (select_ids a c now w path (Z.to_nat (hg_MaxCount hedge + 1))) as Hs.
  destruct (selectForPath _ _ _ _ _ _) as [p ups]. cbn [fst snd] in Hp, Hl, Hs.
  assert (dispatches [] w (set_pool p w)) as Hq by (by apply quiet_select).
  destruct (Nat.ltb_spec 1 (length ups)) as [H1|H1]; [|by apply Hseq].
  split; [done|]. exists hedge. rewrite length_fmap. split_and!; [done|done|lia|done].
Qed.

Lemma quiet_write_back ups w : dispatches [] w (write_back ups w).
Proof.
  revert w. induction ups as [|u ups IH]; intros w; [apply dispatches_refl|]. cbn [write_back foldl].
  eapply dispatches_then; [apply (quiet_on (u_ID u) (λ _, u)); done|apply IH].
Qed.

Lemma bounded_step_after fs w w0 ws : dispatches [] w w0 → bounded_step w0 fs ws → bounded_step w fs ws.
Proof.
  intros H0. destruct ws as [w' [res|ups ? ? ?]]; cbn.
  - intros [Hr (ids & Hd & H1 & H2 & H3)]. split; [done|]. exists ids. split; [by eapply (dispatches_trans [])|].
    split_and!; [done| |done]. intros id Hid. rewrite <- (proj1 H0). by apply H2.
  - intros [Hd (hedge & H1 & H2 & H3 & H4)]. split; [by eapply (dispatches_trans [])|]. exists hedge.
    split_and!; [done..|]. by rewrite <- (proj1 H0).
Qed.

Lemma within_nil w fs : 0 <= MaxAttempts fs → within_budget w fs [].
Proof. intros Hn. split_and!; [constructor|by intros id ?%not_elem_of_nil|cbn; lia]. Qed.

Lemma executeSelectedFS_bounded gz now r required fs path w :
  NoDup (pool_ids w) → 0 <= MaxAttempts fs →
  tried_only (within_budget w fs) w (executeSelectedFS NewRequest_ok gunzip gz now r required fs path w).
Proof.
  intros Hnd Hn. unfold executeSelectedFS. cbv zeta. destruct (nonempty (sel_ID required)).
  - destruct (ByID (w_pool w) (sel_ID required)) as [u|] eqn:Eu.
    2: { eapply tried_stop; [apply dispatches_refl|apply dispatches_refl|done|by apply within_nil]. }
    assert (within_budget w fs [u_ID u]) as Hone.
    { split_and!; [apply NoDup_singleton| |cbn; lia]. intros id ->%list_elem_of_singleton.
      apply list_elem_of_fmap_2. by apply find_first_Some in Eu as [? _]. }
    forward_cases gz (u_ID u) r w; (eapply tried_stop; [exact Hd| |done|done]); [|apply dispatches_refl].
    destruct (isClientCancel o e); [apply quiet_settle|].
    case_bool_decide; [apply dispatches_refl|apply quiet_failure].
  - unfold SelectMatching. set (all := bfilter _ _). set (n := Z.to_nat (MaxAttempts fs)).
    pose proof (select_submseteq now (w_pool w) all n path false) as Hs.
    pose proof (select_pool now (w_pool w) all n path false) as Hp.
    destruct (select_order now (w_pool w) all n path false) as (ordered & Ho & _ & _).
    assert (length (selectFromCandidatesForPath now (w_pool w) all n path false).2 <= n)%nat as Hl
      by (rewrite Ho, length_take; lia).
    destruct (selectFromCandidatesForPath _ _ _ _ _ _) as [p ups]. cbn [fst snd] in Hs, Hp, Hl.
    assert (dispatches [] w (set_pool p w)) as Hq by (by apply quiet_select).
    assert ((u_ID <$> ups) ⊆+ pool_ids w) as Hsub.
    { apply fmap_submseteq. etransitivity; [exact Hs|]. apply sublist_submseteq, bfilter_sublist. }
    destruct ups as [|u ups].
    { eapply tried_stop; [exact Hq|apply dispatches_refl|done|by apply within_nil]. }
    set (us := u_ID <$> u :: ups) in *. assert (length us = length (u :: ups)) as Elen by apply length_fmap.
    unfold executeSelectedCandidatesFS.
    edestruct (candidates_loop_tries gz r (Selector_String required) fs
      (classifyHistoricalTarget (url_Path (req_URL (in_req r)))) path 0 us None None (set_pool p w))
      as [Hr (ids & Hd & Hpre)].
    destruct (candidates_loop _ _ _ _ _ _ _ _ _ _ _ _ _) as [w' res]. split; [done|]. exists ids.
    split; [by eapply (dispatches_trans [])|]. split_and!.
    + apply (NoDup_submseteq_l _ _ Hsub) in Hnd. destruct Hpre as [k ->]. by apply NoDup_app in Hnd as [? _].
    + intros id Hid. eapply elem_of_submseteq; [|exact Hsub]. destruct Hpre as [k ->]. set_solver.
    + apply prefix_length in Hpre. lia.
Qed.

Lemma executeFS_bounded consensus gz now r preferID required fs path cios w :
  NoDup (pool_ids w) → 0 <= MaxAttempts fs →
  bounded_step w fs (executeFS NewRequest_ok gunzip sha consensus gz now r preferID required fs path cios w).
Proof.
  intros Hnd Hn. unfold executeFS. cbv zeta. destruct (Selector_Enabled required).
  - pose proof (executeSelectedFS_bounded gz now r required fs path w Hnd Hn) as H. by destruct (executeSelectedFS _ _ _ _ _ _ _ _ _).
  - set (a := HasArchive _ && _). set (c := pathHasNamedSlotID _). set (target := classifyHistoricalTarget _).
    set (pid := if a && _ then _ else _). clearbody pid a c.
    destruct consensus as [cp|]; [|by apply execute_rest_bounded].
    pose proof (selectForPath_pool a c now (w_pool w) path (Z.to_nat (cp_MaxParticipants cp))) as Hp.
    destruct (selectForPath _ _ _ _ _ _) as [p ups]. cbn [fst] in Hp.
    assert (dispatches [] w (set_pool p w)) as Hq by (by apply quiet_select).
    assert (∀ w0, dispatches [] w w0 → bounded_step w fs
      (execute_rest NewRequest_ok gunzip gz now r pid fs path target a c w0)) as Hrest.
    { intros w0 H0. eapply bounded_step_after; [exact H0|by apply execute_rest_bounded]. }
    destruct (_ <=? _); [|by apply Hrest].
    destruct (Consensus_Execute _ _ _ _ _) as [ups' res].
    assert (dispatches [] w (write_back ups' (set_pool p w))) as Hwb by (eapply dispatches_then; [exact Hq|apply quiet_write_back]).
    assert (∀ res, res ≠ inl XOutOfFuel → bounded_step w fs (write_back ups' (set_pool p w), XDone res)) as Hend.
    { intros res' Hr. eapply tried_stop; [exact Hwb|apply dispatches_refl|done|].
      by apply within_nil. }
    destruct res as [e|best]; [destruct e|]; try (by apply Hend). by apply Hrest.
Qed.

Lemma execute_rest_status gz now r preferID fs path target a c w w' e :
  execute_rest NewRequest_ok gunzip gz now r preferID fs path target a c w = (w', XDone (inr e)) → rs_Status (ex_resp e) < 500.
Proof.
  unfold execute_rest. cbv zeta.
  assert (∀ w0, (let '(p, ups) := selectForPath a c now (w_pool w0) path (Z.to_nat (MaxAttempts fs)) in
     match ups with
     | [] => (set_pool p w0, XDone (inl XNoUpstreams))
     | _ =>
         let '(w, res) := seq_loop NewRequest_ok gunzip (seq_fuel (set_pool p w0)
             (ensurePreferredUpstreamFirst now (w_pool (set_pool p w0)) (u_ID <$> ups) preferID (MaxAttempts fs)))
             gz r fs target path (MaxAttempts fs) 0
             (ensurePreferredUpstreamFirst now (w_pool (set_pool p w0)) (u_ID <$> ups) preferID (MaxAttempts fs))
             [] a None (set_pool p w0) in
         (w, XDone res)
     end) = (w', XDone (inr e)) → rs_Status (ex_resp e) < 500) as Hseq.
  { intros w0. destruct (selectForPath _ _ _ _ _ _) as [p [|u ups]]; [done|].
    destruct (seq_loop _ _ _ _ _ _ _ _ _ _ _ _ _ _) as [w1 res] eqn:Es. intros [= <- ->].
    eapply seq_loop_status. by rewrite Es. }
  destruct (fs_Hedge fs) as [hedge|]; [|apply Hseq].
  destruct (selectForPath _ _ _ _ _ _) as [p ups]. destruct (1 <? length ups)%nat; [done|apply Hseq].
Qed.

End attempts.

(** ** Witness *)

Module BoundsDemo.
Import ExecDemo.
(** A toy [net] in which an address is text and a prefix contains itself. *)
#[local] Instance DemoNet : NetLib := {|
  Addr := string; Prefix := string; ParseAddr := Some; ParsePrefix := Some; Addr_Unmap := id;
  Prefix_Masked := id; PrefixOfAddr := id; Prefix_Contains := String.eqb; SplitHostPort := Some |}.

Definition demo_io (status : Z) : io :=
  {| io_now := 1; io_done := 2; io_ctxDone := false; io_cancel := false; io_reply := RResp status ∅ "{}" false |}.

Definition demo_failsafe : FailsafeConfig :=
  {| fs_Timeout := None;
     fs_Retry := Some {| rt_MaxAttempts := 2; rt_Delay := 0; rt_Backoff := f64_zero; rt_Jitter := 0; rt_MaxDelay := 0 |};
     fs_Hedge := None; fs_CircuitBreaker := None; fs_Consensus := None |}.

End BoundsDemo.
