(* ===== verification/Hedge.v ===== *)
(** * Hedged execution

    [network/network.go], [executeHedgeFS]: the request is sent to one upstream and, after each hedge
    delay, to one more; the first good response wins.  Attempts run in goroutines, so the execution
    is a state machine: [hedge_step] handles one event, and a schedule is any list of events.

    - [HRun k]: the [k]-th goroutine that has not run yet performs [forward] and puts its result
      into the buffered channel;
    - [HRecv]: the main loop receives a result; [HTimer]: the hedge timer fires; [HCtx]: the
      request context ends;
    - [HDrain]: after the main loop has returned, the goroutine of [drainResults] receives a
      result.

    An event that cannot happen in a state changes nothing.  The theorems hold for every schedule:
    nothing is leaked, the slice is never indexed out of range, and the execution returns. *)

From S2P Require Import Prelude GoStrings GoFloat Config CircuitBreaker ScoreTracker AutoTuner BlockCache.
From S2P Require Import Upstream Selector PoolOrder Pool PoolState Health MemoryStore Regexp Url CacheKey Paths Historical Session HeadWatcher Consensus Headers Exec Ownership ExecSafety ExecBounds.
#[local] Open Scope string_scope.
#[local] Open Scope Z_scope.

(** ** State *)

Record hres := {
  hr_res : fwd_error + (nat * Response);
  hr_uid : string;
  hr_tok : CBToken;
  hr_io : io;
}.

(** A result as a response in hand; a failed attempt still holds its token. *)
Definition exec_of (r : hres) : Exec :=
  {| ex_handle := match hr_res r with inl _ => None | inr (h, _) => Some h end;
     ex_resp := match hr_res r with inl _ => ex_resp (consensus_exec zero_result) | inr (_, resp) => resp end;
     ex_uid := hr_uid r; ex_tok := hr_tok r |}.

Inductive hedge_event := HRun (k : nat) | HRecv (now : Z) | HTimer | HCtx (now : Z) | HDrain (now : Z).

Section hedge.
Context `{RL : RateLib} `{NL : NetLib}.
Context (NewRequest_ok : string → string → bool) (gunzip : string → bool → option (string * bool)).
Context (gz : bool) (r : Inbound) (fs : FailsafeConfig) (apiPath : string) (target : HistoricalTarget)
  (archiveBiased : bool) (maxResponseBytes : Z).
Implicit Types w : World RL.

(** [h_pending] are the goroutines that have not run [forward] yet, [h_chan] the buffered results,
    [h_result] what the function returned, [h_drain] the results its drainer still waits for. *)
Record hedge_state := {
  h_w : World RL;
  h_ups : list string;
  h_maxFire : nat;
  h_fired : nat;
  h_inflight : nat;
  h_pending : list string;
  h_chan : list hres;
  h_pruning : option Exec;
  h_tried : list string;
  h_lastErr : option exec_cause;
  h_result : option (exec_error + Exec);
  h_drain : nat;
}.

(** [fire(ups[fired])], [fired++], [inflight++]; [None] is an index out of range. *)
Definition hedge_fire (s : hedge_state) : option hedge_state :=
  match h_ups s !! h_fired s with
  | None => None
  | Some id =>
      Some {| h_w := h_w s; h_ups := h_ups s; h_maxFire := h_maxFire s; h_fired := S (h_fired s);
              h_inflight := S (h_inflight s); h_pending := (h_pending s ++ [id])%list; h_chan := h_chan s;
              h_pruning := h_pruning s; h_tried := h_tried s; h_lastErr := h_lastErr s; h_result := h_result s;
              h_drain := h_drain s |}
  end.

(** Up to the loop. *)
Definition hedge_init (now : Z) (hedge : HedgeConfig) (ups : list string) (preferID : string) w : option hedge_state :=
  let maxFire := Z.min (hg_MaxCount hedge + 1) (Z.of_nat (length ups)) in
  hedge_fire
    {| h_w := w; h_ups := ensurePreferredUpstreamFirst now (w_pool w) ups preferID maxFire;
       h_maxFire := Z.to_nat maxFire; h_fired := 0; h_inflight := 0; h_pending := []; h_chan := []; h_pruning := None;
       h_tried := []; h_lastErr := None; h_result := None; h_drain := 0 |}.

(** A goroutine's [forward]. *)
Definition hedge_run (k : nat) (s : hedge_state) : hedge_state :=
  match h_pending s !! k with
  | None => s
  | Some id =>
      let '(o, w, tok, res) := forward NewRequest_ok gunzip gz id r (h_w s) in
      {| h_w := w; h_ups := h_ups s; h_maxFire := h_maxFire s; h_fired := h_fired s; h_inflight := h_inflight s;
         h_pending := delete k (h_pending s);
         h_chan := (h_chan s ++ [{| hr_res := res; hr_uid := id; hr_tok := tok; hr_io := o |}])%list;
         h_pruning := h_pruning s; h_tried := h_tried s; h_lastErr := h_lastErr s; h_result := h_result s;
         h_drain := h_drain s |}
  end.

(** [return] from the loop: the buffered pruning response is given up, the rest is drained. *)
Definition hedge_return (now : Z) (res : exec_error + Exec) (s : hedge_state) : hedge_state :=
  {| h_w := dropBuffered now (h_pruning s) (h_w s); h_ups := h_ups s; h_maxFire := h_maxFire s; h_fired := h_fired s;
     h_inflight := h_inflight s; h_pending := h_pending s; h_chan := h_chan s; h_pruning := None; h_tried := h_tried s;
     h_lastErr := h_lastErr s; h_result := Some res; h_drain := h_inflight s |}.

(** An attempt that did not decide the race. *)
Definition hedge_continue (w : World RL) (id : string) (pruning : option Exec) (lastErr : option exec_cause)
    (s : hedge_state) : hedge_state :=
  {| h_w := w; h_ups := h_ups s; h_maxFire := h_maxFire s; h_fired := h_fired s; h_inflight := h_inflight s;
     h_pending := h_pending s; h_chan := h_chan s; h_pruning := pruning; h_tried := id :: h_tried s;
     h_lastErr := lastErr; h_result := h_result s; h_drain := h_drain s |}.

(** The result that was received, [inflight--] done. *)
Definition hedge_receive (res : hres) (s : hedge_state) : hedge_state :=
  let id := hr_uid res in
  let done := io_done (hr_io res) in
  match hr_res res with
  | inr (h, resp) =>
      if rs_Status resp <? 500 then
        let '(peeked, _, resp) := peekBodyForPruning resp target in
        let e := {| ex_handle := Some h; ex_resp := resp; ex_uid := id; ex_tok := hr_tok res |} in
        if negb archiveBiased && HasArchive (w_pool (h_w s)) && isPruningError (rs_Status resp) peeked target then
          let '(w, pruning) :=
            match h_pruning s with
            | None => (h_w s, Some e)
            | Some p => (settle_token (hr_tok res) cbSettleRelease done (close_body h (h_w s)), Some p)
            end in
          hedge_continue (on_upstream id (RecordResponseStatus done (rs_Status resp)) w) id pruning (h_lastErr s) s
        else hedge_return done (inr e) s
      else
        hedge_continue (recordUpstreamFailure id (hr_tok res) apiPath done (close_body h (h_w s))) id (h_pruning s)
          (Some (CStatus (rs_Status resp))) s
  | inl e =>
      if isClientCancel (hr_io res) e then
        hedge_continue (settle_token (hr_tok res) cbSettleRelease done (h_w s)) id (h_pruning s) (Some (CForward e)) s
      else if bool_decide (e = FGated) then
        hedge_continue (h_w s) id (h_pruning s) (Some (CForward e)) s
      else
        hedge_continue (recordUpstreamFailure id (hr_tok res) apiPath done (h_w s)) id (h_pruning s) (Some (CForward e)) s
  end.

Definition set_result (w : World RL) (res : exec_error + Exec) (s : hedge_state) : hedge_state :=
  {| h_w := w; h_ups := h_ups s; h_maxFire := h_maxFire s; h_fired := h_fired s; h_inflight := h_inflight s;
     h_pending := h_pending s; h_chan := h_chan s; h_pruning := None; h_tried := h_tried s; h_lastErr := h_lastErr s;
     h_result := Some res; h_drain := 0 |}.

(** After the loop: a buffered pruning response is settled by whether its body can be read, the
    archive upstreams are tried, and the buffered response is the fall-back. *)
Definition hedge_finish (now : Z) (s : hedge_state) : hedge_state :=
  match h_pruning s with
  | None => set_result (h_w s) (inl (XHedgesFailed (h_lastErr s))) s
  | Some p =>
      let '(resp, body) := readAndFinalizeResponseBody (ex_resp p) maxResponseBytes in
      let w := close_opt (ex_handle p) (h_w s) in
      let w := settle_token (ex_tok p) (match body with None => cbSettleFailure | Some _ => cbSettleSuccess end) now w in
      let '(w, archive) :=
        promoteToArchive NewRequest_ok gunzip gz now apiPath r (h_tried s)
          (Z.max (Z.of_nat (h_maxFire s)) (MaxAttempts fs)) target w in
      match archive with
      | inr e => set_result w (inr e) s
      | inl _ =>
          match body with
          | None => set_result w (inl XPruneRead) s
          | Some body =>
              set_result w
                (inr {| ex_handle := None;
                        ex_resp := {| rs_Status := rs_Status resp; rs_Header := rs_Header resp; rs_content := body;
                                      rs_readErr := false; rs_reqMethod := rs_reqMethod resp |};
                        ex_uid := ex_uid p; ex_tok := zero_token |}) s
          end
      end
  end.

(** [for inflight > 0 || fired < maxFire] *)
Definition hedge_loop_check (now : Z) (s : hedge_state) : hedge_state :=
  match h_result s with
  | Some _ => s
  | None => if (0 <? h_inflight s)%nat || (h_fired s <? h_maxFire s)%nat then s else hedge_finish now s
  end.

Definition take_result (s : hedge_state) (rest : list hres) : hedge_state :=
  {| h_w := h_w s; h_ups := h_ups s; h_maxFire := h_maxFire s; h_fired := h_fired s; h_inflight := pred (h_inflight s);
     h_pending := h_pending s; h_chan := rest; h_pruning := h_pruning s; h_tried := h_tried s; h_lastErr := h_lastErr s;
     h_result := h_result s; h_drain := h_drain s |}.

Definition drain_one (now : Z) (res : hres) (rest : list hres) (s : hedge_state) : hedge_state :=
  {| h_w := dropBuffered now (Some (exec_of res)) (h_w s); h_ups := h_ups s; h_maxFire := h_maxFire s;
     h_fired := h_fired s; h_inflight := h_inflight s; h_pending := h_pending s; h_chan := rest;
     h_pruning := h_pruning s; h_tried := h_tried s; h_lastErr := h_lastErr s; h_result := h_result s;
     h_drain := pred (h_drain s) |}.

Definition hedge_step (s : hedge_state) (ev : hedge_event) : hedge_state :=
  match ev, h_result s with
  | HRun k, _ => hedge_run k s
  | HRecv now, None =>
      match h_chan s with
      | [] => s
      | res :: rest => hedge_loop_check now (hedge_receive res (take_result s rest))
      end
  | HTimer, None =>
      if (h_fired s <? h_maxFire s)%nat then match hedge_fire s with Some s => s | None => s end else s
  | HCtx now, None => hedge_return now (inl XContext) s
  | HDrain now, Some _ =>
      match h_chan s with
      | [] => s
      | res :: rest => if (0 <? h_drain s)%nat then drain_one now res rest s else s
      end
  | _, _ => s
  end.

Definition hedge_exec (s : hedge_state) (sched : list hedge_event) : hedge_state := foldl hedge_step s sched.
End hedge.

(** ** The members of the pool *)

Section hedge_pool.
Context `{RL : RateLib} `{NL : NetLib}.
Context (NewRequest_ok : string → string → bool) (gunzip : string → bool → option (string * bool)).
Context (gz : bool) (r : Inbound) (fs : FailsafeConfig) (apiPath : string) (target : HistoricalTarget)
  (archiveBiased : bool) (maxResponseBytes : Z).
Implicit Types w : World RL.

Lemma promote_pool now path tried n w :
  pool_ids (promoteToArchive NewRequest_ok gunzip gz now path r tried n target w).1 = pool_ids w.
Proof.
  unfold promoteToArchive. cbv zeta. set (k := Z.to_nat _).
  pose proof (selectForPath_pool true false now (w_pool w) path k) as Hp. cbn [selectForPath] in Hp.
  destruct (SelectForPathArchive _ _ _ _) as [p ups]. cbn [fst] in Hp. pose proof (quiet_select p w Hp) as [Hq _].
  destruct ups as [|u ups]; [exact Hq|]. rewrite <- Hq. generalize (u_ID <$> u :: ups). generalize (@None exec_cause).
  generalize (set_pool p w). clear. intros w le ids. revert le w. induction ids as [|id rest IH]; intros le w; [done|].
  cbn [promote_loop]. case_bool_decide; [by apply IH|].
  pose proof (forward_dispatches NewRequest_ok gunzip gz id r w) as [Hd _].
  destruct (forward _ _ _ _ _ _) as [[[o w'] tok] [e|[h resp]]]; cbn [fst snd] in Hd; rewrite <- Hd.
  - destruct (isClientCancel o e); [apply quiet_settle|]. case_bool_decide; rewrite IH; [done|apply quiet_settle].
  - destruct (500 <=? _).
    + rewrite IH. rewrite (proj1 (quiet_settle _ _ _ _)). apply quiet_close.
    + destruct (peekBodyForPruning _ _) as [[? ?] ?]. destruct (isPruningError _ _ _); [|done].
      rewrite IH. rewrite (proj1 (quiet_settle _ _ _ _)). apply quiet_close.
Qed.

Lemma hedge_receive_pool res (s : hedge_state) :
  pool_ids (h_w (hedge_receive apiPath target archiveBiased res s)) = pool_ids (h_w s).
Proof.
  unfold hedge_receive. cbv zeta. destruct (hr_res res) as [e|[h resp]].
  - destruct (isClientCancel _ _); [apply quiet_settle|]. case_bool_decide; [done|apply quiet_failure].
  - destruct (_ <? 500).
    + destruct (peekBodyForPruning _ _) as [[? ?] ?]. destruct (_ && isPruningError _ _ _); [|apply quiet_drop].
      destruct (h_pruning s); cbn [h_w hedge_continue]; rewrite (proj1 (quiet_neutral _ _ _ (neutral_status _ _))); [|done].
      rewrite (proj1 (quiet_settle _ _ _ _)). apply quiet_close.
    + cbn [h_w hedge_continue]. rewrite (proj1 (quiet_failure _ _ _ _ _)). apply quiet_close.
Qed.

Lemma hedge_finish_pool now (s : hedge_state) :
  pool_ids (h_w (hedge_finish NewRequest_ok gunzip gz r fs apiPath target maxResponseBytes now s)) = pool_ids (h_w s).
Proof.
  unfold hedge_finish. destruct (h_pruning s) as [p|]; [|done].
  destruct (readAndFinalizeResponseBody _ _) as [resp body]. cbv zeta.
  set (o := match body with None => _ | Some _ => _ end). set (w := settle_token _ _ _ _).
  assert (pool_ids w = pool_ids (h_w s)) as Hw.
  { subst w. rewrite (proj1 (quiet_settle _ _ _ _)). destruct (ex_handle p); [apply quiet_close|done]. }
  clearbody w. rewrite <- Hw. set (n := Z.max _ _). pose proof (promote_pool now apiPath (h_tried s) n w) as Hp.
  destruct (promoteToArchive _ _ _ _ _ _ _ _ _ _) as [w' [?|?]]; [|exact Hp]. destruct body; exact Hp.
Qed.

Lemma hedge_exec_pool sched (s : hedge_state) :
  pool_ids (h_w (hedge_exec NewRequest_ok gunzip gz r fs apiPath target archiveBiased maxResponseBytes s sched)) = pool_ids (h_w s).
Proof.
  revert s. induction sched as [|ev sched IH]; intros s; [done|]. cbn [hedge_exec foldl]. unfold hedge_exec in IH. rewrite IH. clear IH.
  destruct ev as [k|now| |now|now]; cbn [hedge_step].
  - transitivity (pool_ids (h_w (hedge_run NewRequest_ok gunzip gz r k s))); [by destruct (h_result s)|].
    unfold hedge_run. destruct (h_pending s !! k) as [id|]; [|done].
    pose proof (forward_dispatches NewRequest_ok gunzip gz id r (h_w s)) as [Hd _].
    by destruct (forward _ _ _ _ _ _) as [[[? ?] ?] ?].
  - destruct (h_result s); [done|]. destruct (h_chan s) as [|res rest]; [done|]. unfold hedge_loop_check.
    pose proof (hedge_receive_pool res (take_result s rest)) as Hr. destruct (h_result (hedge_receive _ _ _ _ _)); [done|].
    destruct (_ || _); [done|]. by rewrite hedge_finish_pool.
  - destruct (h_result s); [done|]. destruct (_ <? _)%nat; [|done]. unfold hedge_fire. by destruct (_ !! _).
  - destruct (h_result s); [done|]. apply quiet_drop.
  - destruct (h_result s); [|done]. destruct (h_chan s); [done|]. destruct (_ <? _)%nat; [|done]. apply quiet_drop.
Qed.

Lemma hedge_init_pool now hedge ups preferID w s : hedge_init now hedge ups preferID w = Some s → h_w s = w.
Proof. unfold hedge_init, hedge_fire. cbv zeta. destruct (_ !! _); [|done]. by intros [= <-]. Qed.
End hedge_pool.

(** ** Every schedule *)

Section hedge_safety.
Context `{RL : RateLib} `{NL : NetLib}.
Context (NewRequest_ok : string → string → bool) (gunzip : string → bool → option (string * bool)).
Context (gz : bool) (r : Inbound) (fs : FailsafeConfig) (apiPath : string) (target : HistoricalTarget)
  (archiveBiased : bool) (maxResponseBytes : Z).
Context (F : list CBToken) (base : string → Z) (O : gmap nat string).
Abbreviation holds := (holding F base O).
Abbreviation step := (hedge_step NewRequest_ok gunzip gz r fs apiPath target archiveBiased maxResponseBytes).
Implicit Types s : hedge_state (RL := RL).

(** The responses the execution is responsible for: what it returned, what it buffers, and what
    waits in the channel. *)
Definition returned s : list Exec := match h_result s with Some (inr e) => [e] | _ => [] end.
Definition in_hand s : list Exec := (returned s ++ option_list (h_pruning s) ++ (exec_of <$> h_chan s))%list.

Record hedge_inv s : Prop := {
  hi_hold : holds (in_hand s) (h_w s);
  hi_count : match h_result s with None => h_inflight s | Some _ => h_drain s end =
             (length (h_pending s) + length (h_chan s))%nat;
  hi_range : (h_fired s <= h_maxFire s <= length (h_ups s))%nat;
  hi_pruning : h_result s ≠ None → h_pruning s = None;
  hi_gated res : res ∈ h_chan s → hr_res res = inl FGated → hr_tok res = zero_token;
}.

(** A result of [forward], in hand. *)
Lemma forward_in_hand id l w :
  holds l w →
  let '(o, w', tok, res) := forward NewRequest_ok gunzip gz id r w in
  holds (exec_of {| hr_res := res; hr_uid := id; hr_tok := tok; hr_io := o |} :: l) w'.
Proof.
  intros Hw. pose proof (holds_forward _ _ _ NewRequest_ok gunzip gz id r l w Hw) as H.
  destruct (forward _ _ _ _ _ _) as [[[o w'] tok] [e|[h resp]]]; [|exact (H resp)]. destruct H as [[H1 H2 H3 H4] _].
  constructor; [|done..]. eapply owned_mono; [|exact H1]. intros t. cbn [fmap list_fmap app exec_of ex_tok hr_tok].
  rewrite !elem_of_cons, !elem_of_app, elem_of_cons. tauto.
Qed.

(** A failed attempt: its token is all it holds. *)
Lemma failed_frame e res l w :
  hr_res res = inl e → holds (exec_of res :: l) w → holding (hr_tok res :: F) base O l w.
Proof.
  intros E [H1 H2 H3 H4]. unfold handles, exec_of in *. cbn [omap list_omap fmap list_fmap app ex_handle ex_tok] in *.
  rewrite E in *. cbn [fmap option_fmap option_map] in *.
  constructor; [|done..]. eapply owned_mono; [|exact H1]. intros t. rewrite !elem_of_app, !elem_of_cons, !elem_of_app. tauto.
Qed.

Lemma gated_zero id w o w' tok :
  forward NewRequest_ok gunzip gz id r w = (o, w', tok, inl FGated) → tok = zero_token.
Proof.
  unfold forward. intros H. destruct (pop_io w) as [i w1]. revert H.
  destruct (ByID _ _) as [u|]; [|done]. destruct (forward_request _ _ _ _); [|done].
  set (tr := match io_reply i with RErr => _ | _ => _ end). pose proof (do_spec (io_now i) tr u) as Hd.
  destruct (Upstream_Do (io_now i) tr u) as [[u' res] tok']. destruct Hd as (_ & _ & Hd).
  destruct res as [|e|st tr']; [intros [= <- <- <-]; apply Hd|by destruct (io_reply i)|].
  destruct (io_reply i); [done|]. cbn [open_body]. destruct (String.eqb _ "gzip"); [|done]. by destruct (gunzip _ _) as [[? ?]|].
Qed.

(** The main loop receives [res]. *)
Lemma receive_inv res s :
  h_result s = None → holds (exec_of res :: in_hand s) (h_w s) → (hr_res res = inl FGated → hr_tok res = zero_token) →
  hedge_inv s ∨ h_inflight s = (length (h_pending s) + length (h_chan s))%nat →
  (h_fired s <= h_maxFire s <= length (h_ups s))%nat →
  (∀ res, res ∈ h_chan s → hr_res res = inl FGated → hr_tok res = zero_token) →
  hedge_inv (hedge_receive apiPath target archiveBiased res s).
Proof.
  intros Hres Hw Hz Hc Hr Hg.
  assert (h_inflight s = (length (h_pending s) + length (h_chan s))%nat) as Hc'.
  { destruct Hc as [[_ Hc _ _ _]|Hc]; [|done]. by rewrite Hres in Hc. }
  clear Hc. unfold in_hand, returned in Hw. rewrite Hres in Hw. cbn [app] in Hw.
  assert (∀ w id lastErr, holds (option_list (h_pruning s) ++ (exec_of <$> h_chan s))%list w →
    hedge_inv (hedge_continue w id (h_pruning s) lastErr s)) as Hcont.
  { intros w id le H. constructor; cbn [h_w h_result h_pruning h_chan h_inflight h_pending h_fired h_maxFire h_ups h_drain hedge_continue];
      rewrite ?Hres; try done. unfold in_hand, returned. cbn. by rewrite Hres. }
  unfold hedge_receive. cbv zeta. destruct (hr_res res) as [e|[h resp]] eqn:Er.
  - pose proof (failed_frame e res _ _ Er Hw) as Hf. destruct (isClientCancel _ e); [by apply Hcont, holds_settle_frame|].
    case_bool_decide as Eg; [|by apply Hcont, holds_record_failure].
    apply Hcont, holds_zero_frame. subst e. by rewrite <- (Hz eq_refl).
  - assert (∀ resp', holds ({| ex_handle := Some h; ex_resp := resp'; ex_uid := hr_uid res; ex_tok := hr_tok res |}
      :: option_list (h_pruning s) ++ (exec_of <$> h_chan s))%list (h_w s)) as Hall.
    { intros resp'. eapply holds_same; [| | |exact Hw]; cbn; by rewrite ?Er. }
    destruct (rs_Status resp <? 500).
    2: { apply Hcont, holds_record_failure. exact (holds_close_resp _ _ _ _ _ _ _ _ _ (Hall resp)). }
    destruct (peekBodyForPruning resp target) as [[peeked err] resp'].
    destruct (_ && isPruningError _ _ _).
    + destruct (h_pruning s) as [p|] eqn:Ep.
      * apply Hcont. apply holds_update; [apply neutral_status|]. cbn [option_list].
        exact (holds_drop _ _ _ _ _ _ _ _ (Hall resp')).
      * constructor; cbn [h_w h_result h_pruning h_chan h_inflight h_pending h_fired h_maxFire h_ups h_drain hedge_continue];
          rewrite ?Hres; try done. unfold in_hand, returned. cbn [h_w h_result h_pruning h_chan hedge_continue]. rewrite Hres.
        apply holds_update; [apply neutral_status|]. exact (Hall resp').
    + constructor; cbn [h_w h_result h_pruning h_chan h_inflight h_pending h_fired h_maxFire h_ups h_drain hedge_return]; try done.
      unfold in_hand, returned. cbn [h_w h_result h_pruning h_chan hedge_return option_list app].
      apply holds_dropBuffered_under. exact (Hall resp').
Qed.

Lemma finish_inv now s :
  hedge_inv s → h_result s = None → h_inflight s = 0%nat →
  hedge_inv (hedge_finish NewRequest_ok gunzip gz r fs apiPath target maxResponseBytes now s).
Proof.
  intros [H1 H2 H3 H4 H5] Hres H0. rewrite Hres, H0 in H2. destruct (h_chan s) eqn:Ec; [|cbn in H2; lia].
  destruct (h_pending s) eqn:Ep; [|cbn in H2; lia].
  unfold in_hand, returned in H1. rewrite Hres, Ec in H1. cbn [app fmap list_fmap] in H1. rewrite app_nil_r in H1.
  assert (∀ w res, match res with inl _ => holds [] w | inr e => holds [e] w end → hedge_inv (set_result w res s)) as Hset.
  { intros w res H. constructor; cbn [h_w h_result h_pruning h_chan h_inflight h_pending h_fired h_maxFire h_ups h_drain set_result];
      rewrite ?Ec, ?Ep; try done.
    unfold in_hand, returned. cbn. rewrite Ec. by destruct res. }
  unfold hedge_finish. destruct (h_pruning s) as [p|] eqn:Epr; [|by apply Hset].
  destruct (readAndFinalizeResponseBody _ _) as [resp body].
  pose proof (holds_drop _ _ _ p [] (match body with None => cbSettleFailure | Some _ => cbSettleSuccess end) now (h_w s) H1) as Hd.
  set (w1 := settle_token _ _ _ _) in *.
  pose proof (promoteToArchive_finishes NewRequest_ok gunzip F base O gz now apiPath r (h_tried s)
    (Z.max (Z.of_nat (h_maxFire s)) (MaxAttempts fs)) target [] w1 Hd) as Hp.
  destruct (promoteToArchive _ _ _ _ _ _ _ _ _ _) as [w2 [e|e]]; [|by apply Hset].
  destruct body as [body|]; apply Hset; [|done]. by apply holds_skip.
Qed.

Lemma loop_check_inv now s :
  hedge_inv s → hedge_inv (hedge_loop_check NewRequest_ok gunzip gz r fs apiPath target maxResponseBytes now s).
Proof.
  intros H. unfold hedge_loop_check. destruct (h_result s) eqn:Er; [done|].
  destruct (Nat.ltb_spec 0 (h_inflight s)) as [|H0]; [done|]. destruct (_ <? _)%nat; [done|]. cbn [orb].
  apply finish_inv; [done|done|lia].
Qed.

Lemma fire_inv s s' : hedge_inv s → h_result s = None → (h_fired s < h_maxFire s)%nat → hedge_fire s = Some s' → hedge_inv s'.
Proof.
  intros [H1 H2 H3 H4 H5] Hres Hlt. unfold hedge_fire. destruct (h_ups s !! h_fired s); [|done]. intros [= <-].
  constructor; cbn [h_w h_result h_pruning h_chan h_inflight h_pending h_fired h_maxFire h_ups h_drain]; try done.
  - rewrite Hres in *. rewrite length_app. cbn. lia.
  - lia.
Qed.

Lemma delete_length {A} (l : list A) k x : l !! k = Some x → S (length (delete k l)) = length l.
Proof. intros H. rewrite length_delete by (by eexists). apply lookup_lt_Some in H. lia. Qed.

Lemma hedge_step_inv s ev : hedge_inv s → hedge_inv (step s ev).
Proof.
  intros H. destruct ev as [k|now| |now|now]; cbn [hedge_step].
  - assert (hedge_inv (hedge_run NewRequest_ok gunzip gz r k s)) as Hrun; [|by destruct (h_result s)].
    unfold hedge_run. destruct (h_pending s !! k) as [id|] eqn:Ek; [|done]. destruct H as [H1 H2 H3 H4 H5].
    pose proof (forward_in_hand id _ _ H1) as Hf. pose proof (gated_zero id (h_w s)) as Hz.
    destruct (forward _ _ _ _ _ _) as [[[o w'] tok] res]. apply delete_length in Ek.
    constructor; cbn [h_w h_result h_pruning h_chan h_inflight h_pending h_fired h_maxFire h_ups h_drain]; try done.
    + eapply holds_perm; [|exact Hf]. unfold in_hand, returned. cbn [h_w h_result h_pruning h_chan].
      rewrite fmap_app. cbn. rewrite !app_assoc. by rewrite Permutation_cons_append.
    + rewrite length_app. cbn. rewrite H2. lia.
    + intros res' [Hin|[-> |[]%not_elem_of_nil]%elem_of_cons]%elem_of_app; [by apply H5|]. cbn. intros ->. by eapply Hz.
  - destruct (h_result s) eqn:Er; [done|]. destruct (h_chan s) as [|res rest] eqn:Ec; [done|].
    destruct H as [H1 H2 H3 H4 H5]. rewrite Er, Ec in H2. cbn [length] in H2.
    apply loop_check_inv, receive_inv; cbn [take_result h_w h_result h_pruning h_chan h_inflight h_pending h_fired h_maxFire h_ups]; try done.
    + unfold in_hand, returned in *. cbn [take_result h_w h_result h_pruning h_chan]. rewrite Er, Ec in *. cbn [app fmap list_fmap] in *.
      eapply holds_perm; [|exact H1]. symmetry. apply Permutation_middle.
    + apply H5. rewrite Ec. by left.
    + right. rewrite H2. lia.
    + intros res' Hres'. apply H5. rewrite Ec. by right.
  - destruct (h_result s) eqn:Er; [done|]. destruct (Nat.ltb_spec (h_fired s) (h_maxFire s)) as [Hlt|]; [|done].
    destruct (hedge_fire s) as [s'|] eqn:Ef; [|done]. by eapply fire_inv.
  - destruct (h_result s) eqn:Er; [done|]. destruct H as [H1 H2 H3 H4 H5]. rewrite Er in H2.
    constructor; cbn [h_w h_result h_pruning h_chan h_inflight h_pending h_fired h_maxFire h_ups h_drain hedge_return]; try done.
    unfold in_hand, returned in *. cbn [h_w h_result h_pruning h_chan hedge_return option_list app]. rewrite Er in H1.
    cbn [app] in H1. by apply holds_dropBuffered.
  - destruct (h_result s) as [res|] eqn:Er; [|done]. destruct (h_chan s) as [|x rest] eqn:Ec; [done|].
    destruct (0 <? h_drain s)%nat; [|done]. destruct H as [H1 H2 H3 H4 H5]. rewrite Er, Ec in H2. cbn [length] in H2.
    constructor; cbn [h_w h_result h_pruning h_chan h_inflight h_pending h_fired h_maxFire h_ups h_drain drain_one]; try done.
    + apply holds_dropBuffered. cbn [option_list]. eapply holds_perm; [|exact H1]. unfold in_hand, returned.
      cbn [drain_one h_result h_pruning h_chan]. rewrite Ec. cbn [fmap list_fmap]. rewrite !app_assoc. symmetry.
      apply Permutation_middle.
    + rewrite Er. lia.
    + intros res' Hres'. apply H5. rewrite Ec. by right.
Qed.

(** The loop condition: the function waits only while something is to come. *)
Definition hedge_waits s : Prop := h_result s = None → (0 < h_inflight s ∨ h_fired s < h_maxFire s)%nat.

Lemma loop_check_waits now s :
  hedge_waits (hedge_loop_check NewRequest_ok gunzip gz r fs apiPath target maxResponseBytes now s).
Proof.
  unfold hedge_loop_check, hedge_waits. destruct (h_result s) eqn:Er; [congruence|].
  destruct (Nat.ltb_spec 0 (h_inflight s)); [by left|]. destruct (Nat.ltb_spec (h_fired s) (h_maxFire s)); [by right|]. cbn [orb].
  unfold hedge_finish. destruct (h_pruning s); [|done]. destruct (readAndFinalizeResponseBody _ _) as [? body].
  destruct (promoteToArchive _ _ _ _ _ _ _ _ _ _) as [? [?|?]]; [|done]. by destruct body.
Qed.

Lemma hedge_step_waits s ev : hedge_waits s → hedge_waits (step s ev).
Proof.
  intros H. destruct ev as [k|now| |now|now]; cbn [hedge_step].
  - assert (hedge_waits (hedge_run NewRequest_ok gunzip gz r k s)) as Hrun; [|by destruct (h_result s)].
    unfold hedge_run. destruct (h_pending s !! k); [|done]. by destruct (forward _ _ _ _ _ _) as [[[? ?] ?] ?].
  - destruct (h_result s) eqn:Er; [done|]. destruct (h_chan s); [done|]. apply loop_check_waits.
  - destruct (h_result s) eqn:Er; [done|]. destruct (_ <? _)%nat; [|done]. unfold hedge_fire.
    destruct (_ !! _); [|done]. intros _. left. cbn. lia.
  - by destruct (h_result s).
  - destruct (h_result s) eqn:Er; [|done]. destruct (h_chan s); [done|]. destruct (0 <? _)%nat; [|done].
    unfold hedge_waits. cbn. congruence.
Qed.

Lemma hedge_exec_inv sched s :
  let s' := hedge_exec NewRequest_ok gunzip gz r fs apiPath target archiveBiased maxResponseBytes s sched in
  (hedge_inv s → hedge_inv s') ∧ (hedge_waits s → hedge_waits s').
Proof.
  revert s. induction sched as [|ev sched IH]; intros s; [done|]. cbn [hedge_exec foldl].
  destruct (IH (step s ev)) as [H1 H2]. split; intros Hs; [by apply H1, hedge_step_inv|by apply H2, hedge_step_waits].
Qed.

(** ** The start *)

Lemma ensurePreferred_length now (p : Pool RL) ups preferID n :
  0 < n <= Z.of_nat (length ups) → n <= Z.of_nat (length (ensurePreferredUpstreamFirst now p ups preferID n)).
Proof.
  intros Hn. assert (∀ l, (length ups <= length l)%nat → n <= Z.of_nat (length (trimUpstreamSlice l n))) as Ht.
  { intros l Hl. unfold trimUpstreamSlice. destruct (_ && _); rewrite ?length_take; lia. }
  unfold ensurePreferredUpstreamFirst. destruct (_ || _); [lia|]. destruct (list_find _ ups) as [[i id]|].
  - destruct (IsForked _ _); [lia|]. apply Ht. destruct (i =? 0)%nat; [done|]. by rewrite swap_front_perm.
  - destruct (ByID _ _); [|lia]. destruct (_ && _); [|lia]. apply Ht. cbn. lia.
Qed.

Lemma hedge_init_inv now hedge ups preferID w :
  0 <= hg_MaxCount hedge → ups ≠ [] → holds [] w →
  ∃ s, hedge_init now hedge ups preferID w = Some s ∧ hedge_inv s ∧ hedge_waits s.
Proof.
  intros Hm Hu Hw. unfold hedge_init. cbv zeta.
  assert (0 < length ups)%nat as Hl by (destruct ups; [done|cbn; lia]).
  set (n := Z.min (hg_MaxCount hedge + 1) (Z.of_nat (length ups))).
  pose proof (ensurePreferred_length now (w_pool w) ups preferID n ltac:(lia)) as He.
  set (l := ensurePreferredUpstreamFirst _ _ _ _ _) in *.
  set (s0 := {| h_w := w; h_ups := l; h_maxFire := Z.to_nat n; h_fired := 0; h_inflight := 0; h_pending := []; h_chan := [];
    h_pruning := None; h_tried := []; h_lastErr := None; h_result := None; h_drain := 0 |}).
  assert (hedge_inv s0) as H0.
  { constructor; cbn; try done; [lia|]. by intros res ?%not_elem_of_nil. }
  destruct (hedge_fire s0) as [s|] eqn:Ef.
  - exists s. split_and!; [done| |].
    + eapply (fire_inv s0); [done|done|cbn; lia|done].
    + unfold hedge_fire in Ef. destruct (_ !! _); [|done]. injection Ef as <-. intros _. left. cbn. lia.
  - exfalso. unfold hedge_fire in Ef. cbn [h_ups h_fired s0] in Ef.
    destruct (l !! 0%nat) eqn:El; [done|]. apply lookup_ge_None in El. lia.
Qed.

(** ** Properties *)

(** C7: hedged attempts race in goroutines, and whatever the schedule and the answers, nothing is
    leaked: at every moment each recovery probe in flight and each open body is
    accounted for by the returned, the buffered or a queued response; and once the execution has
    returned and its goroutines have run and been drained, only the returned response is
    still held - nothing at all after an error.  The drainer waits for exactly the results that
    are still to come. *)
Theorem hedge_no_leak now hedge ups preferID w sched :
  0 <= hg_MaxCount hedge → ups ≠ [] → holds [] w →
  ∃ s0, hedge_init now hedge ups preferID w = Some s0 ∧
  let s := hedge_exec NewRequest_ok gunzip gz r fs apiPath target archiveBiased maxResponseBytes s0 sched in
  holds (in_hand s) (h_w s) ∧
  ∀ res, h_result s = Some res →
    h_drain s = (length (h_pending s) + length (h_chan s))%nat ∧
    (h_pending s = [] → h_chan s = [] → finishes F base O [] (h_w s, res)).
Proof.
  intros Hm Hu Hw. destruct (hedge_init_inv now hedge ups preferID w Hm Hu Hw) as (s0 & E0 & H0 & _).
  exists s0. split; [done|]. cbv zeta. apply (proj1 (hedge_exec_inv sched s0)) in H0.
  set (s := hedge_exec _ _ _ _ _ _ _ _ _ s0 sched) in *. clearbody s. destruct H0 as [H1 H2 H3 H4 H5]. split; [done|].
  intros res Er. rewrite Er in H2. split; [done|]. intros _ Ec. unfold in_hand, returned in H1.
  rewrite Er, Ec, H4 in H1 by congruence. cbn [option_list app fmap list_fmap] in H1. unfold finishes. cbn [fst snd].
  destruct res; [exact H1|]. by rewrite app_nil_r in H1.
Qed.

(** What is left to happen. *)
Definition hedge_measure s : nat :=
  (match h_result s with None => 3 * (h_maxFire s - h_fired s) + 1 | Some _ => 0 end
   + 2 * length (h_pending s) + length (h_chan s))%nat.

Lemma receive_measure res s :
  let s' := hedge_receive apiPath target archiveBiased res s in
  h_pending s' = h_pending s ∧ h_chan s' = h_chan s ∧ h_maxFire s' = h_maxFire s ∧ h_fired s' = h_fired s ∧
  (h_result s' = h_result s ∨ h_result s' ≠ None).
Proof.
  cbv zeta. unfold hedge_receive. cbv zeta. destruct (hr_res res) as [e|[h resp]].
  - destruct (isClientCancel _ _); [by split_and!; auto|]. case_bool_decide; by split_and!; auto.
  - destruct (_ <? 500); [|by split_and!; auto]. destruct (peekBodyForPruning _ _) as [[? ?] ?].
    destruct (_ && isPruningError _ _ _); [by destruct (h_pruning s); split_and!; auto|].
    split_and!; try done. by right.
Qed.

Lemma finish_measure now s :
  let s' := hedge_finish NewRequest_ok gunzip gz r fs apiPath target maxResponseBytes now s in
  h_pending s' = h_pending s ∧ h_chan s' = h_chan s ∧ h_result s' ≠ None.
Proof.
  cbv zeta. unfold hedge_finish. destruct (h_pruning s); [|done]. destruct (readAndFinalizeResponseBody _ _) as [? body].
  destruct (promoteToArchive _ _ _ _ _ _ _ _ _ _) as [? [?|?]]; [|done]. by destruct body.
Qed.

(** The measure of a state that keeps its queues and may have returned. *)
Lemma measure_le s s' :
  h_pending s' = h_pending s → h_chan s' = h_chan s → h_maxFire s' = h_maxFire s → h_fired s' = h_fired s →
  h_result s' = h_result s ∨ h_result s' ≠ None → (hedge_measure s' <= hedge_measure s)%nat.
Proof.
  intros E1 E2 E3 E4 Hr. unfold hedge_measure. rewrite E1, E2, E3, E4. destruct (h_result s'); [lia|].
  destruct Hr as [<-|?]; [lia|done].
Qed.

Lemma loop_check_measure now s :
  (hedge_measure (hedge_loop_check NewRequest_ok gunzip gz r fs apiPath target maxResponseBytes now s) <= hedge_measure s)%nat.
Proof.
  unfold hedge_loop_check. destruct (h_result s) eqn:Er; [done|]. destruct (_ || _); [done|].
  destruct (finish_measure now s) as (E1 & E2 & E3). unfold hedge_measure. rewrite E1, E2, Er.
  destruct (h_result (hedge_finish _ _ _ _ _ _ _ _ _ _)); [lia|done].
Qed.

Lemma hedge_progress s ev :
  hedge_inv s → hedge_waits s →
  (step s ev = s ∨ (hedge_measure (step s ev) < hedge_measure s)%nat) ∧
  (h_result s = None → ∃ ev, (∀ now, ev ≠ HCtx now) ∧ (hedge_measure (step s ev) < hedge_measure s)%nat).
Proof.
  intros [H1 H2 H3 H4 H5] Hwait.
  assert (∀ k id, h_pending s !! k = Some id → (hedge_measure (step s (HRun k)) < hedge_measure s)%nat) as Hrun.
  { intros k id Ek. cbn [hedge_step]. unfold hedge_run. rewrite Ek. destruct (forward _ _ _ _ _ _) as [[[o w'] tok] res].
    apply delete_length in Ek. unfold hedge_measure. cbn [h_result h_maxFire h_fired h_pending h_chan]. rewrite length_app. cbn [length].
    destruct (h_result s); lia. }
  assert (∀ now res rest, h_result s = None → h_chan s = res :: rest → (hedge_measure (step s (HRecv now)) < hedge_measure s)%nat) as Hrecv.
  { intros now res rest Er Ec. cbn [hedge_step]. rewrite Er, Ec. eapply Nat.le_lt_trans; [apply loop_check_measure|].
    destruct (receive_measure res (take_result s rest)) as (E1 & E2 & E3 & E4 & E5).
    eapply Nat.le_lt_trans; [by apply measure_le|]. unfold hedge_measure. cbn. rewrite Er, Ec. cbn. lia. }
  assert (h_result s = None → (h_fired s < h_maxFire s)%nat → (hedge_measure (step s HTimer) < hedge_measure s)%nat) as Htimer.
  { intros Er Hlt. cbn [hedge_step]. rewrite Er. destruct (Nat.ltb_spec (h_fired s) (h_maxFire s)); [|lia].
    unfold hedge_fire. destruct (h_ups s !! h_fired s) eqn:El; [|apply lookup_ge_None in El; lia].
    unfold hedge_measure. cbn [h_result h_maxFire h_fired h_pending h_chan]. rewrite Er, length_app. cbn [length]. lia. }
  split.
  - destruct ev as [k|now| |now|now].
    + destruct (h_pending s !! k) as [id|] eqn:Ek; [right; by eapply Hrun|left]. cbn [hedge_step]. unfold hedge_run. rewrite Ek.
      by destruct (h_result s).
    + destruct (h_result s) eqn:Er; [left; cbn; by rewrite Er|]. destruct (h_chan s) as [|res rest] eqn:Ec.
      * left. cbn. by rewrite Er, Ec.
      * right. by eapply Hrecv.
    + destruct (h_result s) eqn:Er; [left; cbn; by rewrite Er|].
      destruct (Nat.ltb_spec (h_fired s) (h_maxFire s)) as [Hlt|Hge]; [right; by apply Htimer|].
      left. cbn [hedge_step]. rewrite Er. destruct (Nat.ltb_spec (h_fired s) (h_maxFire s)); [lia|done].
    + destruct (h_result s) eqn:Er; [left; cbn; by rewrite Er|]. right. cbn [hedge_step]. rewrite Er.
      unfold hedge_measure. cbn [hedge_return h_result h_pending h_chan]. rewrite Er. lia.
    + cbn [hedge_step]. destruct (h_result s) eqn:Er; [|by left]. destruct (h_chan s) as [|x rest] eqn:Ec; [by left|].
      destruct (0 <? h_drain s)%nat; [|by left]. right. unfold hedge_measure. cbn. rewrite Er, Ec. cbn. lia.
  - intros Er. rewrite Er in H2. destruct (h_chan s) as [|res rest] eqn:Ec.
    + destruct (h_pending s) as [|id rest] eqn:Ep.
      * destruct (decide (h_fired s < h_maxFire s)%nat) as [Hlt|Hge].
        -- exists HTimer. split; [done|]. by apply Htimer.
        -- exfalso. destruct (Hwait Er); [cbn in H2; lia|done].
      * exists (HRun 0). split; [done|]. apply (Hrun 0%nat id). done.
    + exists (HRecv 0). split; [done|]. by eapply Hrecv.
Qed.

(** C27: a hedged execution always ends: every event either changes nothing or brings the state
    strictly closer to the end, and as long as the function has not returned, some event other than
    the end of the request context makes progress: a goroutine can run, a result can be
    received, or the timer can fire (which never indexes past the slice). *)
Theorem hedge_terminates now hedge ups preferID w sched :
  0 <= hg_MaxCount hedge → ups ≠ [] → holds [] w →
  ∃ s0, hedge_init now hedge ups preferID w = Some s0 ∧
  let s := hedge_exec NewRequest_ok gunzip gz r fs apiPath target archiveBiased maxResponseBytes s0 sched in
  (∀ ev, step s ev = s ∨ (hedge_measure (step s ev) < hedge_measure s)%nat) ∧
  (h_result s = None → ∃ ev, (∀ now, ev ≠ HCtx now) ∧ (hedge_measure (step s ev) < hedge_measure s)%nat).
Proof.
  intros Hm Hu Hw. destruct (hedge_init_inv now hedge ups preferID w Hm Hu Hw) as (s0 & E0 & H0 & Hwait).
  exists s0. split; [done|]. cbv zeta. destruct (hedge_exec_inv sched s0) as [H1 H2]. specialize (H1 H0). specialize (H2 Hwait).
  split; [intros ev; by apply (hedge_progress _ ev)|]. by apply (hedge_progress _ HTimer).
Qed.

End hedge_safety.

(** ** Witnesses *)

Module HedgeDemo.
Import ExecDemo BoundsDemo.
#[local] Existing Instance DemoNet.

Definition demo_hedge : HedgeConfig := {| hg_Delay := 1; hg_MaxCount := 1 |}.

(** Both attempts run; the first wins and the second is drained. *)
Definition demo_schedule : list hedge_event := [HRun 0; HTimer; HRun 0; HRecv 3; HDrain 4].

Lemma hedge_no_leak_witness :
  ∃ s0, hedge_init 1 demo_hedge ["a"; "b"] "" (demo_world [demo_io 200; demo_io 200]) = Some s0 ∧
  let s := hedge_exec (λ _ _, true) (λ _ _, None) false HeaderDemo.demo_request demo_failsafe "/eth/v1/node/version"
             (classifyHistoricalTarget "/eth/v1/node/version") false 1024 s0 demo_schedule in
  holding [] (λ _, 0) ∅ (in_hand s) (h_w s).
Proof.
  destruct (hedge_no_leak (λ _ _, true) (λ _ _, None) false HeaderDemo.demo_request demo_failsafe "/eth/v1/node/version"
    (classifyHistoricalTarget "/eth/v1/node/version") false 1024 [] (λ _, 0) ∅ 1 demo_hedge ["a"; "b"] ""
    (demo_world [demo_io 200; demo_io 200]) demo_schedule ltac:(by vm_compute) ltac:(done) (demo_world_holds _)) as (s0 & E & H & _).
  by exists s0.
Defined.

Lemma hedge_terminates_witness :
  ∃ s0, hedge_init 1 demo_hedge ["a"; "b"] "" (demo_world [demo_io 200; demo_io 200]) = Some s0 ∧
  let step := hedge_step (λ _ _, true) (λ _ _, None) false HeaderDemo.demo_request demo_failsafe "/eth/v1/node/version"
             (classifyHistoricalTarget "/eth/v1/node/version") false 1024 in
  (h_result s0 = None → ∃ ev, (∀ now, ev ≠ HCtx now) ∧ (hedge_measure (step s0 ev) < hedge_measure s0)%nat).
Proof.
  destruct (hedge_terminates (λ _ _, true) (λ _ _, None) false HeaderDemo.demo_request demo_failsafe "/eth/v1/node/version"
    (classifyHistoricalTarget "/eth/v1/node/version") false 1024 [] (λ _, 0) ∅ 1 demo_hedge ["a"; "b"] ""
    (demo_world [demo_io 200; demo_io 200]) [] ltac:(by vm_compute) ltac:(done) (demo_world_holds _)) as (s0 & E & _ & H).
  by exists s0.
Defined.
End HedgeDemo.
