(* ===== verification/HedgeContext.v ===== *)
(** * The contexts of hedged attempts

    [network/network.go], [executeHedgeFS]: every attempt runs under a context of its own, whose [cancel] is kept in
    the slice [cancels].  [cx_step] is [hedge_step] with the index of each attempt and with the calls of [cancelAll],
    [cancelAllExcept] and [wrapResponseBodyCancel].  Whatever the schedule, no context is cancelled before the
    function returns, and at that moment all are, but the one the returned body is read under: that one is
    handed to the body, whose first [Close] cancels it ([Bodies]). *)

From S2P Require Import Prelude GoStrings GoFloat Config CircuitBreaker ScoreTracker AutoTuner BlockCache.
From S2P Require Import Upstream Selector PoolOrder Pool PoolState Health MemoryStore Regexp Url CacheKey Paths Historical Session HeadWatcher Consensus Headers Exec Ownership ExecSafety ExecBounds Hedge.
#[local] Open Scope string_scope.
#[local] Open Scope Z_scope.

(** The contexts that [cancelAll] and [cancelAllExcept(keep)] cancel, when so many attempts were fired. *)
Definition cancelAll (fired : nat) : list nat := seq 0 fired.
Definition cancelAllExcept (keep fired : nat) : list nat := bfilter (λ i, negb (i =? keep)%nat) (seq 0 fired).

Section contexts.
Context `{RL : RateLib} `{NL : NetLib}.
Context (NewRequest_ok : string → string → bool) (gunzip : string → bool → option (string * bool)).
Context (gz : bool) (r : Inbound) (fs : FailsafeConfig) (apiPath : string) (target : HistoricalTarget)
  (archiveBiased : bool) (maxResponseBytes : Z).
Abbreviation step := (hedge_step NewRequest_ok gunzip gz r fs apiPath target archiveBiased maxResponseBytes).
Abbreviation receive := (hedge_receive apiPath target archiveBiased).
Abbreviation finish := (hedge_finish NewRequest_ok gunzip gz r fs apiPath target maxResponseBytes).
Abbreviation loop_check := (hedge_loop_check NewRequest_ok gunzip gz r fs apiPath target maxResponseBytes).
Implicit Types s : hedge_state (RL := RL).

(** [cx_pending] and [cx_chan] are the indices [idx] of the attempts in [h_pending] and [h_chan]; [cx_wrapped] is the
    context whose [cancel] went into the body of the returned response. *)
Record ctx_state := {
  cx_s : hedge_state (RL := RL);
  cx_pending : list nat;
  cx_chan : list nat;
  cx_cancelled : list nat;
  cx_wrapped : option nat;
}.
Implicit Types c : ctx_state.

Definition cx_init s : ctx_state := {| cx_s := s; cx_pending := [0%nat]; cx_chan := []; cx_cancelled := []; cx_wrapped := None |}.

(** The next result ends the race. *)
Definition race_won s : option (exec_error + Exec) :=
  match h_chan s with res :: rest => h_result (receive res (take_result s rest)) | [] => None end.

(** Receiving the result of attempt [idx]. *)
Definition cx_receive (now : Z) (idx : nat) (rest : list nat) c : ctx_state :=
  let s := cx_s c in
  let s' := step s (HRecv now) in
  let '(cancelled, wrapped) :=
    match race_won s, h_result s' with
    | Some _, _ => (cancelAllExcept idx (h_fired s), Some idx)
    | None, Some _ => (cancelAll (h_fired s), None)
    | None, None => (cx_cancelled c, cx_wrapped c)
    end in
  {| cx_s := s'; cx_pending := cx_pending c; cx_chan := rest; cx_cancelled := cancelled; cx_wrapped := wrapped |}.

Definition cx_step c (ev : hedge_event) : ctx_state :=
  let s := cx_s c in
  let same pending chan := {| cx_s := step s ev; cx_pending := pending; cx_chan := chan; cx_cancelled := cx_cancelled c; cx_wrapped := cx_wrapped c |} in
  match ev, h_result s with
  | HRun k, _ =>
      match cx_pending c !! k with
      | Some idx => same (delete k (cx_pending c)) (cx_chan c ++ [idx])%list
      | None => same (cx_pending c) (cx_chan c)
      end
  | HRecv now, None =>
      match cx_chan c with
      | [] => same (cx_pending c) []
      | idx :: rest => cx_receive now idx rest c
      end
  | HTimer, None =>
      if (h_fired s <? h_maxFire s)%nat then same (cx_pending c ++ [h_fired s])%list (cx_chan c) else same (cx_pending c) (cx_chan c)
  | HCtx now, None =>
      {| cx_s := step s ev; cx_pending := cx_pending c; cx_chan := cx_chan c; cx_cancelled := cancelAll (h_fired s); cx_wrapped := None |}
  | HDrain now, Some _ =>
      if (0 <? h_drain s)%nat then same (cx_pending c) (tail (cx_chan c)) else same (cx_pending c) (cx_chan c)
  | _, _ => same (cx_pending c) (cx_chan c)
  end.

Definition cx_exec c (sched : list hedge_event) : ctx_state := foldl cx_step c sched.

(** The instrumented execution is the execution. *)
Lemma cx_step_erases c ev : cx_s (cx_step c ev) = step (cx_s c) ev.
Proof.
  unfold cx_step. cbv zeta. destruct ev as [k|now| |now|now].
  - destruct (h_result (cx_s c)), (cx_pending c !! k); done.
  - destruct (h_result (cx_s c)) eqn:E; [done|]. destruct (cx_chan c); [done|]. unfold cx_receive. cbv zeta.
    by destruct (race_won (cx_s c)), (h_result (step (cx_s c) (HRecv now))).
  - destruct (h_result (cx_s c)); [done|]. by destruct (_ <? _)%nat.
  - by destruct (h_result (cx_s c)).
  - destruct (h_result (cx_s c)); [|done]. by destruct (_ <? _)%nat.
Qed.

Lemma cx_exec_erases c sched :
  cx_s (cx_exec c sched) = hedge_exec NewRequest_ok gunzip gz r fs apiPath target archiveBiased maxResponseBytes (cx_s c) sched.
Proof.
  revert c. induction sched as [|ev sched IH]; intros c; [done|]. unfold cx_exec, hedge_exec in *. cbn [foldl].
  by rewrite IH, cx_step_erases.
Qed.

(** ** Invariant *)

(** The attempt [idx] is one for this upstream, and was fired. *)
Definition attempt_at s (idx : nat) (id : string) : Prop := h_ups s !! idx = Some id ∧ (idx < h_fired s)%nat.

(** What is cancelled and what is left to the body. *)
Definition contexts_settled s (cancelled : list nat) (wrapped : option nat) : Prop :=
  match h_result s with
  | None => cancelled = [] ∧ wrapped = None
  | Some res =>
      (cancelled = cancelAll (h_fired s) ∧ wrapped = None) ∨
      ∃ idx e, res = inr e ∧ attempt_at s idx (ex_uid e) ∧ cancelled = cancelAllExcept idx (h_fired s) ∧ wrapped = Some idx
  end.

Record cx_inv c : Prop := {
  cxi_pending : Forall2 (attempt_at (cx_s c)) (cx_pending c) (h_pending (cx_s c));
  cxi_chan : Forall2 (λ idx res, attempt_at (cx_s c) idx (hr_uid res)) (cx_chan c) (h_chan (cx_s c));
  cxi_range : (h_maxFire (cx_s c) <= length (h_ups (cx_s c)))%nat;
  cxi_settled : contexts_settled (cx_s c) (cx_cancelled c) (cx_wrapped c);
}.

(** What the handlers of a result leave as it is. *)
Definition same_attempts s s' : Prop :=
  h_ups s' = h_ups s ∧ h_fired s' = h_fired s ∧ h_maxFire s' = h_maxFire s ∧ h_pending s' = h_pending s ∧ h_chan s' = h_chan s.

Lemma receive_same res s : same_attempts s (receive res s).
Proof.
  unfold hedge_receive. cbv zeta. destruct (hr_res res) as [e|[h resp]].
  - destruct (isClientCancel _ _); [done|]. by case_bool_decide.
  - destruct (_ <? 500); [|done]. destruct (peekBodyForPruning _ _) as [[? ?] ?]. destruct (_ && isPruningError _ _ _); [|done].
    by destruct (h_pruning s).
Qed.

(** A received result ends the race with the response of its own upstream. *)
Lemma receive_result res s :
  h_result s = None → match h_result (receive res s) with None => True | Some x => ∃ e, x = inr e ∧ ex_uid e = hr_uid res end.
Proof.
  intros Hs. unfold hedge_receive. cbv zeta. destruct (hr_res res) as [e|[h resp]].
  - destruct (isClientCancel _ _); [by cbn; rewrite Hs|]. case_bool_decide; by cbn; rewrite Hs.
  - destruct (_ <? 500); [|by cbn; rewrite Hs]. destruct (peekBodyForPruning _ _) as [[? ?] resp'].
    destruct (_ && isPruningError _ _ _); [|cbn; eauto]. destruct (h_pruning s); by cbn; rewrite Hs.
Qed.

Lemma finish_same now s : same_attempts s (finish now s).
Proof.
  unfold hedge_finish. destruct (h_pruning s) as [p|]; [|done]. destruct (readAndFinalizeResponseBody _ _) as [resp body]. cbv zeta.
  destruct (promoteToArchive _ _ _ _ _ _ _ _ _ _) as [w [?|?]]; [|done]. by destruct body.
Qed.

Lemma loop_check_same now s : same_attempts s (loop_check now s).
Proof. unfold hedge_loop_check. destruct (h_result s); [done|]. destruct (_ || _); [done|apply finish_same]. Qed.

(** Facts about attempts survive what leaves the attempts as they are, and firing one more. *)
Lemma attempt_at_mono s s' idx id :
  h_ups s' = h_ups s → (h_fired s <= h_fired s')%nat → attempt_at s idx id → attempt_at s' idx id.
Proof. intros Hu Hf [H1 H2]. split; [by rewrite Hu|lia]. Qed.

Lemma pending_mono s s' l ids :
  h_ups s' = h_ups s → (h_fired s <= h_fired s')%nat → Forall2 (attempt_at s) l ids → Forall2 (attempt_at s') l ids.
Proof. intros Hu Hf H. eapply Forall2_impl; [exact H|]. intros idx id. by apply attempt_at_mono. Qed.

Lemma chan_mono s s' l (rs : list hres) :
  h_ups s' = h_ups s → (h_fired s <= h_fired s')%nat →
  Forall2 (λ idx res, attempt_at s idx (hr_uid res)) l rs → Forall2 (λ idx res, attempt_at s' idx (hr_uid res)) l rs.
Proof. intros Hu Hf H. eapply Forall2_impl; [exact H|]. intros idx id. by apply attempt_at_mono. Qed.

Lemma settled_same s s' cancelled wrapped :
  h_ups s' = h_ups s → h_fired s' = h_fired s → h_result s' = h_result s →
  contexts_settled s cancelled wrapped → contexts_settled s' cancelled wrapped.
Proof. unfold contexts_settled, attempt_at. by intros -> -> ->. Qed.

Lemma Forall2_delete {A B} (P : A → B → Prop) k l l' : Forall2 P l l' → Forall2 P (delete k l) (delete k l').
Proof. intros H. revert k. induction H; intros [|k]; cbn; [constructor..|done|]. by constructor. Qed.

(** A goroutine runs. *)
Lemma run_cx_inv k c : cx_inv c → cx_inv (cx_step c (HRun k)).
Proof.
  intros [H1 H2 H3 H4]. unfold cx_step. cbv zeta. cbn [hedge_step].
  unfold hedge_run. destruct (cx_pending c !! k) as [idx|] eqn:Ei.
  - destruct (Forall2_lookup_l _ _ _ _ _ H1 Ei) as (id & Eid & Hid). rewrite Eid.
    destruct (forward _ _ _ _ _ _) as [[[o w] tok] res]. split; cbn.
    + by apply Forall2_delete.
    + apply Forall2_app; [done|]. by constructor.
    + done.
    + done.
  - destruct (h_pending (cx_s c) !! k) as [id|] eqn:Eid; [|by destruct (h_result (cx_s c))].
    destruct (Forall2_lookup_r _ _ _ _ _ H1 Eid) as (idx & Ei' & _). congruence.
Qed.

(** The main loop receives a result. *)
Lemma recv_cx_inv now c : cx_inv c → cx_inv (cx_step c (HRecv now)).
Proof.
  intros Hc. pose proof Hc as [H1 H2 H3 H4]. unfold cx_step. cbv zeta. cbn [hedge_step].
  destruct (h_result (cx_s c)) as [x|] eqn:Er; [by destruct c|].
  destruct (cx_chan c) as [|idx rest] eqn:Ec.
  { apply Forall2_nil_inv_l in H2. rewrite H2. split; cbn; rewrite ?H2; [done|constructor|done..]. }
  apply Forall2_cons_inv_l in H2 as (res & rest' & Hidx & Hrest & Ech).
  unfold cx_receive, race_won. cbv zeta. cbn [hedge_step]. rewrite Er, Ech.
  set (s1 := take_result (cx_s c) rest'). destruct (receive_same res s1) as (U1 & F1 & M1 & P1 & C1).
  pose proof (receive_result res s1 Er) as Hr. set (s2 := receive res s1) in *.
  destruct (loop_check_same now s2) as (U2 & F2 & M2 & P2 & C2). set (s3 := loop_check now s2) in *.
  assert (h_ups s3 = h_ups (cx_s c)) as U by (by rewrite U2, U1). assert (h_fired s3 = h_fired (cx_s c)) as F by (by rewrite F2, F1).
  assert (h_result s2 ≠ None → h_result s3 = h_result s2) as R by (intros Hn; subst s3; unfold hedge_loop_check; destruct (h_result s2) eqn:E'; congruence).
  assert (∀ cancelled wrapped, contexts_settled s3 cancelled wrapped →
    cx_inv {| cx_s := s3; cx_pending := cx_pending c; cx_chan := rest; cx_cancelled := cancelled; cx_wrapped := wrapped |}) as Hinv.
  { intros cancelled wrapped Hs. split; cbn; [| | |done].
    - rewrite P2, P1. apply (pending_mono (cx_s c)); [done|by rewrite F|done].
    - rewrite C2, C1. apply (chan_mono (cx_s c)); [done|by rewrite F|done].
    - rewrite M2, M1, U. done. }
  unfold contexts_settled in *. rewrite F, Er in *. destruct H4 as [-> ->].
  destruct (h_result s2) as [x|] eqn:E2.
  - apply Hinv. rewrite R by done. right. destruct Hr as (e & -> & He). exists idx, e. split_and!; [done| |done..].
    rewrite He. apply (attempt_at_mono (cx_s c)); [done|by rewrite F|done].
  - destruct (h_result s3); apply Hinv; [by left|done].
Qed.

(** The timer fires, the request ends, a result is drained. *)
Lemma other_cx_inv c ev : match ev with HTimer | HCtx _ | HDrain _ => True | _ => False end → cx_inv c → cx_inv (cx_step c ev).
Proof.
  intros Hev Hc. pose proof Hc as [H1 H2 H3 H4]. unfold cx_step. cbv zeta. destruct ev as [k|now| |now|now]; [done..| | |]; cbn [hedge_step].
  - destruct (h_result (cx_s c)) as [x|] eqn:Er; [by destruct c|]. destruct (Nat.ltb_spec (h_fired (cx_s c)) (h_maxFire (cx_s c))) as [Hlt|]; [|by destruct c].
    destruct (lookup_lt_is_Some_2 (h_ups (cx_s c)) (h_fired (cx_s c)) ltac:(lia)) as [id Eid]. unfold hedge_fire. rewrite Eid. split; cbn.
    + apply Forall2_app; [apply (pending_mono (cx_s c)); cbn; auto with lia|]. constructor; [|done]. split; cbn; [done|lia].
    + apply (chan_mono (cx_s c)); cbn; auto with lia.
    + done.
    + unfold contexts_settled in *. cbn. by rewrite Er in *.
  - destruct (h_result (cx_s c)) as [x|] eqn:Er; [by destruct c|]. split; cbn; [done..|]. left. done.
  - destruct (h_result (cx_s c)) as [x|] eqn:Er; [|by destruct c]. destruct (h_chan (cx_s c)) as [|res rest] eqn:Ech.
    + apply Forall2_nil_inv_r in H2. rewrite H2. destruct (_ <? _)%nat; split; cbn; rewrite ?H2, ?Ech; try done; constructor.
    + destruct (_ <? _)%nat; [|destruct c; by cbn in *]. apply Forall2_cons_inv_r in H2 as (idx & l & Hidx & Hl & ->).
      split; cbn; [done|done|done|]. by apply (settled_same (cx_s c)).
Qed.

Lemma cx_exec_inv c sched : cx_inv c → cx_inv (cx_exec c sched).
Proof.
  revert c. induction sched as [|ev sched IH]; intros c Hc; [done|]. unfold cx_exec in *. cbn [foldl]. apply IH.
  destruct ev; [by apply run_cx_inv|by apply recv_cx_inv|by apply other_cx_inv..].
Qed.

Lemma cx_init_inv now hedge ups preferID w :
  0 <= hg_MaxCount hedge → ups ≠ [] → ∃ s, hedge_init now hedge ups preferID w = Some s ∧ cx_inv (cx_init s).
Proof.
  intros Hm Hu. unfold hedge_init, hedge_fire. cbv zeta. cbn [h_ups h_fired].
  assert (0 < length ups)%nat as Hl by (destruct ups; [done|cbn; lia]).
  set (n := Z.min (hg_MaxCount hedge + 1) (Z.of_nat (length ups))).
  pose proof (ensurePreferred_length now (w_pool w) ups preferID n ltac:(lia)) as He.
  set (l := ensurePreferredUpstreamFirst _ _ _ _ _) in *. destruct (lookup_lt_is_Some_2 l 0%nat ltac:(lia)) as [id Eid]. rewrite Eid.
  eexists. split; [reflexivity|]. split; cbn; [|constructor|lia|done]. constructor; [|constructor]. split; cbn; [done|lia].
Qed.

Lemma elem_of_cancelAll i fired : i ∈ cancelAll fired ↔ (i < fired)%nat.
Proof. unfold cancelAll. rewrite elem_of_seq. lia. Qed.

Lemma elem_of_cancelAllExcept i keep fired : i ∈ cancelAllExcept keep fired ↔ (i < fired)%nat ∧ i ≠ keep.
Proof. unfold cancelAllExcept. rewrite elem_of_bfilter, elem_of_seq, negb_true_iff, Nat.eqb_neq. lia. Qed.

(** Before a hedged execution returns it cancels no attempt.  Once it has returned, the contexts of all the attempts it fired are
    cancelled but the one its response is read under, if that response won the race: the [cancel] of this one is in the body of the
    response, which is that attempt's upstream's. *)
Theorem hedge_contexts now hedge ups preferID w sched :
  0 <= hg_MaxCount hedge → ups ≠ [] →
  ∃ s0, hedge_init now hedge ups preferID w = Some s0 ∧
  let c := cx_exec (cx_init s0) sched in
  let s := hedge_exec NewRequest_ok gunzip gz r fs apiPath target archiveBiased maxResponseBytes s0 sched in
  (h_result s = None → cx_cancelled c = [] ∧ cx_wrapped c = None) ∧
  (h_result s ≠ None → ∀ idx, idx ∈ cx_cancelled c ↔ (idx < h_fired s)%nat ∧ cx_wrapped c ≠ Some idx) ∧
  (∀ idx, cx_wrapped c = Some idx → ∃ e, h_result s = Some (inr e) ∧ h_ups s !! idx = Some (ex_uid e) ∧ (idx < h_fired s)%nat).
Proof.
  intros Hm Hu. destruct (cx_init_inv now hedge ups preferID w Hm Hu) as (s0 & E0 & H0). exists s0. split; [done|]. cbv zeta.
  pose proof (cx_exec_inv _ sched H0) as [_ _ _ H]. pose proof (cx_exec_erases (cx_init s0) sched) as Es. cbn [cx_init cx_s] in Es. rewrite <- Es.
  set (c := cx_exec _ _) in *. clearbody c. unfold contexts_settled in H. destruct (h_result (cx_s c)) as [res|] eqn:Er.
  - split; [done|]. destruct H as [[-> ->]|(i & e & -> & [He Hi] & -> & ->)].
    + split; [|done]. intros _ idx. rewrite elem_of_cancelAll. naive_solver.
    + split; [|naive_solver]. intros _ idx. rewrite elem_of_cancelAllExcept. naive_solver.
  - destruct H as [-> ->]. done.
Qed.
End contexts.

Module ContextDemo.
Import ExecDemo BoundsDemo HedgeDemo.
#[local] Existing Instance DemoNet.

Definition demo_contexts (statuses : list Z) (sched : list hedge_event) : option (list nat * option nat) :=
  (λ s0, let c := cx_exec (λ _ _, true) (λ _ _, None) false HeaderDemo.demo_request demo_failsafe "/eth/v1/node/version"
            (classifyHistoricalTarget "/eth/v1/node/version") false 1024 (cx_init s0) sched in
         (cx_cancelled c, cx_wrapped c)) <$> hedge_init 1 demo_hedge ["a"; "b"] "" (demo_world (demo_io <$> statuses)).

(** The second attempt wins; both fail; the client goes away. *)
Lemma demo_contexts_settled :
  demo_contexts [200; 200] [HTimer; HRun 1; HRecv 3] = Some ([0%nat], Some 1%nat) ∧
  demo_contexts [503; 503] [HRun 0; HTimer; HRun 0; HRecv 3; HRecv 4] = Some ([0; 1]%nat, None) ∧
  demo_contexts [200; 200] [HTimer; HCtx 3] = Some ([0; 1]%nat, None).
Proof. by vm_compute. Qed.

Lemma hedge_contexts_witness :
  ∃ s0, hedge_init 1 demo_hedge ["a"; "b"] "" (demo_world [demo_io 200; demo_io 200]) = Some s0 ∧
  let sched := [HTimer; HRun 1; HRecv 3] in
  let c := cx_exec (λ _ _, true) (λ _ _, None) false HeaderDemo.demo_request demo_failsafe "/eth/v1/node/version"
             (classifyHistoricalTarget "/eth/v1/node/version") false 1024 (cx_init s0) sched in
  ∀ idx, cx_wrapped c = Some idx → h_ups (cx_s c) !! idx ≠ None.
Proof.
  destruct (hedge_contexts (λ _ _, true) (λ _ _, None) false HeaderDemo.demo_request demo_failsafe "/eth/v1/node/version"
    (classifyHistoricalTarget "/eth/v1/node/version") false 1024 1 demo_hedge ["a"; "b"] ""
    (demo_world [demo_io 200; demo_io 200]) [HTimer; HRun 1; HRecv 3] ltac:(by vm_compute) ltac:(done)) as (s0 & E & _ & _ & H).
  exists s0. split; [exact E|]. cbv zeta. intros idx Hi. rewrite cx_exec_erases. destruct (H idx Hi) as (e & _ & Hu & _).
  intros Hn. pose proof (eq_trans (eq_sym Hu) Hn) as Hx. discriminate Hx.
Defined.
End ContextDemo.
