(* ===== verification/Serve.v ===== *)
(** * Serving a request

    [network/network.go]: the [Network], its construction from a validated configuration ([New]), the
    synthetic health answers, and [ServeHTTP] with its guards, the cache, request multiplexing, the
    execution and the treatment of its result.

    The answer is the value [served]: a written response, a hand-over to the SSE relay
    ([SSE]), or nothing because the client is gone.  Metrics are in [Metrics], failures for the debug log in [FailureLog].  The
    cache is the in-memory one. *)

From S2P Require Import Prelude GoStrings GoFloat Config CircuitBreaker ScoreTracker AutoTuner BlockCache.
From S2P Require Import Upstream Selector PoolOrder Pool PoolState Health MemoryStore Regexp Cache ApiPath Url CacheKey Paths Historical Session HeadWatcher Consensus Routing ConfigFile Headers Exec Ownership ExecSafety ExecBounds Hedge.
#[local] Open Scope string_scope.
#[local] Open Scope Z_scope.

(** ** Answers *)

(** [http.Error] on the header [wh] of the response writer. *)
Definition http_Error (wh : Header) (status : Z) (msg : string) : Written :=
  {| wr_Status := status;
     wr_Header := hdr_set "X-Content-Type-Options" "nosniff"
                    (hdr_set "Content-Type" "text/plain; charset=utf-8" (hdr_del "Content-Length" wh));
     wr_Body := msg +:+ "
"; wr_gzip := false |}.

Inductive served :=
  | SWritten (w : Written)
  | SRelay (preferID : string) (required : Selector)
  | SGone
  | SWaiting
  | SPanic.

Definition HealthzStatus (hs : HealthStatus) : string * Z :=
  match hs with
  | HealthUp => ("ok", 200)
  | HealthDegraded => ("degraded", 200)
  | HealthDown => ("down", 503)
  end.

Definition quote : string := String (Ascii.ascii_of_nat 34) "".

(** The JSON text of [serveHealthz]; the status labels need no escaping. *)
Definition healthz_body (status : string) (total up degraded down : Z) : string :=
  "{" +:+ quote +:+ "status" +:+ quote +:+ ":" +:+ quote +:+ status +:+ quote +:+
  "," +:+ quote +:+ "upstreams" +:+ quote +:+ ":" +:+ Itoa total +:+
  "," +:+ quote +:+ "healthy" +:+ quote +:+ ":" +:+ Itoa up +:+
  "," +:+ quote +:+ "degraded" +:+ quote +:+ ":" +:+ Itoa degraded +:+
  "," +:+ quote +:+ "down" +:+ quote +:+ ":" +:+ Itoa down +:+ "}".

Definition maxRequestBody : Z := 32 * 2 ^ 20.

Section serve.
Context `{RL : RateLib} `{RX : RegexpLib} `{NL : NetLib}.

(** ** The network *)

Record compiledFailsafeOverride := { cfo_rule : pathMethodRule; cfo_failsafe : FailsafeConfig }.

Record Network := {
  n_id : string;
  n_chain : ChainConfig;
  n_stickySession : bool;
  n_failsafe : FailsafeConfig;
  n_rl : RateLimitingConfig;
  n_world : World RL;
  n_cache : option (Cache RX);
  n_sessions : option SessionManager;
  n_routing : option compiledRouting;
  n_blocked : list Regexp;
  n_globalLimiter : option limiter;
  n_failsafeOverrides : list compiledFailsafeOverride;
  n_consensus : option ConsensusPolicy;
  n_gzipEnabled : bool;
  n_maxResponseBytes : Z;
}.

Definition n_pool (n : Network) : Pool RL := w_pool (n_world n).

Definition set_world (w : World RL) (n : Network) : Network :=
  {| n_id := n_id n; n_chain := n_chain n; n_stickySession := n_stickySession n; n_failsafe := n_failsafe n;
     n_rl := n_rl n; n_world := w; n_cache := n_cache n; n_sessions := n_sessions n; n_routing := n_routing n;
     n_blocked := n_blocked n; n_globalLimiter := n_globalLimiter n; n_failsafeOverrides := n_failsafeOverrides n;
     n_consensus := n_consensus n; n_gzipEnabled := n_gzipEnabled n; n_maxResponseBytes := n_maxResponseBytes n |}.
Definition set_cache (c : option (Cache RX)) (n : Network) : Network :=
  {| n_id := n_id n; n_chain := n_chain n; n_stickySession := n_stickySession n; n_failsafe := n_failsafe n;
     n_rl := n_rl n; n_world := n_world n; n_cache := c; n_sessions := n_sessions n; n_routing := n_routing n;
     n_blocked := n_blocked n; n_globalLimiter := n_globalLimiter n; n_failsafeOverrides := n_failsafeOverrides n;
     n_consensus := n_consensus n; n_gzipEnabled := n_gzipEnabled n; n_maxResponseBytes := n_maxResponseBytes n |}.
Definition set_sessions (s : option SessionManager) (n : Network) : Network :=
  {| n_id := n_id n; n_chain := n_chain n; n_stickySession := n_stickySession n; n_failsafe := n_failsafe n;
     n_rl := n_rl n; n_world := n_world n; n_cache := n_cache n; n_sessions := s; n_routing := n_routing n;
     n_blocked := n_blocked n; n_globalLimiter := n_globalLimiter n; n_failsafeOverrides := n_failsafeOverrides n;
     n_consensus := n_consensus n; n_gzipEnabled := n_gzipEnabled n; n_maxResponseBytes := n_maxResponseBytes n |}.
Definition set_globalLimiter (l : option limiter) (n : Network) : Network :=
  {| n_id := n_id n; n_chain := n_chain n; n_stickySession := n_stickySession n; n_failsafe := n_failsafe n;
     n_rl := n_rl n; n_world := n_world n; n_cache := n_cache n; n_sessions := n_sessions n; n_routing := n_routing n;
     n_blocked := n_blocked n; n_globalLimiter := l; n_failsafeOverrides := n_failsafeOverrides n;
     n_consensus := n_consensus n; n_gzipEnabled := n_gzipEnabled n; n_maxResponseBytes := n_maxResponseBytes n |}.

(** A failsafe override whose pattern does not compile is skipped. *)
Definition compile_override (base : FailsafeConfig) (fo : FailsafeOverride) : option compiledFailsafeOverride :=
  match compilePathMethodRule (fo_PathPattern fo) (fo_Methods fo) with
  | None => None
  | Some rule => Some {| cfo_rule := rule; cfo_failsafe := mergeFailsafe base (fo_Failsafe fo) |}
  end.

Definition set_MaxBodyBytes (n : Z) (cp : ConsensusPolicy) : ConsensusPolicy :=
  {| cp_MaxParticipants := cp_MaxParticipants cp; cp_AgreementThreshold := cp_AgreementThreshold cp; cp_MaxBodyBytes := n |}.

(** [New]; [None] is an error. *)
Definition Network_New (now : Z) (cfg : NetworkConfig) (globalCfg : ConfigFile) : option Network :=
  let fs := EffectiveFailsafe (cf_Failsafe globalCfg) (nc_Failsafe cfg) in
  let rl := EffectiveRateLimiting (cf_RateLimiting globalCfg) (nc_RateLimiting cfg) in
  let health := EffectiveHealth (cf_Health globalCfg) (nc_Health cfg) in
  let routing := nc_Routing cfg in
  match NewPool now (nc_ID cfg) (nc_Upstreams cfg) routing health (fs_CircuitBreaker fs) with
  | None => None
  | Some pool =>
      let pool := SetChainTiming (nc_GenesisTime cfg) (nc_SecondsPerSlot cfg) (wrap64 (nc_SlotsPerEpoch cfg)) pool in
      match compileRouting routing with
      | None => None
      | Some cr =>
          match (if cc_Enabled (nc_Cache cfg)
                 then Some <$> Cache_New (cc_Policies (nc_Cache cfg)) (cc_MaxSize (nc_Cache cfg)) else Some None) with
          | None => None
          | Some cache =>
              Some {| n_id := nc_ID cfg;
                      n_chain := {| ch_GenesisTime := nc_GenesisTime cfg; ch_SecondsPerSlot := nc_SecondsPerSlot cfg |};
                      n_stickySession := ro_StickySession routing;
                      n_failsafe := fs; n_rl := rl;
                      n_world := {| w_pool := pool; w_next := 0; w_open := ∅; w_log := []; w_io := [] |};
                      n_cache := cache;
                      n_sessions :=
                        if bool_decide (is_Some (rl_PerIP rl)) || ro_StickySession routing then
                          Some (newSessionManager (match rl_PerIP rl with Some l => rl_Limit l | None => f64_zero end)
                                  (match rl_PerIP rl with Some l => rl_Burst l | None => 0 end) (ro_StickyTimeout routing))
                        else None;
                      n_routing := cr;
                      n_blocked := omap re_Compile (ro_BlockedPaths routing);
                      n_globalLimiter := (λ l, NewLimiter (rl_Limit l) (rl_Burst l)) <$> rl_Global rl;
                      n_failsafeOverrides := omap (compile_override fs) (nc_FailsafeOverrides cfg);
                      n_consensus := set_MaxBodyBytes (sv_MaxResponseBodyBytes (cf_Server globalCfg)) <$>
                                     NewConsensusPolicy (fs_Consensus fs);
                      n_gzipEnabled := GzipEnabled (cf_Server globalCfg);
                      n_maxResponseBytes := sv_MaxResponseBodyBytes (cf_Server globalCfg) |}
          end
      end
  end.

Definition Network_HealthStatus (n : Network) : HealthStatus :=
  NodeHealthStatus (n_pool n) {| sel_ID := ""; sel_ClientType := ""; sel_Glob := "" |}.

Definition serveHealthz (n : Network) (wh : Header) (clientUpstream : string) : Written :=
  let sel := ParseSelector clientUpstream in
  let '(total, up, degraded, down) := HealthCounts (n_pool n) sel in
  let '(status, code) := HealthzStatus (NodeHealthStatus (n_pool n) sel) in
  {| wr_Status := code; wr_Header := hdr_set "Content-Type" "application/json" wh;
     wr_Body := healthz_body status total up degraded down; wr_gzip := false |}.

Definition effectiveFailsafe (n : Network) (method path : string) : FailsafeConfig :=
  let m := ToUpper method in
  match find_first (λ fo, pm_matches (cfo_rule fo) m path) (n_failsafeOverrides n) with
  | Some fo => cfo_failsafe fo
  | None => n_failsafe n
  end.

(** ** What happens around a request *)

(** How the multiplexer treats a GET or HEAD: the caller leads, leads and its client leaves before the
    result (the detached execution goes on), shares the result of another caller, or leaves while waiting for it. *)
Inductive mux_role :=
  | MuxLead
  | MuxLeadGone
  | MuxFollow (res : exec_error + (Response * string * string))
  | MuxGone.

Record env := {
  ev_now : Z;
  ev_done : Z;
  ev_duration : Z;
  ev_trusted : option (list Prefix);
  ev_bodyErr : bool;
  ev_role : mux_role;
  ev_cios : list participant_io;
  ev_sched : list hedge_event;
  ev_cancel : bool;
}.

Context (NewRequest_ok : string → string → bool) (gunzip : string → bool → option (string * bool)) (sha : string → string)
  (escape : string → string) (ParseFloat : string → option float64).

(** ** Guards *)

Definition with_req (req : Request) (r : Inbound) : Inbound :=
  {| in_req := req; in_Host := in_Host r; in_RemoteAddr := in_RemoteAddr r; in_Body := in_Body r |}.

(** [sess.Allow()] and the other methods of the session of an address. *)
Definition on_session (ip : string) (s : Session) (n : Network) : Network :=
  set_sessions ((λ sm, sm_set (<[ip := s]> (sm_byIP sm)) sm) <$> n_sessions n) n.

(** Up to the session: an early answer, or the rule that matched and the session's address. *)
Definition guard_request (e : env) (wh : Header) (r : Inbound) (n : Network)
    : Network * (served + (string * bool * option string)) :=
  let req := in_req r in
  let path := url_Path (req_URL req) in
  if negb (isCleanPath path) then (n, inl (SWritten (http_Error wh 400 "invalid path")))
  else if existsb (λ pat, re_MatchString pat path) (n_blocked n)
  then (n, inl (SWritten (http_Error wh 403 "forbidden")))
  else
    let '(deny, ruleUpstream, ruleHit) := matchRouteRule (n_routing n) (req_Method req) path in
    if ruleHit && deny then (n, inl (SWritten (http_Error wh 403 "forbidden")))
    else
      let '(n, allowed) :=
        match n_globalLimiter n with
        | None => (n, true)
        | Some l => let '(ok, l) := lim_Allow l (ev_now e) in (set_globalLimiter (Some l) n, ok)
        end in
      if negb allowed
      then (n, inl (SWritten (http_Error (hdr_set "X-Ebeacon-Rate-Limited" "global" wh) 429 "rate limit exceeded")))
      else
        match n_sessions n with
        | None => (n, inr (ruleUpstream, ruleHit, None))
        | Some sm =>
            let ip := ClientIP (ev_trusted e) (req_Header req) (in_RemoteAddr r) in
            let '(sm, sess) := SessionManager_Get (ev_now e) ip sm in
            let n := set_sessions (Some sm) n in
            if bool_decide (is_Some (rl_PerIP (n_rl n))) then
              let '(sess, ok) := Session_Allow (ev_now e) sess in
              let n := on_session ip sess n in
              if negb ok
              then (n, inl (SWritten (http_Error (hdr_set "X-Ebeacon-Rate-Limited" "per-ip" wh) 429 "rate limit exceeded")))
              else (n, inr (ruleUpstream, ruleHit, Some ip))
            else (n, inr (ruleUpstream, ruleHit, Some ip))
        end.

Definition no_selector : Selector := {| sel_ID := ""; sel_ClientType := ""; sel_Glob := "" |}.

(** The preferred upstream, the required selector and the cache scope. *)
Definition route (n : Network) (req : Request) (clientUpstream ruleUpstream : string) (ruleHit : bool) (ip : option string)
    : string * Selector * string :=
  let directive := upstreamDirective req in
  if negb (String.eqb directive "") then
    let required := ParseSelector directive in
    let required :=
      if nonempty (sel_ID required) && IsKnownClientType (sel_ID required) &&
         HasMatching (n_pool n) (client_selector (ToLower (sel_ID required)))
      then client_selector (ToLower (sel_ID required)) else required in
    ("", required, Selector_String required)
  else if ruleHit && negb (String.eqb ruleUpstream "") then (ruleUpstream, no_selector, ruleUpstream)
  else if negb (String.eqb clientUpstream "") then
    let required := ParseSelector clientUpstream in ("", required, Selector_String required)
  else
    match ip, n_sessions n with
    | Some ip, Some sm =>
        if n_stickySession n
        then (match sm_byIP sm !! ip with Some s => StickyUpstream s | None => "" end, no_selector, "")
        else ("", no_selector, "")
    | _, _ => ("", no_selector, "")
    end.

(** ** Execution *)

(** An execution: over, still racing, or a panic; hedged attempts may be left to be drained. *)
Inductive run_result :=
  | RunDone (res : exec_error + Exec) (queue : list hres)
  | RunWaiting (s : hedge_state (RL := RL))
  | RunPanic.

Definition run_exec (e : env) (n : Network) (r : Inbound) (preferID : string) (required : Selector) (fs : FailsafeConfig)
    (apiPath : string) : World RL * run_result :=
  match executeFS NewRequest_ok gunzip sha (n_consensus n) (n_gzipEnabled n) (ev_now e) r preferID required fs apiPath
          (ev_cios e) (n_world n) with
  | (w, XDone res) => (w, RunDone res [])
  | (w, XHedge ups preferID target archiveBiased) =>
      match fs_Hedge fs with
      | None => (w, RunPanic)
      | Some hedge =>
          match hedge_init (ev_now e) hedge ups preferID w with
          | None => (w, RunPanic)
          | Some s =>
              let s := hedge_exec NewRequest_ok gunzip (n_gzipEnabled n) r fs apiPath target archiveBiased
                         (n_maxResponseBytes n) s (ev_sched e) in
              match h_result s with
              | None => (h_w s, RunWaiting s)
              | Some res => (h_w s, RunDone res (h_chan s))
              end
          end
      end
  end.

(** What the rest of the handler receives: the response, its upstream, its token, the body if it has
    been read, and its handle if it is still open. *)
Inductive outcome :=
  | OErr (e : exec_error)
  | OBodyErr
  | OOk (resp : Response) (uid : string) (tok : CBToken) (body : option string) (handle : option nat).

(** The leader's closure: execute, read, close, settle. *)
Definition lead (e : env) (n : Network) (r : Inbound) (preferID : string) (required : Selector) (fs : FailsafeConfig)
    (apiPath : string) : World RL * (served + outcome) * list hres :=
  match run_exec e n r preferID required fs apiPath with
  | (w, RunPanic) => (w, inl SPanic, [])
  | (w, RunWaiting s) => (w, inl SWaiting, h_chan s)
  | (w, RunDone (inl err) queue) => (w, inr (OErr err), queue)
  | (w, RunDone (inr x) queue) =>
      let '(resp, body) := readAndFinalizeResponseBody (ex_resp x) (n_maxResponseBytes n) in
      let w := close_opt (ex_handle x) w in
      match body with
      | None => (settle_token (ex_tok x) cbSettleFailure (ev_done e) w, inr OBodyErr, queue)
      | Some b =>
          (settle_token (ex_tok x) (if 500 <=? rs_Status resp then cbSettleFailure else cbSettleSuccess) (ev_done e) w,
           inr (OOk resp (ex_uid x) zero_token (Some b) None), queue)
      end
  end.

Definition multiplexed (method : string) : bool := String.eqb method "GET" || String.eqb method "HEAD".

Definition execute (e : env) (n : Network) (r : Inbound) (preferID : string) (required : Selector) (fs : FailsafeConfig)
    (apiPath : string) : World RL * (served + outcome) * list hres :=
  if multiplexed (req_Method (in_req r)) then
    match ev_role e with
    | MuxLead => lead e n r preferID required fs apiPath
    | MuxLeadGone =>
        match lead e n r preferID required fs apiPath with
        | (w, inr _, queue) => (w, inl SGone, queue)
        | res => res
        end
    | MuxFollow (inl err) => (n_world n, inr (OErr err), [])
    | MuxFollow (inr (resp, uid, body)) => (n_world n, inr (OOk resp uid zero_token (Some body) None), [])
    | MuxGone => (n_world n, inl SGone, [])
    end
  else
    match run_exec e n r preferID required fs apiPath with
    | (w, RunPanic) => (w, inl SPanic, [])
    | (w, RunWaiting s) => (w, inl SWaiting, h_chan s)
    | (w, RunDone (inl err) queue) => (w, inr (OErr err), queue)
    | (w, RunDone (inr x) queue) => (w, inr (OOk (ex_resp x) (ex_uid x) (ex_tok x) None (ex_handle x)), queue)
    end.

(** ** The result *)

Definition exec_failed (wh : Header) (e : exec_error) : Written :=
  match e with
  | XSelected _ _ => http_Error wh 503 "selected upstream unavailable"
  | _ => http_Error wh 502 "bad gateway"
  end.

(** Scores, rate tuning and the response after a body has been read. *)
Definition deliver (e : env) (wh : Header) (r : Inbound) (apiPath : string) (cache : option (string * Z)) (acceptBinary : bool)
    (resp : Response) (uid : string) (body : string) (n : Network) : Network * served :=
  let n :=
    match cache, n_cache n with
    | Some (key, policyTTL), Some c =>
        if (200 <=? rs_Status resp) && (rs_Status resp <? 300) && representationMatches acceptBinary (rs_Header resp) then
          let ttl := effectiveCacheTTL (n_pool n) (n_chain n) (ev_done e / Second) policyTTL (url_Path (req_URL (in_req r))) in
          set_cache (Some (Cache_Set (ev_done e) key (rs_Status resp) (rs_Header resp) body ttl c)) n
        else n
    | _, _ => n
    end in
  let w := n_world n in
  let w := if (rs_Status resp <? 500) && negb (shouldTreatStatusAsPathError apiPath (rs_Status resp))
           then on_upstream uid (RecordSuccessForPath apiPath (ev_duration e)) w
           else on_upstream uid (RecordScoreErrorForPath apiPath) w in
  let w := on_upstream uid (RecordResponseStatus (ev_done e) (rs_Status resp)) w in
  let n := set_world w n in
  let wh := hdr_set "X-Ebeacon-Upstream" (ObfuscateUpstreamID uid) wh in
  let ct := match ByID (n_pool n) uid with Some u => ClientType u | None => "" end in
  let wh := if negb (String.eqb ct "") && negb (String.eqb ct "unknown") then hdr_set "X-Ebeacon-Client-Type" ct wh else wh in
  let wh := copyEndToEndHeaders wh (rs_Header resp) in
  (n, SWritten (writeBody (n_gzipEnabled n) (req_Header (in_req r)) wh (rs_Status resp) (rs_Header resp) body)).

(** From the end of the execution on. *)
Definition conclude (e : env) (wh : Header) (r : Inbound) (apiPath : string) (ip : option string) (cache : option (string * Z))
    (acceptBinary : bool) (o : outcome) (n : Network) : Network * served :=
  match o with
  | OErr err => (n, SWritten (exec_failed wh err))
  | OBodyErr => (n, SWritten (http_Error wh 502 "bad gateway"))
  | OOk resp uid tok buffered handle =>
      let n :=
        match ip, n_sessions n with
        | Some ip, Some sm =>
            if n_stickySession n then
              match sm_byIP sm !! ip with Some s => on_session ip (SetSticky uid s) n | None => n end
            else n
        | _, _ => n
        end in
      let '(resp, body) :=
        match buffered with
        | Some b => (resp, Some b)
        | None => readAndFinalizeResponseBody resp (n_maxResponseBytes n)
        end in
      match body with
      | None =>
          let w := if ev_cancel e then settle_token tok cbSettleRelease (ev_done e) (n_world n)
                   else recordUpstreamFailure uid tok apiPath (ev_done e) (n_world n) in
          (set_world (close_opt handle w) n, SWritten (http_Error wh 502 "bad gateway"))
      | Some b =>
          let w := settle_token tok (if 500 <=? rs_Status resp then cbSettleFailure else cbSettleSuccess) (ev_done e) (n_world n) in
          let '(n, s) := deliver e wh r apiPath cache acceptBinary resp uid b (set_world w n) in
          (set_world (close_opt handle (n_world n)) n, s)
      end
  end.

(** ** [ServeHTTP] *)

(** From the cache lookup on. *)
Definition serve_proxied (e : env) (wh : Header) (r : Inbound) (apiPath preferID : string) (required : Selector)
    (cacheScope : string) (ip : option string) (n : Network) : Network * served * list hres :=
  let req := in_req r in
  let path := url_Path (req_URL req) in
  let acceptBinary := acceptPrefersSSZ ParseFloat (hdr_get (req_Header req) "Accept") in
  let '(n, hit, cache) :=
    match n_cache n with
    | Some c =>
        if String.eqb (req_Method req) "GET" then
          match Cache_Policy c (req_Method req) path with
          | Some p =>
              let key := buildCacheKey ParseFloat (n_id n) req cacheScope in
              let '(c, entry) := Cache_Get (ev_now e) key c in
              (set_cache (Some c) n, entry, Some (key, policy_TTL p))
          | None => (n, None, None)
          end
        else (n, None, None)
    | None => (n, None, None)
    end in
  match hit with
  | Some entry =>
      let wh := hdr_set "X-Ebeacon-Cache" "HIT" (copyEndToEndHeaders wh (e_headers entry)) in
      (n, SWritten (writeBody (n_gzipEnabled n) (req_Header req) wh (e_status entry) (e_headers entry) (e_body entry)), [])
  | None =>
      if bool_decide (is_Some (in_Body r)) && ev_bodyErr e
      then (n, SWritten (http_Error wh 400 "failed to read request body"), [])
      else if maxRequestBody <? str_len (default "" (in_Body r))
      then (n, SWritten (http_Error wh 413 "request body too large"), [])
      else
        let fs := effectiveFailsafe n (req_Method req) path in
        match execute e n r preferID required fs apiPath with
        | (w, inl s, queue) => (set_world w n, s, queue)
        | (w, inr o, queue) =>
            let '(n, s) := conclude e wh r apiPath ip cache acceptBinary o (set_world w n) in (n, s, queue)
        end
  end.

(** The request after client-prefix rewriting. *)
Definition rewritten (n : Network) (r : Inbound) : Inbound * string :=
  let '(req, clientUpstream) := rewriteClientPath escape (n_routing n) (n_pool n) (in_req r) in (with_req req r, clientUpstream).

(** [wh] is the header map of the response writer; the list is what hedged attempts leave to be
    drained. *)
Definition ServeHTTP (e : env) (wh : Header) (r : Inbound) (n : Network) : Network * served * list hres :=
  let '(r, clientUpstream) := rewritten n r in
  let req := in_req r in
  let path := url_Path (req_URL req) in
  let apiPath := normalizeAPIPath path in
  if String.eqb path "/eth/v1/node/health" then
    let status := match NodeHealthStatus (n_pool n) (ParseSelector clientUpstream) with
                  | HealthUp => 200 | HealthDegraded => 206 | HealthDown => 503 end in
    (n, SWritten {| wr_Status := status; wr_Header := wh; wr_Body := ""; wr_gzip := false |}, [])
  else if String.eqb path "/healthz" then (n, SWritten (serveHealthz n wh clientUpstream), [])
  else
    match guard_request e wh r n with
    | (n, inl s) => (n, s, [])
    | (n, inr (ruleUpstream, ruleHit, ip)) =>
        let '(preferID, required, cacheScope) := route n req clientUpstream ruleUpstream ruleHit ip in
        if isEventStream req then (n, SRelay preferID required, [])
        else serve_proxied e wh r apiPath preferID required cacheScope ip n
    end.
End serve.
