(* ===== verification/ServeSafety.v ===== *)
(** * What serving a request guarantees

    The network's invariant ([Network_ok]) is established by [New] and preserved by every request;
    a request gives back every probe and every open body it took; refused requests
    are answered exactly as documented and touch no upstream. *)

From S2P Require Import Prelude GoStrings GoFloat Config CircuitBreaker ScoreTracker AutoTuner BlockCache.
From S2P Require Import Upstream Selector PoolOrder Pool PoolState Health MemoryStore Regexp Cache ApiPath Url CacheKey Paths Historical Session HeadWatcher Consensus Routing ConfigFile Headers Exec Ownership ExecSafety ExecBounds Hedge Serve.
#[local] Open Scope string_scope.
#[local] Open Scope Z_scope.

Section serve_safety.
Context `{RL : RateLib} `{RX : RegexpLib} `{NL : NetLib}.
Context (NewRequest_ok : string → string → bool) (gunzip : string → bool → option (string * bool)) (sha : string → string)
  (escape : string → string) (ParseFloat : string → option float64).
Implicit Types n : Network (RL := RL) (RX := RX).
Implicit Types w : World RL.

(** ** The invariant *)

Definition failsafe_sane (fs : FailsafeConfig) : Prop :=
  0 <= MaxAttempts fs ∧ ∀ hedge, fs_Hedge fs = Some hedge → 0 <= hg_MaxCount hedge.

Record Network_ok n : Prop := {
  ok_ids : NoDup (pool_ids (n_world n));
  ok_failsafe : failsafe_sane (n_failsafe n);
  ok_overrides fo : fo ∈ n_failsafeOverrides n → failsafe_sane (cfo_failsafe fo);
}.

Lemma effectiveFailsafe_sane n method path : Network_ok n → failsafe_sane (effectiveFailsafe n method path).
Proof.
  intros [_ H1 H2]. unfold effectiveFailsafe. cbv zeta. destruct (find_first _ _) as [fo|] eqn:E; [|done].
  apply H2. by apply find_first_Some in E as [? _].
Qed.

(** Networks that differ in their mutable parts only. *)
Definition same_static n n' : Prop :=
  n_failsafe n' = n_failsafe n ∧ n_failsafeOverrides n' = n_failsafeOverrides n.

Lemma Network_ok_static n n' :
  same_static n n' → pool_ids (n_world n') = pool_ids (n_world n) → Network_ok n → Network_ok n'.
Proof. intros [E1 E2] E3 [H1 H2 H3]. constructor; [by rewrite E3|by rewrite E1|by rewrite E2]. Qed.

(** ** Ownership *)

Context (F : list CBToken) (base : string → Z) (O : gmap nat string).
Abbreviation holds := (holding F base O).

(** Closing after settling. *)
Lemma holds_settle_close e l o now w :
  holds (e :: l) w → holds l (close_opt (ex_handle e) (settle_token (ex_tok e) o now w)).
Proof. intros H%(holds_settle _ _ _ _ _ o now). by apply (holds_drop _ _ _ (disarm e) _ cbSettleRelease now) in H. Qed.

Definition result_held (res : exec_error + Exec) : list Exec := match res with inl _ => [] | inr x => [x] end.

Lemma run_exec_spec e n r preferID required fs path :
  NoDup (pool_ids (n_world n)) → failsafe_sane fs → holds [] (n_world n) →
  let '(w, res) := run_exec NewRequest_ok gunzip sha e n r preferID required fs path in
  pool_ids w = pool_ids (n_world n) ∧
  match res with
  | RunDone res queue => holds (result_held res ++ (exec_of <$> queue))%list w
  | RunWaiting s => holds (in_hand s) w
  | RunPanic => False
  end.
Proof.
  intros Hnd [Hm Hh] Hw. unfold run_exec. set (w0 := n_world n) in *.
  pose proof (executeFS_finishes NewRequest_ok gunzip sha F base O (n_consensus n) (n_gzipEnabled n) (ev_now e) r preferID
    required fs path (ev_cios e) [] w0 Hnd Hw) as Hf.
  pose proof (executeFS_bounded NewRequest_ok gunzip sha (n_consensus n) (n_gzipEnabled n) (ev_now e) r preferID
    required fs path (ev_cios e) w0 Hnd Hm) as Hb.
  destruct (executeFS _ _ _ _ _ _ _ _ _ _ _ _ _) as [w [res|ups pid target biased]].
  - destruct Hb as (_ & ids & [Hp _] & _). split; [exact Hp|]. cbn. rewrite app_nil_r. by destruct res.
  - destruct Hb as ([Hp _] & hedge & Eh & Hl & _). rewrite Eh.
    assert (ups ≠ []) as Hu by (intros ->; cbn in Hl; lia).
    destruct (hedge_init_inv F base O (ev_now e) hedge ups pid w (Hh _ Eh) Hu Hf) as (s0 & E0 & H0 & _). rewrite E0.
    set (s := hedge_exec _ _ _ _ _ _ _ _ _ _ _).
    assert (pool_ids (h_w s) = pool_ids w0) as Hs.
    { subst s. rewrite hedge_exec_pool, (hedge_init_pool _ _ _ _ _ _ E0). done. }
    assert (hedge_inv F base O s) as [H1 _ _ H4 _] by (by apply hedge_exec_inv).
    clearbody s. destruct (h_result s) as [res|] eqn:Er; [|done].
    split; [done|]. unfold in_hand, returned in H1. rewrite Er, H4 in H1 by congruence.
    cbn [option_list app] in H1. by destruct res.
Qed.

(** What an outcome still holds. *)
Definition outcome_held (o : outcome) : list Exec :=
  match o with
  | OOk resp uid tok _ handle => [{| ex_handle := handle; ex_resp := resp; ex_uid := uid; ex_tok := tok |}]
  | _ => []
  end.

Definition answered (w0 : World RL) (wrq : World RL * (served + outcome) * list hres) : Prop :=
  let '(w, res, queue) := wrq in
  pool_ids w = pool_ids w0 ∧
  match res with
  | inl s => s ≠ SPanic ∧ (s ≠ SWaiting → holds (exec_of <$> queue) w)
  | inr o => holds (outcome_held o ++ (exec_of <$> queue))%list w
  end.

Lemma lead_spec e n r preferID required fs path :
  NoDup (pool_ids (n_world n)) → failsafe_sane fs → holds [] (n_world n) →
  answered (n_world n) (lead NewRequest_ok gunzip sha e n r preferID required fs path) ∧
  ∀ w o queue, lead NewRequest_ok gunzip sha e n r preferID required fs path = (w, inr o, queue) → holds (exec_of <$> queue) w.
Proof.
  intros Hnd Hfs Hw. pose proof (run_exec_spec e n r preferID required fs path Hnd Hfs Hw) as Hr. unfold lead.
  destruct (run_exec _ _ _ _ _ _ _ _ _ _) as [w [[err|x] queue|s|]]; destruct Hr as [Hp Hr]; [| | |done].
  - split; [by split|]. by intros w' o q [= <- <- <-].
  - cbn [result_held app] in Hr.
    destruct (readAndFinalizeResponseBody _ _) as [resp [b|]];
      (split; [split; [|]|intros w' o q [= <- <- <-]; by apply holds_drop]); cbn [outcome_held app].
    + rewrite (proj1 (quiet_settle _ _ _ _)). rewrite <- Hp. destruct (ex_handle x); [apply quiet_close|done].
    + apply holds_skip; [done|done|]. by apply holds_drop.
    + rewrite (proj1 (quiet_settle _ _ _ _)). rewrite <- Hp. destruct (ex_handle x); [apply quiet_close|done].
    + by apply holds_drop.
  - split; [by split; [|split]|done].
Qed.

Lemma execute_spec e n r preferID required fs path :
  NoDup (pool_ids (n_world n)) → failsafe_sane fs → holds [] (n_world n) →
  answered (n_world n) (execute NewRequest_ok gunzip sha e n r preferID required fs path).
Proof.
  intros Hnd Hfs Hw. unfold execute. destruct (multiplexed _).
  - destruct (lead_spec e n r preferID required fs path Hnd Hfs Hw) as [Hl Hq].
    destruct (ev_role e) as [| |[err|[[resp uid] body]]|]; [done| |by split|split; [done|by apply holds_skip]|by split; [|split]].
    destruct (lead _ _ _ _ _ _ _ _ _ _) as [[w [s|o]] queue]; [done|]. destruct Hl as [Hp _].
    split; [done|]. split; [done|]. intros _. by eapply Hq.
  - pose proof (run_exec_spec e n r preferID required fs path Hnd Hfs Hw) as Hr.
    destruct (run_exec _ _ _ _ _ _ _ _ _ _) as [w [[err|x] queue|s|]]; destruct Hr as [Hp Hr].
    + by split.
    + split; [done|]. by destruct x.
    + by split; [|split].
    + done.
Qed.

(** A step that ends the request: nothing but the queue is held afterwards. *)
Definition concluded n (queue : list hres) (ns : Network * served) : Prop :=
  same_static n ns.1 ∧ pool_ids (n_world ns.1) = pool_ids (n_world n) ∧ ns.2 ≠ SPanic ∧ ns.2 ≠ SWaiting ∧
  holds (exec_of <$> queue) (n_world ns.1).

Lemma deliver_spec e wh r path cache acceptBinary resp uid body l n :
  holds l (n_world n) →
  let '(n', s) := deliver e wh r path cache acceptBinary resp uid body n in
  same_static n n' ∧ pool_ids (n_world n') = pool_ids (n_world n) ∧ holds l (n_world n') ∧ ∃ wr, s = SWritten wr.
Proof.
  intros H. unfold deliver. cbv zeta. set (n1 := match cache with None => n | Some _ => _ end).
  assert (same_static n n1 ∧ n_world n1 = n_world n) as [Hs Hw].
  { subst n1. destruct cache as [[key ttl]|], (n_cache n); try done. by destruct (_ && _ && _). }
  clearbody n1. rewrite <- Hw in *. split_and!; [done| | |by eexists].
  - cbn [n_world set_world]. rewrite (proj1 (quiet_neutral _ _ _ (neutral_status _ _))).
    destruct (_ && _); apply quiet_neutral; [apply neutral_success|apply neutral_score].
  - cbn [n_world set_world]. apply holds_update; [apply neutral_status|].
    destruct (_ && _); (apply holds_update; [|done]); [apply neutral_success|apply neutral_score].
Qed.

Lemma conclude_spec e wh r path ip cache acceptBinary o queue n :
  holds (outcome_held o ++ (exec_of <$> queue))%list (n_world n) →
  concluded n queue (conclude e wh r path ip cache acceptBinary o n).
Proof.
  intros H. destruct o as [err| |resp uid tok buffered handle]; [by split_and!..|]. cbn [conclude outcome_held app] in *.
  set (n1 := match ip with Some _ => _ | None => n end).
  assert (same_static n n1 ∧ n_world n1 = n_world n) as [Hs Hw].
  { subst n1. destruct ip, (n_sessions n); try done. destruct (n_stickySession n); [|done]. by destruct (_ !! _). }
  assert (∀ ns, concluded n1 queue ns → concluded n queue ns) as Hback.
  { intros ns ([E1 E2] & E3 & Hr). split; [by split; [rewrite E1|rewrite E2]; apply Hs|]. rewrite <- Hw. done. }
  apply Hback. clear Hback. rewrite <- Hw in H. clear Hs Hw. clearbody n1.
  set (x := {| ex_handle := handle; ex_resp := resp; ex_uid := uid; ex_tok := tok |}) in *.
  destruct (match buffered with Some _ => _ | None => _ end) as [resp' [b|]].
  - set (o := if 500 <=? _ then _ else _).
    pose proof (deliver_spec e wh r path cache acceptBinary resp' uid b _
      (set_world (settle_token tok o (ev_done e) (n_world n1)) n1) (holds_settle _ _ _ x _ o (ev_done e) _ H)) as Hd.
    destruct (deliver _ _ _ _ _ _ _ _ _ _) as [n2 s]. destruct Hd as (Hs & Hp & Hh & wr & ->). cbn [n_world set_world] in Hp.
    split_and!; cbn [fst snd]; [exact Hs| |done|done|].
    + cbn [n_world set_world]. transitivity (pool_ids (n_world n2)); [destruct handle; [apply quiet_close|done]|].
      rewrite Hp. apply quiet_settle.
    + cbn [n_world set_world]. by apply (holds_drop _ _ _ (disarm x) _ cbSettleRelease 0) in Hh.
  - split_and!; cbn [fst snd n_world set_world]; [done| |done|done|].
    + transitivity (pool_ids (if ev_cancel e then settle_token tok cbSettleRelease (ev_done e) (n_world n1)
                   else recordUpstreamFailure uid tok path (ev_done e) (n_world n1))).
      * destruct handle; [apply quiet_close|done].
      * destruct (ev_cancel e); [apply quiet_settle|apply quiet_failure].
    + destruct (ev_cancel e); [by apply (holds_settle_close x)|]. unfold recordUpstreamFailure.
      apply (holds_settle _ _ _ _ _ cbSettleFailure (ev_done e)) in H.
      apply (holds_update _ _ _ _ _ uid _ (neutral_score path)) in H.
      by apply (holds_drop _ _ _ (disarm x) _ cbSettleRelease 0) in H.
Qed.

(** ** The guards *)

Lemma guard_request_spec e wh r n :
  let '(n', res) := guard_request e wh r n in
  same_static n n' ∧ n_world n' = n_world n ∧ n_cache n' = n_cache n ∧
  match res with inl s => ∃ wr, s = SWritten wr | inr _ => True end.
Proof.
  unfold guard_request. cbv zeta. destruct (negb _); [by split_and!; eauto|]. destruct (existsb _ _); [by split_and!; eauto|].
  destruct (matchRouteRule _ _ _) as [[deny up] hit]. destruct (hit && deny); [by split_and!; eauto|].
  set (na := match n_globalLimiter n with None => _ | Some _ => _ end).
  assert (same_static n na.1 ∧ n_world na.1 = n_world n ∧ n_cache na.1 = n_cache n) as H.
  { subst na. destruct (n_globalLimiter n); [|done]. by destruct (lim_Allow _ _). }
  destruct na as [n1 allowed]. cbn [fst] in H. destruct H as (Hs & Hw & Hc). destruct (negb allowed); [by split_and!; eauto|].
  destruct (n_sessions n1) as [sm|]; [|done]. destruct (SessionManager_Get _ _ _) as [sm' sess].
  case_bool_decide; [|done]. destruct (Session_Allow _ _) as [sess' ok]. destruct (negb ok); by split_and!; eauto.
Qed.

Lemma drain_all now queue l w :
  holds ((exec_of <$> queue) ++ l)%list w → holds l (foldl (λ w res, dropBuffered now (Some (exec_of res)) w) w queue).
Proof.
  revert w. induction queue as [|res queue IH]; intros w H; [done|]. cbn [foldl]. apply IH.
  by apply (holds_dropBuffered _ _ _ now (Some (exec_of res))).
Qed.

(** An answered request. *)
Definition no_leak n (nsq : Network * served * list hres) : Prop :=
  let '(n', s, queue) := nsq in
  same_static n n' ∧ pool_ids (n_world n') = pool_ids (n_world n) ∧ s ≠ SPanic ∧
  (s ≠ SWaiting → holds (exec_of <$> queue) (n_world n')).

Lemma no_leak_written n n' wr : same_static n n' → n_world n' = n_world n → holds [] (n_world n) → no_leak n (n', SWritten wr, []).
Proof. intros Hs Hw H. split_and!; [done|by rewrite Hw|done|]. intros _. by rewrite Hw. Qed.

Lemma serve_proxied_no_leak e wh r path preferID required scope ip n :
  Network_ok n → holds [] (n_world n) →
  no_leak n (serve_proxied NewRequest_ok gunzip sha ParseFloat e wh r path preferID required scope ip n).
Proof.
  intros Hok Hw. unfold serve_proxied. cbv zeta.
  set (nhc := match n_cache n with Some _ => _ | None => _ end).
  assert (same_static n nhc.1.1 ∧ n_world nhc.1.1 = n_world n) as [Hs Hn].
  { subst nhc. destruct (n_cache n); [|done]. destruct (String.eqb _ _); [|done]. destruct (Cache_Policy _ _ _); [|done].
    by destruct (Cache_Get _ _ _). }
  destruct nhc as [[n1 hit] cache]. cbn [fst] in Hs, Hn. destruct hit as [entry|]; [by apply no_leak_written|].
  destruct (_ && _); [by apply no_leak_written|]. destruct (_ <? _); [by apply no_leak_written|].
  assert (Network_ok n1) as Hok1 by (eapply Network_ok_static; [done|by rewrite Hn|done]).
  set (fs := effectiveFailsafe _ _ _). assert (failsafe_sane fs) as Hfs by (by apply effectiveFailsafe_sane).
  rewrite <- Hn in Hw. pose proof (execute_spec e n1 r preferID required fs path (ok_ids _ Hok1) Hfs Hw) as He.
  destruct (execute _ _ _ _ _ _ _ _ _ _) as [[w [s|o]] queue]; destruct He as [Hp He].
  - split_and!; [exact Hs|by rewrite <- Hn|apply He|apply He].
  - pose proof (conclude_spec e wh r path ip cache (acceptPrefersSSZ ParseFloat (hdr_get (req_Header (in_req r)) "Accept")) o queue (set_world w n1) He) as Hc.
    destruct (conclude _ _ _ _ _ _ _ _ _) as [n2 s]. destruct Hc as ([E1 E2] & E3 & E4 & E5 & E6). cbn [fst snd n_world set_world] in *.
    split_and!; [split; [rewrite E1|rewrite E2]; apply Hs|by rewrite E3, Hp, Hn|done|done].
Qed.

(** ** Properties *)

Lemma ServeHTTP_gives_back e wh r n :
  Network_ok n → holds [] (n_world n) →
  let '(n', s, queue) := ServeHTTP NewRequest_ok gunzip sha escape ParseFloat e wh r n in
  Network_ok n' ∧ s ≠ SPanic ∧
  (s ≠ SWaiting →
   holds (exec_of <$> queue) (n_world n') ∧
   ∀ now, holds [] (foldl (λ w res, dropBuffered now (Some (exec_of res)) w) (n_world n') queue)).
Proof.
  intros Hok Hw. assert (no_leak n (ServeHTTP NewRequest_ok gunzip sha escape ParseFloat e wh r n)) as H.
  { unfold ServeHTTP. destruct (rewritten escape n r) as [r' cu]. cbv zeta.
    destruct (String.eqb _ _); [by apply no_leak_written|]. destruct (String.eqb _ _); [by apply no_leak_written|].
    pose proof (guard_request_spec e wh r' n) as Ha. destruct (guard_request e wh r' n) as [n1 [s|[[up hit] ip]]]; destruct Ha as (Hs & Hn & _ & Hr).
    { destruct Hr as [wr ->]. by apply no_leak_written. }
    destruct (route _ _ _ _ _ _) as [[pid required] scope].
    destruct (isEventStream _); [by split_and!; [|rewrite Hn| |rewrite Hn]|].
    rewrite <- Hn in Hw. assert (Network_ok n1) as Hok1 by (eapply Network_ok_static; [done|by rewrite Hn|done]).
    pose proof (serve_proxied_no_leak e wh r' (normalizeAPIPath (url_Path (req_URL (in_req r')))) pid required scope ip n1 Hok1 Hw) as H.
    destruct (serve_proxied _ _ _ _ _ _ _ _ _ _ _ _) as [[n2 s] queue]. destruct H as ([E1 E2] & E3 & E4).
    split_and!; [split; [rewrite E1|rewrite E2]; apply Hs|by rewrite E3, Hn|apply E4|apply E4]. }
  destruct (ServeHTTP _ _ _ _ _ _ _ _ _) as [[n' s] queue]. destruct H as (Hs & Hp & Hpan & Hh).
  split_and!; [by eapply Network_ok_static|done|]. intros Hwait. specialize (Hh Hwait). split; [done|].
  intros now. apply drain_all. by rewrite app_nil_r.
Qed.

(** C2: whatever the client sends, the upstreams answer and the schedule of hedged attempts
    does, a request that has been answered has given back every circuit-breaker probe and every
    open body it took (hedged attempts that lost are in the queue of the drainer, and draining it
    gives theirs back); the handler never panics, and the network's invariant is preserved, so
    the same holds for the next request. *)
Theorem ServeHTTP_no_leak e wh r n :
  Network_ok n → holds [] (n_world n) →
  let '(n', s, queue) := ServeHTTP NewRequest_ok gunzip sha escape ParseFloat e wh r n in
  Network_ok n' ∧ s ≠ SPanic ∧
  (s ≠ SWaiting →
   holds (exec_of <$> queue) (n_world n') ∧
   ∀ now, holds [] (foldl (λ w res, dropBuffered now (Some (exec_of res)) w) (n_world n') queue)).
Proof. apply ServeHTTP_gives_back. Qed.

(** ** Refusals *)

(** The path of a request passes the guards: clean, not blocked, not denied by a rule, and admitted by the
    global and the per-address limiter. *)
Definition path_admitted (r : Inbound) n : Prop :=
  let path := url_Path (req_URL (in_req r)) in
  isCleanPath path = true ∧ (∀ pat, pat ∈ n_blocked n → re_MatchString pat path = false) ∧
  (matchRouteRule (n_routing n) (req_Method (in_req r)) path).1.1 &&
    (matchRouteRule (n_routing n) (req_Method (in_req r)) path).2 = false.

Definition limits_admitted (e : env) (r : Inbound) n : Prop :=
  (∀ l, n_globalLimiter n = Some l → (lim_Allow l (ev_now e)).1 = true) ∧
  (∀ sm, n_sessions n = Some sm → is_Some (rl_PerIP (n_rl n)) →
     (Session_Allow (ev_now e)
        (SessionManager_Get (ev_now e) (ClientIP (ev_trusted e) (req_Header (in_req r)) (in_RemoteAddr r)) sm).2).2 = true).

Lemma existsb_blocked n path :
  existsb (λ pat, re_MatchString pat path) (n_blocked n) = false → ∀ pat, pat ∈ n_blocked n → re_MatchString pat path = false.
Proof.
  intros H pat Hp. destruct (re_MatchString pat path) eqn:E; [|done]. rewrite <- H. symmetry. apply existsb_exists. exists pat.
  by rewrite <- list_elem_of_In.
Qed.

Lemma guard_request_passes e wh r n n' x : guard_request e wh r n = (n', inr x) → path_admitted r n ∧ limits_admitted e r n.
Proof.
  unfold guard_request, path_admitted, limits_admitted. cbv zeta. destruct (isCleanPath _); [|done]. cbn [negb].
  destruct (existsb _ _) eqn:Eb; [done|]. destruct (matchRouteRule _ _ _) as [[deny up] hit]. cbn [fst snd].
  destruct (hit && deny) eqn:Ed; [done|]. rewrite andb_comm in Ed. intros H.
  split; [by split_and!; [|apply existsb_blocked|]|]. revert H.
  set (na := match n_globalLimiter n with None => _ | Some _ => _ end).
  assert (n_sessions na.1 = n_sessions n ∧ n_rl na.1 = n_rl n ∧
          ∀ l, n_globalLimiter n = Some l → (lim_Allow l (ev_now e)).1 = na.2) as (E1 & E2 & E3).
  { subst na. destruct (n_globalLimiter n); [|done]. destruct (lim_Allow _ _) as [ok l'] eqn:El. split_and!; [done|done|].
    intros l0 [= <-]. by rewrite El. }
  destruct na as [n1 allowed]. cbn [fst snd] in *. destruct allowed; [|done]. cbn [negb]. rewrite E1. intros H.
  split; [done|]. intros sm Es. rewrite Es in H. destruct (SessionManager_Get _ _ _) as [sm' sess]. revert H.
  cbn [n_rl set_sessions snd]. rewrite E2. case_bool_decide as Ep; [|by intros _ ?].
  destruct (Session_Allow _ _) as [sess' ok]. by destruct ok.
Qed.

(** C15: a request that the guards refuse is answered exactly as documented and changes nothing: 400
    for an unclean path, then 403 for a blocked path, then 403 for a path a rule denies, in this
    order and without consuming a rate-limit token; and upstreams, breakers, scores and the
    response cache are touched only by a request whose path is clean, not blocked, not
    denied and within the global and the per-address limits. *)
Theorem ServeHTTP_guarded e wh r n :
  let '(r', _) := rewritten escape n r in
  let path := url_Path (req_URL (in_req r')) in
  let answer := ServeHTTP NewRequest_ok gunzip sha escape ParseFloat e wh r n in
  let '(deny, _, hit) := matchRouteRule (n_routing n) (req_Method (in_req r')) path in
  path ∉ ["/eth/v1/node/health"; "/healthz"] →
  (isCleanPath path = false → answer = (n, SWritten (http_Error wh 400 "invalid path"), [])) ∧
  (isCleanPath path = true → existsb (λ pat, re_MatchString pat path) (n_blocked n) = true →
     answer = (n, SWritten (http_Error wh 403 "forbidden"), [])) ∧
  (isCleanPath path = true → existsb (λ pat, re_MatchString pat path) (n_blocked n) = false → hit && deny = true →
     answer = (n, SWritten (http_Error wh 403 "forbidden"), [])) ∧
  (n_world answer.1.1 ≠ n_world n ∨ n_cache answer.1.1 ≠ n_cache n → path_admitted r' n ∧ limits_admitted e r' n).
Proof.
  unfold ServeHTTP. destruct (rewritten escape n r) as [r' cu]. cbv zeta.
  destruct (matchRouteRule _ _ _) as [[deny up] hit] eqn:Er. intros Hne.
  rewrite !not_elem_of_cons in Hne. destruct Hne as (H1 & H2 & _).
  rewrite (proj2 (String.eqb_neq _ _) H1), (proj2 (String.eqb_neq _ _) H2). split_and!.
  - intros Hc. unfold guard_request. cbv zeta. by rewrite Hc.
  - intros Hc Hb. unfold guard_request. cbv zeta. by rewrite Hc, Hb.
  - intros Hc Hb Hd. unfold guard_request. cbv zeta. by rewrite Hc, Hb, Er, Hd.
  - pose proof (guard_request_spec e wh r' n) as Ha. destruct (guard_request e wh r' n) as [n1 [s|x]] eqn:Ea.
    + destruct Ha as (_ & Hw & Hc & _). cbn [fst]. intros [?|?]; congruence.
    + intros _. by eapply guard_request_passes.
Qed.

(** ** The cache *)

Lemma writeBody_spec gz rh wh status hdr body :
  wr_Status (writeBody gz rh wh status hdr body) = status ∧ wr_Body (writeBody gz rh wh status hdr body) = body.
Proof. unfold writeBody. by destruct (writeBody_gzip _ _ _ _). Qed.

Lemma writeBody_header gz rh wh status hdr body k :
  CanonicalKey k ∉ ["Content-Encoding"; "Content-Length"] →
  hdr_get (wr_Header (writeBody gz rh wh status hdr body)) k = hdr_get wh k.
Proof.
  rewrite !not_elem_of_cons. intros (H1 & H2 & _). unfold writeBody. destruct (writeBody_gzip _ _ _ _); [|done].
  cbn [wr_Header]. unfold hdr_get, Header_Get, hdr_del, hdr_set. rewrite lookup_delete_ne, lookup_insert_ne; [done|..];
    intros Hx; [apply H1|apply H2]; by rewrite <- Hx.
Qed.

(** A hit. *)
Lemma serve_hit e wh r path preferID required scope ip n c p entry :
  n_cache n = Some c → req_Method (in_req r) = "GET" → Cache_Policy c "GET" (url_Path (req_URL (in_req r))) = Some p →
  (Cache_Get (ev_now e) (buildCacheKey ParseFloat (n_id n) (in_req r) scope) c).2 = Some entry →
  ∃ n2 wr2,
    serve_proxied NewRequest_ok gunzip sha ParseFloat e wh r path preferID required scope ip n = (n2, SWritten wr2, []) ∧
    n_world n2 = n_world n ∧ wr_Status wr2 = e_status entry ∧ wr_Body wr2 = e_body entry ∧
    hdr_get (wr_Header wr2) "X-Ebeacon-Cache" = "HIT".
Proof.
  intros Ec Em Ep Eg. unfold serve_proxied. cbv zeta. rewrite Ec, Em, Ep. destruct (Cache_Get _ _ _) as [c' o]. cbn [snd] in Eg.
  subst o. cbn [String.eqb]. eexists _, _. split; [reflexivity|]. split; [done|].
  split_and!; [apply writeBody_spec..|]. rewrite writeBody_header; [|apply (bool_decide_eq_true_1 _); by vm_compute].
  unfold hdr_get, Header_Get. by rewrite hdr_set_eq.
Qed.

(** What a delivery does to the cache. *)
Lemma deliver_stores e wh r path key policyTTL acceptBinary resp uid body n c :
  n_cache n = Some c → 200 <= rs_Status resp < 300 → representationMatches acceptBinary (rs_Header resp) = true →
  let '(n', s) := deliver e wh r path (Some (key, policyTTL)) acceptBinary resp uid body n in
  n_cache n' = Some (Cache_Set (ev_done e) key (rs_Status resp) (rs_Header resp) body
    (effectiveCacheTTL (n_pool n) (n_chain n) (ev_done e / Second) policyTTL (url_Path (req_URL (in_req r)))) c) ∧
  n_id n' = n_id n ∧ ∃ wr, s = SWritten wr ∧ wr_Status wr = rs_Status resp ∧ wr_Body wr = body.
Proof.
  intros Ec Hs Hr. unfold deliver. cbv zeta. rewrite Ec, Hr.
  rewrite (proj2 (Z.leb_le 200 _)), (proj2 (Z.ltb_lt _ 300)) by lia. cbn [andb].
  split; [done|]. split; [done|]. eexists. split; [reflexivity|]. apply writeBody_spec.
Qed.

(** C16: a successful GET response that was fetched and stored is the answer to the next such
    request: until its lifetime is over the handler repeats the stored status and body, marked as a hit,
    without contacting any upstream (pool, breakers, counters and log are untouched). *)
Theorem cached_response_roundtrip e wh r path preferID required scope ip n c p w resp uid tok b handle queue :
  n_cache n = Some c → ms_rep (c_store c) → in_Body r = None → req_Method (in_req r) = "GET" →
  Cache_Policy c "GET" (url_Path (req_URL (in_req r))) = Some p →
  let key := buildCacheKey ParseFloat (n_id n) (in_req r) scope in
  (Cache_Get (ev_now e) key c).2 = None →
  let n0 := set_cache (Some (Cache_Get (ev_now e) key c).1) n in
  execute NewRequest_ok gunzip sha e n0 r preferID required
    (effectiveFailsafe n0 "GET" (url_Path (req_URL (in_req r)))) path = (w, inr (OOk resp uid tok (Some b) handle), queue) →
  200 <= rs_Status resp < 300 →
  representationMatches (acceptPrefersSSZ ParseFloat (hdr_get (req_Header (in_req r)) "Accept")) (rs_Header resp) = true →
  let ttl := effectiveCacheTTL (w_pool (settle_token tok cbSettleSuccess (ev_done e) w)) (n_chain n) (ev_done e / Second)
               (policy_TTL p) (url_Path (req_URL (in_req r))) in
  ∃ n1 wr1,
    serve_proxied NewRequest_ok gunzip sha ParseFloat e wh r path preferID required scope ip n = (n1, SWritten wr1, queue) ∧
    wr_Status wr1 = rs_Status resp ∧ wr_Body wr1 = b ∧
    ∀ e2 wh2, (0 < ttl → ev_now e2 <= ev_done e + ttl) →
      ∃ n2 wr2,
        serve_proxied NewRequest_ok gunzip sha ParseFloat e2 wh2 r path preferID required scope ip n1 = (n2, SWritten wr2, []) ∧
        n_world n2 = n_world n1 ∧ wr_Status wr2 = rs_Status resp ∧ wr_Body wr2 = b ∧
        hdr_get (wr_Header wr2) "X-Ebeacon-Cache" = "HIT".
Proof.
  intros Ec Hrep Hb Em Ep key Eg n0 Ex Hs Hr ttl.
  set (c0 := (Cache_Get (ev_now e) key c).1) in *. assert (ms_rep (c_store c0)) as Hrep0 by (by apply Cache_Get_rep).
  set (ab := acceptPrefersSSZ _ _) in *. set (w1 := settle_token tok cbSettleSuccess (ev_done e) w) in *.
  set (n1 := match ip, n_sessions (set_world w n0) with
             | Some ip, Some sm => if n_stickySession (set_world w n0) then
                 match sm_byIP sm !! ip with Some s => on_session ip (SetSticky uid s) (set_world w n0) | None => set_world w n0 end
               else set_world w n0
             | _, _ => set_world w n0 end).
  assert (n_cache n1 = Some c0 ∧ n_id n1 = n_id n ∧ n_chain n1 = n_chain n ∧ n_world n1 = w) as (E1 & E2 & E3 & E4).
  { subst n1. destruct ip, (n_sessions (set_world w n0)); try done. destruct (n_stickySession _); [|done]. by destruct (_ !! _). }
  pose proof (deliver_stores e wh r path key (policy_TTL p) ab resp uid b (set_world w1 n1) c0 E1 Hs Hr) as Hd.
  destruct (deliver e wh r path _ ab resp uid b (set_world w1 n1)) as [nd s] eqn:Ed. destruct Hd as (Hc & Hi & wr & -> & Hw1 & Hw2).
  cbn [n_chain n_pool n_world set_world n_id w_pool] in Hc, Hi. change (n_pool (set_world w1 n1)) with (w_pool w1) in Hc.
  rewrite E3 in Hc. fold ttl in Hc.
  exists (set_world (close_opt handle (n_world nd)) nd), wr. split_and!; [|done|done|].
  - unfold serve_proxied. cbv zeta. rewrite Ec, Em, Ep. cbn [String.eqb Ascii.eqb Bool.eqb]. fold key ab.
    destruct (Cache_Get (ev_now e) key c) as [c0' o] eqn:Eg'. cbn [fst snd] in Eg, c0. subst o c0. rewrite Hb.
    cbn [default str_len]. rewrite bool_decide_eq_false_2 by (by intros [? ?]). cbn [andb].
    change (maxRequestBody <? _) with false. cbn iota. change (set_cache (Some c0') n) with n0.
    rewrite Ex. unfold conclude. cbn iota beta. fold n1. rewrite (proj2 (Z.leb_gt 500 _)) by lia. rewrite E4. fold w1. by rewrite Ed.
  - intros e2 wh2 Hlater.
    assert (c_policies c0 = c_policies c) as Epol by (subst c0; unfold Cache_Get; by destruct (MemoryStore_Get _ _ _)).
    destruct (serve_hit e2 wh2 r path preferID required scope ip (set_world (close_opt handle (n_world nd)) nd) _ p
      (new_entry (ev_done e) key (rs_Status resp) (rs_Header resp) b ttl) Hc Em) as (n2 & wr2 & H).
    { unfold Cache_Policy in *. cbn [c_policies Cache_Set set_store]. by rewrite Epol. }
    { cbn [n_id set_world]. rewrite Hi, E2. fold key. rewrite Cache_Set_then_Get by done.
      destruct (Z.ltb_spec 0 ttl) as [Hp|Hp]; [|done]. rewrite (proj2 (Z.ltb_ge _ _)) by (by apply Hlater). done. }
    by exists n2, wr2.
Qed.
End serve_safety.

(** ** Construction *)

Section construction.
Context `{RL : RateLib} `{RX : RegexpLib} `{NL : NetLib}.
Context (ParseURL : string → option (string * string)) (ExpandEnv : string → string).

Lemma NewPool_ids (p : Pool RL) now netID cfgs routing health cb :
  NewPool now netID cfgs routing health cb = Some p → u_ID <$> p_upstreams p = uc_ID <$> cfgs.
Proof.
  unfold NewPool. destruct cfgs as [|c0 cfgs]; [done|]. intros [= <-]. cbn. f_equal.
  induction cfgs as [|c1 cfgs IH]; [done|]. cbn. by f_equal.
Qed.

(** A new upstream holds nothing. *)
Lemma new_pool_holds (p : Pool RL) now netID cfgs routing health cb :
  NewPool now netID cfgs routing health cb = Some p →
  ∀ w, w_open w = ∅ → p_upstreams (w_pool w) = p_upstreams p → holding [] (λ _, 0) ∅ [] w.
Proof.
  unfold NewPool. destruct cfgs as [|c0 cfgs]; [done|]. intros [= <-] w Ho Hp. cbn [p_upstreams] in Hp.
  apply fresh_holds; [done|]. intros v Hv. rewrite Hp in Hv.
  change (v ∈ (λ c, Upstream_New now netID c cb (ro_ScoreWindowSize routing)) <$> c0 :: cfgs) in Hv.
  by apply list_elem_of_fmap in Hv as (c & -> & _).
Qed.

Lemma compileRouting_succeeds (cfg : RoutingConfig) :
  (∀ cr, cr ∈ ro_ClientRoutes cfg → TrimSpace (cr_PathPrefix cr) ≠ "") →
  (∀ rr, rr ∈ ro_RouteRules cfg → is_Some (re_Compile (rr_PathPattern rr))) → is_Some (compileRouting cfg).
Proof.
  intros H1 H2.
  assert (is_Some (mapM compile_client_route (ro_ClientRoutes cfg))) as [crs Ec].
  { apply mapM_is_Some_2, Forall_forall. intros cr Hcr. unfold compose, compile_client_route, normalizeClientPathPrefix.
    cbv zeta.
    rewrite (proj2 (String.eqb_neq _ _) (H1 cr Hcr)).
    destruct (HasPrefix _ "/"); cbn [negb]; (destruct (HasSuffix _ "/"); cbn [negb]); try by eexists.
    - specialize (H1 cr Hcr). destruct (TrimSpace (cr_PathPrefix cr)); [done|by eexists].
    - specialize (H1 cr Hcr). destruct (TrimSpace (cr_PathPrefix cr)); [done|by eexists]. }
  assert (is_Some (mapM compile_route_rule (ro_RouteRules cfg))) as [rules Er].
  { apply mapM_is_Some_2, Forall_forall. intros rr Hrr. unfold compose, compile_route_rule, compilePathMethodRule.
    destruct (H2 rr Hrr) as [re ->]. by eexists. }
  unfold compileRouting. rewrite Ec, Er. destruct (ro_ClientRoutes cfg), (ro_RouteRules cfg); by eexists.
Qed.

Lemma Cache_New_succeeds policies size :
  (∀ p, p ∈ defaultPolicies → is_Some (re_Compile (cp_Pattern p))) →
  (∀ p, p ∈ policies → is_Some (re_Compile (cp_Pattern p))) → is_Some (Cache_New policies size).
Proof.
  intros H1 H2. unfold Cache_New. cbv zeta. set (l := match policies with [] => _ | _ => _ end).
  assert (is_Some (mapM compile_policy l)) as [x ->]; [|by eexists].
  apply mapM_is_Some_2, Forall_forall. intros p Hp. unfold compose, compile_policy.
  assert (is_Some (re_Compile (cp_Pattern p))) as [re ->]; [|by eexists]. destruct policies; [by apply H1|by apply H2].
Qed.

(** Every network of a configuration that loads starts (given that the built-in cache
    patterns compile and no client prefix is blank, which the loader does not check), and starts in
    the invariant the request handler preserves, holding nothing; what the
    loader leaves open is the path overrides, whose merged budgets have to be non-negative. *)
Theorem loaded_network_starts now zero first rest c nc :
  Load ParseURL ExpandEnv zero first rest = inr c → nc ∈ cf_Networks c →
  (∀ p, p ∈ defaultPolicies → is_Some (re_Compile (cp_Pattern p))) →
  (∀ cr, cr ∈ ro_ClientRoutes (nc_Routing nc) → TrimSpace (cr_PathPrefix cr) ≠ "") →
  let fs := EffectiveFailsafe (cf_Failsafe c) (nc_Failsafe nc) in
  (∀ fo, fo ∈ nc_FailsafeOverrides nc → failsafe_sane (mergeFailsafe fs (fo_Failsafe fo))) →
  ∃ n, Network_New (RL := RL) now nc c = Some n ∧ Network_ok n ∧ holding [] (λ _, 0) ∅ [] (n_world n) ∧
    pool_ids (n_world n) = uc_ID <$> nc_Upstreams nc.
Proof.
  intros HL Hnc Hdef Hcr fs Hov. destruct (Load_networks ParseURL ExpandEnv zero first rest c HL) as (_ & _ & Hn).
  destruct (Hn nc Hnc) as [_ Hs]. unfold Network_New. cbv zeta. fold fs.
  destruct (NewPool now _ _ _ _ _) as [p|] eqn:Ep.
  2: { exfalso. apply (ns_upstreams _ _ Hs). unfold NewPool in Ep. by destruct (nc_Upstreams nc). }
  destruct (compileRouting_succeeds (nc_Routing nc) Hcr) as [cr Ecr]; [intros rr Hrr; by apply (ns_rules _ _ Hs)|]. rewrite Ecr.
  set (oc := if cc_Enabled _ then _ else _).
  assert (is_Some oc) as [cache ->].
  { subst oc. destruct (cc_Enabled _); [|by eexists].
    destruct (Cache_New_succeeds (cc_Policies (nc_Cache nc)) (cc_MaxSize (nc_Cache nc)) Hdef) as [x ->]; [|by eexists].
    intros q Hq. by apply (ns_cache _ _ Hs). }
  assert (u_ID <$> p_upstreams p = uc_ID <$> nc_Upstreams nc) as Hids.
  { by eapply NewPool_ids. }
  eexists. split; [reflexivity|]. split_and!.
  - constructor; cbn [n_world n_failsafe n_failsafeOverrides].
    + unfold pool_ids. cbn [w_pool SetChainTiming p_upstreams]. rewrite Hids. apply (ns_unique _ _ Hs).
    + destruct (ns_budget _ _ Hs) as [H1 H2]. split; [by apply Z.lt_le_incl|exact H2].
    + intros fo (fo0 & Hfo & Ec)%list_elem_of_omap. unfold compile_override in Ec.
      destruct (compilePathMethodRule _ _); [|done]. injection Ec as <-. by apply Hov.
  - by apply (new_pool_holds p now (nc_ID nc) (nc_Upstreams nc) (nc_Routing nc) (EffectiveHealth (cf_Health c) (nc_Health nc)) (fs_CircuitBreaker fs)).
  - exact Hids.
Qed.
End construction.

(** ** Witnesses *)

Module ServeDemo.
Import ExecDemo BoundsDemo.
#[local] Existing Instance DemoNet.

Lemma default_patterns p : p ∈ defaultPolicies → is_Some (re_Compile (RegexpLib := MiniRegexp) (cp_Pattern p)).
Proof.
  intros Hp. assert (forallb (λ p, match re_parse (cp_Pattern p) with Some _ => true | None => false end) defaultPolicies = true) as H
    by (vm_compute; reflexivity).
  rewrite forallb_forall in H. specialize (H p ltac:(by apply list_elem_of_In)). cbn. destruct (re_parse _); [by eexists|done].
Qed.

Lemma loaded_network_starts_witness :
  ∃ n, Network_New (RL := ToyRate) (RX := MiniRegexp) 0 (hd (ConfigDemo.demo_network []) (cf_Networks (ConfigDemo.demo_loaded [])))
    (ConfigDemo.demo_loaded []) = Some n ∧ pool_ids (n_world n) = ["node-1"].
Proof.
  set (nc := hd _ _).
  assert (Load (RX := MiniRegexp) ConfigDemo.demo_url id (ConfigDemo.demo_file []) (DVal (ConfigDemo.demo_file [])) [] =
          inr (ConfigDemo.demo_loaded [])) as E by (vm_compute; reflexivity).
  destruct (loaded_network_starts (RL := ToyRate) ConfigDemo.demo_url id 0 (ConfigDemo.demo_file []) (DVal (ConfigDemo.demo_file [])) []
    (ConfigDemo.demo_loaded []) nc E) as (n & En & _ & _ & Hi).
  - apply list_elem_of_singleton. reflexivity.
  - exact default_patterns.
  - intros cr Hcr. by apply not_elem_of_nil in Hcr.
  - intros fo Hfo. by apply not_elem_of_nil in Hfo.
  - exists n. split; [exact En|]. rewrite Hi. reflexivity.
Defined.

(** A network in front of the demonstration pool. *)
Definition demo_net : Network (RL := ToyRate) (RX := MiniRegexp) :=
  {| n_id := "mainnet"; n_chain := {| ch_GenesisTime := 0; ch_SecondsPerSlot := 12 |}; n_stickySession := false;
     n_failsafe := demo_failsafe; n_rl := {| rl_PerIP := None; rl_Global := None |};
     n_world := demo_world [demo_io 200];
     n_cache := Cache_New [default_policy "^/eth/v\d+/node/version$" (30 * Second)] 8;
     n_sessions := None; n_routing := None; n_blocked := omap re_parse ["^/eth/v1/validator"]; n_globalLimiter := None;
     n_failsafeOverrides := []; n_consensus := None; n_gzipEnabled := false; n_maxResponseBytes := 1024 |}.

Definition demo_env : env :=
  {| ev_now := 1; ev_done := 2; ev_duration := 1; ev_trusted := None; ev_bodyErr := false;
     ev_role := MuxFollow (inr ({| rs_Status := 200; rs_Header := list_to_map [("Content-Type", ["application/json"])];
       rs_content := "{}"; rs_readErr := false; rs_reqMethod := "GET" |}, "a", "{}"));
     ev_cios := []; ev_sched := []; ev_cancel := false |}.

Definition demo_lead : env :=
  {| ev_now := 1; ev_done := 2; ev_duration := 1; ev_trusted := None; ev_bodyErr := false;
     ev_role := MuxLead; ev_cios := []; ev_sched := []; ev_cancel := false |}.

Lemma demo_net_ok : Network_ok demo_net.
Proof.
  constructor; cbn [demo_net n_world n_failsafe n_failsafeOverrides]; [apply demo_world_ids|by split; [vm_compute|]|].
  intros fo Hfo. by apply not_elem_of_nil in Hfo.
Qed.

Lemma ServeHTTP_no_leak_witness :
  let '(n', s, _) := ServeHTTP (λ _ _, true) (λ _ _, None) id id toy_ParseFloat demo_lead ∅ HeaderDemo.demo_request demo_net in
  w_log (n_world n') = ["a"] ∧ s ≠ SPanic ∧ holding [] (λ _, 0) ∅ [] (n_world n').
Proof.
  pose proof (ServeHTTP_no_leak (λ _ _, true) (λ _ _, None) id id toy_ParseFloat [] (λ _, 0) ∅ demo_lead ∅ HeaderDemo.demo_request
    demo_net demo_net_ok (demo_world_holds _)) as H.
  assert (let '(n', s, q) := ServeHTTP (λ _ _, true) (λ _ _, None) id id toy_ParseFloat demo_lead ∅ HeaderDemo.demo_request demo_net in
    (w_log (n_world n'), length q, match s with SWritten _ => true | _ => false end) = (["a"], 0%nat, true)) as E
    by (vm_compute; reflexivity).
  destruct (ServeHTTP _ _ _ _ _ _ _ _ _) as [[n' s] [|? ?]]; [|discriminate E].
  destruct H as (_ & H1 & H2). split_and!; [by injection E|done|]. apply H2. by destruct s.
Defined.

(** A blocked path. *)
Definition demo_blocked : Inbound :=
  {| in_req := {| req_Method := "GET";
                  req_URL := {| url_Path := "/eth/v1/validator/duties"; url_EscapedPath := "/eth/v1/validator/duties"; url_RawQuery := "" |};
                  req_Header := ∅ |};
     in_Host := "proxy"; in_RemoteAddr := "10.0.0.1:99"; in_Body := None |}.

Lemma ServeHTTP_guarded_witness :
  ServeHTTP (λ _ _, true) (λ _ _, None) id id toy_ParseFloat demo_lead ∅ demo_blocked demo_net =
  (demo_net, SWritten (http_Error ∅ 403 "forbidden"), []).
Proof.
  pose proof (ServeHTTP_guarded (λ _ _, true) (λ _ _, None) id id toy_ParseFloat demo_lead ∅ demo_blocked demo_net) as H.
  destruct (rewritten id demo_net demo_blocked) as [r' cu] eqn:Er.
  assert (r' = demo_blocked) as -> by (vm_compute in Er; injection Er as <- _; reflexivity).
  cbn [matchRouteRule n_routing demo_net] in H. destruct H as (_ & H & _).
  - apply (bool_decide_eq_true_1 _). by vm_compute.
  - apply H; by vm_compute.
Defined.

Lemma is_Some_true {A} (o : option A) : match o with Some _ => true | None => false end = true → ∃ x, o = Some x.
Proof. destruct o; [by eexists|done]. Qed.

Lemma demo_policy :
  ∃ p, Cache_Policy (default {| c_store := NewMemoryStore 0; c_policies := [] |} (n_cache demo_net)) "GET" "/eth/v1/node/version" = Some p.
Proof. apply is_Some_true. vm_compute. reflexivity. Qed.

Lemma cached_response_roundtrip_witness :
  ∃ n1 wr1,
    serve_proxied (λ _ _, true) (λ _ _, None) id toy_ParseFloat demo_env ∅ HeaderDemo.demo_request "/eth/v1/node/version" ""
      no_selector "" None demo_net = (n1, SWritten wr1, []) ∧ wr_Body wr1 = "{}".
Proof.
  destruct demo_policy as [p Ep].
  destruct (cached_response_roundtrip (λ _ _, true) (λ _ _, None) id toy_ParseFloat demo_env ∅ HeaderDemo.demo_request
    "/eth/v1/node/version" "" no_selector "" None demo_net _ p (n_world demo_net)
    {| rs_Status := 200; rs_Header := list_to_map [("Content-Type", ["application/json"])];
       rs_content := "{}"; rs_readErr := false; rs_reqMethod := "GET" |} "a" zero_token "{}" None []
    eq_refl) as (n1 & wr1 & H1 & _ & H2 & _).
  - apply NewMemoryStore_rep.
  - reflexivity.
  - reflexivity.
  - exact Ep.
  - vm_compute. reflexivity.
  - reflexivity.
  - cbn. lia.
  - vm_compute. reflexivity.
  - exists n1, wr1. split; [exact H1|exact H2].
Defined.
End ServeDemo.
