(* ===== verification/Warm.v ===== *)
(** * Cache warming

    [network/head_cache.go]: when a head event has purged the responses for named identifiers, the
    keys are requested again from the upstream that announced the head, so that the next client finds
    them cached.  [populateCacheKey] reads the request back from the key and sends it through
    the same execution as a client's request.

    [url.Parse] of a reference that does not start with one slash is the argument [parseOther];
    keys that [buildCacheKey] makes of clean paths never get there. *)

From S2P Require Import Prelude GoStrings GoFloat Config CircuitBreaker ScoreTracker AutoTuner BlockCache.
From S2P Require Import Upstream Selector PoolOrder Pool PoolState Health MemoryStore Regexp Cache ApiPath Url CacheKey Paths Historical Session HeadWatcher Consensus Routing ConfigFile Headers Exec Ownership ExecSafety ExecBounds Hedge Serve ServeSafety.
From Stdlib Require Import Ascii.
#[local] Open Scope string_scope.
#[local] Open Scope Z_scope.

(** How warming one key ends: nothing to do, an error, a response that is not kept, a stored
    response; the execution still runs; a nil dereference. *)
Inductive warm_result := WSkipped | WFailed | WDiscarded | WStored | WWaiting | WPanic.

#[global] Instance warm_result_eq_dec : EqDecision warm_result.
Proof. solve_decision. Defined.

Section warm.
Context `{RL : RateLib} `{RX : RegexpLib} `{NL : NetLib}.
Context (NewRequest_ok : string → string → bool) (gunzip : string → bool → option (string * bool)) (sha : string → string)
  (ParseFloat : string → option float64) (parseOther : string → option URL).

Definition url_Parse (raw : string) : option URL :=
  if HasPrefix raw "/" && negb (HasPrefix raw "//") then
    (λ '(path, escaped, query), {| url_Path := path; url_EscapedPath := escaped; url_RawQuery := query |}) <$> parseRooted raw
  else parseOther raw.

Definition warm_request (method : string) (u : URL) (acceptBinary : bool) : Inbound :=
  {| in_req := {| req_Method := method; req_URL := u;
                  req_Header := if acceptBinary then hdr_set "Accept" "application/octet-stream" ∅ else ∅ |};
     in_Host := ""; in_RemoteAddr := ""; in_Body := None |}.

(** The preferred upstream and the required selector. *)
Definition warm_target (scope : string) (source : option string) : string * Selector :=
  if negb (String.eqb scope "") then ("", ParseSelector scope) else (default "" source, no_selector).

(** From the end of the execution on; the body is closed when the function returns. *)
Definition warm_conclude (e : env) (k : parsedCacheKey) (policyTTL : Z) (r : Inbound) (x : Exec) (c : Cache RX) (n : Network)
    : Network * warm_result :=
  let status := rs_Status (ex_resp x) in
  if (status <? 200) || (300 <=? status) then
    let w := settle_token (ex_tok x) (if 500 <=? status then cbSettleFailure else cbSettleRelease) (ev_done e) (n_world n) in
    (set_world (close_opt (ex_handle x) w) n, WDiscarded)
  else
    let '(resp, body) := readAndFinalizeResponseBody (ex_resp x) (n_maxResponseBytes n) in
    match body with
    | None =>
        let w := settle_token (ex_tok x) cbSettleFailure (ev_done e) (n_world n) in
        (set_world (close_opt (ex_handle x) w) n, WFailed)
    | Some b =>
        let w := settle_token (ex_tok x) cbSettleSuccess (ev_done e) (n_world n) in
        let n := set_world w n in
        if negb (representationMatches (ck_acceptBinary k) (rs_Header resp))
        then (set_world (close_opt (ex_handle x) w) n, WDiscarded)
        else
          let ttl := effectiveCacheTTL (n_pool n) (n_chain n) (ev_done e / Second) policyTTL (ck_path k) in
          let key := buildCacheKey ParseFloat (n_id n) (in_req r) (ck_scope k) in
          let c := Cache_Set (ev_done e) key (rs_Status resp) (rs_Header resp) b ttl c in
          (set_cache (Some c) (set_world (close_opt (ex_handle x) w) n), WStored)
    end.

Definition populateCacheKey (e : env) (key : string) (source : option string) (n : Network)
    : Network * warm_result * list hres :=
  match parseCacheKey key with
  | None => (n, WSkipped, [])
  | Some k =>
      if negb (String.eqb (ck_method k) "GET") || negb (pathHasNamedSlotID (ck_path k)) then (n, WSkipped, [])
      else
        match n_cache n with
        | None => (n, WPanic, [])
        | Some c =>
            match Cache_Policy c (ck_method k) (ck_path k) with
            | None => (n, WSkipped, [])
            | Some p =>
                match url_Parse (ck_pathQuery k) with
                | None => (n, WFailed, [])
                | Some u =>
                    let r := warm_request (ck_method k) u (ck_acceptBinary k) in
                    let '(preferID, required) := warm_target (ck_scope k) source in
                    match run_exec NewRequest_ok gunzip sha e n r preferID required
                            (effectiveFailsafe n (ck_method k) (ck_path k)) (normalizeAPIPath (ck_path k)) with
                    | (w, RunPanic) => (set_world w n, WPanic, [])
                    | (w, RunWaiting s) => (set_world w n, WWaiting, h_chan s)
                    | (w, RunDone (inl err) queue) => (set_world w n, WFailed, queue)
                    | (w, RunDone (inr x) queue) =>
                        let '(n, res) := warm_conclude e k (policy_TTL p) r x c (set_world w n) in (n, res, queue)
                    end
                end
            end
        end
  end.

(** The loop of [warmHeadCache] with the keys [seen] so far; a key whose execution still runs keeps
    the loop waiting.  [envs] is what each key meets, [queue] what earlier keys left to be drained. *)
Fixpoint warm_loop (envs : string → env) (source : option string) (seen keys : list string) (queue : list hres) (n : Network)
    : Network * list (string * warm_result) * list hres :=
  match keys with
  | [] => (n, [], queue)
  | key :: keys =>
      if bool_decide (key ∈ seen) then warm_loop envs source seen keys queue n
      else
        let '(n, res, q) := populateCacheKey (envs key) key source n in
        if bool_decide (res = WWaiting) then (n, [(key, res)], queue)
        else
          let '(n, results, q') := warm_loop envs source (key :: seen) keys (q ++ queue)%list n in
          (n, (key, res) :: results, q')
  end.

Definition warmHeadCache (envs : string → env) (source : option string) (keys : list string) (n : Network)
    : Network * list (string * warm_result) * list hres :=
  match n_cache n, keys with
  | None, _ => (n, [], [])
  | _, [] => (n, [], [])
  | _, _ => warm_loop envs source [] keys [] n
  end.
End warm.

(** ** What warming guarantees *)

Section warm_safety.
Context `{RL : RateLib} `{RX : RegexpLib} `{NL : NetLib}.
Context (NewRequest_ok : string → string → bool) (gunzip : string → bool → option (string * bool)) (sha : string → string)
  (ParseFloat : string → option float64) (parseOther : string → option URL).
Implicit Types n : Network (RL := RL) (RX := RX).
Abbreviation populate := (populateCacheKey NewRequest_ok gunzip sha ParseFloat parseOther).

Definition gave_up F base O (n : Network (RL := RL) (RX := RX)) (queue : list hres) : Prop :=
  holding F base O (exec_of <$> queue) (n_world n).

(** One key, whatever else is held. *)
Definition warmed F base O n (nrq : Network * warm_result * list hres) : Prop :=
  let '(n', res, queue) := nrq in
  same_static n n' ∧ pool_ids (n_world n') = pool_ids (n_world n) ∧ is_Some (n_cache n') ∧ res ≠ WPanic ∧
  (res ≠ WWaiting → gave_up F base O n' queue).

Lemma pool_close_settle x o now (w : World RL) :
  pool_ids (close_opt (ex_handle x) (settle_token (ex_tok x) o now w)) = pool_ids w.
Proof.
  transitivity (pool_ids (settle_token (ex_tok x) o now w)); [|apply quiet_settle].
  destruct (ex_handle x); [apply quiet_close|done].
Qed.

Lemma warm_conclude_spec F base O e k ttl r x queue c n :
  n_cache n = Some c → holding F base O (x :: (exec_of <$> queue)) (n_world n) →
  let '(n', res) := warm_conclude ParseFloat e k ttl r x c n in warmed F base O n (n', res, queue).
Proof.
  intros Ec H. unfold warm_conclude. cbv zeta.
  assert (∀ o res c', res ≠ WPanic → warmed F base O n
    (set_cache (Some c') (set_world (close_opt (ex_handle x) (settle_token (ex_tok x) o (ev_done e) (n_world n))) n), res, queue)) as Hk.
  { intros o res c' Hres. unfold warmed. split_and!; [done|apply pool_close_settle|by eexists|done|].
    intros _. by apply holds_settle_close. }
  assert (∀ n', n_cache n' = Some c → n' = set_cache (Some c) n') as Hid by (intros [] E; cbn in E; by subst).
  destruct (_ || _); [|destruct (readAndFinalizeResponseBody _ _) as [resp [b|]]; [destruct (negb _)|]];
    try (rewrite (Hid (set_world _ n)) by done); by apply Hk.
Qed.

Lemma populate_spec F base O e key source n :
  Network_ok n → is_Some (n_cache n) → holding F base O [] (n_world n) → warmed F base O n (populate e key source n).
Proof.
  intros Hok [c Ec] Hw. assert (∀ res, res ≠ WPanic → warmed F base O n (n, res, [])) as Hn.
  { intros res Hres. unfold warmed. rewrite Ec. by split_and!. }
  unfold populateCacheKey. rewrite Ec.
  destruct (parseCacheKey key) as [k|]; [|by apply Hn]. destruct (_ || _); [by apply Hn|].
  destruct (Cache_Policy _ _ _) as [p|]; [|by apply Hn]. destruct (url_Parse _ _) as [u|]; [|by apply Hn].
  destruct (warm_target _ _) as [preferID required]. set (r := warm_request _ _ _). set (fs := effectiveFailsafe _ _ _).
  assert (failsafe_sane fs) as Hfs by (by apply effectiveFailsafe_sane).
  pose proof (run_exec_spec NewRequest_ok gunzip sha F base O e n r preferID required fs (normalizeAPIPath (ck_path k))
    (ok_ids _ Hok) Hfs Hw) as Hr.
  destruct (run_exec _ _ _ _ _ _ _ _ _ _) as [w [[err|x] queue|s|]]; destruct Hr as [Hp Hr]; [| | |done].
  - unfold warmed. by split_and!; [|exact Hp|rewrite ?Ec| |].
  - pose proof (warm_conclude_spec F base O e k (policy_TTL p) r x queue c (set_world w n) Ec Hr) as Hc.
    destruct (warm_conclude _ _ _ _ _ _ _ _) as [n' res]. destruct Hc as (Hs & Hi & Hr'). split_and!; [exact Hs|by rewrite Hi|apply Hr'..].
  - unfold warmed. by split_and!; [|exact Hp|rewrite ?Ec| |].
Qed.

Lemma same_static_trans n1 n2 n3 : same_static n1 n2 → same_static n2 n3 → same_static n1 n3.
Proof. intros [E1 E2] [E3 E4]. by split; [rewrite E3|rewrite E4]. Qed.

(** The loop: what earlier keys left to be drained stays held. *)
Lemma warm_loop_spec F base O envs source seen keys queue n :
  Network_ok n → is_Some (n_cache n) → holding F base O (exec_of <$> queue) (n_world n) →
  let '(n', results, queue') := warm_loop NewRequest_ok gunzip sha ParseFloat parseOther envs source seen keys queue n in
  Network_ok n' ∧ is_Some (n_cache n') ∧ (∀ kr, kr ∈ results → kr.2 ≠ WPanic) ∧
  ((∀ kr, kr ∈ results → kr.2 ≠ WWaiting) → holding F base O (exec_of <$> queue') (n_world n')) ∧
  NoDup results.*1 ∧ (∀ k, k ∈ results.*1 → k ∈ keys ∧ k ∉ seen).
Proof.
  revert seen queue n. induction keys as [|key keys IH]; intros seen queue n Hok Hc Hw.
  { cbn. split_and!; [done|done|by intros ? ?%not_elem_of_nil|done|apply NoDup_nil_2|by intros ? ?%not_elem_of_nil]. }
  cbn [warm_loop]. case_bool_decide as Hin.
  { specialize (IH seen queue n Hok Hc Hw). destruct (warm_loop _ _ _ _ _ _ _ _ _ _ _) as [[n' results] queue'].
    destruct IH as (H1 & H2 & H3 & H4 & H5 & H6). split_and!; try done. intros k Hk. destruct (H6 k Hk). by split; [right|]. }
  pose proof (populate_spec _ base _ (envs key) key source n Hok Hc (holds_absorb _ _ _ _ _ Hw)) as Hp.
  destruct (populate (envs key) key source n) as [[n1 res] q]. destruct Hp as (Hs & Hi & Hc1 & Hnp & Hg).
  assert (Network_ok n1) as Hok1 by (by eapply Network_ok_static).
  case_bool_decide as Hres.
  { cbn [fmap list_fmap fst]. split_and!; try done.
    - by intros kr ->%list_elem_of_singleton.
    - intros Hn. by destruct (Hn (key, res) ltac:(by left)).
    - apply NoDup_singleton.
    - intros k ->%list_elem_of_singleton. by split; [left|]. }
  specialize (Hg Hres). apply (holds_restore _ _ _ _ _ _ _ Hw) in Hg. rewrite <- fmap_app in Hg.
  specialize (IH (key :: seen) (q ++ queue)%list n1 Hok1 Hc1 Hg).
  destruct (warm_loop _ _ _ _ _ _ _ _ _ _ _) as [[n' results] queue']. destruct IH as (H1 & H2 & H3 & H4 & H5 & H6).
  cbn [fmap list_fmap fst]. split_and!; try done.
  - intros kr [-> |Hkr]%elem_of_cons; [done|by apply H3].
  - intros Hn. apply H4. intros kr Hkr. apply Hn. by right.
  - apply NoDup_cons. split; [|done]. intros Hk. destruct (H6 key Hk) as [_ H]. apply H. by left.
  - intros k [-> |Hk]%elem_of_cons; [by split; [left|]|]. destruct (H6 k Hk) as [Hk1 Hk2]. split; [by right|].
    intros Hk3. apply Hk2. by right.
Qed.

(** ** The key is found again *)

(** The URL that [url.Parse] reads from the path part of a key. *)
Definition reread (u : URL) : URL :=
  {| url_Path := url_Path u; url_EscapedPath := url_EscapedPath u; url_RawQuery := (Cut "?" (pathAndQueryForCache u)).2 |}.

Definition own_parameters : list string := ["token"; "use-upstream"; "secret"].

Lemma forwardable_encode p e (m : Values) :
  map_Forall (λ _ vs, vs ≠ []) m → (∀ k, k ∈ own_parameters → m !! k = None) →
  forwardableQuery {| url_Path := p; url_EscapedPath := e; url_RawQuery := Values_Encode m |} = m.
Proof.
  intros Hm Hk. unfold forwardableQuery, Values_Del. cbn [url_RawQuery]. rewrite ParseQuery_Encode by done.
  rewrite !delete_id; [done|..]; rewrite ?lookup_delete_None; repeat right; apply Hk; unfold own_parameters; set_solver.
Qed.

Lemma forwardable_own u k : k ∈ own_parameters → forwardableQuery u !! k = None.
Proof.
  intros Hk. unfold forwardableQuery, Values_Del, own_parameters in *.
  repeat (apply elem_of_cons in Hk as [->|Hk]; [by rewrite !lookup_delete_None; auto|]). by apply not_elem_of_nil in Hk.
Qed.

Lemma peers_filter_lookup q k :
  peers_filter q !! k = if bool_decide (k = "direction" ∨ k = "state") then q !! k else None.
Proof.
  unfold peers_filter. case_bool_decide as Hk.
  - destruct (decide (k = "direction")) as [->|Hd].
    + destruct (q !! "direction") eqn:E; [by rewrite lookup_insert_eq|]. by destruct (q !! "state"); [rewrite lookup_insert_ne|].
    + destruct Hk as [->| ->]; [done|]. destruct (q !! "direction"); rewrite ?lookup_insert_ne by done;
        (destruct (q !! "state") eqn:E; [by rewrite lookup_insert_eq|done]).
  - assert (k ≠ "direction" ∧ k ≠ "state") as [H1 H2] by (split; intros ->; tauto).
    destruct (q !! "direction"), (q !! "state"); rewrite ?lookup_insert_ne by done; apply lookup_empty.
Qed.

Lemma peers_filter_ok q :
  map_Forall (λ _ vs, vs ≠ []) q →
  map_Forall (λ _ vs, vs ≠ []) (peers_filter q) ∧ (∀ k, k ∈ own_parameters → peers_filter q !! k = None) ∧
  peers_filter (peers_filter q) = peers_filter q.
Proof.
  intros Hq. split_and!.
  - intros k vs. rewrite peers_filter_lookup. case_bool_decide; [apply Hq|done].
  - intros k Hk. rewrite peers_filter_lookup. case_bool_decide as E; [|done]. exfalso. unfold own_parameters in Hk.
    destruct E as [->| ->]; set_solver.
  - apply map_eq. intros k. rewrite !peers_filter_lookup. by case_bool_decide.
Qed.

Lemma Cut_with_query path enc : no_byte "?" path → (Cut "?" (with_query path enc)).2 = enc.
Proof.
  intros Hp. unfold Cut, with_query. destruct (String.eqb_spec enc "") as [->|].
  - by rewrite (proj2 (CutByte_None _ _)).
  - change (path +:+ "?" +:+ enc) with (path +:+ String "?" enc). by rewrite CutByte_app.
Qed.

Lemma Cut_plain path : no_byte "?" path → (Cut "?" path).2 = "".
Proof. intros Hp. unfold Cut. by rewrite (proj2 (CutByte_None _ _)). Qed.

(** A path and query of a key is its own canonical form. *)
Lemma pathAndQuery_reread u :
  no_byte "?" (or_slash (url_EscapedPath u)) → pathAndQueryForCache (reread u) = pathAndQueryForCache u.
Proof.
  intros Hp. set (path := or_slash (url_EscapedPath u)) in *.
  assert (pathAndQueryForCache u = path → pathAndQueryForCache (reread u) = path) as H0.
  { intros E. unfold reread. rewrite E, Cut_plain by done. done. }
  assert (∀ m : Values, map_Forall (λ _ vs, vs ≠ []) m → (∀ k, k ∈ own_parameters → m !! k = None) →
    pathAndQueryForCache u = with_query path (Values_Encode m) →
    matches_builtin noisyCacheQueryPathRe path = false →
    (if matches_builtin peersCacheQueryPathRe path then peers_filter m else m) = m →
    pathAndQueryForCache (reread u) = with_query path (Values_Encode m)) as H1.
  { intros m Hm Hk E Hn Hf. destruct (String.eqb_spec (Values_Encode m) "") as [E0|E0].
    { unfold with_query in *. rewrite E0 in *. cbn in *. by apply H0. }
    assert (reread u = {| url_Path := url_Path u; url_EscapedPath := url_EscapedPath u; url_RawQuery := Values_Encode m |}) as ->.
    { unfold reread. by rewrite E, Cut_with_query. }
    unfold pathAndQueryForCache. cbv zeta. cbn [url_EscapedPath]. fold path.
    rewrite forwardable_encode by done. cbn [url_RawQuery]. rewrite (proj2 (String.eqb_neq _ _) E0), Hn.
    destruct (matches_builtin peersCacheQueryPathRe path); by rewrite ?Hf. }
  pose proof (forwardableQuery_nonempty u) as Hne. pose proof (forwardable_own u) as Hown.
  destruct (peers_filter_ok _ Hne) as (P1 & P2 & P3).
  destruct (String.eqb_spec (url_RawQuery u) "") as [Eq|Eq].
  { assert (pathAndQueryForCache u = path) as E by (unfold pathAndQueryForCache; by rewrite Eq). rewrite E. by apply H0. }
  assert (pathAndQueryForCache u =
    if matches_builtin noisyCacheQueryPathRe path then path
    else if matches_builtin peersCacheQueryPathRe path then with_query path (Values_Encode (peers_filter (forwardableQuery u)))
    else with_query path (Values_Encode (forwardableQuery u))) as E.
  { unfold pathAndQueryForCache. cbv zeta. by rewrite (proj2 (String.eqb_neq _ _) Eq). }
  destruct (matches_builtin noisyCacheQueryPathRe path) eqn:En; [rewrite E; by apply H0|].
  destruct (matches_builtin peersCacheQueryPathRe path) eqn:Ep.
  - rewrite E. apply H1; try done.
  - rewrite E. apply H1; done.
Qed.

Lemma warm_accept method u binary :
  acceptPrefersSSZ ParseFloat (Header_Get (req_Header (in_req (warm_request method u binary))) "Accept") = binary.
Proof. destruct binary; vm_compute; reflexivity. Qed.

Lemma warm_key_same networkID r scope :
  req_Method r = "GET" → no_byte "?" (or_slash (url_EscapedPath (req_URL r))) →
  let binary := acceptPrefersSSZ ParseFloat (Header_Get (req_Header r) "Accept") in
  buildCacheKey ParseFloat networkID (in_req (warm_request "GET" (reread (req_URL r)) binary)) scope =
  buildCacheKey ParseFloat networkID r scope.
Proof.
  intros Em Hq binary. unfold buildCacheKey. rewrite warm_accept. fold binary. rewrite Em.
  change (req_URL (in_req (warm_request "GET" (reread (req_URL r)) binary))) with (reread (req_URL r)).
  by rewrite pathAndQuery_reread.
Qed.

Lemma HasPrefix_cons c s d p : HasPrefix (String c s) (String d p) = Ascii.eqb d c && HasPrefix s p.
Proof. unfold HasPrefix. cbn [String.prefix]. destruct (ascii_dec d c) as [-> |H]; [by rewrite Ascii.eqb_refl|]. by rewrite (proj2 (Ascii.eqb_neq _ _)). Qed.

Lemma HasPrefix_nil s : HasPrefix s "" = true.
Proof. by destruct s. Qed.

Lemma url_Parse_key raw u :
  url_EscapedPath u = EscapedPath raw (url_Path u) → HasPrefix (url_EscapedPath u) "/" = true →
  HasPrefix (url_EscapedPath u) "//" = false → url_Parse parseOther (pathAndQueryForCache u) = Some (reread u).
Proof.
  intros He H1 H2. assert (url_EscapedPath u ≠ "") as Hne by (by intros E; rewrite E in H1).
  assert (or_slash (url_EscapedPath u) = url_EscapedPath u) as Hor.
  { unfold or_slash. by rewrite (proj2 (String.eqb_neq _ _) Hne). }
  assert (url_Path u ≠ "*") as Hstar.
  { intros E. pose proof (EscapedPath_decodes raw (url_Path u)) as Hd. rewrite <- He, E in Hd.
    apply HasPrefix_spec in H1 as [s Hs]. rewrite Hs in Hd.
    change ("/" +:+ s) with (String "/" s) in Hd. cbn in Hd. destruct (unescapePath s); by simplify_eq/=. }
  assert (∀ s, HasPrefix (url_EscapedPath u +:+ s) "/" && negb (HasPrefix (url_EscapedPath u +:+ s) "//") = true ∨ ∃ t, s = "/" +:+ t) as Hp.
  { intros s. destruct (url_EscapedPath u) as [|a rest] eqn:E; [done|].
    assert (a = "/"%char) as -> by (apply HasPrefix_spec in H1 as [t Ht]; change ("/" +:+ t) with (String "/" t) in Ht; by simplify_eq).
    destruct rest as [|b rest].
    - rewrite str_app_cons, str_app_nil_l. destruct s as [|b s]; [by left|]. destruct (Ascii.eqb_spec b "/") as [-> |Hb]; [right; by exists s|left].
      rewrite !HasPrefix_cons, !HasPrefix_nil. change (Ascii.eqb "/" "/") with true. cbn [andb]. apply negb_true_iff. rewrite andb_true_r.
      apply Ascii.eqb_neq. congruence.
    - left. rewrite !str_app_cons. rewrite !HasPrefix_cons, !HasPrefix_nil in *. change (Ascii.eqb "/" "/") with true in *. cbn [andb] in *. by rewrite H2. }
  unfold url_Parse, reread.
  assert (no_byte "?" (EscapedPath raw (url_Path u))) as Hnq
    by (apply special_no_byte; [done|apply validEncoded_plain, EscapedPath_valid]).
  destruct (pathAndQuery_encoded u) as [E|[m E]]; rewrite Hor in E; rewrite E.
  - destruct (Hp "") as [Hp'|[t Ht]]; [|done]. rewrite str_app_nil_r in Hp'. rewrite Hp', He.
    destruct (parseRooted_escaped raw (url_Path u) "" Hstar eq_refl) as [-> _]. cbn. by rewrite Cut_plain.
  - destruct (Hp (String "?" (Values_Encode m))) as [Hp'|[t Ht]]; [|done]. rewrite Hp', He.
    destruct (parseRooted_escaped raw (url_Path u) (Values_Encode m) Hstar (Encode_plain m)) as [_ ->]. cbn. unfold Cut. by rewrite CutByte_app.
Qed.

Lemma finalize_status resp limit resp' b :
  readAndFinalizeResponseBody resp limit = (resp', b) → rs_Status resp' = rs_Status resp.
Proof.
  unfold readAndFinalizeResponseBody. destruct (readBodyCapped _ _ _); [|by intros [= <- _]].
  destruct (String.eqb _ _); [by intros [= <- _]|]. destruct (finalizeResponseBody _ _). by intros [= <- _].
Qed.

(** What the end of a warming request does to the cache. *)
Lemma warm_conclude_cache e k policyTTL r x c n :
  n_cache n = Some c →
  let '(n', res) := warm_conclude ParseFloat e k policyTTL r x c n in
  (res ≠ WStored → n_cache n' = Some c) ∧
  (res = WStored → ∃ status hdr body ttl,
     200 <= status < 300 ∧ representationMatches (ck_acceptBinary k) hdr = true ∧
     n_cache n' = Some (Cache_Set (ev_done e) (buildCacheKey ParseFloat (n_id n) (in_req r) (ck_scope k)) status hdr body ttl c)) ∧
  (∀ resp b, 200 <= rs_Status (ex_resp x) < 300 →
     readAndFinalizeResponseBody (ex_resp x) (n_maxResponseBytes n) = (resp, Some b) →
     representationMatches (ck_acceptBinary k) (rs_Header resp) = true → res = WStored) ∧
  n_id n' = n_id n.
Proof.
  intros Ec. unfold warm_conclude. cbv zeta. destruct (_ || _) eqn:Es.
  { split_and!; [done|done| |done]. intros resp b Hs. apply orb_true_iff in Es as [Es|Es]; b2p; lia. }
  destruct (readAndFinalizeResponseBody _ _) as [resp [b|]] eqn:Er; [|split_and!; [done|done|by intros|done]].
  destruct (representationMatches (ck_acceptBinary k) (rs_Header resp)) eqn:Em; cbn [negb].
  - split_and!; [done| |done|done]. intros _. eexists _, _, _, _. split_and!; [| |exact Em|reflexivity]; cbn;
      rewrite (finalize_status _ _ _ _ Er); apply orb_false_iff in Es as [??]; b2p; lia.
  - split_and!; [done|done| |done]. intros resp' b' _ [= <- <-]. by rewrite Em.
Qed.

(** ** Properties *)

Lemma warmHeadCache_gives_back F base O envs source keys n :
  Network_ok n → holding F base O [] (n_world n) →
  let '(n', results, queue) := warmHeadCache NewRequest_ok gunzip sha ParseFloat parseOther envs source keys n in
  Network_ok n' ∧ NoDup results.*1 ∧ (∀ k, k ∈ results.*1 → k ∈ keys) ∧ (∀ kr, kr ∈ results → kr.2 ≠ WPanic) ∧
  ((∀ kr, kr ∈ results → kr.2 ≠ WWaiting) →
   holding F base O (exec_of <$> queue) (n_world n') ∧
   ∀ now, holding F base O [] (foldl (λ w res, dropBuffered now (Some (exec_of res)) w) (n_world n') queue)).
Proof.
  intros Hok Hw.
  assert (∀ q n', holding F base O (exec_of <$> q) (n_world n') →
    ∀ now, holding F base O [] (foldl (λ w res, dropBuffered now (Some (exec_of res)) w) (n_world n') q)) as Hd.
  { intros q n' Hq now. apply drain_all. by rewrite app_nil_r. }
  assert (Network_ok n ∧ NoDup (@nil string) ∧ (∀ k, k ∈ @nil string → k ∈ keys) ∧
    (∀ kr, kr ∈ @nil (string * warm_result) → kr.2 ≠ WPanic) ∧
    ((∀ kr, kr ∈ @nil (string * warm_result) → kr.2 ≠ WWaiting) → holding F base O [] (n_world n) ∧
     ∀ now : Z, holding F base O [] (n_world n))) as Hnone.
  { split_and!; [done|apply NoDup_nil_2|by intros ? ?%not_elem_of_nil|by intros ? ?%not_elem_of_nil|done]. }
  unfold warmHeadCache. destruct (n_cache n) as [c|] eqn:Ec; [|exact Hnone]. destruct keys as [|key keys]; [exact Hnone|]. clear Hnone.
  pose proof (warm_loop_spec F base O envs source [] (key :: keys) [] n Hok ltac:(by rewrite Ec) Hw) as H.
  destruct (warm_loop _ _ _ _ _ _ _ _ _ _ _) as [[n' results] queue]. destruct H as (H1 & H2 & H3 & H4 & H5 & H6).
  split_and!; [done|done|intros k Hk; by apply H6|done|]. intros Hn. split; [by apply H4|]. apply Hd. by apply H4.
Qed.

(** Warming a list of keys never panics and keeps the network's invariant; once it is over, every
    breaker probe and every body it took has been given back, except for what lost hedged attempts
    left to their drainers; and no key is requested twice. *)
Theorem warm_no_leak F base O envs source keys n :
  Network_ok n → holding F base O [] (n_world n) →
  let '(n', results, queue) := warmHeadCache NewRequest_ok gunzip sha ParseFloat parseOther envs source keys n in
  Network_ok n' ∧ NoDup results.*1 ∧ (∀ k, k ∈ results.*1 → k ∈ keys) ∧ (∀ kr, kr ∈ results → kr.2 ≠ WPanic) ∧
  ((∀ kr, kr ∈ results → kr.2 ≠ WWaiting) →
   holding F base O (exec_of <$> queue) (n_world n') ∧
   ∀ now, holding F base O [] (foldl (λ w res, dropBuffered now (Some (exec_of res)) w) (n_world n') queue)).
Proof. apply warmHeadCache_gives_back. Qed.

(** C17: warming finds its way back to the client's request.  For a cached request for a named
    identifier, warming its key parses the path and the query back out of the key, and whatever the upstreams
    answer the cache is changed at most under this very key; a readable 2xx response
    in the key's representation is stored, and from then on, for its lifetime, the client's
    request is answered from the cache with that body, contacting no upstream. *)
Theorem warm_roundtrip e raw r scope source n c p p' :
  let u := req_URL (in_req r) in
  let k := {| ck_method := "GET"; ck_pathQuery := pathAndQueryForCache u; ck_path := url_EscapedPath u; ck_scope := scope;
              ck_acceptBinary := acceptPrefersSSZ ParseFloat (Header_Get (req_Header (in_req r)) "Accept") |} in
  let key := buildCacheKey ParseFloat (n_id n) (in_req r) scope in
  let asked := warm_request "GET" (reread u) (ck_acceptBinary k) in
  n_cache n = Some c → ms_rep (c_store c) → no_byte ":" (n_id n) → req_Method (in_req r) = "GET" →
  url_EscapedPath u = EscapedPath raw (url_Path u) → HasPrefix (url_EscapedPath u) "/" = true →
  HasPrefix (url_EscapedPath u) "//" = false → key_safe_path (url_EscapedPath u) → Index scope ":accept=binary" = None →
  pathHasNamedSlotID (url_EscapedPath u) = true → Cache_Policy c "GET" (url_EscapedPath u) = Some p →
  Cache_Policy c "GET" (url_Path u) = Some p' →
  let '(n', res, queue) := populate e key source n in
  (res ≠ WStored → n_cache n' = Some c) ∧
  (res = WStored → ∃ status hdr body ttl,
     200 <= status < 300 ∧ representationMatches (ck_acceptBinary k) hdr = true ∧
     n_cache n' = Some (Cache_Set (ev_done e) key status hdr body ttl c) ∧
     ∀ e2 wh path preferID required ip, (0 < ttl → ev_now e2 <= ev_done e + ttl) →
       ∃ n2 wr, serve_proxied NewRequest_ok gunzip sha ParseFloat e2 wh r path preferID required scope ip n' =
                  (n2, SWritten wr, []) ∧
         n_world n2 = n_world n' ∧ wr_Status wr = status ∧ wr_Body wr = body ∧ hdr_get (wr_Header wr) "X-Ebeacon-Cache" = "HIT") ∧
  (∀ w x queue' resp b,
     run_exec NewRequest_ok gunzip sha e n asked (warm_target scope source).1 (warm_target scope source).2
       (effectiveFailsafe n "GET" (url_EscapedPath u)) (normalizeAPIPath (url_EscapedPath u)) = (w, RunDone (inr x) queue') →
     200 <= rs_Status (ex_resp x) < 300 → readAndFinalizeResponseBody (ex_resp x) (n_maxResponseBytes n) = (resp, Some b) →
     representationMatches (ck_acceptBinary k) (rs_Header resp) = true → res = WStored).
Proof.
  intros u k key asked Ec Hrep Hid Em He H1 H2 Hsafe Hsc Hnamed Hpol Hpol'.
  assert (url_EscapedPath u ≠ "") as Hne by (by intros E; rewrite E in H1).
  assert (or_slash (url_EscapedPath u) = url_EscapedPath u) as Hor by (unfold or_slash; by rewrite (proj2 (String.eqb_neq _ _) Hne)).
  assert (parseCacheKey key = Some k) as Hk.
  { unfold key. rewrite parseCacheKey_ok; [|done|by rewrite Em|done|done]. fold u. by rewrite Em, Hor. }
  unfold populateCacheKey. rewrite Hk. cbn [ck_method ck_path k]. rewrite Hnamed, Ec, Hpol.
  change (negb (String.eqb "GET" "GET") || negb true) with false. cbn iota.
  change (ck_pathQuery k) with (pathAndQueryForCache u). change (ck_scope k) with scope.
  rewrite (url_Parse_key raw u He H1 H2). fold asked. destruct (warm_target scope source) as [preferID required]. cbn [fst snd].
  destruct (run_exec _ _ _ _ _ _ _ _ _ _) as [w [[err|x] queue|s|]] eqn:Ex.
  - split_and!; [by intros _|done|by intros].
  - pose proof (warm_conclude_cache e k (policy_TTL p) asked x c (set_world w n) Ec) as Hc.
    destruct (warm_conclude _ _ _ _ _ _ _ _) as [n' res]. destruct Hc as (Hc1 & Hc2 & Hc3 & Ei).
    change (n_id (set_world w n)) with (n_id n) in *.
    assert (buildCacheKey ParseFloat (n_id n) (in_req asked) (ck_scope k) = key) as Ekey.
    { apply (warm_key_same (n_id n) (in_req r) scope Em). fold u. rewrite Hor. apply Hsafe. }
    rewrite Ekey in Hc2. split_and!; [done| |].
    + intros Hres. destruct (Hc2 Hres) as (status & hdr & b & ttl & Hs & Hm & Hn'). exists status, hdr, b, ttl.
      split_and!; [lia|lia|done|done|]. intros e2 wh path pid req ip Hl.
      destruct (serve_hit NewRequest_ok gunzip sha ParseFloat e2 wh r path pid req scope ip n' _ p'
        (new_entry (ev_done e) key status hdr b ttl) Hn' Em) as (n2 & wr & Hsv); [done| |by exists n2, wr].
      rewrite Ei. fold key. rewrite Cache_Set_then_Get by done.
      destruct (Z.ltb_spec 0 ttl) as [Hp|Hp]; [|done]. by rewrite (proj2 (Z.ltb_ge _ _)) by (by apply Hl).
    + intros w' x' q' resp b [= <- <- <-] Hst Hrd Hm. by eapply Hc3.
  - split_and!; [by intros _|done|by intros].
  - split_and!; [by intros _|done|by intros].
Qed.
End warm_safety.

Module WarmDemo.
Import ServeDemo ExecDemo BoundsDemo.

Definition demo_cache : Cache MiniRegexp :=
  default {| c_store := NewMemoryStore 0; c_policies := [] |}
    (Cache_New [default_policy "^/eth/v\d+/beacon/headers/head$" (4 * Second)] 8).

(** A network that caches the head's header, and a client's request for it. *)
Definition demo_net : Network (RL := ToyRate) (RX := MiniRegexp) := set_cache (Some demo_cache) ServeDemo.demo_net.

Definition demo_head : Inbound :=
  {| in_req := demo_request "/eth/v1/beacon/headers/head" "b=2&secret=x&a=1" ""; in_Host := "proxy";
     in_RemoteAddr := "10.0.0.1:99"; in_Body := None |}.

Definition demo_key : string := buildCacheKey toy_ParseFloat "mainnet" (in_req demo_head) "".

Lemma demo_ok : Network_ok demo_net.
Proof. apply (Network_ok_static ServeDemo.demo_net); [by split|reflexivity|exact demo_net_ok]. Qed.

Lemma warm_no_leak_witness :
  let '(n', results, _) := warmHeadCache (λ _ _, true) (λ _ _, None) id toy_ParseFloat (λ _, None) (λ _, demo_lead) (Some "a")
    [demo_key; demo_key] demo_net in
  results = [(demo_key, WStored)] ∧ Network_ok n' ∧ holding [] (λ _, 0) ∅ [] (n_world n').
Proof.
  pose proof (warm_no_leak (λ _ _, true) (λ _ _, None) id toy_ParseFloat (λ _, None) [] (λ _, 0) ∅ (λ _, demo_lead) (Some "a")
    [demo_key; demo_key] demo_net demo_ok (demo_world_holds _)) as H.
  assert (let '(n', results, q) := warmHeadCache (λ _ _, true) (λ _ _, None) id toy_ParseFloat (λ _, None) (λ _, demo_lead) (Some "a")
    [demo_key; demo_key] demo_net in (results, length q) = ([(demo_key, WStored)], 0%nat)) as E by (vm_compute; reflexivity).
  destruct (warmHeadCache _ _ _ _ _ _ _ _ _) as [[n' results] [|? ?]]; [|discriminate E].
  destruct H as (H1 & _ & _ & _ & H2). injection E as ->. split_and!; [reflexivity|exact H1|].
  apply H2. intros kr ->%list_elem_of_singleton. done.
Defined.

Lemma demo_head_policy : ∃ p, Cache_Policy demo_cache "GET" "/eth/v1/beacon/headers/head" = Some p.
Proof. apply is_Some_true. vm_compute. reflexivity. Qed.

Lemma warm_roundtrip_witness :
  demo_key = "mainnet:GET:/eth/v1/beacon/headers/head?a=1&b=2" ∧
  ∃ n' q, populateCacheKey (λ _ _, true) (λ _ _, None) id toy_ParseFloat (λ _, None) demo_lead demo_key (Some "a") demo_net =
    (n', WStored, q) ∧
  ∃ n2 wr, serve_proxied (λ _ _, true) (λ _ _, None) id toy_ParseFloat demo_lead ∅ demo_head "" "" no_selector "" None n' =
    (n2, SWritten wr, []) ∧ n_world n2 = n_world n' ∧ hdr_get (wr_Header wr) "X-Ebeacon-Cache" = "HIT".
Proof.
  destruct demo_head_policy as [p Ep]. split; [vm_compute; reflexivity|].
  pose proof (warm_roundtrip (λ _ _, true) (λ _ _, None) id toy_ParseFloat (λ _, None) demo_lead "" demo_head "" (Some "a") demo_net
    demo_cache p p eq_refl (NewMemoryStore_rep _)) as H.
  assert (let '(_, res, _) := populateCacheKey (λ _ _, true) (λ _ _, None) id toy_ParseFloat (λ _, None) demo_lead demo_key (Some "a")
    demo_net in res = WStored) as E by (vm_compute; reflexivity).
  change (buildCacheKey toy_ParseFloat (n_id demo_net) (in_req demo_head) "") with demo_key in H.
  destruct (populateCacheKey _ _ _ _ _ _ _ _ _) as [[n' res] q]. subst res.
  destruct H as (_ & H & _); [vm_compute; reflexivity..| | | |exact Ep|exact Ep|].
  - apply (bool_decide_eq_true_1 _). vm_compute. reflexivity.
  - reflexivity.
  - vm_compute. reflexivity.
  - exists n', q. split; [reflexivity|]. destruct (H eq_refl) as (status & hdr & body & ttl & _ & _ & _ & Hs).
    destruct (Hs demo_lead ∅ "" "" no_selector None) as (n2 & wr & H1 & H2 & _ & _ & H3); [|exists n2, wr; split_and!; assumption].
    cbn. lia.
Defined.
End WarmDemo.
