(* ===== verification/SSE.v ===== *)
(** * The SSE relay

    [network/sse.go]: the ring of hashes of forwarded events, the capped line reader, and the relay that
    keeps one client's event stream alive across upstream failures ([stream], [Serve]).

    The relay's two nondeterministic [select]s are schedules: a list of [sse_event]s drives one upstream
    connection, a list of [iteration]s the reconnect loop; theorems hold for all of them.  The
    client side is the list of the writes attempted on it, each with its success.  Probes and open
    bodies are those of [Ownership]. *)

From S2P Require Import Prelude GoStrings GoFloat Config CircuitBreaker ScoreTracker AutoTuner BlockCache.
From S2P Require Import Upstream Selector PoolOrder Pool PoolState Health MemoryStore Regexp Url CacheKey Paths Historical Session HeadWatcher Consensus Headers Exec Ownership ExecSafety ExecBounds Hedge Serve.
#[local] Open Scope string_scope.
#[local] Open Scope Z_scope.

Definition sseClientRetry : Z := 1 * Second.

(** ** Seen events *)

(** [pos] counts the additions of one client connection. *)
Record seenRing := { sr_buf : list Z; sr_pos : nat }.

Definition newSeenRing (size : nat) : seenRing := {| sr_buf := replicate size 0; sr_pos := 0 |}.

Definition ring_has (h : Z) (r : seenRing) : bool := existsb (Z.eqb h) (sr_buf r).

Definition ring_add (h : Z) (r : seenRing) : seenRing :=
  {| sr_buf := <[(sr_pos r `mod` length (sr_buf r))%nat := h]> (sr_buf r); sr_pos := S (sr_pos r) |}.

Definition hashEvent (s : string) : Z := fnv32a s.

Definition sseRingSize : nat := 128.

(** ** Lines *)

Definition LF : Ascii.ascii := Ascii.ascii_of_nat 10.
Definition CR : Ascii.ascii := Ascii.ascii_of_nat 13.
Definition lf : string := String LF "".
Definition crlf : string := String CR lf.

(** How a line ends: with its newline, at the end of the body, with a read error, or over the cap. *)
Inductive line_end := LOk | LEOF | LErr | LTooLong.

#[global] Instance line_end_eq_dec : EqDecision line_end.
Proof. solve_decision. Defined.

(** A body that delivers [rd_rest] and then ends, or fails; [rd_eager] if the end is reported
    together with the last bytes. *)
Record reader := { rd_rest : string; rd_fails : bool; rd_eager : bool }.

(** The size of a [bufio.Reader]'s buffer. *)
Definition bufio_size : nat := Z.to_nat 4096.

(** Up to [k] bytes, through the first newline among them. *)
Fixpoint cut_line (k : nat) (s : string) : string * string * bool :=
  match k, s with
  | O, _ => ("", s, false)
  | _, "" => ("", "", false)
  | S k, String c s =>
      if Ascii.eqb c LF then (lf, s, true)
      else let '(l, rest, found) := cut_line k s in (String c l, rest, found)
  end.

Inductive slice_end := SLine | SFull | SEnd.

(** [r.ReadSlice('\n')] *)
Definition ReadSlice (r : reader) : string * slice_end * reader :=
  let '(l, rest, found) := cut_line bufio_size (rd_rest r) in
  let r' := {| rd_rest := rest; rd_fails := rd_fails r; rd_eager := rd_eager r |} in
  if found then (l, SLine, r')
  else if String.eqb rest "" && ((String.length l <? bufio_size)%nat || rd_eager r) then (l, SEnd, r')
  else (l, SFull, r').

(** The loop of [readCappedLine]; [sb] is what has been accumulated.  Each round but the last consumes a full
    buffer, so the length of the body is fuel enough. *)
Fixpoint capped_loop (fuel : nat) (max : Z) (sb : string) (r : reader) : option (string * line_end * reader) :=
  match fuel with
  | O => None
  | S fuel =>
      let '(chunk, e, r) := ReadSlice r in
      let sb := sb +:+ chunk in
      match e with
      | SFull => if max <? str_len sb then Some (sb, LTooLong, r) else capped_loop fuel max sb r
      | SLine => Some (sb, LOk, r)
      | SEnd => Some (sb, if rd_fails r then LErr else LEOF, r)
      end
  end.

Definition readCappedLine (r : reader) (max : Z) : option (string * line_end * reader) :=
  capped_loop (2 + String.length (rd_rest r)) max "" r.

(** The lines [readSSELines] sends: up to the first that does not end with a newline. *)
Fixpoint read_lines (fuel : nat) (r : reader) : list (string * line_end) :=
  match fuel with
  | O => []
  | S fuel =>
      match readCappedLine r sseMaxEventBytes with
      | None => []
      | Some (line, LOk, r) => (line, LOk) :: read_lines fuel r
      | Some (line, e, _) => [(line, e)]
      end
  end.

Definition readSSELines (r : reader) : list (string * line_end) := read_lines (2 + String.length (rd_rest r)) r.

(** ** Writing to the client *)

Inductive client_write := CRetry | CPing | CEvent (ev : string).

Section sse.
Context `{RL : RateLib} `{NL : NetLib}.
Implicit Types w : World RL.

(** The relay of one client: the world, what the client connection has been sent, and the state of the current
    upstream stream. *)
Record sse := {
  s_w : World RL;
  s_seen : seenRing;
  s_out : list (client_write * bool);
  s_hdr : Header;
  s_sent : bool;
  s_event : string;
  s_hasField : bool;
  s_credited : bool;
  s_lines : list (string * line_end);
  s_returned : bool;
}.

Definition sse_set_w w (s : sse) : sse :=
  {| s_w := w; s_seen := s_seen s; s_out := s_out s; s_hdr := s_hdr s; s_sent := s_sent s; s_event := s_event s;
     s_hasField := s_hasField s; s_credited := s_credited s; s_lines := s_lines s; s_returned := s_returned s |}.
Definition sse_write (c : client_write) (ok : bool) (s : sse) : sse :=
  {| s_w := s_w s; s_seen := s_seen s; s_out := (s_out s ++ [(c, ok)])%list; s_hdr := s_hdr s; s_sent := s_sent s;
     s_event := s_event s; s_hasField := s_hasField s; s_credited := s_credited s; s_lines := s_lines s;
     s_returned := s_returned s |}.
Definition sse_set_event (ev : string) (s : sse) : sse :=
  {| s_w := s_w s; s_seen := s_seen s; s_out := s_out s; s_hdr := s_hdr s; s_sent := s_sent s; s_event := ev;
     s_hasField := s_hasField s; s_credited := s_credited s; s_lines := s_lines s; s_returned := s_returned s |}.
Definition sse_set_seen (r : seenRing) (s : sse) : sse :=
  {| s_w := s_w s; s_seen := r; s_out := s_out s; s_hdr := s_hdr s; s_sent := s_sent s; s_event := s_event s;
     s_hasField := s_hasField s; s_credited := s_credited s; s_lines := s_lines s; s_returned := s_returned s |}.
Definition sse_set_hasField (b : bool) (s : sse) : sse :=
  {| s_w := s_w s; s_seen := s_seen s; s_out := s_out s; s_hdr := s_hdr s; s_sent := s_sent s; s_event := s_event s;
     s_hasField := b; s_credited := s_credited s; s_lines := s_lines s; s_returned := s_returned s |}.
Definition sse_set_credited (s : sse) : sse :=
  {| s_w := s_w s; s_seen := s_seen s; s_out := s_out s; s_hdr := s_hdr s; s_sent := s_sent s; s_event := s_event s;
     s_hasField := s_hasField s; s_credited := true; s_lines := s_lines s; s_returned := s_returned s |}.
Definition sse_set_lines (l : list (string * line_end)) (s : sse) : sse :=
  {| s_w := s_w s; s_seen := s_seen s; s_out := s_out s; s_hdr := s_hdr s; s_sent := s_sent s; s_event := s_event s;
     s_hasField := s_hasField s; s_credited := s_credited s; s_lines := l; s_returned := s_returned s |}.
Definition sse_return (s : sse) : sse :=
  {| s_w := s_w s; s_seen := s_seen s; s_out := s_out s; s_hdr := s_hdr s; s_sent := s_sent s; s_event := s_event s;
     s_hasField := s_hasField s; s_credited := s_credited s; s_lines := s_lines s; s_returned := true |}.
Definition sse_send_headers (h : Header) (sent : bool) (s : sse) : sse :=
  {| s_w := s_w s; s_seen := s_seen s; s_out := s_out s; s_hdr := h; s_sent := sent; s_event := s_event s;
     s_hasField := s_hasField s; s_credited := s_credited s; s_lines := s_lines s; s_returned := s_returned s |}.
(** The locals of a new [stream] call. *)
Definition sse_connect (lines : list (string * line_end)) (s : sse) : sse :=
  {| s_w := s_w s; s_seen := s_seen s; s_out := s_out s; s_hdr := s_hdr s; s_sent := s_sent s; s_event := "";
     s_hasField := false; s_credited := false; s_lines := lines; s_returned := false |}.

(** [flushSSEEvent]: the state, [wrote] and [ok]; [wok] is whether the write succeeds. *)
Definition flushSSEEvent (wok forceTerminator : bool) (s : sse) : sse * bool * bool :=
  if String.eqb (s_event s) "" then (s, false, true)
  else
    let evStr := if forceTerminator then TrimRight (s_event s) crlf +:+ lf +:+ lf else s_event s in
    let h := hashEvent evStr in
    if ring_has h (s_seen s) then (sse_set_event "" s, false, true)
    else
      let s := sse_write (CEvent evStr) wok (sse_set_seen (ring_add h (s_seen s)) s) in
      if wok then (sse_set_event "" s, true, true) else (s, false, false).

(** ** One upstream *)

(** A received line: when, whether the (at most two) writes it causes succeed, and whether the client is gone
    when a read error is looked at. *)
Record line_io := { li_now : Z; li_ok1 : bool; li_ok2 : bool; li_ctxErr : bool }.

Inductive sse_event := EvCtx | EvIdle | EvPing (ok : bool) | EvLine (io : line_io).

Section stream.
Context (id : string) (tok : CBToken).

Definition sse_settle (o : cbOutcome) (now : Z) (s : sse) : sse := sse_set_w (settle_token tok o now (s_w s)) s.

(** [if wrote && eventHasField && !credited { tok.Success(); credited = true }] *)
Definition sse_credit (now : Z) (wrote : bool) (s : sse) : sse :=
  if wrote && s_hasField s && negb (s_credited s) then sse_set_credited (sse_settle cbSettleSuccess now s) else s.

(** The part of the read case after the line has been dealt with. *)
Definition sse_line_end (io : line_io) (e : line_end) (s : sse) : sse :=
  match e with
  | LOk => s
  | LEOF =>
      match flushSSEEvent (li_ok2 io) true s with
      | (s, _, false) => sse_return s
      | (s, wrote, true) =>
          let s := sse_credit (li_now io) wrote s in
          sse_return (if s_credited s then s else sse_settle cbSettleFailure (li_now io) s)
      end
  | LErr | LTooLong =>
      sse_return
        (if li_ctxErr io then s
         else if s_credited s then sse_set_w (on_upstream id (with_cb (CBFailure (li_now io))) (s_w s)) s
         else sse_settle cbSettleFailure (li_now io) s)
  end.

Definition sse_line (io : line_io) (line : string) (e : line_end) (s : sse) : sse :=
  if String.eqb line "" then sse_line_end io e s
  else if sseMaxEventBytes <? str_len (s_event s) + str_len line then sse_return s
  else
    let terminator := String.eqb line lf || String.eqb line crlf in
    let s := if negb terminator && negb (HasPrefix line ":") then sse_set_hasField true s else s in
    let s := sse_set_event (s_event s +:+ line) s in
    if terminator then
      match flushSSEEvent (li_ok1 io) false s with
      | (s, _, false) => sse_return s
      | (s, wrote, true) => sse_line_end io e (sse_set_hasField false (sse_credit (li_now io) wrote s))
      end
    else sse_line_end io e s.

Definition sse_step (s : sse) (ev : sse_event) : sse :=
  if s_returned s then s
  else
    match ev with
    | EvCtx | EvIdle => sse_return s
    | EvPing ok => let s := sse_write CPing ok s in if ok then s else sse_return s
    | EvLine io =>
        match s_lines s with
        | [] => s
        | (line, e) :: rest => sse_line io line e (sse_set_lines rest s)
        end
    end.
End stream.

Context (NewRequest_ok : string → string → bool).

(** One pass of the reconnect loop: whether the client is there at its head, after the stream and at the end of the
    pause; whether the write of the retry line succeeds; how the stream goes. *)
Record iteration := {
  it_now : Z;
  it_live : bool;
  it_retryOk : bool;
  it_eager : bool;
  it_sched : list sse_event;
  it_end : Z;
  it_ctxErr : bool;
  it_waitDone : bool;
}.

Definition without_body (r : Inbound) : Inbound :=
  {| in_req := in_req r; in_Host := in_Host r; in_RemoteAddr := in_RemoteAddr r; in_Body := None |}.

(** The headers of the event stream. *)
Definition sse_headers (id : string) (hdr respHdr : Header) : Header :=
  hdr_set "X-Ebeacon-Upstream" (ObfuscateUpstreamID id)
    (hdr_set "Connection" "keep-alive" (hdr_set "X-Accel-Buffering" "no" (hdr_set "Cache-Control" "no-cache"
      (hdr_set "Content-Type" "text/event-stream" (copyEndToEndHeaders hdr respHdr))))).

(** The deferred calls: close the body, then release the token. *)
Definition sse_defer (h : nat) (tok : CBToken) (now : Z) (s : sse) : sse :=
  sse_set_w (settle_token tok cbSettleRelease now (close_body h (s_w s))) s.

(** [stream]; [None] while it has not returned. *)
Definition stream (id : string) (r : Inbound) (it : iteration) (s : sse) : sse * option bool :=
  match ByID (w_pool (s_w s)) id with
  | None => (s, Some false)
  | Some u =>
      match newUpstreamRequest NewRequest_ok u "GET" (without_body r) with
      | None => (s, Some false)
      | Some _ =>
          let '(i, w) := pop_io (s_w s) in
          let w := log_dispatch id w in
          let tr := match io_reply i with RErr => TransportErr "transport" | RResp st _ _ _ => TransportResp st true end in
          let '(u', res, tok) := Upstream_Do (io_now i) tr u in
          let w := on_upstream id (λ _, u') w in
          match res, io_reply i with
          | DoResp status _, RResp _ hdr content readErr =>
              let '(h, w) := open_body id w in
              let s := sse_set_w w s in
              if negb (status =? 200) then (sse_defer h tok (it_end it) (sse_settle tok cbSettleFailure (io_done i) s), Some false)
              else
                let s := if s_sent s then s
                         else sse_write CRetry (it_retryOk it) (sse_send_headers (sse_headers id (s_hdr s) hdr) (it_retryOk it) s) in
                if negb (s_sent s) then (sse_defer h tok (it_end it) s, Some true)
                else
                  let s := sse_connect (readSSELines {| rd_rest := content; rd_fails := readErr; rd_eager := it_eager it |}) s in
                  let s := foldl (sse_step id tok) s (it_sched it) in
                  if s_returned s then (sse_defer h tok (it_end it) s, Some true) else (s, None)
          | DoRefused, _ => (sse_set_w w s, Some false)
          | _, _ =>
              let s := sse_set_w w s in
              let s := if io_cancel i then s else sse_settle tok cbSettleFailure (io_done i) s in
              (sse_settle tok cbSettleRelease (it_end it) s, Some false)
          end
      end
  end.

(** ** The relay *)

(** [None] is an error. *)
Definition pickUpstream (now : Z) (p : Pool RL) (preferUpstream : string) (required : Selector)
    : Pool RL * option (Upstream RL) :=
  if negb (Selector_Enabled required) then Pool.Get now p preferUpstream
  else if nonempty (sel_ID required) then (p, ByID p (sel_ID required))
  else let '(p, ups) := SelectMatching now p required "" 1 in (p, head ups).

Inductive relay_result := RelayReturned | RelayError (wr : Written) | RelayRunning.

Fixpoint relay_loop (r : Inbound) (required : Selector) (its : list iteration) (stickyID : string) (s : sse)
    : sse * relay_result :=
  match its with
  | [] => (s, RelayRunning)
  | it :: its =>
      if negb (it_live it) then (s, RelayReturned)
      else
        match pickUpstream (it_now it) (w_pool (s_w s)) stickyID required with
        | (p, None) =>
            let s := sse_set_w (set_pool p (s_w s)) s in
            if Selector_Enabled required && negb (s_sent s)
            then (s, RelayError (http_Error (s_hdr s) 503 "selected upstream unavailable"))
            else if it_waitDone it then (s, RelayReturned) else relay_loop r required its stickyID s
        | (p, Some u) =>
            let s := sse_set_w (set_pool p (s_w s)) s in
            match stream (u_ID u) r it s with
            | (s, None) => (s, RelayRunning)
            | (s, Some connected) =>
                if it_ctxErr it then (s, RelayReturned)
                else if negb connected && Selector_Enabled required && negb (s_sent s)
                then (s, RelayError (http_Error (s_hdr s) 503 "selected upstream unavailable"))
                else
                  let stickyID := if Selector_Enabled required then u_ID u else "" in
                  if it_waitDone it then (s, RelayReturned) else relay_loop r required its stickyID s
            end
        end
  end.

(** [flusher] says whether the response writer can stream. *)
Definition SSERelay_Serve (flusher : bool) (wh : Header) (r : Inbound) (preferUpstream : string) (required : Selector)
    (its : list iteration) w : sse * relay_result :=
  let s := {| s_w := w; s_seen := newSeenRing sseRingSize; s_out := []; s_hdr := wh; s_sent := false; s_event := "";
              s_hasField := false; s_credited := false; s_lines := []; s_returned := false |} in
  if negb flusher then (s, RelayError (http_Error wh 500 "streaming not supported by server"))
  else relay_loop r required its preferUpstream s.
End sse.
