(* ===== verification/SSESafety.v ===== *)
(** * What the SSE relay guarantees

    No event twice within the ring's window, bounded memory, lines that reassemble the upstream's
    body, and every probe and body given back, for every schedule and every upstream behaviour. *)

From S2P Require Import Prelude GoStrings GoFloat Config CircuitBreaker ScoreTracker AutoTuner BlockCache.
From S2P Require Import Upstream Selector PoolOrder Pool PoolState Health MemoryStore Regexp Url CacheKey Paths Historical Session HeadWatcher Consensus Headers Exec Ownership ExecSafety ExecBounds Hedge Serve SSE.
#[local] Open Scope string_scope.
#[local] Open Scope Z_scope.

(** ** The ring *)

(** The ring after the hashes [H] have been added: the last 128 of them, then the initial zeros. *)
Record ring_rep (r : seenRing) (H : list Z) : Prop := {
  rr_length : length (sr_buf r) = sseRingSize;
  rr_pos : sr_pos r = length H;
  rr_recent k h : H !! k = Some h → (length H <= k + sseRingSize)%nat → sr_buf r !! (k `mod` sseRingSize)%nat = Some h;
  rr_zero i : (length H <= i < sseRingSize)%nat → sr_buf r !! i = Some 0;
}.

Lemma mod_spaced a b : (a < b)%nat → (a `mod` sseRingSize = b `mod` sseRingSize)%nat → (a + sseRingSize <= b)%nat.
Proof.
  unfold sseRingSize. intros Hlt Hm. pose proof (Nat.div_mod_eq a 128) as Ha. pose proof (Nat.div_mod_eq b 128) as Hb.
  rewrite Hm in Ha. assert (a `div` 128 < b `div` 128)%nat by lia. lia.
Qed.

Lemma newSeenRing_rep : ring_rep (newSeenRing sseRingSize) [].
Proof.
  constructor; [apply length_replicate|done|done|].
  intros i Hi. apply lookup_replicate. split; [done|lia].
Qed.

Lemma ring_add_rep h r H : ring_rep r H → ring_rep (ring_add h r) (H ++ [h]).
Proof.
  intros [H1 H2 H3 H4].
  assert (length H `mod` sseRingSize < sseRingSize)%nat as Hlt by (apply Nat.mod_upper_bound; by unfold sseRingSize).
  constructor; cbn [ring_add sr_buf sr_pos]; rewrite ?length_insert, ?length_app; cbn [length]; rewrite ?H1, ?H2; [done|lia| |].
  - intros k x Hk Hr. destruct (decide (k = length H)) as [-> |Hne].
    + rewrite lookup_app_r, Nat.sub_diag in Hk by lia. injection Hk as ->. apply list_lookup_insert_eq. by rewrite H1.
    + assert (k < length H)%nat as Hk' by (apply lookup_lt_Some in Hk; rewrite length_app in Hk; cbn in Hk; lia).
      rewrite lookup_app_l in Hk by done. rewrite list_lookup_insert_ne; [by apply H3; [|lia]|].
      intros Hm. apply eq_sym, mod_spaced in Hm; [|done]. lia.
  - intros i Hi. rewrite list_lookup_insert_ne; [apply H4; lia|]. rewrite Nat.mod_small by lia. lia.
Qed.

(** What [has] answers: the last 128 additions, and the initial zeros. *)
Lemma ring_has_spec h r H :
  ring_rep r H →
  ring_has h r = true ↔ (∃ k, H !! k = Some h ∧ (length H <= k + sseRingSize)%nat) ∨ h = 0 ∧ (length H < sseRingSize)%nat.
Proof.
  intros [H1 H2 H3 H4]. unfold ring_has. rewrite existsb_exists. split.
  - intros (x & Hx & ->%Z.eqb_eq). apply list_elem_of_In, list_elem_of_lookup in Hx as [i Hi].
    assert (i < sseRingSize)%nat as Hlt by (apply lookup_lt_Some in Hi; lia).
    destruct (decide (length H <= i)%nat) as [Hle|Hgt].
    + right. rewrite H4 in Hi by lia. injection Hi as <-. split; [done|lia].
    + left. set (q := ((length H - 1 - i) `div` sseRingSize)%nat). set (k := (i + sseRingSize * q)%nat).
      assert (k < length H ∧ length H <= k + sseRingSize)%nat as [Hk1 Hk2].
      { subst k q. pose proof (Nat.div_mod_eq (length H - 1 - i) sseRingSize) as Hd.
        pose proof (Nat.mod_upper_bound (length H - 1 - i) sseRingSize ltac:(by unfold sseRingSize)). lia. }
      assert (k `mod` sseRingSize = i)%nat as Hm.
      { subst k. rewrite Nat.add_comm, Nat.mul_comm, Nat.add_comm, Nat.Div0.mod_add. by apply Nat.mod_small. }
      destruct (lookup_lt_is_Some_2 H k Hk1) as [y Hy]. exists k. split; [|done]. rewrite Hy. f_equal.
      pose proof (H3 k y Hy Hk2) as Hb. rewrite Hm in Hb. congruence.
  - intros [(k & Hk & Hr)|[-> Hlt]].
    + exists h. split; [|apply Z.eqb_refl]. apply list_elem_of_In, list_elem_of_lookup. eexists. by apply H3.
    + exists 0. split; [|done]. apply list_elem_of_In, list_elem_of_lookup. exists (length H). apply H4. lia.
Qed.

(** ** Lines *)

Lemma cut_line_spec k s :
  let '(l, rest, found) := cut_line k s in
  s = l +:+ rest ∧ (String.length l <= k)%nat ∧ (found = false → rest = "" ∨ String.length l = k) ∧ (found = true → l ≠ "").
Proof.
  revert s. induction k as [|k IH]; intros s; [cbn; by split_and!; auto|].
  destruct s as [|c s]; cbn [cut_line]; [split_and!; auto; cbn; lia|].
  destruct (Ascii.eqb_spec c LF) as [-> |Hc]; [split_and!; auto; cbn; lia|].
  specialize (IH s). destruct (cut_line k s) as [[l rest] found]. destruct IH as (-> & Hl & Hf & _).
  split_and!; [done|cbn; lia| |done]. intros Hx. destruct (Hf Hx) as [?|?]; [by left|right; cbn; lia].
Qed.

Lemma ReadSlice_spec r :
  let '(l, e, r') := ReadSlice r in
  rd_rest r = l +:+ rd_rest r' ∧ (String.length l <= bufio_size)%nat ∧ rd_fails r' = rd_fails r ∧
  match e with SFull => String.length l = bufio_size | SEnd => rd_rest r' = "" | SLine => l ≠ "" end.
Proof.
  unfold ReadSlice. pose proof (cut_line_spec bufio_size (rd_rest r)) as H.
  destruct (cut_line _ _) as [[l rest] found]. destruct H as (H1 & H2 & H3 & H4).
  destruct found; [by split_and!; auto|]. destruct (String.eqb_spec rest "") as [-> |Hr]; cbn [andb].
  - destruct (Nat.ltb_spec (String.length l) bufio_size); cbn [orb]; [done|]. destruct (rd_eager r); [done|].
    split_and!; [done|done|done|lia].
  - split_and!; [done|done|done|]. by destruct (H3 eq_refl).
Qed.

Lemma bufio_pos : (0 < bufio_size)%nat.
Proof. unfold bufio_size. lia. Qed.

(** The reader always returns a line, which is what it consumed. *)
Lemma capped_loop_spec fuel max sb r :
  (String.length (rd_rest r) < fuel)%nat → str_len sb <= max →
  ∃ line e r', capped_loop fuel max sb r = Some (line, e, r') ∧
    sb +:+ rd_rest r = line +:+ rd_rest r' ∧ str_len line <= max + 4096 ∧ rd_fails r' = rd_fails r ∧
    match e with
    | LOk => (String.length (rd_rest r') < String.length (rd_rest r))%nat
    | LTooLong => max < str_len line
    | LEOF => rd_rest r' = "" ∧ rd_fails r = false
    | LErr => rd_rest r' = "" ∧ rd_fails r = true
    end.
Proof.
  revert sb r. induction fuel as [|fuel IH]; intros sb r Hf Hs; [lia|]. cbn [capped_loop].
  pose proof (ReadSlice_spec r) as H. destruct (ReadSlice r) as [[l e] r']. destruct H as (H1 & H2 & H3 & H4). cbv zeta.
  assert (String.length (rd_rest r) = String.length l + String.length (rd_rest r'))%nat as Hl
    by (rewrite H1, str_length_app; lia).
  assert (str_len (sb +:+ l) = str_len sb + str_len l ∧ str_len l <= 4096) as [Hsl Hll].
  { unfold str_len in *. rewrite str_length_app. unfold bufio_size in H2. lia. }
  destruct e.
  - exists (sb +:+ l), LOk, r'. split_and!; [done|by rewrite H1, str_app_assoc|lia|done|].
    destruct l; [done|]. cbn in Hl. lia.
  - pose proof bufio_pos. destruct (Z.ltb_spec max (str_len (sb +:+ l))) as [Hlt|Hge].
    + exists (sb +:+ l), LTooLong, r'. split_and!; [done|by rewrite H1, str_app_assoc|lia|done|done].
    + destruct (IH (sb +:+ l) r' ltac:(lia) Hge) as (line & e & r2 & E & E1 & E2 & E3 & E4).
      exists line, e, r2. split_and!; [done|by rewrite H1, <- str_app_assoc|done|congruence|].
      rewrite H3 in E4. destruct e; try done. lia.
  - exists (sb +:+ l), (if rd_fails r' then LErr else LEOF), r'.
    split_and!; [done|by rewrite H1, str_app_assoc|lia|done|]. rewrite <- H3. by destruct (rd_fails r') eqn:E.
Qed.

(** Lines within the cap are read one by one, whatever the size of the buffer. *)
Lemma cut_line_at k line rest :
  no_byte LF line →
  cut_line k (line +:+ String LF rest) =
  if (String.length line <? k)%nat then (line +:+ lf, rest, true) else (str_take k line, str_drop k line +:+ String LF rest, false).
Proof.
  revert line. induction k as [|k IH]; intros line Hn; [by destruct line|]. destruct line as [|c line].
  - change ("" +:+ String LF rest) with (String LF rest). cbn [cut_line]. by rewrite Ascii.eqb_refl.
  - apply no_byte_cons in Hn as [Hc Hn]. rewrite str_app_cons. cbn [cut_line].
    rewrite (proj2 (Ascii.eqb_neq _ _)) by congruence. rewrite (IH line Hn).
    change (String.length (String c line) <? S k)%nat with (String.length line <? k)%nat. by destruct (_ <? _)%nat.
Qed.

Lemma no_byte_drop c k s : no_byte c s → no_byte c (str_drop k s).
Proof. rewrite <- (str_take_drop k s) at 1. by intros [_ ?]%no_byte_app. Qed.

Lemma capped_loop_line fuel max sb line rest fails eager :
  no_byte LF line → str_len sb + str_len line <= max → (String.length line < fuel)%nat →
  capped_loop fuel max sb {| rd_rest := line +:+ String LF rest; rd_fails := fails; rd_eager := eager |} =
  Some (sb +:+ line +:+ lf, LOk, {| rd_rest := rest; rd_fails := fails; rd_eager := eager |}).
Proof.
  revert sb line. induction fuel as [|fuel IH]; intros sb line Hn Hm Hf; [lia|]. cbn [capped_loop]. unfold ReadSlice. cbn [rd_rest].
  rewrite (cut_line_at _ _ _ Hn). destruct (Nat.ltb_spec (String.length line) bufio_size) as [Hl|Hl]; [done|].
  rewrite (proj2 (String.eqb_neq (str_drop bufio_size line +:+ String LF rest) "")) by (by destruct (str_drop bufio_size line)).
  cbn [andb rd_fails rd_eager]. cbv zeta.
  assert (String.length line = String.length (str_take bufio_size line) + String.length (str_drop bufio_size line))%nat as Hs
    by (by rewrite <- str_length_app, str_take_drop).
  assert (String.length (str_take bufio_size line) = bufio_size) as Ht by (rewrite str_drop_len in Hs; lia).
  pose proof bufio_pos. unfold str_len in *. rewrite str_length_app, (proj2 (Z.ltb_ge _ _)) by lia.
  rewrite (IH (sb +:+ str_take bufio_size line) (str_drop bufio_size line)); [|by apply no_byte_drop|rewrite str_length_app; lia|lia].
  by rewrite str_app_assoc, <- (str_app_assoc (str_take _ _)), str_take_drop.
Qed.

(** A body of complete lines. *)
Definition printed_lines (ls : list string) : string := foldr (λ l s, l +:+ String LF s) "" ls.

Lemma read_lines_exact fuel ls fails eager :
  Forall (λ l, no_byte LF l ∧ str_len l <= sseMaxEventBytes) ls → (length ls < fuel)%nat →
  read_lines fuel {| rd_rest := printed_lines ls; rd_fails := fails; rd_eager := eager |} =
  (((λ l, (l +:+ lf, LOk)) <$> ls) ++ [("", if fails then LErr else LEOF)])%list.
Proof.
  intros Hls. revert fuel. induction Hls as [|l ls [Hn Hm] Hls IH]; intros [|fuel] Hf; cbn [length] in Hf; try lia.
  - cbn [read_lines]. replace (readCappedLine _ _) with (Some ("", if fails then LErr else LEOF, {| rd_rest := ""; rd_fails := fails; rd_eager := eager |}))
      by (by destruct fails, eager; vm_compute). by destruct fails.
  - cbn [read_lines printed_lines foldr]. unfold readCappedLine. cbn [rd_rest].
    rewrite (capped_loop_line _ _ "" l) by (done || (rewrite str_length_app; cbn; lia) || (unfold str_len in *; cbn; lia)).
    fold (printed_lines ls). by rewrite IH by lia.
Qed.

Lemma printed_lines_length ls : (length ls <= String.length (printed_lines ls))%nat.
Proof. induction ls as [|l ls IH]; [cbn; lia|]. cbn [printed_lines foldr length]. fold (printed_lines ls). rewrite str_length_app. cbn. lia. Qed.

Definition all_lines (ls : list (string * line_end)) : string := foldr (λ x s, x.1 +:+ s) "" ls.

Lemma max_pos : 0 <= sseMaxEventBytes.
Proof. by vm_compute. Qed.

Lemma read_lines_spec fuel r :
  (String.length (rd_rest r) < fuel)%nat →
  ∃ init line e rest, read_lines fuel r = (init ++ [(line, e)])%list ∧
    (∀ x, x ∈ init → x.2 = LOk) ∧ (∀ x, x ∈ read_lines fuel r → str_len x.1 <= sseMaxEventBytes + 4096) ∧
    rd_rest r = all_lines (read_lines fuel r) +:+ rest ∧
    match e with
    | LOk => False
    | LTooLong => sseMaxEventBytes < str_len line
    | LEOF => rest = "" ∧ rd_fails r = false
    | LErr => rest = "" ∧ rd_fails r = true
    end.
Proof.
  revert r. induction fuel as [|fuel IH]; intros r Hf; [lia|]. cbn [read_lines].
  unfold readCappedLine. destruct (capped_loop_spec (2 + String.length (rd_rest r)) sseMaxEventBytes "" r ltac:(lia) max_pos)
    as (line & e & r' & -> & E1 & E2 & E3 & E4).
  change ("" +:+ rd_rest r) with (rd_rest r) in E1.
  assert (e ≠ LOk → ∃ init line0 e0 rest, [(line, e)] = (init ++ [(line0, e0)])%list ∧
    (∀ x, x ∈ init → x.2 = LOk) ∧ (∀ x, x ∈ [(line, e)] → str_len x.1 <= sseMaxEventBytes + 4096) ∧
    rd_rest r = all_lines [(line, e)] +:+ rest ∧
    match e0 with
    | LOk => False
    | LTooLong => sseMaxEventBytes < str_len line0
    | LEOF => rest = "" ∧ rd_fails r = false
    | LErr => rest = "" ∧ rd_fails r = true
    end) as Hlast.
  { intros He. exists [], line, e, (rd_rest r'). split_and!; [done|by intros x ?%not_elem_of_nil| | |by destruct e].
    - by intros x ->%list_elem_of_singleton.
    - cbn. by rewrite str_app_nil_r. }
  destruct e; try (by apply Hlast).
  destruct (IH r' ltac:(lia)) as (init & line' & e' & rest & F1 & F2 & F3 & F4 & F5).
  exists ((line, LOk) :: init), line', e', rest. split_and!.
  - by rewrite F1.
  - intros x [-> |Hx]%elem_of_cons; [done|by apply F2].
  - intros x [-> |Hx]%elem_of_cons; [done|by apply F3].
  - change (rd_rest r = (line +:+ all_lines (read_lines fuel r')) +:+ rest). by rewrite str_app_assoc, <- F4.
  - by rewrite <- E3.
Qed.

(** ** Deliveries *)

(** The events the relay wrote, or tried to. *)
Definition attempts (out : list (client_write * bool)) : list string :=
  omap (λ x, match x.1 with CEvent ev => Some ev | _ => None end) out.

Definition spaced (l : list string) : Prop :=
  ∀ i j x y, (i < j <= i + sseRingSize)%nat → l !! i = Some x → l !! j = Some y → hashEvent x ≠ hashEvent y.

Lemma trim_right_length f s : (String.length (trim_right f s) <= String.length s)%nat.
Proof. induction s as [|c s IH]; cbn [trim_right]; [done|]. destruct (trim_right f s); [destruct (f c)|]; cbn in *; lia. Qed.

Section deliveries.
Context `{RL : RateLib} `{NL : NetLib}.
Implicit Types s : sse (RL := RL).

Record sse_ok s : Prop := {
  so_ring : ring_rep (s_seen s) (hashEvent <$> attempts (s_out s));
  so_spaced : spaced (attempts (s_out s));
  so_event : str_len (s_event s) <= sseMaxEventBytes;
  so_size ev : ev ∈ attempts (s_out s) → str_len ev <= sseMaxEventBytes + 2;
}.

(** Only the ring, the attempts and the accumulated event matter. *)
Lemma sse_ok_same s s' :
  s_seen s' = s_seen s → attempts (s_out s') = attempts (s_out s) → str_len (s_event s') <= sseMaxEventBytes → sse_ok s → sse_ok s'.
Proof. intros E1 E2 E3 [H1 H2 H3 H4]. constructor; rewrite ?E1, ?E2; done. Qed.

Lemma attempts_snoc out c ok : attempts (out ++ [(c, ok)]) = (attempts out ++ match c with CEvent ev => [ev] | _ => [] end)%list.
Proof. unfold attempts. rewrite omap_app. by destruct c. Qed.

Lemma spaced_snoc l ev r :
  ring_rep r (hashEvent <$> l) → ring_has (hashEvent ev) r = false → spaced l → spaced (l ++ [ev]).
Proof.
  intros Hr Hh Hs i j x y Hij Hi Hj. destruct (decide (j = length l)) as [-> |Hne].
  - rewrite lookup_app_r, Nat.sub_diag in Hj by lia. injection Hj as <-. rewrite lookup_app_l in Hi by lia.
    intros He. apply not_true_iff_false in Hh. apply Hh. apply (ring_has_spec _ _ _ Hr). left. exists i.
    rewrite list_lookup_fmap, Hi, length_fmap. cbn. split; [by rewrite He|lia].
  - assert (j < length l)%nat as Hj' by (apply lookup_lt_Some in Hj; rewrite length_app in Hj; cbn in Hj; lia).
    rewrite lookup_app_l in Hi, Hj by lia. by eapply Hs.
Qed.

Lemma flush_ok wok force s : sse_ok s → sse_ok (flushSSEEvent wok force s).1.1.
Proof.
  intros Hok. unfold flushSSEEvent. destruct (String.eqb _ _); [done|]. cbv zeta. set (ev := if force then _ else _).
  assert (str_len ev <= sseMaxEventBytes + 2) as Hev.
  { pose proof (so_event _ Hok) as He. subst ev. destruct force; [|lia]. unfold str_len in *. rewrite !str_length_app. cbn [lf String.length].
    pose proof (trim_right_length (in_set crlf) (s_event s)). unfold TrimRight. lia. }
  pose proof max_pos. destruct (ring_has _ _) eqn:Eh; [by apply (sse_ok_same s)|].
  destruct Hok as [H1 H2 H3 H4].
  assert (∀ s', s_seen s' = ring_add (hashEvent ev) (s_seen s) → attempts (s_out s') = (attempts (s_out s) ++ [ev])%list →
    str_len (s_event s') <= sseMaxEventBytes → sse_ok s') as Hnew.
  { intros s' E1 E2 E3. constructor; rewrite ?E1, ?E2; [|by eapply spaced_snoc|done|].
    - rewrite fmap_app. by apply ring_add_rep.
    - intros x. rewrite elem_of_app, list_elem_of_singleton. intros [Hx| ->]; [by apply H4|done]. }
  destruct wok; apply Hnew; cbn; rewrite ?attempts_snoc; done.
Qed.

Lemma line_end_ok id tok io e s : sse_ok s → sse_ok (sse_line_end id tok io e s).
Proof.
  intros Hok. pose proof (so_event _ Hok) as He.
  assert (∀ w s, sse_ok s → sse_ok (sse_set_w w s)) as Hw by (intros w' s' H'; apply (sse_ok_same s'); [..|apply H'|]; done).
  assert (∀ s, sse_ok s → sse_ok (sse_return s)) as Hret by (intros s' H'; apply (sse_ok_same s'); [..|apply H'|]; done).
  destruct e; cbn [sse_line_end]; [done| | |].
  - pose proof (flush_ok (li_ok2 io) true s Hok) as Hf. destruct (flushSSEEvent _ _ s) as [[s' wrote] ok]. cbn [fst] in Hf.
    destruct ok; [|by apply Hret]. cbv zeta. unfold sse_credit. apply Hret.
    assert (∀ s, sse_ok s → sse_ok (sse_set_credited s)) as Hcr by (intros s2 H'; apply (sse_ok_same s2); [..|apply H'|]; done).
    destruct (wrote && _ && _); [by apply Hcr, Hw|]. destruct (s_credited s'); [done|by apply Hw].
  - apply Hret. destruct (li_ctxErr io); [done|]. destruct (s_credited s); by apply Hw.
  - apply Hret. destruct (li_ctxErr io); [done|]. destruct (s_credited s); by apply Hw.
Qed.

Lemma sse_step_ok id tok s ev : sse_ok s → sse_ok (sse_step id tok s ev).
Proof.
  intros Hok. pose proof (so_event _ Hok) as He. unfold sse_step. destruct (s_returned s); [done|].
  destruct ev as [| |ok|io]; [by apply (sse_ok_same s)..| |].
  - destruct ok; apply (sse_ok_same s); try done; cbn; by rewrite attempts_snoc, app_nil_r.
  - destruct (s_lines s) as [|[line e] rest]; [done|]. unfold sse_line.
    destruct (String.eqb line ""); [by apply line_end_ok, (sse_ok_same s)|].
    cbn [s_event sse_set_lines]. destruct (Z.ltb_spec sseMaxEventBytes (str_len (s_event s) + str_len line)) as [Hlt|Hge];
      [by apply (sse_ok_same s)|]. cbv zeta.
    assert (str_len (s_event s +:+ line) <= sseMaxEventBytes) as Hl by (unfold str_len in *; rewrite str_length_app; lia).
    set (s1 := sse_set_event _ _). assert (sse_ok s1) as H1.
    { subst s1. destruct (_ && _); (apply (sse_ok_same s); [done|done|exact Hl|done]). }
    clearbody s1. destruct (_ || _); [|by apply line_end_ok].
    pose proof (flush_ok (li_ok1 io) false s1 H1) as Hf. destruct (flushSSEEvent _ _ s1) as [[s2 wrote] ok]. cbn [fst] in Hf.
    pose proof (so_event _ Hf). destruct ok; [|by apply (sse_ok_same s2)]. apply line_end_ok. unfold sse_credit.
    destruct (wrote && _ && _); by apply (sse_ok_same s2).
Qed.

Context (NewRequest_ok : string → string → bool).

Lemma stream_ok id r it s : sse_ok s → sse_ok (stream NewRequest_ok id r it s).1.
Proof.
  intros Hok. pose proof (so_event _ Hok) as He. pose proof max_pos as Hm. unfold stream. destruct (ByID _ _) as [u|]; [|done].
  destruct (newUpstreamRequest _ _ _ _); [|done]. destruct (pop_io _) as [i w]. cbv zeta.
  destruct (Upstream_Do _ _ _) as [[u' res] tok].
  destruct res as [|err|status tracked]; [by apply (sse_ok_same s)| |].
  - destruct (io_reply i), (io_cancel i); by apply (sse_ok_same s).
  - destruct (io_reply i) as [|st hdr content readErr]; [destruct (io_cancel i); by apply (sse_ok_same s)|].
    destruct (open_body _ _) as [h w2]. destruct (negb (status =? 200)); [by apply (sse_ok_same s)|].
    set (s1 := if s_sent (sse_set_w w2 s) then _ else _). assert (sse_ok s1) as H1.
    { subst s1. destruct (s_sent _); apply (sse_ok_same s); try done. cbn. by rewrite attempts_snoc, app_nil_r. }
    clearbody s1. destruct (negb (s_sent s1)); [by apply (sse_ok_same s1); [..|apply H1|]|].
    set (s2 := sse_connect _ s1). assert (sse_ok s2) as H2 by (by apply (sse_ok_same s1)).
    clearbody s2. clear Hok He H1. assert (sse_ok (foldl (sse_step id tok) s2 (it_sched it))) as H3.
    { revert s2 H2. induction (it_sched it) as [|ev evs IH]; intros s2 H2; [done|]. cbn [foldl]. by apply IH, sse_step_ok. }
    destruct (s_returned _); [|done]. cbn [fst]. by apply (sse_ok_same (foldl (sse_step id tok) s2 (it_sched it))); [..|apply H3|].
Qed.

Lemma relay_ok r required its sticky s : sse_ok s → sse_ok (relay_loop NewRequest_ok r required its sticky s).1.
Proof.
  revert sticky s. induction its as [|it its IH]; intros sticky s Hok; cbn [relay_loop]; [done|].
  destruct (negb (it_live it)); [done|]. destruct (pickUpstream _ _ _ _) as [p [u|]]; cbv zeta.
  - assert (sse_ok (sse_set_w (set_pool p (s_w s)) s)) as H1 by (by apply (sse_ok_same s); [..|apply Hok|]).
    pose proof (stream_ok (u_ID u) r it _ H1) as H2. destruct (stream _ _ _ _ _) as [s' [connected|]]; [|done]. cbn [fst] in H2.
    destruct (it_ctxErr it); [done|]. destruct (_ && _ && _); [done|]. destruct (it_waitDone it); [done|by apply IH].
  - assert (sse_ok (sse_set_w (set_pool p (s_w s)) s)) as H1 by (by apply (sse_ok_same s); [..|apply Hok|]).
    destruct (_ && _); [done|]. destruct (it_waitDone it); [done|by apply IH].
Qed.

Lemma Serve_ok flusher wh r prefer required its (w : World RL) :
  sse_ok (SSERelay_Serve NewRequest_ok flusher wh r prefer required its w).1.
Proof.
  unfold SSERelay_Serve. cbv zeta. set (s0 := {| s_w := _; s_seen := _; s_out := _; s_hdr := _; s_sent := _; s_event := _;
    s_hasField := _; s_credited := _; s_lines := _; s_returned := _ |}).
  assert (sse_ok s0) as H0.
  { constructor; [apply newSeenRing_rep|by intros i j x y _ ?|by vm_compute|by intros ev ?%not_elem_of_nil]. }
  destruct (negb flusher); [done|]. by apply relay_ok.
Qed.
End deliveries.

(** ** Ownership *)

Section sse_ownership.
Context `{RL : RateLib} `{NL : NetLib}.
Context (NewRequest_ok : string → string → bool).
Context (F : list CBToken) (base : string → Z) (O : gmap nat string).
Abbreviation holds := (holding F base O).
Implicit Types s : sse (RL := RL).

(** Settling a token that stays in hand. *)
Lemma holds_settle_keep e l o now w : holds (e :: l) w → holds (e :: l) (settle_token (ex_tok e) o now w).
Proof.
  intros [H1 H2 H3 H4]. constructor; [|by rewrite settle_open|done..].
  eapply owned_mono; [|eapply owned_settle; exact H1]. intros t Ht. by right.
Qed.

Lemma probe_CBFailure T id now c : probe_owned T id c → probe_owned T id (CBFailure now c).
Proof.
  intros H Hp. assert (cbProbeInFlight c = true ∧ cbProbeGen (CBFailure now c) = cbProbeGen c) as [Hc ->].
  { revert Hp. unfold CBFailure, cbRecordFailureLocked, cbFailAndOpenLocked, cbOpenLocked, cbTransitionLocked. by repeat case_match. }
  by apply H.
Qed.

Lemma holds_CBFailure id now l w : holds l w → holds l (on_upstream id (with_cb (CBFailure now)) w).
Proof.
  intros [H1 H2 H3 H4]. constructor; [|done..]. eapply owned_update; [exact H1|done| |done].
  intros u Hu. split; [|done]. apply probe_CBFailure. by apply (own_probe _ _ _ H1).
Qed.

Lemma flush_world wok force s : s_w (flushSSEEvent wok force s).1.1 = s_w s.
Proof. unfold flushSSEEvent. destruct (String.eqb _ _); [done|]. cbv zeta. destruct (ring_has _ _); [done|]. by destruct wok. Qed.

Lemma line_end_holds e l io le s :
  holds (e :: l) (s_w s) → holds (e :: l) (s_w (sse_line_end (ex_uid e) (ex_tok e) io le s)).
Proof.
  intros H. destruct le; cbn [sse_line_end]; [done| | |].
  - pose proof (flush_world (li_ok2 io) true s) as Hf. destruct (flushSSEEvent _ _ s) as [[s' wrote] ok]. cbn [fst] in Hf.
    rewrite <- Hf in H. destruct ok; [|done]. cbv zeta. unfold sse_credit.
    destruct (wrote && _ && _); cbn; [by apply holds_settle_keep|]. destruct (s_credited s'); [done|by apply holds_settle_keep].
  - cbn. destruct (li_ctxErr io); [done|]. destruct (s_credited s); [by apply holds_CBFailure|by apply holds_settle_keep].
  - cbn. destruct (li_ctxErr io); [done|]. destruct (s_credited s); [by apply holds_CBFailure|by apply holds_settle_keep].
Qed.

Lemma sse_step_holds e l s ev :
  holds (e :: l) (s_w s) → holds (e :: l) (s_w (sse_step (ex_uid e) (ex_tok e) s ev)).
Proof.
  intros H. unfold sse_step. destruct (s_returned s); [done|]. destruct ev as [| |ok|io]; [done|done|by destruct ok|].
  destruct (s_lines s) as [|[line le] rest]; [done|]. unfold sse_line.
  destruct (String.eqb line ""); [by apply line_end_holds|]. destruct (_ <? _); [done|]. cbv zeta.
  set (s1 := sse_set_event _ _). assert (s_w s1 = s_w s) as E1 by (subst s1; by destruct (_ && _)). rewrite <- E1 in H.
  clearbody s1. destruct (_ || _); [|by apply line_end_holds].
  pose proof (flush_world (li_ok1 io) false s1) as Hf. destruct (flushSSEEvent _ _ s1) as [[s2 wrote] ok]. cbn [fst] in Hf.
  rewrite <- Hf in H. destruct ok; [|done]. apply line_end_holds. unfold sse_credit.
  destruct (wrote && _ && _); [by apply holds_settle_keep|done].
Qed.

(** Closing the body and releasing the token. *)
Lemma defer_holds h resp id tok now l s :
  holds ({| ex_handle := Some h; ex_resp := resp; ex_uid := id; ex_tok := tok |} :: l) (s_w s) → holds l (s_w (sse_defer h tok now s)).
Proof. intros H. by apply (holds_drop _ _ _ {| ex_handle := Some h; ex_resp := resp; ex_uid := id; ex_tok := tok |}). Qed.

Lemma stream_holds id r it l s :
  holds l (s_w s) →
  match stream NewRequest_ok id r it s with
  | (s', Some _) => holds l (s_w s')
  | (s', None) => ∃ e, holds (e :: l) (s_w s')
  end.
Proof.
  intros Hw. unfold stream. destruct (ByID _ _) as [u|] eqn:Eu; [|done].
  destruct (newUpstreamRequest _ _ _ _); [|done]. destruct (pop_io (s_w s)) as [i w] eqn:Epop. cbv zeta.
  assert (holds l (log_dispatch id w) ∧ ByID (w_pool (log_dispatch id w)) id = Some u) as [Hw1 Eu1].
  { unfold pop_io in Epop. destruct (w_io (s_w s)); injection Epop as <- <-; (split; [by eapply (holds_script _ _ _ _ (s_w s))|done]). }
  set (w1 := log_dispatch id w) in *. clearbody w1. clear Hw Eu Epop w.
  set (tr := match io_reply i with RErr => _ | RResp _ _ _ _ => _ end).
  pose proof (holds_dispatch F base O (io_now i) tr id u l w1 Eu1 Hw1) as H.
  destruct (Upstream_Do (io_now i) tr u) as [[u' res] tok] eqn:Ed. cbv zeta in H.
  assert (∀ w', holding (tok :: F) base O l w' →
    holds l (s_w (sse_settle tok cbSettleRelease (it_end it)
      (if io_cancel i then sse_set_w w' s else sse_settle tok cbSettleFailure (io_done i) (sse_set_w w' s))))) as Hfail.
  { intros w' H'. cbn. destruct (io_cancel i); [by apply holds_settle_frame|]. cbn.
    apply holds_settle_frame. apply holds_frame. by apply holds_settle_frame. }
  destruct res as [|err|status tracked].
  - destruct H as [H Hz]. rewrite Hz in H by done. by apply holds_zero_frame.
  - destruct H as [H _]. destruct (io_reply i); by apply Hfail.
  - destruct (io_reply i) as [|st hdr content readErr] eqn:Er.
    { exfalso. unfold tr, Upstream_Do in Ed. by repeat case_match. }
    assert (tracked = true) as -> by (unfold tr, Upstream_Do, TrackResponse in Ed; repeat case_match; congruence).
    set (resp := {| rs_Status := status; rs_Header := hdr; rs_content := content; rs_readErr := readErr; rs_reqMethod := "GET" |}).
    specialize (H resp). destruct (open_body _ _) as [h w2]. set (x := {| ex_handle := Some h; ex_resp := resp; ex_uid := id; ex_tok := tok |}) in *.
    destruct (negb (status =? 200)).
    { apply (defer_holds h resp id). cbn. by apply (holds_settle_keep x). }
    set (s1 := if s_sent (sse_set_w w2 s) then _ else _). assert (holds (x :: l) (s_w s1)) as H1 by (subst s1; by destruct (s_sent _)).
    clearbody s1. destruct (negb (s_sent s1)); [by apply (defer_holds h resp id)|].
    set (s2 := sse_connect _ s1). assert (holds (x :: l) (s_w s2)) as H2 by done. clearbody s2.
    assert (holds (x :: l) (s_w (foldl (sse_step id tok) s2 (it_sched it)))) as H3.
    { revert s2 H2. induction (it_sched it) as [|ev evs IH]; intros s2 H2; [done|]. cbn [foldl]. apply IH. by apply (sse_step_holds x). }
    destruct (s_returned _); [by apply (defer_holds h resp id)|by exists x].
Qed.

Lemma pickUpstream_pool now (p : Pool RL) prefer required : p_upstreams (pickUpstream now p prefer required).1 = p_upstreams p.
Proof.
  unfold pickUpstream. destruct (negb _).
  - unfold Pool.Get, GetForPath. set (pr := if nonempty prefer then _ else _). destruct pr; [done|].
    unfold SelectForPath. pose proof (select_pool now p (p_upstreams p) 1 "" false) as H.
    by destruct (selectFromCandidatesForPath _ _ _ _ _ _).
  - destruct (nonempty _); [done|]. unfold SelectMatching.
    pose proof (select_pool now p (bfilter (Selector_Match required) (p_upstreams p)) 1 "" false) as H.
    by destruct (selectFromCandidatesForPath _ _ _ _ _ _).
Qed.

Lemma relay_holds r required its sticky l s :
  holds l (s_w s) →
  match relay_loop NewRequest_ok r required its sticky s with
  | (s', RelayRunning) => holds l (s_w s') ∨ ∃ e, holds (e :: l) (s_w s')
  | (s', _) => holds l (s_w s')
  end.
Proof.
  revert sticky s. induction its as [|it its IH]; intros sticky s H; cbn [relay_loop]; [by left|].
  destruct (negb (it_live it)); [done|]. pose proof (pickUpstream_pool (it_now it) (w_pool (s_w s)) sticky required) as Hp.
  destruct (pickUpstream _ _ _ _) as [p [u|]]; cbn [fst] in Hp; apply (holds_select _ _ _ _ _ _ Hp) in H; cbv zeta.
  - pose proof (stream_holds (u_ID u) r it l (sse_set_w (set_pool p (s_w s)) s) H) as Hs.
    destruct (stream _ _ _ _ _) as [s' [connected|]]; [|by right].
    destruct (it_ctxErr it); [done|]. destruct (_ && _ && _); [done|]. destruct (it_waitDone it); [done|by apply IH].
  - destruct (_ && _); [done|]. destruct (it_waitDone it); [done|by apply IH].
Qed.
End sse_ownership.

(** ** The members of the pool stay *)

Section sse_members.
Context `{RL : RateLib} `{NL : NetLib}.
Context (NewRequest_ok : string → string → bool).
Implicit Types w : World RL.

Lemma settle_ids t o now w : pool_ids (settle_token t o now w) = pool_ids w.
Proof. apply quiet_settle. Qed.

Lemma close_ids h w : pool_ids (close_body h w) = pool_ids w.
Proof. apply quiet_close. Qed.

Lemma credit_ids tok now wrote (s : sse) : pool_ids (s_w (sse_credit tok now wrote s)) = pool_ids (s_w s).
Proof. unfold sse_credit. destruct (_ && _ && _); [|done]. apply settle_ids. Qed.

Lemma line_end_ids id tok io e (s : sse) : pool_ids (s_w (sse_line_end id tok io e s)) = pool_ids (s_w s).
Proof.
  destruct e; cbn [sse_line_end]; [done| |by destruct (li_ctxErr io); [|destruct (s_credited s); [apply quiet_on|apply settle_ids]]..].
  pose proof (flush_world (li_ok2 io) true s) as E. destruct (flushSSEEvent _ _ _) as [[s' wrote] [|]]; cbn [fst] in E; [|by rewrite <- E].
  rewrite <- E, <- (credit_ids tok (li_now io) wrote s'). cbn. destruct (s_credited _); [done|apply settle_ids].
Qed.

Lemma step_ids id tok ev (s : sse) : pool_ids (s_w (sse_step id tok s ev)) = pool_ids (s_w s).
Proof.
  unfold sse_step. destruct (s_returned s); [done|]. destruct ev as [| |[]|io]; [done..|].
  destruct (s_lines s) as [|[line e] rest]; [done|]. unfold sse_line. destruct (String.eqb line ""); [by rewrite line_end_ids|].
  destruct (_ <? _); [done|]. cbv zeta. set (s1 := sse_set_event _ _). assert (s_w s1 = s_w s) as E1 by (by subst s1; destruct (_ && _)).
  destruct (_ || _); [|by rewrite line_end_ids, E1].
  pose proof (flush_world (li_ok1 io) false s1) as E. destruct (flushSSEEvent _ _ s1) as [[s' wrote] [|]]; cbn [fst] in E; rewrite <- E1, <- E; [|done].
  rewrite line_end_ids. apply (credit_ids tok (li_now io) wrote s').
Qed.

Lemma stream_ids id r it (s : sse) : pool_ids (s_w (stream NewRequest_ok id r it s).1) = pool_ids (s_w s).
Proof.
  unfold stream. destruct (ByID _ _) as [u|] eqn:Eu; [|done]. destruct (newUpstreamRequest _ _ _ _); [|done].
  destruct (pop_io (s_w s)) as [i w1] eqn:Epop. assert (w_pool w1 = w_pool (s_w s)) as Ep by (unfold pop_io in Epop; destruct (w_io _); by injection Epop as <- <-).
  set (tr := match io_reply i with RErr => _ | _ => _ end). pose proof (do_spec (io_now i) tr u) as Hd.
  destruct (Upstream_Do (io_now i) tr u) as [[u' res] tok]. destruct Hd as (Ei & _). cbv zeta.
  assert (pool_ids (on_upstream id (λ _, u') (log_dispatch id w1)) = pool_ids (s_w s)) as E2.
  { etransitivity; [apply quiet_on; intros v <-; rewrite Ei; by apply ByID_id in Eu|]. unfold pool_ids. cbn. by rewrite Ep. }
  set (w2 := on_upstream _ _ _) in *. clearbody w2.
  destruct res as [|err|status tracked]; [exact E2| |].
  { unfold sse_settle. cbn [fst s_w sse_set_w]. rewrite settle_ids. by destruct (io_cancel i); [|cbn [s_w sse_set_w]; rewrite settle_ids]. }
  destruct (io_reply i) as [|st hdr content readErr]; [unfold sse_settle; cbn [fst s_w sse_set_w]; rewrite settle_ids; by destruct (io_cancel i); [|cbn [s_w sse_set_w]; rewrite settle_ids]|].
  cbn [open_body]. set (w3 := {| w_pool := _; w_next := S _; w_open := _; w_log := _; w_io := _ |}).
  assert (pool_ids w3 = pool_ids (s_w s)) as E3 by exact E2. clearbody w3.
  destruct (negb _); [unfold sse_defer, sse_settle; cbn [fst s_w sse_set_w]; by rewrite settle_ids, close_ids, settle_ids|].
  set (s1 := if s_sent _ then _ else _). assert (s_w s1 = w3) as E4 by (subst s1; by destruct (s_sent _)). clearbody s1.
  destruct (negb _); [unfold sse_defer, sse_settle; cbn [fst s_w sse_set_w]; by rewrite settle_ids, close_ids, E4|].
  set (s2 := foldl _ _ _). assert (pool_ids (s_w s2) = pool_ids (s_w s)) as E5.
  { subst s2. rewrite <- E3, <- E4. change (s_w s1) with (s_w (sse_connect (readSSELines {| rd_rest := content; rd_fails := readErr; rd_eager := it_eager it |}) s1)).
    generalize (sse_connect (readSSELines {| rd_rest := content; rd_fails := readErr; rd_eager := it_eager it |}) s1).
    induction (it_sched it) as [|ev l IH]; intros s0; [done|]. cbn [foldl]. by rewrite IH, step_ids. }
  destruct (s_returned s2); [|exact E5]. unfold sse_defer, sse_settle; cbn [fst s_w sse_set_w]. by rewrite settle_ids, close_ids.
Qed.

Lemma relay_ids r required its sticky (s : sse) :
  pool_ids (s_w (relay_loop NewRequest_ok r required its sticky s).1) = pool_ids (s_w s).
Proof.
  revert sticky s. induction its as [|it its IH]; intros sticky s; cbn [relay_loop]; [done|].
  destruct (negb (it_live it)); [done|]. pose proof (pickUpstream_pool (it_now it) (w_pool (s_w s)) sticky required) as Hp.
  destruct (pickUpstream _ _ _ _) as [p [u|]]; cbn [fst] in Hp; cbv zeta;
    assert (pool_ids (set_pool p (s_w s)) = pool_ids (s_w s)) as E by (unfold pool_ids; cbn; by rewrite Hp).
  - pose proof (stream_ids (u_ID u) r it (sse_set_w (set_pool p (s_w s)) s)) as Hs.
    destruct (stream _ _ _ _ _) as [s' [connected|]]; cbn [fst s_w sse_set_w] in Hs; rewrite <- E, <- Hs; [|done].
    destruct (it_ctxErr it); [done|]. destruct (_ && _ && _); [done|]. destruct (it_waitDone it); [done|apply IH].
  - rewrite <- E. destruct (_ && _); [done|]. destruct (it_waitDone it); [done|]. by rewrite IH.
Qed.
End sse_members.

(** ** Properties *)

Section sse_properties.
Context `{RL : RateLib} `{NL : NetLib}.
Context (NewRequest_ok : string → string → bool).


(** A relay that has returned, whatever its upstreams sent and whenever the client left, has given
    back every recovery probe and closed every upstream body; while it runs it holds at most the one
    stream it is relaying. *)
Theorem sse_no_leak F base O flusher wh r prefer required its (w : World RL) :
  holding F base O [] w →
  match SSERelay_Serve NewRequest_ok flusher wh r prefer required its w with
  | (s, RelayRunning) => ∃ l, (length l <= 1)%nat ∧ holding F base O l (s_w s)
  | (s, _) => holding F base O [] (s_w s)
  end.
Proof.
  intros H. unfold SSERelay_Serve. cbv zeta. destruct (negb flusher); [done|].
  set (s0 := {| s_w := w; s_seen := _; s_out := _; s_hdr := _; s_sent := _; s_event := _; s_hasField := _; s_credited := _;
                s_lines := _; s_returned := _ |}).
  pose proof (relay_holds NewRequest_ok F base O r required its prefer [] s0 H) as Hr.
  destruct (relay_loop _ _ _ _ _ s0) as [s [| |]]; [done|done|]. destruct Hr as [Hr|[e Hr]]; [exists []|exists [e]]; split; auto; cbn; lia.
Qed.

(** C29: the line reader is exact and bounded: the lines it hands out, in order, reassemble the upstream's
    body (up to the line that exceeds the cap, if one does), only the last one lacks its newline and says
    how the body ended, and no line is longer than the cap plus one read buffer; and the relay
    never accumulates or writes more than the cap (plus a forced terminator) per event. *)
Theorem sse_bounded content fails eager flusher wh r prefer required its (w : World RL) :
  let ls := readSSELines {| rd_rest := content; rd_fails := fails; rd_eager := eager |} in
  (∃ init line e rest, ls = (init ++ [(line, e)])%list ∧ (∀ x, x ∈ init → x.2 = LOk) ∧ content = all_lines ls +:+ rest ∧
     match e with
     | LOk => False
     | LTooLong => sseMaxEventBytes < str_len line
     | LEOF => rest = "" ∧ fails = false
     | LErr => rest = "" ∧ fails = true
     end) ∧
  (∀ x, x ∈ ls → str_len x.1 <= sseMaxEventBytes + 4096) ∧
  let s := (SSERelay_Serve NewRequest_ok flusher wh r prefer required its w).1 in
  str_len (s_event s) <= sseMaxEventBytes ∧ ∀ ev, ev ∈ attempts (s_out s) → str_len ev <= sseMaxEventBytes + 2.
Proof.
  cbv zeta. unfold readSSELines. cbn [rd_rest].
  destruct (read_lines_spec (2 + String.length content) {| rd_rest := content; rd_fails := fails; rd_eager := eager |} ltac:(cbn; lia))
    as (init & line & e & rest & E1 & E2 & E3 & E4 & E5).
  destruct (Serve_ok NewRequest_ok flusher wh r prefer required its w) as [_ _ H3 H4].
  by split_and!; [exists init, line, e, rest|..].
Qed.
End sse_properties.

(** A new ring already answers yes to the hash zero, which no event has been recorded under. *)
Lemma fresh_ring_has_zero : ring_has 0 (newSeenRing sseRingSize) = true ∧
  hashEvent (String (Ascii.ascii_of_nat 204) (String (Ascii.ascii_of_nat 36) (String (Ascii.ascii_of_nat 49)
    (String (Ascii.ascii_of_nat 196) "")))) = 0.
Proof. split; vm_compute; reflexivity. Qed.

(** ** Witness *)

Module SSEDemo.
Import ExecDemo BoundsDemo.
#[local] Existing Instance DemoNet.

Definition demo_line_io : line_io := {| li_now := 3; li_ok1 := true; li_ok2 := true; li_ctxErr := false |}.

(** A stream that repeats an event and ends. *)
Definition demo_stream : io :=
  {| io_now := 1; io_done := 2; io_ctxDone := false; io_cancel := false;
     io_reply := RResp 200 ∅ ("data: 1" +:+ lf +:+ lf +:+ "data: 1" +:+ lf +:+ lf +:+ "data: 2" +:+ lf +:+ lf) false |}.

Definition demo_iteration : iteration :=
  {| it_now := 1; it_live := true; it_retryOk := true; it_eager := false; it_sched := replicate 8 (EvLine demo_line_io);
     it_end := 4; it_ctxErr := false; it_waitDone := true |}.

Lemma sse_no_leak_witness :
  let '(s, res) := SSERelay_Serve (λ _ _, true) true ∅ HeaderDemo.demo_request "" (ParseSelector "") [demo_iteration]
                     (demo_world [demo_stream]) in
  attempts (s_out s) = ["data: 1" +:+ lf +:+ lf; "data: 2" +:+ lf +:+ lf] ∧ holding [] (λ _, 0) ∅ [] (s_w s).
Proof.
  pose proof (sse_no_leak (λ _ _, true) [] (λ _, 0) ∅ true ∅ HeaderDemo.demo_request "" (ParseSelector "") [demo_iteration]
    (demo_world [demo_stream]) (demo_world_holds _)) as H.
  assert (let '(s, res) := SSERelay_Serve (λ _ _, true) true ∅ HeaderDemo.demo_request "" (ParseSelector "") [demo_iteration]
            (demo_world [demo_stream]) in
    (attempts (s_out s), match res with RelayReturned => true | _ => false end) =
    (["data: 1" +:+ lf +:+ lf; "data: 2" +:+ lf +:+ lf], true)) as E by (vm_compute; reflexivity).
  destruct (SSERelay_Serve _ _ _ _ _ _ _ _) as [s [| |]]; [|discriminate E..]. split; [by injection E|exact H].
Defined.
End SSEDemo.
