(* ===== verification/Watch.v ===== *)
(** * Subscriptions to the upstreams' event streams

    [network/head_watcher.go]: [openHeadEvents], [subscribe], [watchUpstream] and [run].  Each upstream has
    a goroutine that subscribes to its event stream, hands the events to the handlers of
    [HeadWatcher], and reconnects with a growing delay.

    What the upstream answers, the lines it sends and the order in which lines, the idle timer and the end of
    the context are seen are arguments.  The lines come from the reader of [SSE]. *)

From S2P Require Import Prelude GoStrings GoFloat Config CircuitBreaker ScoreTracker AutoTuner BlockCache.
From S2P Require Import Upstream Selector PoolOrder Pool PoolState Health MemoryStore Regexp Cache ApiPath Url CacheKey Paths Historical Session HeadWatcher Consensus Routing ConfigFile Headers Exec Ownership ExecSafety ExecBounds Hedge Serve ServeSafety SSE SSESafety.
From Stdlib Require Import Ascii.
#[local] Open Scope string_scope.
#[local] Open Scope Z_scope.

Definition headWatcherTopics : string := "head,head_v2,finalized_checkpoint,chain_reorg".
Definition headWatcherLegacyTopics : string := "head,finalized_checkpoint,chain_reorg".

(** What [u.Client.Do] delivers. *)
Inductive dialled := DialErr | DialResp (status : Z) (body : reader).

(** The response bodies of a subscription, as they are opened and closed. *)
Inductive conn_event := COpened (topics : string) | CClosed.

Inductive sub_event := SubCtx | SubIdle | SubLine (now : Z) (ctxErr : bool).

(** How [subscribe] returns; [SubRunning] has not returned yet. *)
Inductive sub_result := SubNil | SubErr | SubRunning.

#[global] Instance sub_result_eq_dec : EqDecision sub_result.
Proof. solve_decision. Defined.

Section watch.
Context `{RL : RateLib} `{RX : RegexpLib} `{HJ : HeadJSON}.
Context (NewRequest_ok : string → string → bool).

(** ** Opening *)

Definition head_events_url (u : Upstream RL) (topics : string) : string := u_URL u +:+ "/eth/v1/events?topics=" +:+ topics.

(** The request's header: the operator's headers replace the defaults. *)
Definition head_events_header (u : Upstream RL) : Header :=
  foldl (λ h kv, hdr_set kv.1 kv.2 h)
    (hdr_set "Cache-Control" "no-cache" (hdr_set "Accept" "text/event-stream" ∅)) (map_to_list (u_Headers u)).

(** [None] is an error. *)
Definition openHeadEvents (u : Upstream RL) (topics : string) (d : dialled) : option (Z * reader) :=
  if NewRequest_ok "GET" (head_events_url u topics) then
    match d with DialErr => None | DialResp status body => Some (status, body) end
  else None.

(** ** The stream *)

(** The select loop: the lines that are left, the event being collected, and the keys handed to warming
    goroutines, in order. *)
Fixpoint sub_loop (id : string) (lines : list (string * line_end)) (sched : list sub_event) (ev : eventState) (w : headWatcher)
    : headWatcher * list (list string) * sub_result :=
  match sched with
  | [] => (w, [], SubRunning)
  | SubCtx :: _ => (w, [], SubNil)
  | SubIdle :: _ => (w, [], SubErr)
  | SubLine now ctxErr :: sched =>
      match lines with
      | [] => sub_loop id [] sched ev w
      | (line, e) :: lines =>
          let '(ev, w, keys) := if String.eqb line "" then (ev, w, []) else watch_line now id line (ev, w) in
          match e with
          | LOk => let '(w, ks, res) := sub_loop id lines sched ev w in (w, keys :: ks, res)
          | _ =>
              let '(w, keys') := ev_dispatch now id ev w in
              (w, [keys; keys'], if bool_decide (e = LEOF) || ctxErr then SubNil else SubErr)
          end
      end
  end.

(** [defer u.ClearHeadPayloadStatus()] *)
Definition clear_payload (id : string) (w : headWatcher) : headWatcher :=
  hw_set_pool (update_upstream id ClearHeadPayloadStatus (hw_pool w)) w.

(** [d1] answers the subscription to all topics, [d2] the one to the topics old clients know. *)
Definition subscribe (u : Upstream RL) (d1 d2 : dialled) (sched : list sub_event) (w : headWatcher)
    : headWatcher * list conn_event * list (list string) * sub_result :=
  let id := u_ID u in
  let '(log, resp) :=
    match openHeadEvents u headWatcherTopics d1 with
    | None => ([], None)
    | Some (status, body) =>
        if (400 <=? status) && (status <? 500) then
          match openHeadEvents u headWatcherLegacyTopics d2 with
          | None => ([COpened headWatcherTopics; CClosed], None)
          | Some r => ([COpened headWatcherTopics; CClosed; COpened headWatcherLegacyTopics], Some r)
          end
        else ([COpened headWatcherTopics], Some (status, body))
    end in
  match resp with
  | None => (clear_payload id w, log, [], SubErr)
  | Some (status, body) =>
      if negb (status =? 200) then (clear_payload id w, (log ++ [CClosed])%list, [], SubErr)
      else
        match sub_loop id (readSSELines body) sched ev_reset w with
        | (w, keys, SubRunning) => (w, log, keys, SubRunning)
        | (w, keys, res) => (clear_payload id w, (log ++ [CClosed])%list, keys, res)
        end
  end.

(** ** Reconnecting *)

Definition minBackoff : Z := 1 * Second.
Definition maxBackoff : Z := 60 * Second.
Definition stableThreshold : Z := 30 * Second.

Definition next_backoff (backoff duration : Z) : Z :=
  if stableThreshold <=? duration then minBackoff else Z.min (backoff * 2) maxBackoff.

(** One round of the loop: when the context ends, the answers and the lines, and how long the
    subscription lasted. *)
Record attempt := {
  at_ctxBefore : bool;
  at_dial : dialled;
  at_dialLegacy : dialled;
  at_sched : list sub_event;
  at_duration : Z;
  at_ctxAfter : bool;
  at_ctxWait : bool;
}.

(** The loop of [watchUpstream] with the delays it waits. *)
Fixpoint watch_loop (u : Upstream RL) (attempts : list attempt) (backoff : Z) (w : headWatcher) : headWatcher * list Z :=
  match attempts with
  | [] => (w, [])
  | a :: attempts =>
      if at_ctxBefore a then (w, [])
      else
        let '(w, _, _, res) := subscribe u (at_dial a) (at_dialLegacy a) (at_sched a) w in
        if bool_decide (res = SubRunning) || at_ctxAfter a then (w, [])
        else
          let backoff := next_backoff backoff (at_duration a) in
          if at_ctxWait a then (w, [backoff])
          else let '(w, delays) := watch_loop u attempts backoff w in (w, backoff :: delays)
  end.

Definition watchUpstream (u : Upstream RL) (attempts : list attempt) (w : headWatcher) : headWatcher * list Z :=
  watch_loop u attempts minBackoff w.
End watch.

(** ** Framing *)

(** A line that does not end an event. *)
Definition ev_line (ev : eventState) (line : string) : eventState :=
  if HasPrefix line "event:" then
    let name := TrimSpace (TrimPrefix line "event:") in
    {| ev_head := EqualFold name "head"; ev_headV2 := EqualFold name "head_v2";
       ev_finalized := EqualFold name "finalized_checkpoint"; ev_reorg := EqualFold name "chain_reorg";
       ev_sawName := true; ev_sawData := ev_sawData ev; ev_payload := ev_payload ev |}
  else if HasPrefix line "data:" then
    if ev_head ev || ev_headV2 ev || ev_finalized ev || ev_reorg ev || negb (ev_sawName ev) then
      let payload := TrimSpace (TrimPrefix line "data:") in
      {| ev_head := ev_head ev; ev_headV2 := ev_headV2 ev; ev_finalized := ev_finalized ev;
         ev_reorg := ev_reorg ev; ev_sawName := ev_sawName ev; ev_sawData := true;
         ev_payload := if str_len (ev_payload ev) + str_len payload <=? sseMaxEventBytes
                       then ev_payload ev +:+ payload else ev_payload ev |}
    else ev
  else ev.

(** An event is passed on if it has data. *)
Definition emit (now : Z) (ev : eventState) : list (Z * eventState) := if ev_sawData ev then [(now, ev)] else [].

(** One line: the event being collected and the events it completes. *)
Definition frame_line (now : Z) (ev : eventState) (line : string) : eventState * list (Z * eventState) :=
  if String.eqb line "" then (ev, [])
  else
    let line := TrimRight line HeadWatcher.crlf in
    if String.eqb line "" then (ev_reset, emit now ev) else (ev_line ev line, []).

(** The events of a stream, as a list, with the times at which they complete. *)
Fixpoint framed (lines : list (string * line_end)) (sched : list sub_event) (ev : eventState) : list (Z * eventState) :=
  match sched with
  | SubLine now _ :: sched =>
      match lines with
      | [] => framed [] sched ev
      | (line, e) :: lines =>
          let '(ev, out) := frame_line now ev line in
          (out ++ match e with LOk => framed lines sched ev | _ => emit now ev end)%list
      end
  | _ => []
  end.

(** Bodies opened and closed one at a time: [Some b] says whether one is open, [None] that two were
    open at once or one was closed twice. *)
Definition conn_step (s : option bool) (e : conn_event) : option bool :=
  match s, e with
  | Some false, COpened _ => Some true
  | Some true, CClosed => Some false
  | _, _ => None
  end.

Section watch_safety.
Context `{RL : RateLib} `{RX : RegexpLib} `{HJ : HeadJSON}.
Context (NewRequest_ok : string → string → bool) (ParseFloat : string → option float64) (cfg : ChainConfig).
Implicit Types w : headWatcher (RL := RL) (RX := RX).

Definition event_op (id : string) (e : Z * eventState) : net_op :=
  let ev := e.2 in
  NEvent e.1 id (ev_head ev) (ev_headV2 ev) (ev_finalized ev) (ev_reorg ev) (ev_sawName ev) (ev_payload ev).

Abbreviation run := (net_run ParseFloat cfg).

Lemma run_app w l k : run w (l ++ k) = run (run w l) k.
Proof. apply foldl_app. Qed.

Lemma emit_dispatch now id ev w : (ev_dispatch now id ev w).1 = run w (event_op id <$> emit now ev).
Proof. unfold ev_dispatch, emit. by destruct (ev_sawData ev). Qed.

(** The state machine on one line is the pure framing followed by the handlers. *)
Lemma watch_line_framed now id line ev w :
  line ≠ "" →
  let '(ev', w', _) := watch_line now id line (ev, w) in
  let '(ev2, out) := frame_line now ev line in ev' = ev2 ∧ w' = run w (event_op id <$> out).
Proof.
  intros Hl. unfold frame_line. rewrite (proj2 (String.eqb_neq _ _) Hl). cbv zeta. unfold watch_line.
  set (l := TrimRight line HeadWatcher.crlf). unfold ev_line.
  destruct (String.eqb_spec l "") as [-> |Hne].
  - change (HasPrefix "" "event:") with false. change (HasPrefix "" "data:") with false. cbn iota.
    pose proof (emit_dispatch now id ev w) as H.
    destruct (ev_dispatch now id ev w) as [w' keys]. done.
  - destruct (HasPrefix l "event:"); [done|]. destruct (HasPrefix l "data:"); [|done].
    by destruct (_ || _).
Qed.

Lemma sub_loop_framed id lines sched ev w :
  (sub_loop id lines sched ev w).1.1 = run w (event_op id <$> framed lines sched ev).
Proof.
  revert lines ev w. induction sched as [|[| |now ctxErr] sched IH]; intros lines ev w; [done..|].
  cbn [sub_loop framed]. destruct lines as [|[line e] lines]; [apply IH|].
  assert (∃ keys, (if String.eqb line "" then (ev, w, []) else watch_line now id line (ev, w)) =
    ((frame_line now ev line).1, run w (event_op id <$> (frame_line now ev line).2), keys)) as [keys ->].
  { destruct (String.eqb_spec line "") as [-> |Hl]; [by eexists|]. pose proof (watch_line_framed now id line ev w Hl) as H.
    destruct (watch_line now id line (ev, w)) as [[ev' w'] keys], (frame_line now ev line) as [ev2 out].
    destruct H as [-> ->]. by exists keys. }
  destruct (frame_line now ev line) as [ev' out]. cbn [fst snd]. rewrite fmap_app, run_app.
  destruct e.
  - specialize (IH lines ev' (run w (event_op id <$> out))). by destruct (sub_loop _ _ _ _ _) as [[w' ks] res].
  - pose proof (emit_dispatch now id ev' (run w (event_op id <$> out))) as H. by destruct (ev_dispatch _ _ _ _).
  - pose proof (emit_dispatch now id ev' (run w (event_op id <$> out))) as H. by destruct (ev_dispatch _ _ _ _).
  - pose proof (emit_dispatch now id ev' (run w (event_op id <$> out))) as H. by destruct (ev_dispatch _ _ _ _).
Qed.

(** ** Bounds *)

Definition ev_bounded (ev : eventState) : Prop := str_len (ev_payload ev) <= sseMaxEventBytes.

Lemma str_len_app a b : str_len (a +:+ b) = str_len a + str_len b.
Proof. unfold str_len. rewrite str_length_app. lia. Qed.

Lemma ev_line_bounded ev line : ev_bounded ev → ev_bounded (ev_line ev line).
Proof.
  unfold ev_bounded, ev_line. intros H. destruct (HasPrefix line "event:"); [done|]. destruct (HasPrefix line "data:"); [|done].
  destruct (_ || _); [|done]. cbn [ev_payload]. destruct (Z.leb_spec (str_len (ev_payload ev) + str_len (TrimSpace (TrimPrefix line "data:"))) sseMaxEventBytes);
    [by rewrite str_len_app|done].
Qed.

Lemma framed_bounded lines sched ev : ev_bounded ev → Forall (λ e, ev_bounded e.2) (framed lines sched ev).
Proof.
  assert (∀ now ev, ev_bounded ev → Forall (λ e, ev_bounded e.2) (emit now ev)) as He.
  { intros now ev' H. unfold emit. destruct (ev_sawData ev'); [by constructor|constructor]. }
  revert lines ev. induction sched as [|[| |now ctxErr] sched IH]; intros lines ev H; [constructor..|].
  cbn [framed]. destruct lines as [|[line e] lines]; [by apply IH|].
  assert (ev_bounded (frame_line now ev line).1 ∧ Forall (λ e, ev_bounded e.2) (frame_line now ev line).2) as [H1 H2].
  { unfold frame_line. destruct (String.eqb line ""); [by split|]. cbv zeta. destruct (String.eqb _ ""); [by split; [|apply He]|].
    split; [by apply ev_line_bounded|constructor]. }
  destruct (frame_line now ev line) as [ev' out]. apply Forall_app. split; [done|]. destruct e; [by apply IH|by apply He..].
Qed.

(** ** Subscriptions *)


(** ** Reconnecting *)

(** The number of attempts at the end that did not last. *)
Fixpoint short_run (durations : list Z) : nat :=
  match durations with
  | [] => 0
  | d :: ds => if stableThreshold <=? d then 0 else S (short_run ds)
  end.

Lemma next_backoff_run k d :
  next_backoff (Z.min (2 ^ Z.of_nat k * Second) maxBackoff) d =
  Z.min (2 ^ Z.of_nat (if stableThreshold <=? d then 0 else S k) * Second) maxBackoff.
Proof.
  unfold next_backoff. destruct (_ <=? d); [done|]. rewrite Nat2Z.inj_succ, Z.pow_succ_r by lia. unfold maxBackoff, Second, Millisecond. lia.
Qed.

Lemma watch_loop_delays u attempts before w i d :
  (watch_loop NewRequest_ok u attempts (Z.min (2 ^ Z.of_nat (short_run before) * Second) maxBackoff) w).2 !! i = Some d →
  d = Z.min (2 ^ Z.of_nat (short_run (reverse (take (S i) (at_duration <$> attempts)) ++ before)) * Second) maxBackoff.
Proof.
  revert before w i. induction attempts as [|a attempts IH]; intros before w i; [done|]. cbn [watch_loop].
  destruct (at_ctxBefore a); [done|]. destruct (subscribe _ _ _ _ _ _) as [[[w' log] keys] res].
  destruct (_ || _); [done|]. rewrite next_backoff_run. set (b' := Z.min _ maxBackoff).
  assert (b' = Z.min (2 ^ Z.of_nat (short_run (at_duration a :: before)) * Second) maxBackoff) as Hb' by done.
  cbn [fmap list_fmap]. rewrite firstn_cons, reverse_cons, <- app_assoc.
  destruct (at_ctxWait a).
  - destruct i as [|i]; [|done]. by intros [= <-].
  - specialize (IH (at_duration a :: before) w'). rewrite <- Hb' in IH. destruct (watch_loop _ _ _ _ _) as [w2 delays]. cbn [snd] in *.
    destruct i as [|i]; [by intros [= <-]|]. apply IH.
Qed.

(** Reconnect delays: after any sequence of subscriptions the watcher waits [2^k] seconds, at most a minute, where
    [k] counts the subscriptions since the last one that was stable; so it never
    reconnects faster than once a second and never stays away for more than a minute. *)
Theorem watch_backoff u attempts w i d :
  (watchUpstream NewRequest_ok u attempts w).2 !! i = Some d →
  d = Z.min (2 ^ Z.of_nat (short_run (reverse (take (S i) (at_duration <$> attempts)))) * Second) maxBackoff ∧
  minBackoff <= d <= maxBackoff.
Proof.
  intros H. unfold watchUpstream in H. change minBackoff with (Z.min (2 ^ Z.of_nat (short_run []) * Second) maxBackoff) in H.
  apply watch_loop_delays in H. rewrite app_nil_r in H. split; [done|]. subst d.
  pose proof (Z.pow_pos_nonneg 2 (Z.of_nat (short_run (reverse (take (S i) (at_duration <$> attempts))))) ltac:(lia) ltac:(lia)).
  unfold minBackoff, maxBackoff, Second, Millisecond. lia.
Qed.
End watch_safety.

(** ** Framing is exact *)

Lemma trim_right_snoc_true f s c : f c = true → trim_right f (s +:+ String c "") = trim_right f s.
Proof.
  intros Hc. induction s as [|d s IH]; [rewrite str_app_nil_l; cbn; by rewrite Hc|]. rewrite str_app_cons. cbn [trim_right]. by rewrite IH.
Qed.

Lemma trim_right_snoc_false f s c : f c = false → trim_right f (s +:+ String c "") = s +:+ String c "".
Proof.
  intros Hc. induction s as [|d s IH]; [rewrite str_app_nil_l; cbn; by rewrite Hc|]. rewrite str_app_cons. cbn [trim_right]. rewrite IH.
  by destruct s.
Qed.

Lemma str_snoc s : s ≠ "" → ∃ t c, s = t +:+ String c "".
Proof.
  induction s as [|c s IH]; [done|]. intros _. destruct s as [|d s]; [by exists "", c|].
  destruct IH as (t & e & ->); [done|]. by exists (String c t), e.
Qed.

(** Text without white space around it. *)
Definition unspaced (s : string) : Prop :=
  find_first (HasPrefix s) space_runes = None ∧ find_first (HasSuffix s) space_runes = None.

Lemma TrimSpace_unspaced s : unspaced s → TrimSpace (" " +:+ s) = s.
Proof.
  intros [H1 H2]. unfold TrimSpace. cbv zeta.
  assert (∀ n, trim_space_left n s = s) as Hl by (intros [|n]; [done|]; cbn [trim_space_left]; by rewrite H1).
  assert (∀ n, trim_space_right n s = s) as Hr by (intros [|n]; [done|]; cbn [trim_space_right]; by rewrite H2).
  change (" " +:+ s) with (String " " s). cbn [String.length trim_space_left].
  assert (find_first (HasPrefix (String " " s)) space_runes = Some " ") as -> by (by destruct s).
  change (TrimPrefix (String " " s) " ") with (TrimPrefix (" " +:+ s) " "). by rewrite TrimPrefix_app, Hl, Hr.
Qed.

Lemma TrimRight_line s :
  (s = "" ∨ find_first (HasSuffix s) space_runes = None) → TrimRight ("data: " +:+ s +:+ lf) HeadWatcher.crlf = "data: " +:+ s.
Proof.
  intros Hs. unfold TrimRight. rewrite <- str_app_assoc. unfold lf. rewrite trim_right_snoc_true by done.
  destruct (decide (s = "")) as [-> |Hne]; [done|]. destruct Hs as [|Hs]; [done|].
  destruct (str_snoc s Hne) as (t & c & ->). rewrite <- str_app_assoc. apply trim_right_snoc_false.
  destruct (in_set HeadWatcher.crlf c) eqn:Ec; [|done]. exfalso.
  assert (HasSuffix (t +:+ String c "") (String c "") = true) as Hh by (apply HasSuffix_spec; by exists t).
  assert (String c "" ∈ space_runes) as Hin.
  { revert Ec. clear. unfold in_set, HeadWatcher.crlf. cbn [has_byte]. rewrite orb_false_r.
    intros [E|E]%orb_true_iff; apply Ascii.eqb_eq in E; subst c; apply (bool_decide_eq_true_1 _); by vm_compute. }
  pose proof (proj1 (find_first_None _ _) Hs _ Hin). congruence.
Qed.

(** The events the watcher subscribes to. *)
Inductive topic := THead | THeadV2 | TFinalized | TReorg.

Definition topic_name (t : topic) : string :=
  match t with THead => "head" | THeadV2 => "head_v2" | TFinalized => "finalized_checkpoint" | TReorg => "chain_reorg" end.

(** An event as a beacon node sends it, line by line. *)
Definition event_text (e : topic * string) : list string := ["event: " +:+ topic_name e.1; "data: " +:+ e.2; ""].

Definition event_lines (e : topic * string) : list (string * line_end) := (λ l, (l +:+ lf, LOk)) <$> event_text e.

Definition topic_event (e : topic * string) : eventState :=
  {| ev_head := match e.1 with THead => true | _ => false end; ev_headV2 := match e.1 with THeadV2 => true | _ => false end;
     ev_finalized := match e.1 with TFinalized => true | _ => false end;
     ev_reorg := match e.1 with TReorg => true | _ => false end;
     ev_sawName := true; ev_sawData := true; ev_payload := e.2 |}.

(** A payload as JSON encoders print it: one line, no white space around it, and the line within the cap. *)
Definition payload_ok (p : string) : Prop := unspaced p ∧ no_byte LF p ∧ str_len ("data: " +:+ p) <= sseMaxEventBytes.

Lemma data_line ev p :
  ev_head ev || ev_headV2 ev || ev_finalized ev || ev_reorg ev = true → ev_payload ev = "" → payload_ok p →
  ev_line ev (TrimRight ("data: " +:+ p +:+ lf) HeadWatcher.crlf) =
  {| ev_head := ev_head ev; ev_headV2 := ev_headV2 ev; ev_finalized := ev_finalized ev; ev_reorg := ev_reorg ev;
     ev_sawName := ev_sawName ev; ev_sawData := true; ev_payload := p |}.
Proof.
  intros Hk He (Hu & _ & Hl). rewrite TrimRight_line by (right; apply Hu). unfold ev_line.
  change ("data: " +:+ p) with ("data:" +:+ (" " +:+ p)). change (HasPrefix ("data:" +:+ (" " +:+ p)) "event:") with false. cbn iota.
  rewrite HasPrefix_app. rewrite Hk. cbn [orb]. cbv zeta. rewrite TrimPrefix_app, (TrimSpace_unspaced p Hu), He.
  change (str_len "") with 0. rewrite (proj2 (Z.leb_le _ _)); [done|]. unfold str_len in *. rewrite str_length_app in Hl. lia.
Qed.

(** The framing of printed events gives these events back. *)
Lemma framed_events events times lines sched :
  Forall (λ e, payload_ok e.2) events → length times = length events →
  framed ((events ≫= event_lines) ++ lines) ((times ≫= λ t, replicate 3 (SubLine t false)) ++ sched) ev_reset =
  (zip times (topic_event <$> events) ++ framed lines sched ev_reset)%list.
Proof.
  intros Hok. revert times. induction Hok as [|[t p] events Hp Hok IH]; intros [|now times] Hlen; try done.
  cbn [fst snd] in Hp. injection Hlen as Hlen.
  change (((t, p) :: events) ≫= event_lines) with (event_lines (t, p) ++ (events ≫= event_lines))%list.
  change ((now :: times) ≫= λ t, replicate 3 (SubLine t false))
    with (replicate 3 (SubLine now false) ++ (times ≫= λ t, replicate 3 (SubLine t false)))%list.
  cbn [event_lines event_text fst snd replicate app fmap list_fmap zip zip_with framed]. rewrite !str_app_assoc. change ("" +:+ lf) with lf.
  assert (frame_line now ev_reset ("event: " +:+ topic_name t +:+ lf) =
    ({| ev_head := match t with THead => true | _ => false end; ev_headV2 := match t with THeadV2 => true | _ => false end;
        ev_finalized := match t with TFinalized => true | _ => false end;
        ev_reorg := match t with TReorg => true | _ => false end;
        ev_sawName := true; ev_sawData := false; ev_payload := "" |}, [])) as -> by (by destruct t).
  set (ev := {| ev_head := _; ev_headV2 := _; ev_finalized := _; ev_reorg := _; ev_sawName := _; ev_sawData := _; ev_payload := _ |}).
  assert (frame_line now ev ("data: " +:+ p +:+ lf) = (topic_event (t, p), [])) as ->.
  { unfold frame_line. change (String.eqb ("data: " +:+ p +:+ lf) "") with false. cbn iota. cbv zeta.
    rewrite (data_line ev p) by (done || by destruct t).
    rewrite TrimRight_line by (right; apply Hp). change (String.eqb ("data: " +:+ p) "") with false. done. }
  assert (frame_line now (topic_event (t, p)) lf = (ev_reset, [(now, topic_event (t, p))])) as -> by done.
  cbn [app]. f_equal. by apply IH.
Qed.

(** A stream of complete events is read to its end. *)
Lemma sub_loop_result `{RL : RateLib} `{RX : RegexpLib} `{HJ : HeadJSON} id (events : list (topic * string)) times (fails : bool) t ctxErr ev (w : headWatcher (RL := RL) (RX := RX)) :
  length times = length events →
  (sub_loop id ((events ≫= event_lines) ++ [("", if fails then LErr else LEOF)])%list
     ((times ≫= λ t, replicate 3 (SubLine t false)) ++ [SubLine t ctxErr])%list ev w).2 =
  if fails && negb ctxErr then SubErr else SubNil.
Proof.
  revert times ev w. induction events as [|e events IH]; intros [|now times] ev w Hlen; try done.
  - cbn [mbind list_bind app sub_loop String.eqb]. destruct fails, ctxErr; by destruct (ev_dispatch _ _ _ _).
  - injection Hlen as Hlen. rewrite !bind_cons, <- !app_assoc. cbn [event_lines event_text fmap list_fmap app replicate].
    do 3 (cbn [sub_loop app]; match goal with |- context [if ?b then (?x, ?y, []) else ?z] => destruct (if b then (x, y, []) else z) as [[? ?] ?] end).
    match goal with |- context [sub_loop ?i ?l ?s ?e0 ?w0] =>
      specialize (IH times e0 w0 Hlen : (sub_loop i l s e0 w0).2 = _); destruct (sub_loop i l s e0 w0) as [[? ?] ?]
    end.
    exact IH.
Qed.

Section round_trip.
Context `{RL : RateLib} `{RX : RegexpLib} `{HJ : HeadJSON}.
Context (NewRequest_ok : string → string → bool) (ParseFloat : string → option float64) (cfg : ChainConfig).

(** The body of a stream of events. *)
Definition event_stream (events : list (topic * string)) (fails eager : bool) : reader :=
  {| rd_rest := printed_lines (events ≫= event_text); rd_fails := fails; rd_eager := eager |}.

Lemma event_stream_lines events fails eager :
  Forall (λ e, payload_ok e.2) events →
  readSSELines (event_stream events fails eager) = ((events ≫= event_lines) ++ [("", if fails then LErr else LEOF)])%list.
Proof.
  intros Hok. unfold readSSELines, event_stream. cbn [rd_rest]. rewrite read_lines_exact.
  - f_equal. clear Hok. induction events as [|e events IH]; [done|]. rewrite !bind_cons, fmap_app. by rewrite IH.
  - apply Forall_bind. eapply Forall_impl; [exact Hok|]. intros [t p] (_ & Hn & Hl). cbn [snd] in *.
    repeat constructor; [by destruct t|by destruct t; vm_compute|by apply no_byte_app|done|by vm_compute].
  - pose proof (printed_lines_length (events ≫= event_text)). lia.
Qed.

(** C19: the wire format is read back: an upstream that sends any sequence of events, each printed as an
    [event] line, a [data] line and a blank line, in a body that is read through a buffer of any fill and then ends or breaks off, has exactly
    these events handled, in order, each with its topic and payload at the time its blank line is
    received; then the payload status is cleared, the body closed, and the subscription returns (with an
    error if the body broke off outside a shutdown). *)
Theorem events_roundtrip u events fails eager d2 times t ctxErr (w : headWatcher (RL := RL) (RX := RX)) :
  NewRequest_ok "GET" (head_events_url u headWatcherTopics) = true → Forall (λ e, payload_ok e.2) events →
  length times = length events →
  ∃ keys,
    subscribe NewRequest_ok u (DialResp 200 (event_stream events fails eager)) d2
      ((times ≫= λ t, replicate 3 (SubLine t false)) ++ [SubLine t ctxErr])%list w =
    (clear_payload (u_ID u) (net_run ParseFloat cfg w (event_op (u_ID u) <$> zip times (topic_event <$> events))),
     [COpened headWatcherTopics; CClosed], keys, if fails && negb ctxErr then SubErr else SubNil).
Proof.
  intros Hnew Hok Hlen. unfold subscribe, openHeadEvents. rewrite Hnew. change ((400 <=? 200) && (200 <? 500)) with false.
  change (negb (200 =? 200)) with false. cbn iota. cbv zeta.
  rewrite (event_stream_lines _ _ _ Hok).
  pose proof (sub_loop_framed ParseFloat cfg (u_ID u) ((events ≫= event_lines) ++ [("", if fails then LErr else LEOF)])%list
    ((times ≫= λ t, replicate 3 (SubLine t false)) ++ [SubLine t ctxErr])%list ev_reset w) as H1.
  rewrite framed_events in H1 by done. replace (framed _ _ ev_reset) with (@nil (Z * eventState)) in H1 by (by destruct fails).
  rewrite app_nil_r in H1.
  pose proof (sub_loop_result (u_ID u) events times fails t ctxErr ev_reset w Hlen) as H2.
  destruct (sub_loop _ _ _ _ _) as [[w' keys] res]. cbn [fst snd] in H1, H2. subst w' res. exists keys. by destruct (fails && negb ctxErr).
Qed.
End round_trip.

Module WatchDemo.
#[local] Instance DemoJSON : HeadJSON := {| json_head := λ _, None; json_headV2 := λ _, None; json_epoch := λ _, None; json_slot := λ _, None |}.

(** Three refused connections, one that lasted, one more that is refused. *)
Definition demo_attempt (duration : Z) : attempt :=
  {| at_ctxBefore := false; at_dial := DialErr; at_dialLegacy := DialErr; at_sched := []; at_duration := duration;
     at_ctxAfter := false; at_ctxWait := false |}.

Definition demo_attempts : list attempt := demo_attempt <$> [0; 1; 2; 40 * Second; 3].

Definition demo_upstream : Upstream ToyRate := Upstream_New 0 "mainnet" demo_upstream_cfg None 2.

Lemma watch_backoff_witness :
  (watchUpstream (RX := MiniRegexp) (λ _ _, true) demo_upstream demo_attempts demo_watcher).2 =
    [2 * Second; 4 * Second; 8 * Second; Second; 2 * Second] ∧ minBackoff <= 8 * Second <= maxBackoff.
Proof.
  assert ((watchUpstream (RX := MiniRegexp) (λ _ _, true) demo_upstream demo_attempts demo_watcher).2 =
    [2 * Second; 4 * Second; 8 * Second; Second; 2 * Second]) as E by (vm_compute; reflexivity).
  split; [exact E|]. apply (watch_backoff (RX := MiniRegexp) (λ _ _, true) demo_upstream demo_attempts demo_watcher 2).
  rewrite E. reflexivity.
Defined.

Definition demo_events : list (topic * string) := [(TFinalized, "{1}"); (THead, "{2}")].

Lemma events_roundtrip_witness :
  ∃ keys,
    subscribe (RX := MiniRegexp) (λ _ _, true) demo_upstream (DialResp 200 (event_stream demo_events false true)) DialErr
      [SubLine 5 false; SubLine 5 false; SubLine 5 false; SubLine 6 false; SubLine 6 false; SubLine 6 false; SubLine 7 false] demo_watcher =
    (clear_payload (u_ID demo_upstream) (net_run toy_ParseFloat demo_cfg demo_watcher
       [event_op (u_ID demo_upstream) (5, topic_event (TFinalized, "{1}")); event_op (u_ID demo_upstream) (6, topic_event (THead, "{2}"))]),
     [COpened headWatcherTopics; CClosed], keys, SubNil).
Proof.
  apply (events_roundtrip (λ _ _, true) toy_ParseFloat demo_cfg demo_upstream demo_events false true DialErr [5; 6] 7 false);
    [reflexivity| |reflexivity].
  repeat constructor; vm_compute; congruence.
Defined.
End WatchDemo.
