(* ===== verification/Proxy.v ===== *)
(** * The front end

    [proxy/proxy.go], [proxy/auth.go], [proxy/auth_ratelimit.go] and [reqctx]: the top-level handler, which
    answers [/healthz], finds the network in the path, authenticates, applies the key and tier
    limits, strips the prefix and hands the request to the network ([Serve]).

    [p.single] is the same object as the only entry of [p.networks], so it is modelled by its name. [Quote]
    (the [%q] verb) is a parameter. *)

From S2P Require Import Prelude GoStrings GoFloat Config CircuitBreaker ScoreTracker AutoTuner BlockCache.
From S2P Require Import Upstream Selector PoolOrder Pool PoolState Health MemoryStore Regexp Cache ApiPath Url CacheKey Paths Historical Session HeadWatcher Consensus Routing ConfigFile Headers Exec Ownership ExecSafety ExecBounds Hedge Serve ServeSafety.
From Stdlib Require Import Ascii SpecFloat.
#[local] Open Scope string_scope.
#[local] Open Scope Z_scope.

(** ** Credentials *)

Definition headerEbeaconSecretToken : string := "X-EBEACON-Secret-Token".
Definition headerAPIKey : string := "X-API-Key".

Record AuthResult := { ar_Authenticated : bool; ar_KeyID : string; ar_Tier : string }.

Definition constantTimeEquals (a b : string) : bool :=
  if (str_len a =? 0) || (str_len b =? 0) then false else String.eqb a b.

(** [Authorization: Bearer] *)
Definition bearer_token (auth : string) : string :=
  let auth := TrimSpace auth in
  if (6 <? str_len auth) && EqualFold (str_take 6 auth) "bearer" then TrimSpace (str_drop 6 auth) else "".

Definition extractSecret (r : Request) : string :=
  let v := TrimSpace (hdr_get (req_Header r) headerEbeaconSecretToken) in
  if negb (String.eqb v "") then v
  else
    let v := TrimSpace (hdr_get (req_Header r) headerAPIKey) in
    if negb (String.eqb v "") then v
    else
      let token := bearer_token (hdr_get (req_Header r) "Authorization") in
      if negb (String.eqb token "") then token
      else Values_Get (ParseQuery (url_RawQuery (req_URL r))) "secret".

(** The credential a request presents; [pathKey] is the first of [extraSecrets]. *)
Definition presented (r : Request) (pathKey : string) : string :=
  let v := extractSecret r in if String.eqb v "" then pathKey else v.

Definition AuthenticateRequest (r : Request) (auth : option AuthConfig) (pathKey : string) : AuthResult :=
  let refused := {| ar_Authenticated := false; ar_KeyID := ""; ar_Tier := "" |} in
  match auth with
  | None => {| ar_Authenticated := true; ar_KeyID := ""; ar_Tier := "" |}
  | Some a =>
      let v := presented r pathKey in
      match find_first (λ k, negb (String.eqb (ak_Secret k) "") && constantTimeEquals v (ak_Secret k)) (au_Keys a) with
      | Some k => {| ar_Authenticated := true; ar_KeyID := ak_ID k; ar_Tier := ak_Tier k |}
      | None =>
          if String.eqb (au_Secret a) "" then
            match au_Keys a with
            | [] => {| ar_Authenticated := true; ar_KeyID := ""; ar_Tier := "" |}
            | _ => refused
            end
          else if constantTimeEquals v (au_Secret a)
          then {| ar_Authenticated := true; ar_KeyID := "default"; ar_Tier := "" |}
          else refused
      end
  end.

(** ** Path segments *)

Definition joinRest (segments : list string) : string :=
  match segments with [] => "/" | _ => "/" +:+ Join segments "/" end.

Definition stripPathSegments (path : string) (n : nat) : string :=
  let segments := Split (TrimPrefix path "/") "/" in
  if (length segments <=? n)%nat then "/" else "/" +:+ Join (drop n segments) "/".

(** ** Health *)

(** The loop of [serveHealthz] on one network. *)
Definition aggregate_step (best hs : HealthStatus) : HealthStatus :=
  if bool_decide (hs = HealthUp) && bool_decide (best = HealthDown) then HealthUp
  else if bool_decide (hs = HealthDegraded) then HealthDegraded
  else best.

Definition aggregate (l : list HealthStatus) : HealthStatus := foldl aggregate_step HealthDown l.

Section proxy.
Context `{RL : RateLib} `{RX : RegexpLib} `{NL : NetLib}.

(** ** Limits per key and tier *)

(** The limiter of a configured limit; [oob] is [int(limit)] of a limit outside the range of [int]. *)
Context (oob : float64 → Z).

Definition auth_limiter (rl : option RateLimitConfig) : option limiter :=
  match rl with
  | None => None
  | Some l =>
      if f64_ltb f64_zero (rl_Limit l) then
        let burst := if rl_Burst l <=? 0 then Z.max (f64_to_duration oob (rl_Limit l)) 1 else rl_Burst l in
        Some (NewLimiter (rl_Limit l) burst)
      else None
  end.

Definition build_limiters {A} (name : A → string) (limit : A → option RateLimitConfig) (l : list A) : gmap string limiter :=
  foldl (λ m x, match auth_limiter (limit x) with Some lim => <[name x := lim]> m | None => m end) ∅ l.

(** The limiters of the keys and of the tiers. *)
Definition buildAuthRateLimiters (auth : option AuthConfig) : gmap string limiter * gmap string limiter :=
  match auth with
  | None => (∅, ∅)
  | Some a => (build_limiters ak_ID ak_RateLimiting (au_Keys a), build_limiters ti_Name ti_RateLimiting (au_Tiers a))
  end.

(** The new limiters, and the refusal if there is one. *)
Definition applyAuthRateLimits (now : Z) (wh : Header) (keyLimiters tierLimiters : gmap string limiter) (res : AuthResult)
    : gmap string limiter * gmap string limiter * option Written :=
  if String.eqb (ar_KeyID res) "" then (keyLimiters, tierLimiters, None)
  else
    match keyLimiters !! ar_KeyID res with
    | Some l =>
        let '(ok, l) := lim_Allow l now in
        (<[ar_KeyID res := l]> keyLimiters, tierLimiters,
         if ok then None else Some (http_Error (hdr_set "X-Ebeacon-Rate-Limited" "per-key" wh) 429 "rate limit exceeded"))
    | None =>
        if String.eqb (ar_Tier res) "" then (keyLimiters, tierLimiters, None)
        else
          match tierLimiters !! ar_Tier res with
          | Some l =>
              let '(ok, l) := lim_Allow l now in
              (keyLimiters, <[ar_Tier res := l]> tierLimiters,
               if ok then None
               else Some (http_Error (hdr_set "X-Ebeacon-Rate-Limited" ("tier:" +:+ ar_Tier res) wh) 429 "rate limit exceeded"))
          | None => (keyLimiters, tierLimiters, None)
          end
    end.

(** ** The proxy *)

Record Proxy := {
  px_networks : gmap string (Network (RL := RL) (RX := RX));
  px_auth : option AuthConfig;
  px_keyLimiters : gmap string limiter;
  px_tierLimiters : gmap string limiter;
  px_single : option string;
}.

Definition Proxy_New (networks : gmap string (Network (RL := RL) (RX := RX))) : Proxy :=
  {| px_networks := networks; px_auth := None; px_keyLimiters := ∅; px_tierLimiters := ∅;
     px_single := match (map_to_list networks).*1 with [id] => Some id | _ => None end |}.

Definition SetAuth (auth : option AuthConfig) (p : Proxy) : Proxy :=
  {| px_networks := px_networks p; px_auth := auth; px_keyLimiters := (buildAuthRateLimiters auth).1;
     px_tierLimiters := (buildAuthRateLimiters auth).2; px_single := px_single p |}.

Definition set_limiters (k t : gmap string limiter) (p : Proxy) : Proxy :=
  {| px_networks := px_networks p; px_auth := px_auth p; px_keyLimiters := k; px_tierLimiters := t; px_single := px_single p |}.

Definition set_network (id : string) (n : Network) (p : Proxy) : Proxy :=
  {| px_networks := <[id := n]> (px_networks p); px_auth := px_auth p; px_keyLimiters := px_keyLimiters p;
     px_tierLimiters := px_tierLimiters p; px_single := px_single p |}.

Definition isPathKey (p : Proxy) (candidate : string) : bool :=
  match px_auth p with
  | None => false
  | Some a =>
      negb (String.eqb candidate "") &&
      (existsb (λ k, negb (String.eqb (ak_Secret k) "") && constantTimeEquals candidate (ak_Secret k)) (au_Keys a) ||
       negb (String.eqb (au_Secret a) "") && constantTimeEquals candidate (au_Secret a))
  end.

(** [routeRequest]: network, rest, path key and the number of segments to strip. *)
Definition routeRequest (p : Proxy) (path : string) : option (string * string * string * nat) :=
  let path := TrimPrefix path "/" in
  if String.eqb path "" then None
  else
    match Split path "/" with
    | [] => None
    | s0 :: rest =>
        if bool_decide (is_Some (px_networks p !! s0)) then
          match rest with
          | s1 :: rest' => if isPathKey p s1 then Some (s0, joinRest rest', s1, 2%nat) else Some (s0, joinRest rest, "", 1%nat)
          | [] => Some (s0, joinRest rest, "", 1%nat)
          end
        else
          match rest with
          | s1 :: rest' =>
              if bool_decide (is_Some (px_auth p)) && bool_decide (is_Some (px_networks p !! s1))
              then Some (s1, joinRest rest', s0, 2%nat) else None
          | [] => None
          end
    end.

(** The proxy, and a refusal or the key the request context carries ([reqctx.WithAPIKeyID]; empty without one). *)
Definition authenticate (now : Z) (wh : Header) (r : Request) (pathKey : string) (p : Proxy) : Proxy * (Written + string) :=
  match px_auth p with
  | None => (p, inr "")
  | Some a =>
      let res := AuthenticateRequest r (Some a) pathKey in
      if negb (ar_Authenticated res)
      then (p, inl (http_Error (hdr_set "WWW-Authenticate" ("Bearer realm=" +:+ quote +:+ "ebeacon" +:+ quote) wh) 401 "unauthorized"))
      else
        let '(k, t, refusal) := applyAuthRateLimits now wh (px_keyLimiters p) (px_tierLimiters p) res in
        (set_limiters k t p, match refusal with Some w => inl w | None => inr (ar_KeyID res) end)
  end.

Definition sorted_ids (p : Proxy) : list string := stable_sort String.ltb (map_to_list (px_networks p)).*1.

Definition availableNetworks (p : Proxy) : string := Join (sorted_ids p) ", ".

Definition status_field (id label : string) : string := quote +:+ id +:+ quote +:+ ":" +:+ quote +:+ label +:+ quote.

(** [serveHealthz]; names of networks need no escaping. *)
Definition proxy_serveHealthz (wh : Header) (p : Proxy) : Written :=
  let best := aggregate ((λ x, Network_HealthStatus x.2) <$> map_to_list (px_networks p)) in
  let '(status, code) := HealthzStatus best in
  let fields := omap (λ id, (λ n, status_field id (HealthzStatus (Network_HealthStatus n)).1) <$> px_networks p !! id) (sorted_ids p) in
  {| wr_Status := code; wr_Header := hdr_set "Content-Type" "application/json" wh;
     wr_Body := "{" +:+ status_field "status" status +:+ "," +:+ quote +:+ "networks" +:+ quote +:+ ":{" +:+ Join fields "," +:+ "}}";
     wr_gzip := false |}.

(** The request the network sees. *)
Definition strip_prefix (r : Inbound) (rest : string) (strip : nat) : Inbound :=
  let u := req_URL (in_req r) in
  let esc := url_EscapedPath u in
  let raw := if negb (String.eqb esc rest) then
               let er := stripPathSegments esc strip in if negb (String.eqb er rest) then er else ""
             else "" in
  with_req {| req_Method := req_Method (in_req r);
              req_URL := {| url_Path := rest; url_EscapedPath := EscapedPath raw rest; url_RawQuery := url_RawQuery u |};
              req_Header := req_Header (in_req r) |} r.

Context (NewRequest_ok : string → string → bool) (gunzip : string → bool → option (string * bool)) (sha : string → string)
  (ParseFloat : string → option float64) (Quote : string → string).

(** A request served by one of the networks. *)
Definition on_network (e : env) (wh : Header) (r : Inbound) (id : string) (p : Proxy) : Proxy * served * list hres :=
  match px_networks p !! id with
  | None => (p, SPanic, [])
  | Some n =>
      let '(n, s, queue) := ServeHTTP NewRequest_ok gunzip sha escapePath ParseFloat e wh r n in (set_network id n p, s, queue)
  end.

Definition Proxy_ServeHTTP (e : env) (wh : Header) (r : Inbound) (p : Proxy) : Proxy * served * list hres :=
  let req := in_req r in
  let path := url_Path (req_URL req) in
  if String.eqb path "/healthz" then (p, SWritten (proxy_serveHealthz wh p), [])
  else
    match routeRequest p path with
    | None =>
        match authenticate (ev_now e) wh req "" p with
        | (p, inl w) => (p, SWritten w, [])
        | (p, inr _) =>
            match px_single p with
            | Some id => on_network e wh r id p
            | None =>
                let path := TrimPrefix path "/" in
                let networkID := match CutByte "/" path with Some (a, _) => a | None => path end in
                (p, SWritten (http_Error wh 404
                       ("unknown network " +:+ Quote networkID +:+ " — available: " +:+ availableNetworks p)), [])
            end
        end
    | Some (networkID, rest, pathKey, strip) =>
        match authenticate (ev_now e) wh req pathKey p with
        | (p, inl w) => (p, SWritten w, [])
        | (p, inr _) => on_network e wh (strip_prefix r rest strip) networkID p
        end
    end.
End proxy.
