(* ===== verification/ProxySafety.v ===== *)
(** * What the front end guarantees

    Authentication is exact for a loaded configuration and nothing happens without it; routing takes a
    path apart without losing or inventing anything, and the path sent upstream decodes to the path
    the guards checked; the aggregate health does not depend on the order of the networks; no
    request panics the handler or breaks a network's invariant. *)

From S2P Require Import Prelude GoStrings GoFloat Config CircuitBreaker ScoreTracker AutoTuner BlockCache.
From S2P Require Import Upstream Selector PoolOrder Pool PoolState Health MemoryStore Regexp Cache ApiPath Url CacheKey Paths Historical Session HeadWatcher Consensus Routing ConfigFile Headers Exec Ownership ExecSafety ExecBounds Hedge Serve ServeSafety Proxy.
From Stdlib Require Import Ascii.
#[local] Open Scope string_scope.
#[local] Open Scope Z_scope.

(** ** Credentials *)

Lemma constantTimeEquals_spec a b : constantTimeEquals a b = true ↔ a ≠ "" ∧ a = b.
Proof.
  unfold constantTimeEquals, str_len. destruct a as [|c a], b as [|d b]; cbn [String.length]; try (split; [done|by intros [? ?]]).
  destruct (_ || _) eqn:E; [exfalso; apply orb_true_iff in E as [E|E]; apply Z.eqb_eq in E; lia|].
  rewrite String.eqb_eq. naive_solver.
Qed.

(** A credential that the configuration names. *)
Definition configured (a : AuthConfig) (v : string) : Prop :=
  v ≠ "" ∧ (v = au_Secret a ∨ ∃ k, k ∈ au_Keys a ∧ v = ak_Secret k).

(** An auth section as validation leaves it. *)
Definition auth_sound (a : AuthConfig) : Prop :=
  (au_Secret a ≠ "" ∨ au_Keys a ≠ []) ∧ ∀ k, k ∈ au_Keys a → ak_ID k ≠ "" ∧ ak_Secret k ≠ "".

Lemma validateAuth_sound a : validateAuth (Some a) = None → auth_sound a.
Proof.
  unfold validateAuth. intros H. checks H.
  repeat match goal with Hx : first_error_unique ak_ID _ _ _ _ _ = None |- _ => apply first_error_unique_None in Hx as [_ Hk] end.
  apply check_None in H. split.
  - destruct (String.eqb_spec (au_Secret a) ""); [|by left]. right. by destruct (au_Keys a).
  - intros k Hin. destruct (Hk k Hin) as (_ & Hb & Ha). apply check_None in Hb. checks Ha.
    repeat match goal with Hx : check _ _ = None |- _ => apply check_None in Hx end. by split; apply String.eqb_neq.
Qed.

Lemma AuthenticateRequest_exact r a pathKey :
  auth_sound a →
  ar_Authenticated (AuthenticateRequest r (Some a) pathKey) = true ↔ configured a (presented r pathKey).
Proof.
  intros [H1 H2]. unfold AuthenticateRequest. cbv zeta. set (v := presented r pathKey). unfold configured.
  destruct (find_first _ _) as [k|] eqn:E.
  - apply find_first_Some in E as [Hk He]. apply andb_true_iff in He as [_ He]. apply constantTimeEquals_spec in He as [Hv He].
    cbn. split; [|done]. intros _. split; [done|]. right. by exists k.
  - pose proof (proj1 (find_first_None _ _) E) as Hn.
    assert (∀ k, k ∈ au_Keys a → v ≠ "" → v ≠ ak_Secret k) as Hno.
    { intros k Hk Hv Heq. specialize (Hn k Hk). apply andb_false_iff in Hn as [Hn|Hn].
      - apply negb_false_iff, String.eqb_eq in Hn. congruence.
      - assert (constantTimeEquals v (ak_Secret k) = true) by (by apply constantTimeEquals_spec). congruence. }
    destruct (String.eqb_spec (au_Secret a) "") as [Es|Es].
    + destruct (au_Keys a) as [|k0 ks] eqn:Ek; [by destruct H1|]. cbn. split; [done|].
      intros [Hv [Hx|(k & Hk & Hx)]]; [congruence|]. by destruct (Hno k Hk Hv).
    + destruct (constantTimeEquals v (au_Secret a)) eqn:Ec; cbn.
      * apply constantTimeEquals_spec in Ec as [Hv Heq]. split; [|done]. intros _. split; [done|by left].
      * split; [done|]. intros [Hv [Hx|(k & Hk & Hx)]]; [|by destruct (Hno k Hk Hv)].
        assert (constantTimeEquals v (au_Secret a) = true) by (by apply constantTimeEquals_spec). congruence.
Qed.

(** An authenticated request has an identity, so the key and tier limits see it. *)
Lemma AuthenticateRequest_named r a pathKey :
  auth_sound a → ar_Authenticated (AuthenticateRequest r (Some a) pathKey) = true →
  ar_KeyID (AuthenticateRequest r (Some a) pathKey) ≠ "".
Proof.
  intros [H1 H2]. unfold AuthenticateRequest. cbv zeta. destruct (find_first _ _) as [k|] eqn:E.
  - apply find_first_Some in E as [Hk _]. intros _. by apply H2.
  - destruct (String.eqb_spec (au_Secret a) ""); [|by destruct (constantTimeEquals _ _)].
    destruct (au_Keys a); [by destruct H1|done].
Qed.

(** ** Health *)

Lemma aggregate_from best l :
  foldl aggregate_step best l =
  if bool_decide (HealthDegraded ∈ l) then HealthDegraded
  else match best with HealthDown => if bool_decide (HealthUp ∈ l) then HealthUp else HealthDown | _ => best end.
Proof.
  revert best. induction l as [|hs l IH]; intros best; cbn [foldl]; [by destruct best|]. rewrite IH. unfold aggregate_step.
  destruct hs; cbn [bool_decide decide decide_rel HealthStatus_eq_dec]; repeat case_bool_decide; set_unfold; destruct best; naive_solver.
Qed.

(** ** Routing *)

Lemma strip_join path n : stripPathSegments path n = joinRest (drop n (Split (TrimPrefix path "/") "/")).
Proof.
  unfold stripPathSegments, joinRest. cbv zeta. set (l := Split _ _). destruct (Nat.leb_spec (length l) n) as [H|H].
  - by rewrite drop_ge.
  - destruct (drop n l) eqn:E; [|done]. apply (f_equal length) in E. rewrite length_drop in E. cbn in E. lia.
Qed.

(** What follows the segments that were taken off. *)
Lemma join_rest_spec pre l : l ≠ [] → Join (pre :: l) "/" = pre +:+ joinRest l.
Proof. intros Hl. rewrite Join_cons by done. by destruct l. Qed.

Section routing_facts.
Context `{RL : RateLib} `{RX : RegexpLib} `{NL : NetLib}.
Implicit Types p : Proxy (RL := RL) (RX := RX).

(** The shapes of a prefix: network; network and key; key and network. *)
Definition prefix_form p (id key pre : string) (strip : nat) : Prop :=
  strip = 1%nat ∧ key = "" ∧ pre = id ∨
  strip = 2%nat ∧ pre = id +:+ "/" +:+ key ∧ isPathKey p key = true ∨
  strip = 2%nat ∧ pre = key +:+ "/" +:+ id ∧ px_auth p ≠ None ∧ px_networks p !! key = None.

Lemma routeRequest_sound p path id rest key strip :
  routeRequest p path = Some (id, rest, key, strip) →
  is_Some (px_networks p !! id) ∧ stripPathSegments path strip = rest ∧
  ∃ pre, prefix_form p id key pre strip ∧
    (TrimPrefix path "/" = pre ∧ rest = "/" ∨ TrimPrefix path "/" = pre +:+ rest).
Proof.
  unfold routeRequest. cbv zeta. rewrite strip_join. set (t := TrimPrefix path "/"). pose proof (Join_Split t "/") as Hj.
  destruct (String.eqb t ""); [done|]. destruct (Split t "/") as [|s0 l] eqn:Es; [done|].
  assert (∀ (s0 : string) l, Join (s0 :: l) "/" = t → t = s0 ∧ joinRest l = "/" ∨ t = s0 +:+ joinRest l) as Hone.
  { intros a l' <-. destruct l' as [|b l']; [by left|]. right. by apply join_rest_spec. }
  assert (∀ a b l', Join (a :: b :: l') "/" = t → t = a +:+ "/" +:+ b ∧ joinRest l' = "/" ∨ t = (a +:+ "/" +:+ b) +:+ joinRest l') as Htwo.
  { intros a b l' <-. rewrite Join_cons by done. destruct l' as [|c l']; [by left|]. right.
    rewrite (join_rest_spec b (c :: l')) by done. by rewrite !str_app_assoc. }
  case_bool_decide as Hn.
  - assert (Some (s0, joinRest l, "", 1%nat) = Some (id, rest, key, strip) → is_Some (px_networks p !! id) ∧
      joinRest (drop strip (s0 :: l)) = rest ∧ ∃ pre, prefix_form p id key pre strip ∧ (t = pre ∧ rest = "/" ∨ t = pre +:+ rest)) as Hplain.
    { intros [= <- <- <- <-]. split_and!; [done|done|]. exists s0. split; [by left|]. by apply Hone. }
    destruct l as [|s1 l]; [exact Hplain|]. destruct (isPathKey p s1) eqn:Ek; [|exact Hplain]. clear Hplain.
    intros [= <- <- <- <-]. split_and!; [done|done|]. exists (s0 +:+ "/" +:+ s1). split; [by right; left|]. by apply Htwo.
  - destruct l as [|s1 l]; [done|]. case_bool_decide as Ha; cbn [andb]; [|done]. case_bool_decide as Hs1; [|done].
    intros [= <- <- <- <-]. split_and!; [done|done|]. exists (s0 +:+ "/" +:+ s1). split; [|by apply Htwo].
    right. right. split_and!; [done|done|by destruct (px_auth p); [|destruct Ha]|by apply eq_None_not_Some].
Qed.

Lemma strip_prefix_decodes r rest strip :
  unescapePath (url_EscapedPath (req_URL (in_req (strip_prefix r rest strip)))) = Some rest.
Proof. apply EscapedPath_decodes. Qed.

Lemma rewritten_decodes (n : Network (RL := RL) (RX := RX)) r :
  unescapePath (url_EscapedPath (req_URL (in_req r))) = Some (url_Path (req_URL (in_req r))) →
  let r' := (rewritten escapePath n r).1 in
  unescapePath (url_EscapedPath (req_URL (in_req r'))) = Some (url_Path (req_URL (in_req r'))).
Proof.
  intros H. unfold rewritten, rewriteClientPath. cbv zeta.
  assert (∀ newPath cu, let r' := (let '(req, clientUpstream) := (if String.eqb newPath (url_Path (req_URL (in_req r))) then in_req r
      else cloneRequestWithPath escapePath (in_req r) newPath, cu : string) in (with_req req r, clientUpstream)).1 in
    unescapePath (url_EscapedPath (req_URL (in_req r'))) = Some (url_Path (req_URL (in_req r')))) as Hren.
  { intros newPath cu. destruct (String.eqb _ _); [exact H|]. apply unescape_escape. }
  destruct (applyClientPrefix _ _) as [np cu]. destruct (_ && _); [apply Hren|].
  destruct (inferClientSelectorPath _ _) as [[np' cu']|]; [apply Hren|exact H].
Qed.

(** C26: a routed request is the path taken apart and nothing else: the network exists, the path is the
    prefix (network; network and key; or key and network) followed by the rest the network sees,
    stripping the same number of segments from the path gives that rest, and - before and after
    client-prefix rewriting - the escaped path that goes upstream decodes to exactly the path that
    the guards of the network check, so no encoding can smuggle another path past them. *)
Theorem routed_path_integrity p r id rest key strip :
  routeRequest p (url_Path (req_URL (in_req r))) = Some (id, rest, key, strip) →
  is_Some (px_networks p !! id) ∧ stripPathSegments (url_Path (req_URL (in_req r))) strip = rest ∧
  (∃ pre, prefix_form p id key pre strip ∧
    (TrimPrefix (url_Path (req_URL (in_req r))) "/" = pre ∧ rest = "/" ∨
     TrimPrefix (url_Path (req_URL (in_req r))) "/" = pre +:+ rest)) ∧
  url_Path (req_URL (in_req (strip_prefix r rest strip))) = rest ∧
  ∀ n : Network (RL := RL) (RX := RX),
    let r' := (rewritten escapePath n (strip_prefix r rest strip)).1 in
    unescapePath (url_EscapedPath (req_URL (in_req r'))) = Some (url_Path (req_URL (in_req r'))).
Proof.
  intros H. destruct (routeRequest_sound p _ _ _ _ _ H) as (H1 & H2 & H3). split_and!; [done|done|done|done|].
  intros n. apply rewritten_decodes, strip_prefix_decodes.
Qed.

(** The aggregate health does not depend on the order in which the networks are visited: degraded if one
    is degraded, otherwise up if one is up, otherwise down (so a network that is down next to one
    that is up does not show). *)
Theorem aggregate_health l l' :
  l ≡ₚ l' → aggregate l = aggregate l' ∧
  aggregate l = (if bool_decide (HealthDegraded ∈ l) then HealthDegraded
                 else if bool_decide (HealthUp ∈ l) then HealthUp else HealthDown).
Proof.
  intros Hl. unfold aggregate. rewrite !aggregate_from. split; [|done].
  assert (∀ hs, bool_decide (hs ∈ l) = bool_decide (hs ∈ l')) as Hb by (intros hs; apply bool_decide_ext; by rewrite Hl).
  by rewrite !Hb.
Qed.

(** One network up and one down: the top-level answer is ok. *)
Lemma aggregate_hides_down : HealthzStatus (aggregate [HealthUp; HealthDown]) = ("ok", 200).
Proof. reflexivity. Qed.
End routing_facts.

(** ** Requests *)

Section proxy_requests.
Context `{RL : RateLib} `{RX : RegexpLib} `{NL : NetLib}.
Context (NewRequest_ok : string → string → bool) (gunzip : string → bool → option (string * bool)) (sha : string → string)
  (ParseFloat : string → option float64) (Quote : string → string).
Implicit Types p : Proxy (RL := RL) (RX := RX).

(** The key segment of a path, if routing found one. *)
Definition path_key p (r : Inbound) : string :=
  match routeRequest p (url_Path (req_URL (in_req r))) with Some (_, _, key, _) => key | None => "" end.

Definition unauthorized (wh : Header) : Written :=
  http_Error (hdr_set "WWW-Authenticate" ("Bearer realm=" +:+ quote +:+ "ebeacon" +:+ quote) wh) 401 "unauthorized".

Lemma authenticate_refused now wh r key p a :
  px_auth p = Some a → auth_sound a → (configured a (presented r key) → False) →
  authenticate now wh r key p = (p, inl (unauthorized wh)).
Proof.
  intros Ea Hs Hv. unfold authenticate. rewrite Ea. cbv zeta.
  destruct (ar_Authenticated _) eqn:E; [|done]. by apply (AuthenticateRequest_exact _ _ _ Hs) in E.
Qed.

Lemma Proxy_refuses a p e wh r :
  px_auth p = Some a → auth_sound a → url_Path (req_URL (in_req r)) ≠ "/healthz" →
  (configured a (presented (in_req r) (path_key p r)) → False) →
  Proxy_ServeHTTP NewRequest_ok gunzip sha ParseFloat Quote e wh r p = (p, SWritten (unauthorized wh), []).
Proof.
  intros Ep Hs Hp Hv. unfold Proxy_ServeHTTP. cbv zeta. rewrite (proj2 (String.eqb_neq _ _) Hp). unfold path_key in Hv.
  destruct (routeRequest p _) as [[[[id rest'] key] strip]|]; by rewrite (authenticate_refused _ _ _ _ _ _ Ep Hs Hv).
Qed.

(** C6: with the auth section of a configuration that loads, a request is authenticated exactly when it
    presents (by header, bearer token, query or path) a non-empty credential the configuration
    names, and then it has a key identity that the limits apply to; any other request to anything
    but [/healthz] is answered 401 and changes nothing: no network, upstream, cache or limiter. *)
Theorem loaded_auth_enforced ParseURL ExpandEnv zero first rest c a p :
  Load ParseURL ExpandEnv zero first rest = inr c → cf_Auth c = Some a → px_auth p = Some a →
  (∀ r key, ar_Authenticated (AuthenticateRequest r (Some a) key) = true ↔ configured a (presented r key)) ∧
  (∀ r key, configured a (presented r key) → ar_KeyID (AuthenticateRequest r (Some a) key) ≠ "") ∧
  ∀ e wh r, url_Path (req_URL (in_req r)) ≠ "/healthz" → (configured a (presented (in_req r) (path_key p r)) → False) →
    Proxy_ServeHTTP NewRequest_ok gunzip sha ParseFloat Quote e wh r p = (p, SWritten (unauthorized wh), []).
Proof.
  intros HL Ea Ep. assert (auth_sound a) as Hs.
  { apply Load_validated in HL as Ev. unfold validate in Ev. checks Ev. apply validateAuth_sound. by rewrite <- Ea. }
  split_and!.
  - intros r key. by apply AuthenticateRequest_exact.
  - intros r key H. apply AuthenticateRequest_named; [done|]. by apply AuthenticateRequest_exact.
  - intros e wh r. by apply Proxy_refuses.
Qed.

(** The invariant of the front end; [F], [base] and [O] are what other requests hold at each network. *)
Record Proxy_ok (F : string → list CBToken) (base : string → string → Z) (O : string → gmap nat string) p : Prop := {
  po_network id n : px_networks p !! id = Some n → Network_ok n ∧ holding (F id) (base id) (O id) [] (n_world n);
  po_single id : px_single p = Some id → is_Some (px_networks p !! id);
}.

Lemma authenticate_networks now wh r key p :
  px_networks (authenticate now wh r key p).1 = px_networks p ∧ px_single (authenticate now wh r key p).1 = px_single p.
Proof.
  unfold authenticate. destruct (px_auth p); [|done]. cbv zeta. destruct (negb _); [done|].
  by destruct (applyAuthRateLimits _ _ _ _ _) as [[? ?] ?].
Qed.

Lemma authenticate_auth now wh r key p : px_auth (authenticate now wh r key p).1 = px_auth p.
Proof.
  unfold authenticate. destruct (px_auth p) eqn:E; [|done]. cbv zeta. destruct (negb _); [done|].
  by destruct (applyAuthRateLimits _ _ _ _ _) as [[? ?] ?].
Qed.

Lemma on_network_ok F base O e wh r id p :
  Proxy_ok F base O p → is_Some (px_networks p !! id) →
  let '(p', s, queue) := on_network NewRequest_ok gunzip sha ParseFloat e wh r id p in
  s ≠ SPanic ∧ (s ≠ SWaiting → queue = [] → Proxy_ok F base O p').
Proof.
  intros [H1 H2] [n En]. unfold on_network. rewrite En. destruct (H1 id n En) as [Hok Hh].
  pose proof (ServeHTTP_gives_back NewRequest_ok gunzip sha escapePath ParseFloat (F id) (base id) (O id) e wh r n Hok Hh) as H.
  destruct (ServeHTTP _ _ _ _ _ _ _ _ _) as [[n' s] queue]. destruct H as (Hok' & Hp & Hd). split; [done|].
  intros Hs ->. destruct (Hd Hs) as [Hd' _]. constructor; cbn [px_networks set_network px_single].
  - intros id' m. destruct (decide (id = id')) as [<-|Hne].
    + rewrite lookup_insert_eq. intros [= <-]. by split.
    + rewrite lookup_insert_ne by done. apply H1.
  - intros id' Hid. destruct (decide (id = id')) as [<-|Hne]; [by rewrite lookup_insert_eq|].
    rewrite lookup_insert_ne by done. by apply H2.
Qed.

(** The front end never looks up a network that is not there and no request panics it; every network's
    invariant and the ownership of its probes and bodies survive each request, whichever network it is
    for, refused and unknown ones included. *)
Theorem Proxy_ServeHTTP_safe F base O e wh r p :
  Proxy_ok F base O p →
  let '(p', s, queue) := Proxy_ServeHTTP NewRequest_ok gunzip sha ParseFloat Quote e wh r p in
  s ≠ SPanic ∧ (s ≠ SWaiting → queue = [] → Proxy_ok F base O p').
Proof.
  intros Hok. unfold Proxy_ServeHTTP. cbv zeta. destruct (String.eqb _ _); [done|].
  assert (∀ p', px_networks p' = px_networks p → px_single p' = px_single p → Proxy_ok F base O p') as Hsame.
  { intros p' E1 E2. destruct Hok as [H1 H2]. constructor; rewrite ?E1, ?E2; done. }
  destruct (routeRequest p _) as [[[[id rest] key] strip]|] eqn:Er.
  - destruct (routeRequest_sound _ _ _ _ _ _ Er) as (Hn & _).
    destruct (authenticate_networks (ev_now e) wh (in_req r) key p) as [E1 E2].
    destruct (authenticate _ _ _ _ _) as [p' [w|k]]; cbn [fst] in E1, E2.
    + split; [done|]. intros _ _. by apply Hsame.
    + apply (on_network_ok F base O); [by apply Hsame|by rewrite E1].
  - destruct (authenticate_networks (ev_now e) wh (in_req r) "" p) as [E1 E2].
    destruct (authenticate _ _ _ _ _) as [p' [w|k]]; cbn [fst] in E1, E2.
    + split; [done|]. intros _ _. by apply Hsame.
    + destruct (px_single p') as [id|] eqn:Esi.
      * apply (on_network_ok F base O); [apply Hsame; congruence|]. rewrite E1. apply (po_single _ _ _ _ Hok). congruence.
      * split; [done|]. intros _ _. apply Hsame; congruence.
Qed.
End proxy_requests.

(** ** Witnesses *)

Module ProxyDemo.
Import ExecDemo BoundsDemo ServeDemo.
#[local] Existing Instance DemoNet.

Definition demo_auth : AuthConfig :=
  {| au_Secret := "";
     au_Keys := [{| ak_ID := "indexer"; ak_Description := ""; ak_Secret := "s3cr3t"; ak_Tier := ""; ak_RateLimiting := None |}];
     au_Tiers := [] |}.

Definition demo_file_auth : ConfigFile :=
  let c := ConfigDemo.demo_file [] in
  {| cf_LogLevel := cf_LogLevel c; cf_DebugLogging := cf_DebugLogging c; cf_Server := cf_Server c; cf_Pprof := cf_Pprof c;
     cf_CORS := cf_CORS c; cf_Auth := Some demo_auth; cf_Networks := cf_Networks c; cf_LegacyProjects := cf_LegacyProjects c;
     cf_Failsafe := cf_Failsafe c; cf_RateLimiting := cf_RateLimiting c; cf_Health := cf_Health c; cf_Metrics := cf_Metrics c;
     cf_State := cf_State c; cf_UI := cf_UI c |}.

Definition demo_proxy : Proxy (RL := ToyRate) (RX := MiniRegexp) :=
  SetAuth (λ _, 0) (Some demo_auth) (Proxy_New {["mainnet" := demo_net]}).

Definition demo_inbound (path : string) : Inbound :=
  {| in_req := {| req_Method := "GET";
                  req_URL := {| url_Path := path; url_EscapedPath := escapePath path; url_RawQuery := "" |}; req_Header := ∅ |};
     in_Host := "proxy"; in_RemoteAddr := "10.0.0.1:99"; in_Body := None |}.

Lemma routed_path_integrity_witness :
  routeRequest demo_proxy "/mainnet/s3cr3t/eth/v1/node/version" = Some ("mainnet", "/eth/v1/node/version", "s3cr3t", 2%nat) ∧
  stripPathSegments "/mainnet/s3cr3t/eth/v1/node/version" 2 = "/eth/v1/node/version".
Proof.
  assert (routeRequest demo_proxy "/mainnet/s3cr3t/eth/v1/node/version" = Some ("mainnet", "/eth/v1/node/version", "s3cr3t", 2%nat)) as E
    by (vm_compute; reflexivity).
  split; [exact E|].
  exact (proj1 (proj2 (routed_path_integrity demo_proxy (demo_inbound "/mainnet/s3cr3t/eth/v1/node/version") _ _ _ _ E))).
Defined.

Lemma aggregate_health_witness :
  aggregate [HealthUp; HealthDegraded; HealthDown] = aggregate [HealthDegraded; HealthUp; HealthDown].
Proof.
  exact (proj1 (aggregate_health [HealthUp; HealthDegraded; HealthDown] [HealthDegraded; HealthUp; HealthDown] ltac:(apply perm_swap))).
Defined.

Lemma loaded_auth_enforced_witness :
  Proxy_ServeHTTP (λ _ _, true) (λ _ _, None) id toy_ParseFloat id demo_lead ∅ (demo_inbound "/mainnet/eth/v1/node/version") demo_proxy =
  (demo_proxy, SWritten (unauthorized ∅), []).
Proof.
  assert (Load (RX := MiniRegexp) ConfigDemo.demo_url id demo_file_auth (DVal demo_file_auth) [] =
          inr (expandSecrets id (applyDefaults demo_file_auth))) as E by (vm_compute; reflexivity).
  refine (proj2 (proj2 (loaded_auth_enforced (λ _ _, true) (λ _ _, None) id toy_ParseFloat id ConfigDemo.demo_url id demo_file_auth
    (DVal demo_file_auth) [] (expandSecrets id (applyDefaults demo_file_auth)) demo_auth demo_proxy E eq_refl eq_refl)) _ _ _ _ _).
  - by apply String.eqb_neq.
  - intros [Hv _]. apply Hv. vm_compute. reflexivity.
Defined.

Lemma Proxy_ServeHTTP_safe_witness :
  let '(p', s, queue) := Proxy_ServeHTTP (λ _ _, true) (λ _ _, None) id toy_ParseFloat id demo_lead ∅
                           (demo_inbound "/s3cr3t/mainnet/eth/v1/node/version") demo_proxy in s ≠ SPanic.
Proof.
  assert (Proxy_ok (λ _, []) (λ _ _, 0) (λ _, ∅) demo_proxy) as Hok.
  { constructor; cbn [demo_proxy SetAuth Proxy_New px_networks px_single].
    - intros k n [<- <-]%lookup_singleton_Some. split; [apply demo_net_ok|apply demo_world_holds].
    - intros k. rewrite map_to_list_singleton. cbn. intros [= <-]. by rewrite lookup_singleton_eq. }
  pose proof (Proxy_ServeHTTP_safe (λ _ _, true) (λ _ _, None) id toy_ParseFloat id (λ _, []) (λ _ _, 0) (λ _, ∅) demo_lead ∅
    (demo_inbound "/s3cr3t/mainnet/eth/v1/node/version") demo_proxy Hok) as H.
  destruct (Proxy_ServeHTTP _ _ _ _ _ _ _ _ _) as [[p' s] queue]. exact (proj1 H).
Defined.
End ProxyDemo.
