(* ===== verification/Cors.v ===== *)
(** * CORS

    [proxy/cors.go]: the wrapper around the whole server.  A wrapped request is either answered here (a preflight)
    or passed on with the response header prepared ([inr]). *)

From S2P Require Import Prelude GoStrings GoFloat Config MemoryStore Url CacheKey ConfigFile Headers.
From Stdlib Require Import Ascii.
#[local] Open Scope string_scope.
#[local] Open Scope Z_scope.

(** ** [Vary] *)

Definition vary_names (value : string) (existing : string) : bool :=
  existsb (λ part, EqualFold (TrimSpace part) value) (Split existing ",").

Definition vary_has (value : string) (headers : Header) : bool := existsb (vary_names value) (hdr_values headers "Vary").

Definition mergeVaryHeader (headers : Header) (value : string) : Header :=
  if vary_has value headers then headers else hdr_add "Vary" value headers.

Definition addCORSVary (headers : Header) (method : string) : Header :=
  let headers := mergeVaryHeader headers "Origin" in
  if String.eqb method "OPTIONS"
  then mergeVaryHeader (mergeVaryHeader headers "Access-Control-Request-Method") "Access-Control-Request-Headers"
  else headers.

(** ** Origins *)

(** The loop of [allowedCORSOrigin]; [None] is [("", false)]. *)
Fixpoint allowed_loop (origins : list string) (origin : string) (allowCredentials : bool) : option string :=
  match origins with
  | [] => None
  | o :: origins =>
      let o := TrimSpace o in
      if String.eqb o "" then allowed_loop origins origin allowCredentials
      else if String.eqb o "*" then Some (if allowCredentials then origin else "*")
      else if EqualFold o origin then Some origin
      else allowed_loop origins origin allowCredentials
  end.

Definition allowedCORSOrigin (cors : CORSConfig) (origin : string) (allowCredentials : bool) : option string :=
  allowed_loop (default [] (co_AllowedOrigins cors)) origin allowCredentials.

Definition set_nonempty (k v : string) (h : Header) : Header := if String.eqb v "" then h else hdr_set k v h.

Definition setCORSHeaders (headers : Header) (method allowedOrigin allowedMethods allowedHeaders exposedHeaders : string)
    (allowCredentials : bool) (maxAge : string) : Header :=
  let h := addCORSVary (hdr_set "Access-Control-Allow-Origin" allowedOrigin headers) method in
  let h := set_nonempty "Access-Control-Allow-Methods" allowedMethods h in
  let h := set_nonempty "Access-Control-Allow-Headers" allowedHeaders h in
  let h := set_nonempty "Access-Control-Expose-Headers" exposedHeaders h in
  let h := if allowCredentials then hdr_set "Access-Control-Allow-Credentials" "true" h else h in
  set_nonempty "Access-Control-Max-Age" maxAge h.

Definition no_content (h : Header) : Written := {| wr_Status := 204; wr_Header := h; wr_Body := ""; wr_gzip := false |}.

(** The origin a request names. *)
Definition cors_origin (r : Request) : string := TrimSpace (hdr_get (req_Header r) "Origin").

Definition WrapWithCORS (cors : option CORSConfig) (wh : Header) (r : Request) : Written + Header :=
  match cors with
  | None => inr wh
  | Some c =>
      let allowCredentials := default false (co_AllowCredentials c) in
      let allowedMethods := Join (default [] (co_AllowedMethods c)) ", " in
      let allowedHeaders := Join (default [] (co_AllowedHeaders c)) ", " in
      let exposedHeaders := Join (default [] (co_ExposedHeaders c)) ", " in
      let maxAge := if 0 <? co_MaxAge c then Itoa (co_MaxAge c) else "" in
      let wh := addCORSVary wh (req_Method r) in
      let origin := cors_origin r in
      if String.eqb origin "" then inr wh
      else
        match allowedCORSOrigin c origin allowCredentials with
        | Some allowedOrigin =>
            let wh := setCORSHeaders wh (req_Method r) allowedOrigin allowedMethods allowedHeaders exposedHeaders allowCredentials maxAge in
            if String.eqb (req_Method r) "OPTIONS" then inl (no_content wh) else inr wh
        | None => if String.eqb (req_Method r) "OPTIONS" then inl (no_content wh) else inr wh
        end
  end.

(** ** Lemmas *)

Lemma hdr_values_add k v h k' :
  hdr_values (hdr_add k v h) k' = if decide (CanonicalKey k = CanonicalKey k') then (hdr_values h k' ++ [v])%list else hdr_values h k'.
Proof. unfold hdr_values. rewrite hdr_add_lookup. by destruct (decide _). Qed.

Lemma vary_has_add value v h : vary_has value (hdr_add "Vary" v h) = vary_has value h || vary_names value v.
Proof. unfold vary_has. rewrite hdr_values_add, decide_True by done. rewrite existsb_app. cbn. by rewrite orb_false_r. Qed.

(** The header names [addCORSVary] merges. *)
Definition vary_tokens : list string := ["Origin"; "Access-Control-Request-Method"; "Access-Control-Request-Headers"].

Lemma vary_self value : value ∈ vary_tokens → vary_names value value = true.
Proof. unfold vary_tokens. rewrite !elem_of_cons, elem_of_nil. by intros [-> |[-> |[-> |[]]]]. Qed.

Lemma merge_has value h : value ∈ vary_tokens → vary_has value (mergeVaryHeader h value) = true.
Proof.
  intros Hv. unfold mergeVaryHeader. destruct (vary_has value h) eqn:E; [done|].
  by rewrite vary_has_add, vary_self, orb_true_r.
Qed.

Lemma merge_keeps value v h : vary_has value h = true → vary_has value (mergeVaryHeader h v) = true.
Proof. intros H. unfold mergeVaryHeader. destruct (vary_has v h); [done|]. by rewrite vary_has_add, H. Qed.

Lemma merge_other k value h : k ≠ "Vary" → mergeVaryHeader h value !! k = h !! k.
Proof.
  intros Hk. unfold mergeVaryHeader. destruct (vary_has value h); [done|].
  rewrite hdr_add_lookup, decide_False; [done|]. intros E. apply Hk. by rewrite <- E.
Qed.

Lemma vary_other k method h : k ≠ "Vary" → addCORSVary h method !! k = h !! k.
Proof. intros Hk. unfold addCORSVary. cbv zeta. destruct (String.eqb _ _); by rewrite ?merge_other. Qed.

(** Every token a response needs is there. *)
Definition varies (method : string) (h : Header) : Prop :=
  vary_has "Origin" h = true ∧
  (method = "OPTIONS" → vary_has "Access-Control-Request-Method" h = true ∧ vary_has "Access-Control-Request-Headers" h = true).

Lemma addCORSVary_varies method h : varies method (addCORSVary h method).
Proof.
  unfold varies, addCORSVary, vary_tokens. cbv zeta. destruct (String.eqb_spec method "OPTIONS") as [-> |Hm].
  - split; [|intros _; split]; repeat first [apply merge_has; set_solver|apply merge_keeps].
  - split; [apply merge_has; set_solver|done].
Qed.

Lemma addCORSVary_idem method h : addCORSVary (addCORSVary h method) method = addCORSVary h method.
Proof.
  destruct (addCORSVary_varies method h) as [H1 H2]. set (h' := addCORSVary h method) in *. clearbody h'.
  unfold addCORSVary. cbv zeta. unfold mergeVaryHeader at 3. rewrite H1.
  destruct (String.eqb_spec method "OPTIONS") as [E|]; [|unfold mergeVaryHeader; by rewrite H1].
  destruct (H2 E) as [H3 H4]. unfold mergeVaryHeader. by rewrite ?H1, ?H3, ?H4.
Qed.

(** Which origins are allowed. *)
Definition origin_allowed (origins : list string) (origin : string) (creds : bool) (v : string) : Prop :=
  (∃ o, o ∈ origins ∧ TrimSpace o = "*") ∧ v = (if creds then origin else "*") ∨
  (∃ o, o ∈ origins ∧ TrimSpace o ≠ "" ∧ EqualFold (TrimSpace o) origin = true) ∧ v = origin.

Lemma allowed_loop_spec origins origin creds v :
  allowed_loop origins origin creds = Some v → origin_allowed origins origin creds v.
Proof.
  induction origins as [|o l IH]; cbn [allowed_loop]; [done|]. cbv zeta.
  assert (origin_allowed l origin creds v → origin_allowed (o :: l) origin creds v) as Hweak.
  { intros [[(x & Hx & Hr) E]|[(x & Hx & Hr) E]]; [left|right]; (split; [|done]); exists x; (split; [by right|done]). }
  destruct (String.eqb_spec (TrimSpace o) "") as [E|E]; [by intros ?%IH%Hweak|].
  destruct (String.eqb_spec (TrimSpace o) "*") as [E2|E2].
  - intros [= <-]. left. split; [|done]. exists o. split; [by left|done].
  - destruct (EqualFold (TrimSpace o) origin) eqn:E3; [|by intros ?%IH%Hweak].
    intros [= <-]. right. split; [|done]. exists o. split_and!; [by left|done|done].
Qed.

Lemma allowed_loop_none origins origin creds :
  allowed_loop origins origin creds = None → ∀ v, origin_allowed origins origin creds v → False.
Proof.
  induction origins as [|o l IH]; cbn [allowed_loop]; cbv zeta.
  { intros _ v [[(x & Hx & _) _]|[(x & Hx & _) _]]; by apply not_elem_of_nil in Hx. }
  destruct (String.eqb_spec (TrimSpace o) "") as [E|E].
  - intros H v [[(x & [-> |Hx]%elem_of_cons & Hr) Hv]|[(x & [-> |Hx]%elem_of_cons & Hr & Hr2) Hv]]; try congruence.
    + apply (IH H v). left. eauto.
    + apply (IH H v). right. eauto.
  - destruct (String.eqb_spec (TrimSpace o) "*") as [E2|E2]; [done|]. destruct (EqualFold (TrimSpace o) origin) eqn:E3; [done|].
    intros H v [[(x & [-> |Hx]%elem_of_cons & Hr) Hv]|[(x & [-> |Hx]%elem_of_cons & Hr & Hr2) Hv]]; try congruence.
    + apply (IH H v). left. eauto.
    + apply (IH H v). right. eauto.
Qed.

Lemma set_nonempty_ne k v h k' : CanonicalKey k ≠ k' → set_nonempty k v h !! k' = h !! k'.
Proof. intros Hk. unfold set_nonempty. destruct (String.eqb v ""); [done|]. by apply hdr_set_ne. Qed.

(** What the headers say about origins. *)
Lemma setCORSHeaders_key k h method o m hs ex creds age :
  k ∈ ["Access-Control-Allow-Origin"; "Vary"] →
  setCORSHeaders h method o m hs ex creds age !! k = addCORSVary (hdr_set "Access-Control-Allow-Origin" o h) method !! k.
Proof.
  intros Hk. unfold setCORSHeaders. cbv zeta.
  assert (∀ n, n ∈ ["Access-Control-Allow-Methods"; "Access-Control-Allow-Headers"; "Access-Control-Expose-Headers";
    "Access-Control-Allow-Credentials"; "Access-Control-Max-Age"] → CanonicalKey n ≠ k) as Hne.
  { rewrite !elem_of_cons, elem_of_nil in Hk. intros n. rewrite !elem_of_cons, elem_of_nil.
    destruct Hk as [-> |[-> |[]]]; by intros [-> |[-> |[-> |[-> |[-> |[]]]]]]. }
  rewrite set_nonempty_ne by (apply Hne; set_solver).
  assert (∀ h', (if creds then hdr_set "Access-Control-Allow-Credentials" "true" h' else h') !! k = h' !! k) as Hcred.
  { intros h'. destruct creds; [|done]. apply hdr_set_ne, Hne. set_solver. }
  rewrite Hcred. rewrite !set_nonempty_ne by (apply Hne; set_solver). done.
Qed.

Lemma varies_same method h h' : h' !! "Vary" = h !! "Vary" → varies method h → varies method h'.
Proof. intros E. unfold varies, vary_has, hdr_values. change (CanonicalKey "Vary") with "Vary". by rewrite E. Qed.


(** A network adds the headers of the upstream's response to the prepared ones: an upstream that answers
    with its own origin header makes the client see two. *)
Lemma upstream_origin_duplicated :
  copyEndToEndHeaders (setCORSHeaders ∅ "GET" "https://app.example.com" "" "" "" false "")
    (list_to_map [("Access-Control-Allow-Origin", ["*"])]) !! "Access-Control-Allow-Origin" =
  Some ["https://app.example.com"; "*"].
Proof. vm_compute. reflexivity. Qed.
