(* ===== verification/DebugLog.v ===== *)
(** * The debug log and error sanitising

    [debuglog/debuglog.go] and [upstream/errors.go]: what is written about an exchange, with the
    values of credentials removed.  The record that [LogEvent] hands to [slog] is a value of
    [logval]; the JSON encoder and the rotating file are not modelled.

    Arguments: [gunzip] ([gzip.NewReader], then [io.ReadAll] of an [io.LimitReader] on it), [mkdir]
    ([os.MkdirAll]), [ParseURL] (scheme and host of [url.Parse]) and [Quote] ([strconv.Quote]). *)

From S2P Require Import Prelude GoStrings GoFloat Config MemoryStore Regexp Url CacheKey Paths ConfigFile Headers.
From Stdlib Require Import Ascii.
#[local] Open Scope string_scope.
#[local] Open Scope Z_scope.

(** ** [encoding/base64] and [unicode/utf8] *)

Definition base64_digit (n : Z) : ascii :=
  ascii_of_N (Z.to_N (if n <? 26 then 65 + n else if n <? 52 then 71 + n else if n <? 62 then n - 4 else if n =? 62 then 43 else 47)).

Fixpoint base64_Encode (s : string) : string :=
  match s with
  | "" => ""
  | String a "" =>
      String (base64_digit (byte_val a / 4)) (String (base64_digit (byte_val a mod 4 * 16)) "==")
  | String a (String b "") =>
      String (base64_digit (byte_val a / 4))
        (String (base64_digit (byte_val a mod 4 * 16 + byte_val b / 16)) (String (base64_digit (byte_val b mod 16 * 4)) "="))
  | String a (String b (String c s)) =>
      String (base64_digit (byte_val a / 4))
        (String (base64_digit (byte_val a mod 4 * 16 + byte_val b / 16))
          (String (base64_digit (byte_val b mod 16 * 4 + byte_val c / 64)) (String (base64_digit (byte_val c mod 64)) (base64_Encode s))))
  end.

Definition in_range (lo hi : Z) (c : ascii) : bool := (lo <=? byte_val c) && (byte_val c <=? hi).

(** The length of the rune that starts with this byte, and the range of the second byte. *)
Definition utf8_first (c : ascii) : option (nat * Z * Z) :=
  let n := byte_val c in
  if n <? 128 then Some (1%nat, 0, 0)
  else if n <? 194 then None
  else if n <? 224 then Some (2%nat, 128, 191)
  else if n =? 224 then Some (3%nat, 160, 191)
  else if n =? 237 then Some (3%nat, 128, 159)
  else if n <? 240 then Some (3%nat, 128, 191)
  else if n =? 240 then Some (4%nat, 144, 191)
  else if n <? 244 then Some (4%nat, 128, 191)
  else if n =? 244 then Some (4%nat, 128, 143)
  else None.

(** [utf8.Valid] *)
Fixpoint utf8_Valid (s : string) : bool :=
  match s with
  | "" => true
  | String c rest =>
      match utf8_first c, rest with
      | Some (1%nat, _, _), _ => utf8_Valid rest
      | Some (2%nat, lo, hi), String a rest => in_range lo hi a && utf8_Valid rest
      | Some (3%nat, lo, hi), String a (String b rest) => in_range lo hi a && in_range 128 191 b && utf8_Valid rest
      | Some (4%nat, lo, hi), String a (String b (String d rest)) =>
          in_range lo hi a && in_range 128 191 b && in_range 128 191 d && utf8_Valid rest
      | _, _ => false
      end
  end.

(** ** Errors *)

(** An error value: a text of its own, a wrapped error with the text in front of it, or [*url.Error]. *)
Inductive goerror :=
  | EText (text : string)
  | EWrap (prefix : string) (inner : goerror)
  | EURL (op url : string) (inner : goerror).

Section errors.
Context (ParseURL : string → option (string * string)) (Quote : string → string).

(** [err.Error()] *)
Fixpoint error_text (e : goerror) : string :=
  match e with
  | EText t => t
  | EWrap p e => p +:+ error_text e
  | EURL op url e => op +:+ " " +:+ Quote url +:+ ": " +:+ error_text e
  end.

Definition sanitizeErrorURL (raw : string) : string :=
  match ParseURL raw with
  | None => "[REDACTED_URL]"
  | Some (scheme, host) =>
      if String.eqb host "" then "[REDACTED_URL]"
      else if String.eqb scheme "" then "//" +:+ host
      else scheme +:+ "://" +:+ host
  end.

(** Whether the chain contains a [*url.Error] ([errors.As]). *)
Fixpoint has_url_error (e : goerror) : bool :=
  match e with EText _ => false | EWrap _ e => has_url_error e | EURL _ _ _ => true end.

(** [SanitizeError] on a non-nil error: the first [*url.Error] of the chain replaces what wraps it. *)
Fixpoint SanitizeError (e : goerror) : goerror :=
  match e with
  | EText t => EText t
  | EWrap p inner => if has_url_error inner then SanitizeError inner else e
  | EURL op url inner => EURL op (sanitizeErrorURL url) (SanitizeError inner)
  end.
End errors.

(** ** Redaction *)

Definition sensitiveHeaderKeys : list string :=
  ["authorization"; "cookie"; "proxy-authorization"; "set-cookie"; "x-api-key"; "x-ebeacon-secret-token"].

Definition IsSensitiveHeader (name : string) : bool := bool_decide (ToLower name ∈ sensitiveHeaderKeys).

Definition sensitiveQueryKeys : list string :=
  ["access_token"; "api_key"; "authorization"; "key"; "secret"; "token"; "use-upstream"].

Definition redact_values (sensitive : bool) (vs : list string) : list string := if sensitive then ["[REDACTED]"] else vs.

(** [None] is a nil header. *)
Definition SanitizeHeaders (h : Header) : option Header :=
  if bool_decide (h = ∅) then None
  else Some (map_imap (λ k vs, match vs with [] => None | _ => Some (redact_values (IsSensitiveHeader k) vs) end) h).

(** [url.ParseQuery] reports an error for a part that is not empty and cannot be read. *)
Definition query_error (raw : string) : bool :=
  existsb (λ part, negb (String.eqb part "") && bool_decide (parse_part part = None)) (Split raw "&").

Definition sanitizeQuery (raw : string) : string :=
  if String.eqb raw "" then ""
  else if query_error raw then "[UNPARSEABLE_QUERY_REDACTED]"
  else
    Values_Encode (map_imap (λ k vs, Some (redact_values (bool_decide (ToLower k ∈ sensitiveQueryKeys)) vs)) (ParseQuery raw)).

(** ** Bodies *)

Inductive logval :=
  | LStr (s : string)
  | LInt (n : Z)
  | LBool (b : bool)
  | LHeaders (h : option Header)
  | LMap (fields : list (string * logval)).

Definition isTextBody (contentType body : string) : bool :=
  let ct := ToLower contentType in
  Contains ct "application/json" || Contains ct "application/problem+json" || Contains ct "text/" ||
  Contains ct "application/xml" || Contains ct "application/x-yaml" || utf8_Valid body.

Section log.
(** Opening fails with a text, or gives a reader: its first [n] bytes, or a read error. *)
Context (gunzip : string → string + (Z → string + string)).

(** The preview, whether it is truncated, and the read error. *)
Definition readPreview (r : Z → string + string) (maxBodyBytes : Z) : string * bool * string :=
  match r (wrap_i64 (maxBodyBytes + 1)) with
  | inl err => ("", false, err)
  | inr limited =>
      if maxBodyBytes <? str_len limited then (str_take (Z.to_nat maxBodyBytes) limited, true, "")
      else (limited, false, "")
  end.

Definition opt_field (k v : string) : list (string * logval) := if String.eqb v "" then [] else [(k, LStr v)].

Definition previewBody (h : Header) (body : string) (maxBodyBytes : Z) : option (list (string * logval)) :=
  if (str_len body =? 0) || (maxBodyBytes <=? 0) then None
  else
    let contentType := hdr_get h "Content-Type" in
    let contentEncoding := hdr_get h "Content-Encoding" in
    let cut := str_take (Z.to_nat (Z.min (str_len body) maxBodyBytes)) body in
    let '(preview, truncated, decodeError) :=
      if Contains (ToLower contentEncoding) "gzip" then
        match gunzip body with
        | inl err => (cut, maxBodyBytes <? str_len body, err)
        | inr r => readPreview r maxBodyBytes
        end
      else (cut, maxBodyBytes <? str_len body, "") in
    Some ([("original_bytes", LInt (str_len body)); ("logged_bytes", LInt (str_len preview)); ("truncated", LBool truncated)] ++
          opt_field "content_type" contentType ++ opt_field "content_encoding" contentEncoding ++
          opt_field "decode_error" decodeError ++
          (if isTextBody contentType preview then [("format", LStr "text"); ("value", LStr preview)]
           else [("format", LStr "base64"); ("value", LStr (base64_Encode preview))]))%list.

(** ** Events *)

Record Event := {
  Kind : string; evt_Network : string; APIPath : string; Method : string; Path : string; RawQuery : string;
  evt_ClientIP : string; evt_Upstream : string; evt_Selector : string; Status : Z; Attempt : Z; Duration : Z;
  Err : option goerror; RequestHeaders : Header; RequestBody : string; ResponseHeaders : Header; ResponseBody : string;
  Note : string;
}.

(** [lg_logger] tells whether the [slog] handler is set. *)
Record Logger := { lg_enabled : bool; lg_logger : bool; lg_maxBodyBytes : Z }.

Definition no_logger : Logger := {| lg_enabled := false; lg_logger := false; lg_maxBodyBytes := 0 |}.

(** A nil pointer is [None]. *)
Definition Logger_Enabled (l : option Logger) : bool :=
  match l with None => false | Some l => lg_enabled l && lg_logger l end.

Context (Quote : string → string).

Definition log_request (l : Logger) (e : Event) : list (string * logval) :=
  ([("path", LStr (Path e)); ("headers", LHeaders (SanitizeHeaders (RequestHeaders e)))] ++
   opt_field "query" (sanitizeQuery (RawQuery e)) ++
   match previewBody (RequestHeaders e) (RequestBody e) (lg_maxBodyBytes l) with Some b => [("body", LMap b)] | None => [] end)%list.

Definition log_response (l : Logger) (e : Event) : list (string * logval) :=
  (match SanitizeHeaders (ResponseHeaders e) with
   | Some h => if bool_decide (h = ∅) then [] else [("headers", LHeaders (Some h))]
   | None => [] end ++
   match previewBody (ResponseHeaders e) (ResponseBody e) (lg_maxBodyBytes l) with Some b => [("body", LMap b)] | None => [] end)%list.

Definition opt_int (k : string) (present : bool) (n : Z) : list (string * logval) := if present then [(k, LInt n)] else [].

(** The attributes of the record; [None] writes nothing. *)
Definition LogEvent (l : option Logger) (e : Event) : option (list (string * logval)) :=
  match l with
  | Some lg =>
      if negb (Logger_Enabled l) then None
      else
        Some ([("kind", LStr (Kind e)); ("network", LStr (evt_Network e)); ("api_path", LStr (APIPath e));
               ("method", LStr (Method e)); ("request", LMap (log_request lg e))] ++
              opt_field "client_ip" (evt_ClientIP e) ++ opt_field "upstream" (evt_Upstream e) ++
              opt_field "selector" (evt_Selector e) ++ opt_int "status" (0 <? Status e) (Status e) ++
              opt_int "attempt" (0 <? Attempt e) (Attempt e) ++
              opt_int "duration_ms" (0 <? Duration e) (Duration e / Millisecond) ++
              match Err e with Some err => [("error", LStr (error_text Quote err))] | None => [] end ++
              opt_field "note" (Note e) ++
              match log_response lg e with [] => [] | fields => [("response", LMap fields)] end)%list
  | None => None
  end.
End log.

(** ** The default logger *)

(** [filepath.Dir] *)
Definition Dir (path : string) : string :=
  let segs := Split path "/" in
  Clean (match segs with [_] => "" | _ => Join (take (length segs - 1) segs) "/" +:+ "/" end).

(** [New]; [None] is an error.  The second component tells whether there is a file to close. *)
Definition Logger_New (mkdir : string → bool) (cfg : DebugLoggingConfig) : option (Logger * bool) :=
  if negb (dl_Enabled cfg) then Some (no_logger, false)
  else
    let dir := Dir (dl_Path cfg) in
    if negb (String.eqb dir "") && negb (String.eqb dir ".") && negb (mkdir dir) then None
    else Some ({| lg_enabled := true; lg_logger := true; lg_maxBodyBytes := dl_MaxBodyBytes cfg |}, true).

(** The new default and the previous one. *)
Definition SetDefault (logger : option Logger) (current : option Logger) : option Logger * option Logger :=
  (Some (default no_logger logger), current).

Definition Default (current : option Logger) : Logger := default no_logger current.

(** The new default and whether there is a file to close; an error leaves the default as it is. *)
Definition ConfigureDefault (mkdir : string → bool) (cfg : DebugLoggingConfig) (current : option Logger)
    : option Logger * option bool :=
  match Logger_New mkdir cfg with
  | None => (current, None)
  | Some (logger, closer) => ((SetDefault (Some logger) current).1, Some closer)
  end.

(** ** Nothing secret is logged *)

(** Two multi-valued maps with the same keys, whose values may differ under sensitive keys only. *)
Definition alike (sensitive : string → bool) (m1 m2 : gmap string (list string)) : Prop :=
  ∀ k, match m1 !! k, m2 !! k with
       | None, None => True
       | Some v1, Some v2 => (v1 = [] ↔ v2 = []) ∧ (sensitive k = false → v1 = v2)
       | _, _ => False
       end.

Lemma alike_empty sensitive m1 m2 : alike sensitive m1 m2 → m1 = ∅ ↔ m2 = ∅.
Proof.
  intros H. split; intros ->; apply map_eq; intros k; specialize (H k); rewrite lookup_empty in *.
  - by destruct (m2 !! k).
  - by destruct (m1 !! k).
Qed.

Lemma alike_redacted sensitive (f : string → list string → option (list string)) m1 m2 :
  alike sensitive m1 m2 → (∀ k v1 v2, sensitive k = true → (v1 = [] ↔ v2 = []) → f k v1 = f k v2) →
  map_imap f m1 = map_imap f m2.
Proof.
  intros H Hf. apply map_eq. intros k. rewrite !map_lookup_imap. specialize (H k).
  destruct (m1 !! k) as [v1|], (m2 !! k) as [v2|]; try done. destruct H as [He Hs].
  cbn [mbind option_bind]. destruct (sensitive k) eqn:E; [by apply Hf|by rewrite Hs].
Qed.

Lemma SanitizeHeaders_alike h1 h2 : alike IsSensitiveHeader h1 h2 → SanitizeHeaders h1 = SanitizeHeaders h2.
Proof.
  intros H. unfold SanitizeHeaders. rewrite (bool_decide_ext (h1 = ∅) (h2 = ∅)) by (by eapply alike_empty).
  case_bool_decide; [done|]. f_equal. apply (alike_redacted IsSensitiveHeader); [done|].
  intros k v1 v2 Hk He. unfold redact_values. rewrite Hk. destruct v1, v2; naive_solver.
Qed.

(** Two query strings that read as the same parameters, up to the values of sensitive ones. *)
Definition query_alike (q1 q2 : string) : Prop :=
  (q1 = "" ↔ q2 = "") ∧ query_error q1 = query_error q2 ∧
  (query_error q1 = false → alike (λ k, bool_decide (ToLower k ∈ sensitiveQueryKeys)) (ParseQuery q1) (ParseQuery q2)).

Lemma sanitizeQuery_alike q1 q2 : query_alike q1 q2 → sanitizeQuery q1 = sanitizeQuery q2.
Proof.
  intros (H0 & He & Ha). unfold sanitizeQuery.
  destruct (String.eqb_spec q1 "") as [E1|N1], (String.eqb_spec q2 "") as [E2|N2]; [done|tauto|tauto|].
  rewrite <- He. destruct (query_error q1); [done|]. f_equal.
  apply (alike_redacted (λ k, bool_decide (ToLower k ∈ sensitiveQueryKeys))); [by apply Ha|].
  intros k v1 v2 Hk _. by rewrite Hk.
Qed.

Lemma hdr_get_alike h1 h2 k : alike IsSensitiveHeader h1 h2 → IsSensitiveHeader (CanonicalKey k) = false → hdr_get h1 k = hdr_get h2 k.
Proof.
  intros H Hk. unfold hdr_get, Header_Get. specialize (H (CanonicalKey k)).
  destruct (h1 !! CanonicalKey k), (h2 !! CanonicalKey k); try done. destruct H as [_ H]. by rewrite H.
Qed.

Lemma previewBody_alike gunzip h1 h2 body n :
  alike IsSensitiveHeader h1 h2 → previewBody gunzip h1 body n = previewBody gunzip h2 body n.
Proof.
  intros H. unfold previewBody. rewrite (hdr_get_alike h1 h2 "Content-Type" H), (hdr_get_alike h1 h2 "Content-Encoding" H); [done|..];
    vm_compute; reflexivity.
Qed.

(** Transport errors with the same texts, whose URLs have the same scheme and host; user
    information, path and query are free. *)
Inductive error_alike (ParseURL : string → option (string * string)) : goerror → goerror → Prop :=
  | AText t : error_alike ParseURL (EText t) (EText t)
  | AWrap p e1 e2 : error_alike ParseURL e1 e2 → error_alike ParseURL (EWrap p e1) (EWrap p e2)
  | AURL op url1 url2 e1 e2 :
      ParseURL url1 = ParseURL url2 → error_alike ParseURL e1 e2 → error_alike ParseURL (EURL op url1 e1) (EURL op url2 e2).

Lemma SanitizeError_alike ParseURL e1 e2 :
  error_alike ParseURL e1 e2 →
  SanitizeError ParseURL e1 = SanitizeError ParseURL e2 ∧ has_url_error e1 = has_url_error e2 ∧ (has_url_error e1 = false → e1 = e2).
Proof.
  induction 1 as [t|p e1 e2 H (IH1 & IH2 & IH3)|op url1 url2 e1 e2 Hu H (IH1 & _)]; cbn [SanitizeError has_url_error].
  - done.
  - rewrite <- IH2. destruct (has_url_error e1); split_and!; [done|done|done|f_equal; by apply IH3|done|intros _; f_equal; by apply IH3].
  - split_and!; [|done|done]. rewrite IH1. unfold sanitizeErrorURL. by rewrite Hu.
Qed.

(** Errors as they reach the log: sanitised where they arise, possibly wrapped afterwards. *)
Inductive logged_alike (ParseURL : string → option (string * string)) : goerror → goerror → Prop :=
  | LSanitized e1 e2 :
      error_alike ParseURL e1 e2 → logged_alike ParseURL (SanitizeError ParseURL e1) (SanitizeError ParseURL e2)
  | LWrapped p e1 e2 : logged_alike ParseURL e1 e2 → logged_alike ParseURL (EWrap p e1) (EWrap p e2).

Lemma logged_alike_eq ParseURL e1 e2 : logged_alike ParseURL e1 e2 → e1 = e2.
Proof. induction 1 as [e1 e2 H|p e1 e2 H ->]; [by apply SanitizeError_alike|done]. Qed.

Lemma str_cut_rest s n : 0 <= n → (n <? str_len s) = negb (String.eqb (str_drop (Z.to_nat (Z.min (str_len s) n)) s) "").
Proof.
  intros Hn. pose proof (str_drop_len (Z.to_nat (Z.min (str_len s) n)) s) as H. unfold str_len in *.
  destruct (String.eqb_spec (str_drop (Z.to_nat (Z.min (Z.of_nat (String.length s)) n)) s) "") as [E|E]; cbn [negb].
  - rewrite E in H. cbn in H. apply Z.ltb_ge. lia.
  - destruct (str_drop _ s); [done|]. cbn in H. apply Z.ltb_lt. lia.
Qed.

Section noninterference.
Context (gunzip : string → string + (Z → string + string)) (Quote : string → string)
  (ParseURL : string → option (string * string)).

(** Two events that differ only in credentials: the values of sensitive headers and query
    parameters, and everything but scheme and host in the URLs of a (sanitised) transport error. *)
Record event_alike (e1 e2 : Event) : Prop := {
  ea_plain : (Kind e1, evt_Network e1, APIPath e1, Method e1, Path e1, evt_ClientIP e1, evt_Upstream e1, evt_Selector e1,
              Status e1, Attempt e1, Duration e1, RequestBody e1, ResponseBody e1, Note e1) =
             (Kind e2, evt_Network e2, APIPath e2, Method e2, Path e2, evt_ClientIP e2, evt_Upstream e2, evt_Selector e2,
              Status e2, Attempt e2, Duration e2, RequestBody e2, ResponseBody e2, Note e2);
  ea_request : alike IsSensitiveHeader (RequestHeaders e1) (RequestHeaders e2);
  ea_response : alike IsSensitiveHeader (ResponseHeaders e1) (ResponseHeaders e2);
  ea_query : query_alike (RawQuery e1) (RawQuery e2);
  ea_error : option_Forall2 (logged_alike ParseURL) (Err e1) (Err e2);
}.

(** C18: the debug log is independent of credentials: two exchanges that differ only in the values of sensitive headers
    (of the request and of the response), in the values of sensitive query parameters, and in the
    user information, paths and queries of the URLs in transport errors write the same record;
    so nobody who reads the log learns anything about them. *)
Theorem log_independent_of_credentials l e1 e2 :
  event_alike e1 e2 → LogEvent gunzip Quote l e1 = LogEvent gunzip Quote l e2.
Proof.
  intros [Hp Hq Hr Hu He].
  assert (Err e1 = Err e2) as Herr.
  { destruct He as [x1 x2 H|]; [|done]. f_equal. by eapply logged_alike_eq. }
  destruct e1, e2. cbn [Kind evt_Network APIPath Method Path RawQuery evt_ClientIP evt_Upstream evt_Selector Status Attempt Duration Err
    RequestHeaders RequestBody ResponseHeaders ResponseBody Note] in *. simplify_eq.
  unfold LogEvent, log_request, log_response. destruct l as [lg|]; [|done]. destruct (negb _); [done|].
  cbn [Kind evt_Network APIPath Method Path RawQuery evt_ClientIP evt_Upstream evt_Selector Status Attempt Duration Err
    RequestHeaders RequestBody ResponseHeaders ResponseBody Note].
  by rewrite (SanitizeHeaders_alike _ _ Hq), (SanitizeHeaders_alike _ _ Hr), (sanitizeQuery_alike _ _ Hu),
    (previewBody_alike gunzip _ _ _ _ Hq), (previewBody_alike gunzip _ _ _ _ Hr).
Qed.

(** ** Bodies are bounded *)

Context (gunzip_limited : ∀ body r n x, gunzip body = inr r → r n = inr x → str_len x <= Z.max 0 n).

(** A logged body is bounded: it is at most [MaxBodyBytes] long whatever its size, encoding or compression; without
    compression it is the front of the body, and marked as truncated exactly when something is
    missing. *)
Theorem preview_bounded h body n fields :
  previewBody gunzip h body n = Some fields → 0 < n < 2 ^ 63 - 1 →
  ∃ preview,
    ("logged_bytes", LInt (str_len preview)) ∈ fields ∧ str_len preview <= n ∧
    (("value", LStr preview) ∈ fields ∨ ("value", LStr (base64_Encode preview)) ∈ fields) ∧
    (Contains (ToLower (hdr_get h "Content-Encoding")) "gzip" = false →
     ∃ rest, body = preview +:+ rest ∧ ("truncated", LBool (negb (String.eqb rest ""))) ∈ fields).
Proof.
  unfold previewBody. intros H Hn. destruct (_ || _); [done|]. cbv zeta in H.
  set (cut := str_take (Z.to_nat (Z.min (str_len body) n)) body) in *.
  assert (str_len cut <= n) as Hcut.
  { pose proof (str_take_len (Z.to_nat (Z.min (str_len body) n)) body) as E. fold cut in E. unfold str_len in *. lia. }
  set (ptd := if Contains (ToLower (hdr_get h "Content-Encoding")) "gzip" then _ else _) in *.
  assert (str_len ptd.1.1 <= n ∧
    (Contains (ToLower (hdr_get h "Content-Encoding")) "gzip" = false → ptd = (cut, n <? str_len body, ""))) as [Hl Hplain].
  { subst ptd. destruct (Contains _ "gzip"); [|done]. split; [|done].
    destruct (gunzip body) as [err|r] eqn:Eg; [done|]. unfold readPreview.
    assert (wrap_i64 (n + 1) = n + 1) as -> by (apply wrap_i64_small; lia).
    destruct (r (n + 1)) as [err|x] eqn:Er; [cbn; unfold str_len; cbn; lia|]. pose proof (gunzip_limited body r (n + 1) x Eg Er).
    destruct (Z.ltb_spec n (str_len x)); cbn [fst]; [|done]. pose proof (str_take_len (Z.to_nat n) x). unfold str_len in *. lia. }
  clearbody ptd. destruct ptd as [[preview truncated] err]. cbn [fst snd] in Hl. injection H as <-. exists preview. split_and!.
  - rewrite !elem_of_cons. auto.
  - done.
  - destruct (isTextBody _ _); [left|right]; rewrite !elem_of_cons, !elem_of_app, !elem_of_cons; auto 12.
  - intros Hg. specialize (Hplain Hg). injection Hplain as -> -> _.
    exists (str_drop (Z.to_nat (Z.min (str_len body) n)) body). split; [unfold cut; by rewrite str_take_drop|].
    rewrite <- str_cut_rest by lia. rewrite !elem_of_cons. auto.
Qed.
End noninterference.

Module DebugLogDemo.
Definition demo_event (auth query url : string) : Event :=
  {| Kind := "upstream_error"; evt_Network := "mainnet"; APIPath := "/eth/v1/node/version"; Method := "GET";
     Path := "/eth/v1/node/version"; RawQuery := query; evt_ClientIP := "10.0.0.1"; evt_Upstream := "a"; evt_Selector := "";
     Status := 502; Attempt := 1; Duration := 3 * Millisecond;
     Err := Some (SanitizeError (λ _, Some ("https", "node.example")) (EURL "Get" url (EText "connection refused")));
     RequestHeaders := list_to_map [("Authorization", [auth]); ("Accept", ["application/json"])]; RequestBody := "";
     ResponseHeaders := ∅; ResponseBody := ""; Note := "" |}.

Lemma log_independent_of_credentials_witness :
  let l := Some {| lg_enabled := true; lg_logger := true; lg_maxBodyBytes := 1024 |} in
  LogEvent (λ _, inl "") id l (demo_event "Bearer s3cret" "secret=s3cret&id=1" "https://user:pw@node.example/key/eth") =
  LogEvent (λ _, inl "") id l (demo_event "Bearer other" "secret=x&id=1" "https://node.example/?token=y") ∧
  LogEvent (λ _, inl "") id l (demo_event "Bearer other" "secret=x&id=1" "https://node.example/?token=y") ≠ None.
Proof.
  split; [|vm_compute; congruence].
  apply (log_independent_of_credentials (λ _, inl "") id (λ _, Some ("https", "node.example"))). constructor; try reflexivity.
  - intros k. cbn [RequestHeaders demo_event]. cbn [list_to_map foldr fst snd].
    destruct (decide (k = "Authorization")) as [-> |H1].
    { rewrite !lookup_insert_eq. split; [done|]. vm_compute. congruence. }
    rewrite !(lookup_insert_ne _ "Authorization") by congruence. by destruct (_ !! k).
  - intros k. cbn [ResponseHeaders demo_event]. by rewrite lookup_empty.
  - split; [done|]. split; [vm_compute; reflexivity|]. intros _ k.
    assert (ParseQuery (RawQuery (demo_event "Bearer s3cret" "secret=s3cret&id=1" "https://user:pw@node.example/key/eth")) =
            <["secret" := ["s3cret"]]> {["id" := ["1"]]}) as -> by (vm_compute; reflexivity).
    assert (ParseQuery (RawQuery (demo_event "Bearer other" "secret=x&id=1" "https://node.example/?token=y")) =
            <["secret" := ["x"]]> {["id" := ["1"]]}) as -> by (vm_compute; reflexivity).
    destruct (decide (k = "secret")) as [-> |H1].
    { rewrite !lookup_insert_eq. split; [done|]. vm_compute. congruence. }
    rewrite !(lookup_insert_ne _ "secret") by congruence. by destruct (_ !! k).
  - constructor. constructor. constructor; [reflexivity|constructor].
Defined.

Lemma preview_bounded_witness :
  ∃ fields, previewBody (λ _, inl "") ∅ "0123456789" 4 = Some fields ∧
  ∃ preview, ("logged_bytes", LInt (str_len preview)) ∈ fields ∧ str_len preview <= 4.
Proof.
  destruct (previewBody (λ _, inl "") ∅ "0123456789" 4) as [fields|] eqn:E; [|vm_compute in E; discriminate E].
  exists fields. split; [reflexivity|].
  destruct (preview_bounded (λ _, inl "") ltac:(by intros) ∅ "0123456789" 4 fields E ltac:(lia)) as (preview & H1 & H2 & _).
  exists preview. split; [exact H1|exact H2].
Defined.
End DebugLogDemo.
