(* ===== verification/Status.v ===== *)
(** * The status API

    [api/status.go]: the web UI's JSON endpoints.  The networks are given in the order in which the map is
    iterated; the views are sorted, so the order does not show.  A view is a value of
    [answer]; JSON encoding and the embedded page are not modelled.

    [slices.SortFunc] is not stable, but no two elements of a view compare equal, so every sort
    gives the same slice.  [ParseURL] is scheme and host of [url.Parse]. *)

From S2P Require Import Prelude GoStrings GoFloat Config CircuitBreaker ScoreTracker AutoTuner BlockCache.
From S2P Require Import Upstream Selector PoolOrder Pool PoolState Health MemoryStore Regexp Cache ApiPath Url CacheKey Paths Historical Session HeadWatcher Consensus Routing ConfigFile Headers Exec Ownership ExecSafety ExecBounds Hedge Serve ServeSafety Proxy ProxySafety DebugLog.
From Stdlib Require Import Ascii.
#[local] Open Scope string_scope.
#[local] Open Scope Z_scope.

(** ** Views *)

Record upstreamStatus := {
  us_ID : string; us_ObfuscatedID : string; us_Network : string; us_URL : string; us_LoadBalancing : string; us_Health : string;
  us_HeadSlot : Z; us_HeadRoot : string; us_HeadPayloadStatus : string; us_SyncDistance : Z; us_ClientType : string;
  us_ActiveConn : Z; us_Priority : Z; us_Weight : Z; us_Archive : bool; us_Score : float64; us_ScoreErrorRate : float64;
  us_ScoreP90LatencyMs : float64; us_ScoreHeadLag : Z; us_ScoreSamples : Z; us_OnCanonical : bool;
}.

Record networkHealth := {
  nh_ID : string; nh_UpstreamCount : Z; nh_HealthyCount : Z; nh_FinalizedSlot : Z; nh_CanonicalSlot : Z; nh_CanonicalRoot : string;
}.

Record cacheStats := { cs_Network : string; cs_Enabled : bool; cs_Size : Z }.

Record cacheEntryInfo := {
  ce_Network : string; ce_Key : string; ce_Status : Z; ce_Headers : option Header; ce_BodySize : Z; ce_CreatedAt : Z;
  ce_ExpiresAt : option Z; ce_BodyBase64 : string; ce_ContentType : string;
}.

Record sessionStats := { ss_Network : string; ss_ActiveSessions : Z; ss_StickyCounts : option (gmap string Z) }.

Record forkUpstream := {
  fu_ID : string; fu_HeadSlot : Z; fu_HeadRoot : string; fu_OnCanonical : bool; fu_ForkStatus : string; fu_ClientType : string;
}.

Record forkInfo := {
  fi_Network : string; fi_CanonicalSlot : Z; fi_CanonicalRoot : string; fi_MaxSlot : Z; fi_Upstreams : list forkUpstream;
}.

Inductive answer :=
  | JHealth (l : list networkHealth)
  | JUpstreams (l : list upstreamStatus)
  | JCache (l : list cacheStats)
  | JEntries (total : Z) (l : list cacheEntryInfo)
  | JDeleted (network key : string) (deleted : bool)
  | JSessions (l : list sessionStats)
  | JForks (l : list forkInfo)
  | JPage
  | JError (w : Written).

(** ** Sorting *)

Definition Zlt : Z → Z → bool := Z.ltb.
Definition Zgt (a b : Z) : bool := b <? a.

Definition sortNetworkHealth : list networkHealth → list networkHealth := stable_sort (lex_less String.ltb nh_ID no_less).
Definition sortUpstreamStatuses : list upstreamStatus → list upstreamStatus :=
  stable_sort (lex_less String.ltb us_Network (lex_less Zlt us_Priority (lex_less String.ltb us_ID no_less))).
Definition sortCacheStats : list cacheStats → list cacheStats := stable_sort (lex_less String.ltb cs_Network no_less).
Definition sortCacheEntries : list cacheEntryInfo → list cacheEntryInfo :=
  stable_sort (lex_less String.ltb ce_Network (lex_less Zgt ce_CreatedAt (lex_less String.ltb ce_Key no_less))).
Definition sortSessionStats : list sessionStats → list sessionStats := stable_sort (lex_less String.ltb ss_Network no_less).
Definition sortForkInfos : list forkInfo → list forkInfo := stable_sort (lex_less String.ltb fi_Network no_less).
Definition sortForkUpstreams : list forkUpstream → list forkUpstream :=
  stable_sort (lex_less Zgt fu_HeadSlot (lex_less String.ltb fu_ID no_less)).

(** ** Requests *)

(** Target and path token; [None] is not under the base path. *)
Definition parseStatusRoute (basePath path : string) : option (string * string) :=
  let prefix := basePath +:+ "/" in
  if negb (HasPrefix path prefix) then None
  else
    let rel := TrimPrefix path prefix in
    if String.eqb rel "" then Some ("", "")
    else if String.eqb rel "api" || HasPrefix rel "api/" then Some (rel, "")
    else
      let '(pathToken, rest) := Cut "/" rel in
      if String.eqb rest "" then Some ("", pathToken) else Some (rest, pathToken).

Definition parseBoolQuery (v : string) : bool :=
  let v := ToLower (TrimSpace v) in
  String.eqb v "1" || String.eqb v "true" || String.eqb v "yes" || String.eqb v "on".

Section status.
Context `{RL : RateLib} `{RX : RegexpLib} `{NL : NetLib}.
Context (ParseURL : string → option (string * string)).
Abbreviation Net := (Network (RL := RL) (RX := RX)).

Record StatusAPI := { sa_Networks : list (string * Net); sa_Auth : option AuthConfig }.

Definition NewStatusAPI (networks : list (string * Net)) : StatusAPI := {| sa_Networks := networks; sa_Auth := None |}.

Definition sanitizeUpstreamURL (raw : string) : string :=
  if String.eqb raw "" then ""
  else
    match ParseURL raw with
    | None => ""
    | Some (scheme, host) =>
        if String.eqb host "" then "" else (if String.eqb scheme "" then "http" else scheme) +:+ "://" +:+ host
    end.

(** ** Handlers *)

Definition network_health (x : string * Net) : networkHealth :=
  let pool := n_pool x.2 in
  let '(slot, root) := CanonicalHead (p_blockCache pool) in
  {| nh_ID := x.1; nh_UpstreamCount := Z.of_nat (length (p_upstreams pool));
     nh_HealthyCount := Z.of_nat (length (bfilter IsHealthy (p_upstreams pool)));
     nh_FinalizedSlot := FinalizedSlot pool; nh_CanonicalSlot := slot; nh_CanonicalRoot := root |}.

Definition handleHealth (nets : list (string * Net)) : answer := JHealth (sortNetworkHealth (network_health <$> nets)).

Definition health_label (now : Z) (u : Upstream RL) : string :=
  if negb (IsHealthy u) then "down"
  else if negb (IsReady now u) || bool_decide (Upstream_Health u = HealthDegraded) then "degraded" else "up".

Definition upstream_status (now : Z) (id : string) (pool : Pool RL) (u : Upstream RL) : upstreamStatus :=
  let score := ScoreDetails pool u in
  {| us_ID := u_ID u; us_ObfuscatedID := ObfuscateUpstreamID (u_ID u); us_Network := id; us_URL := sanitizeUpstreamURL (u_URL u);
     us_LoadBalancing := d_LoadBalancing score; us_Health := health_label now u; us_HeadSlot := HeadSlot u;
     us_HeadRoot := HeadRoot u; us_HeadPayloadStatus := HeadPayloadStatus u; us_SyncDistance := SyncDistance u;
     us_ClientType := ClientType u; us_ActiveConn := u_activeConns u; us_Priority := u_Priority u; us_Weight := u_Weight u;
     us_Archive := IsArchive u; us_Score := d_Score score; us_ScoreErrorRate := d_ErrorRate score;
     us_ScoreP90LatencyMs := f64_div (f64_of_Z (d_P90Latency score)) (f64_of_Z Millisecond);
     us_ScoreHeadLag := d_HeadLag score; us_ScoreSamples := d_Samples score;
     us_OnCanonical := IsOnCanonicalFork (u_ID u) (p_blockCache pool) |}.

Definition network_upstreams (now : Z) (x : string * Net) : list upstreamStatus :=
  upstream_status now x.1 (n_pool x.2) <$> p_upstreams (n_pool x.2).

Definition handleUpstreams (now : Z) (nets : list (string * Net)) : answer :=
  JUpstreams (sortUpstreamStatuses (nets ≫= network_upstreams now)).

Definition cache_stats (x : string * Net) : cacheStats :=
  {| cs_Network := x.1; cs_Enabled := bool_decide (is_Some (n_cache x.2));
     cs_Size := match n_cache x.2 with Some c => Cache_Size c | None => 0 end |}.

Definition handleCache (nets : list (string * Net)) : answer := JCache (sortCacheStats (cache_stats <$> nets)).

Definition session_stats (x : string * Net) : sessionStats :=
  {| ss_Network := x.1; ss_ActiveSessions := match n_sessions x.2 with Some sm => ActiveSessions sm | None => 0 end;
     ss_StickyCounts := StickyCounts <$> n_sessions x.2 |}.

Definition handleSessions (nets : list (string * Net)) : answer := JSessions (sortSessionStats (session_stats <$> nets)).

Definition fork_upstream (bc : BlockCache) (u : Upstream RL) : forkUpstream :=
  {| fu_ID := u_ID u; fu_HeadSlot := HeadSlot u; fu_HeadRoot := HeadRoot u; fu_OnCanonical := IsOnCanonicalFork (u_ID u) bc;
     fu_ForkStatus := fork_status_name (ForkStatus (u_ID u) bc); fu_ClientType := ClientType u |}.

Definition fork_info (x : string * Net) : forkInfo :=
  let bc := p_blockCache (n_pool x.2) in
  let '(slot, root) := CanonicalHead bc in
  {| fi_Network := x.1; fi_CanonicalSlot := slot; fi_CanonicalRoot := root; fi_MaxSlot := MaxSlot bc;
     fi_Upstreams := sortForkUpstreams (fork_upstream bc <$> p_upstreams (n_pool x.2)) |}.

Definition handleForks (nets : list (string * Net)) : answer := JForks (sortForkInfos (fork_info <$> nets)).

(** ** Cache entries *)

Definition maxEntries : nat := Z.to_nat 2000.

Definition entry_info (id : string) (includeBody : bool) (e : Snapshot) : cacheEntryInfo :=
  {| ce_Network := id; ce_Key := sn_Key e; ce_Status := sn_Status e; ce_Headers := SanitizeHeaders (sn_Headers e);
     ce_BodySize := sn_BodySize e; ce_CreatedAt := sn_Created e; ce_ExpiresAt := sn_Expires e;
     ce_BodyBase64 := if includeBody then base64_Encode (sn_Body e) else "";
     ce_ContentType := hdr_get (sn_Headers e) "Content-Type" |}.

(** The loop over the networks: listing a cache drops its expired entries. *)
Fixpoint list_loop (now : Z) (networkFilter keyFilter : string) (includeBody : bool) (all : list cacheEntryInfo)
    (nets : list (string * Net)) : list (string * Net) * list cacheEntryInfo :=
  match nets with
  | [] => ([], all)
  | (id, n) :: rest =>
      if (maxEntries <=? length all)%nat then (nets, all)
      else if negb (String.eqb networkFilter "") && negb (String.eqb id networkFilter) then
        let '(rest, all) := list_loop now networkFilter keyFilter includeBody all rest in ((id, n) :: rest, all)
      else
        match n_cache n with
        | None => let '(rest, all) := list_loop now networkFilter keyFilter includeBody all rest in ((id, n) :: rest, all)
        | Some c =>
            let '(c, entries) := Cache_Entries now 0 includeBody c in
            let items := entry_info id includeBody <$>
                         bfilter (λ e, String.eqb keyFilter "" || String.eqb (sn_Key e) keyFilter) entries in
            let all := (all ++ take (maxEntries - length all) items)%list in
            let '(rest, all) := list_loop now networkFilter keyFilter includeBody all rest in
            ((id, set_cache (Some c) n) :: rest, all)
        end
  end.

Definition query_get (r : Request) (k : string) : string := Values_Get (ParseQuery (url_RawQuery (req_URL r))) k.

Definition set_networks (nets : list (string * Net)) (s : StatusAPI) : StatusAPI := {| sa_Networks := nets; sa_Auth := sa_Auth s |}.

Definition listCacheEntries (now : Z) (r : Request) (s : StatusAPI) : StatusAPI * answer :=
  let '(nets, all) := list_loop now (TrimSpace (query_get r "network")) (TrimSpace (query_get r "key"))
                        (parseBoolQuery (query_get r "includeBody")) [] (sa_Networks s) in
  (set_networks nets s, JEntries (Z.of_nat (length all)) (sortCacheEntries all)).

(** A call on the cache of a network. *)
Definition update_cache (id : string) (c : Cache RX) (nets : list (string * Net)) : list (string * Net) :=
  (λ x, if String.eqb x.1 id then (x.1, set_cache (Some c) x.2) else x) <$> nets.

Definition deleteCacheEntry (now : Z) (wh : Header) (r : Request) (s : StatusAPI) : StatusAPI * answer :=
  let networkID := TrimSpace (query_get r "network") in
  let key := TrimSpace (query_get r "key") in
  if String.eqb networkID "" || String.eqb key "" then (s, JError (http_Error wh 400 "network and key are required"))
  else
    match find_first (λ x, String.eqb x.1 networkID) (sa_Networks s) with
    | None => (s, JError (http_Error wh 404 "network not found"))
    | Some (_, n) =>
        match n_cache n with
        | None => (s, JError (http_Error wh 404 "cache not enabled"))
        | Some c =>
            let '(c, found) := Cache_Get now key c in
            let deleted := bool_decide (is_Some found) in
            let c := if deleted then Cache_Delete key c else c in
            (set_networks (update_cache networkID c (sa_Networks s)) s, JDeleted networkID key deleted)
        end
    end.

Definition handleCacheEntries (now : Z) (wh : Header) (r : Request) (s : StatusAPI) : StatusAPI * answer :=
  if String.eqb (req_Method r) "GET" then listCacheEntries now r s
  else if String.eqb (req_Method r) "DELETE" then deleteCacheEntry now wh r s
  else (s, JError (http_Error (hdr_set "Allow" "GET, DELETE" wh) 405 "method not allowed")).

(** ** The handler *)

Definition notFound (wh : Header) : answer := JError (http_Error wh 404 "404 page not found").

(** [None] lets the request pass. *)
Definition status_authenticate (wh : Header) (r : Request) (pathToken : string) (s : StatusAPI) : option Written :=
  if match sa_Auth s with None => true | Some a => negb (ar_Authenticated (AuthenticateRequest r (Some a) pathToken)) end
  then Some (http_Error (hdr_set "WWW-Authenticate" ("Bearer realm=" +:+ quote +:+ "ebeacon-dashboard" +:+ quote) wh) 401 "unauthorized")
  else None.

Definition status_serve (basePath : string) (now : Z) (wh : Header) (r : Request) (s : StatusAPI) : StatusAPI * answer :=
  match parseStatusRoute basePath (url_Path (req_URL r)) with
  | None => (s, notFound wh)
  | Some (target, pathToken) =>
      match status_authenticate wh r pathToken s with
      | Some w => (s, JError w)
      | None =>
          let nets := sa_Networks s in
          if String.eqb target "" || String.eqb target "/" then (s, JPage)
          else if String.eqb target "api/health" then (s, handleHealth nets)
          else if String.eqb target "api/upstreams" then (s, handleUpstreams now nets)
          else if String.eqb target "api/cache" then (s, handleCache nets)
          else if String.eqb target "api/cache/entries" then handleCacheEntries now wh r s
          else if String.eqb target "api/sessions" then (s, handleSessions nets)
          else if String.eqb target "api/forks" then (s, handleForks nets)
          else (s, notFound wh)
      end
  end.

(** [RegisterRoutes]: the pattern on the mux, and the handler under it. *)
Definition status_route (basePath : string) : string := TrimRight basePath "/" +:+ "/".

Definition status_handler (basePath : string) : Z → Header → Request → StatusAPI → StatusAPI * answer :=
  status_serve (TrimRight basePath "/").
End status.

(** ** What the API guarantees *)

Lemma str_total : total_lt String.ltb.
Proof. constructor; [apply str_ltb_irrefl|apply str_ltb_trans|apply str_ltb_total]. Qed.

Lemma Zlt_total : total_lt Zlt.
Proof. unfold Zlt. constructor; intros; b2p; try (apply Z.ltb_irrefl); try (apply Z.ltb_lt); lia. Qed.

Lemma Zgt_total : total_lt Zgt.
Proof. unfold Zgt. constructor; intros; b2p; try (apply Z.ltb_irrefl); try (apply Z.ltb_lt); lia. Qed.

Create HintDb view_order.
#[export] Hint Resolve str_total Zlt_total Zgt_total no_less_weak lex_weak : view_order.

Lemma NoDup_key {A K} (key : A → K) l x y : NoDup (key <$> l) → x ∈ l → y ∈ l → key x = key y → x = y.
Proof.
  intros Hnd [i Hi]%list_elem_of_lookup [j Hj]%list_elem_of_lookup Hk.
  assert (i = j) as ->; [|by simplify_eq]. eapply NoDup_lookup; [exact Hnd|..]; rewrite list_lookup_fmap, ?Hi, ?Hj; cbn; by rewrite ?Hk.
Qed.

(** A view with one key per element is the same for every order of the elements. *)
Lemma sort_by_key {A} (key : A → string) (l k : list A) :
  l ≡ₚ k → NoDup (key <$> l) → stable_sort (lex_less String.ltb key no_less) l = stable_sort (lex_less String.ltb key no_less) k.
Proof.
  intros Hp Hnd. assert (weak_order (lex_less String.ltb key (@no_less A))) as [Ht Ha] by auto with view_order.
  apply sort_perm_unique; [exact Ht|exact Ha|done|].
  intros x y Hx Hy H1 H2. destruct (lex_equal _ _ _ _ _ str_total H1 H2) as [Hk _].
  by eapply NoDup_key.
Qed.

Section status_safety.
Context `{RL : RateLib} `{RX : RegexpLib} `{NL : NetLib}.
Context (ParseURL : string → option (string * string)) (ExpandEnv : string → string).
Abbreviation Net := (Network (RL := RL) (RX := RX)).
Implicit Types nets : list (string * Net).

(** ** Credentials *)

Definition dashboard_refusal (wh : Header) : answer :=
  JError (http_Error (hdr_set "WWW-Authenticate" ("Bearer realm=" +:+ quote +:+ "ebeacon-dashboard" +:+ quote) wh) 401 "unauthorized").

Definition refused (ans : answer) : bool := match ans with JError w => wr_Status w =? 401 | _ => false end.

Lemma cache_entries_not_refused now wh r s : refused (handleCacheEntries (RL := RL) (RX := RX) now wh r s).2 = false.
Proof.
  unfold handleCacheEntries, listCacheEntries, deleteCacheEntry. cbv zeta. destruct (String.eqb _ "GET").
  { by destruct (list_loop _ _ _ _ _ _). }
  destruct (String.eqb _ "DELETE"); [|done]. destruct (_ || _); [done|]. destruct (find_first _ _) as [[id n]|]; [|done].
  destruct (n_cache n); [|done]. by destruct (Cache_Get _ _ _).
Qed.

(** The answer under authentication. *)
Lemma status_serve_auth base now wh r s :
  let '(s', ans) := status_serve (RL := RL) (RX := RX) ParseURL base now wh r s in
  match parseStatusRoute base (url_Path (req_URL r)) with
  | None => s' = s ∧ ans = notFound wh
  | Some (_, token) =>
      match status_authenticate wh r token s with
      | Some w => s' = s ∧ ans = JError w
      | None => refused ans = false
      end
  end.
Proof.
  unfold status_serve. destruct (parseStatusRoute _ _) as [[target token]|]; [|done].
  destruct (status_authenticate _ _ _ _); [done|]. cbv zeta. destruct (_ || _); [done|].
  do 3 (destruct (String.eqb _ _); [done|]). destruct (String.eqb _ "api/cache/entries").
  { pose proof (cache_entries_not_refused now wh r s) as H. by destruct (handleCacheEntries _ _ _ _). }
  by do 2 (destruct (String.eqb _ _); [done|]).
Qed.

(** The dashboard is closed.  With a configuration that loads, the UI has credentials; a request that does not
    present one of them (in a header, the query or the path) gets 401, or 404 outside the base
    path: an answer that says nothing about the networks, and nothing is changed; one that
    does present a credential is never refused. *)
Theorem dashboard_closed zero first rest c s :
  Load ParseURL ExpandEnv zero first rest = inr c → ui_Enabled (cf_UI c) = true → sa_Auth s = ui_Auth (cf_UI c) →
  let base := ui_BasePath (cf_UI c) in
  ∃ a, ui_Auth (cf_UI c) = Some a ∧ au_Keys a ≠ [] ∧
    ∀ now wh r,
      let '(s', ans) := status_handler (RL := RL) (RX := RX) ParseURL base now wh r s in
      match parseStatusRoute (TrimRight base "/") (url_Path (req_URL r)) with
      | None => s' = s ∧ ans = notFound wh
      | Some (_, token) =>
          ((configured a (presented r token) → False) → s' = s ∧ ans = dashboard_refusal wh) ∧
          (configured a (presented r token) → refused ans = false)
      end.
Proof.
  intros HL Hui Hauth base. apply Load_validated in HL. unfold validate in HL. checks HL.
  assert (validate_ui (cf_UI c) = None ∧ validateAuth (ui_Auth (cf_UI c)) = None) as [Hu Hva] by (split; assumption).
  unfold validate_ui in Hu. checks Hu. rewrite Hui in *. cbn [andb] in *.
  match goal with Hx : check (match ui_Auth _ with None => _ | Some _ => _ end) _ = None |- _ => apply check_None in Hx; rename Hx into Hk end.
  destruct (ui_Auth (cf_UI c)) as [a|] eqn:Ea; [|done]. exists a. split; [done|]. apply validateAuth_sound in Hva as Hs.
  split; [by destruct (au_Keys a)|]. intros now wh r. unfold status_handler.
  pose proof (status_serve_auth (TrimRight base "/") now wh r s) as H. destruct (status_serve _ _ _ _ _ _) as [s' ans].
  destruct (parseStatusRoute _ _) as [[target token]|]; [|done]. unfold status_authenticate in H. rewrite Hauth in H.
  pose proof (AuthenticateRequest_exact r a token Hs) as Hex.
  destruct (ar_Authenticated (AuthenticateRequest r (Some a) token)); cbn [negb] in H; (split; [|]); intros Hcred.
  - exfalso. by apply Hcred, Hex.
  - done.
  - done.
  - by apply Hex in Hcred.
Qed.

(** ** Views *)

(** The views do not depend on the order in which Go iterates over the map of networks: for
    every two orders of the same networks (with distinct upstream identifiers, which validation ensures) health, upstreams, cache,
    sessions and forks are the same lists. *)
Theorem views_deterministic now nets1 nets2 :
  nets1 ≡ₚ nets2 → NoDup nets1.*1 → (∀ id n, (id, n) ∈ nets1 → NoDup (pool_ids (n_world n))) →
  handleHealth nets1 = handleHealth nets2 ∧ handleUpstreams ParseURL now nets1 = handleUpstreams ParseURL now nets2 ∧
  handleCache nets1 = handleCache nets2 ∧ handleSessions nets1 = handleSessions nets2 ∧ handleForks nets1 = handleForks nets2.
Proof.
  intros Hp Hnd Hids.
  assert (∀ A (f : string * Net → A) key, (∀ x, key (f x) = x.1) →
    stable_sort (lex_less String.ltb key no_less) (f <$> nets1) = stable_sort (lex_less String.ltb key no_less) (f <$> nets2)) as Hv.
  { intros A f key Hk. apply sort_by_key; [by apply fmap_Permutation|]. rewrite <- list_fmap_compose.
    rewrite (list_fmap_ext (key ∘ f) fst nets1); [done|]. intros i x _. apply Hk. }
  unfold handleHealth, handleUpstreams, handleCache, handleSessions, handleForks. split_and!; f_equal; try (apply Hv; intros [id n]; unfold network_health, fork_info; by try destruct (CanonicalHead _)).
  unfold sortUpstreamStatuses.
  assert (weak_order (lex_less String.ltb us_Network (lex_less Zlt us_Priority (lex_less String.ltb us_ID (@no_less upstreamStatus)))))
    as [Ht Ha] by auto 6 with view_order.
  apply sort_perm_unique; [exact Ht|exact Ha|by apply bind_Permutation|].
  intros x y Hx Hy H1 H2. destruct (lex_equal _ _ _ _ _ str_total H1 H2) as (E1 & H3 & H4).
  destruct (lex_equal _ _ _ _ _ Zlt_total H3 H4) as (_ & H5 & H6). destruct (lex_equal _ _ _ _ _ str_total H5 H6) as (E2 & _).
  apply list_elem_of_bind in Hx as ([id1 n1] & Hx & Hn1), Hy as ([id2 n2] & Hy & Hn2).
  apply list_elem_of_fmap in Hx as (u1 & -> & Hu1), Hy as (u2 & -> & Hu2). cbn [fst snd us_Network us_ID upstream_status] in *. subst id2.
  pose proof (NoDup_key fst _ _ _ Hnd Hn1 Hn2 eq_refl) as [= ->].
  by rewrite (NoDup_key u_ID _ u1 u2 (Hids id1 n2 Hn2) Hu1 Hu2 E2).
Qed.

(** What a lookup finds in the cache of a network. *)
Definition cached (later : Z) (id key : string) nets : option Entry :=
  match find_first (λ x, String.eqb x.1 id) nets with
  | Some (_, n) => n_cache n ≫= λ c, live_entry later key (ms_abs (c_store c))
  | None => None
  end.

Lemma find_updated id id' c nets :
  find_first (λ x, String.eqb x.1 id') (update_cache id c nets) =
  (λ x, if String.eqb x.1 id then (x.1, set_cache (Some c) x.2) else x) <$> find_first (λ x, String.eqb x.1 id') nets.
Proof.
  unfold update_cache. induction nets as [|[i n] nets IH]; [done|]. rewrite fmap_cons. cbn [find_first fst].
  destruct (String.eqb_spec i id) as [-> |Hi]; cbn [fst]; destruct (String.eqb _ id'); try done; cbn; by rewrite ?String.eqb_refl, ?(proj2 (String.eqb_neq _ _) Hi).
Qed.

(** Deleting a cache entry removes it and nothing else: the answer says whether a live entry was there, from then on no lookup finds it,
    and every other key of this network and every key of every other network is found as
    before. *)
Theorem delete_exact now wh r s n c :
  let id := TrimSpace (query_get r "network") in
  let key := TrimSpace (query_get r "key") in
  id ≠ "" → key ≠ "" → find_first (λ x, String.eqb x.1 id) (sa_Networks s) = Some (id, n) → n_cache n = Some c → ms_rep (c_store c) →
  let '(s', ans) := deleteCacheEntry (RL := RL) (RX := RX) now wh r s in
  ans = JDeleted id key (bool_decide (is_Some (cached now id key (sa_Networks s)))) ∧
  sa_Auth s' = sa_Auth s ∧ (sa_Networks s').*1 = (sa_Networks s).*1 ∧
  ∀ later id' key', now <= later →
    cached later id' key' (sa_Networks s') =
    if String.eqb id' id && String.eqb key' key then None else cached later id' key' (sa_Networks s).
Proof.
  intros id key Hid Hkey Hf Hc Hrep. unfold deleteCacheEntry. fold id key. cbv zeta.
  rewrite (proj2 (String.eqb_neq _ _) Hid), (proj2 (String.eqb_neq _ _) Hkey), Hf, Hc. cbn [orb].
  destruct (Cache_Get_live now key c Hrep) as [Hg Hl]. pose proof (Cache_Get_rep now key c Hrep) as Hr.
  destruct (Cache_Get now key c) as [c1 found]. cbn [fst snd] in *. subst found.
  assert (cached now id key (sa_Networks s) = live_entry now key (ms_abs (c_store c))) as Hcd by (unfold cached; by rewrite Hf; cbn; rewrite Hc).
  rewrite Hcd. split_and!; [done|done| |].
  { cbn [set_networks sa_Networks]. unfold update_cache. rewrite <- list_fmap_compose. apply list_fmap_ext. intros i x _. cbn.
    by destruct (String.eqb x.1 id). }
  intros later id' key' Hle. cbn [set_networks sa_Networks]. unfold cached. rewrite find_updated.
  destruct (String.eqb_spec id' id) as [-> |Hne]; cbn [andb].
  - rewrite Hf. cbn [fmap option_fmap option_map fst snd]. rewrite String.eqb_refl. cbn [n_cache set_cache mbind option_bind]. rewrite Hc.
    cbn [mbind option_bind]. case_bool_decide as Hd.
    + rewrite Cache_Delete_live by done. destruct (String.eqb key' key); [done|by apply Hl].
    + rewrite Hl by done. destruct (String.eqb_spec key' key) as [-> |]; [|done]. unfold live_entry in *.
      destruct (find_first (has_key key) _) as [e|]; [|done]. destruct (expired now e) eqn:Ee; [by rewrite (expired_later _ _ _ Hle Ee)|].
      exfalso. apply Hd. by eexists.
  - destruct (find_first (λ x, String.eqb x.1 id') (sa_Networks s)) as [[i m]|] eqn:Ef; [|done]. apply find_first_Some in Ef as [_ Ei%String.eqb_eq].
    cbn [fst fmap option_fmap option_map] in Ei |- *. subst i. by rewrite (proj2 (String.eqb_neq _ _) Hne).
Qed.

(** The views hide credentials: an upstream is shown with the scheme and the host of its URL only, and a cache entry with the
    values of sensitive headers removed. *)
Lemma views_hide_credentials now id pool (u : Upstream RL) url2 includeBody e hdr2 :
  ParseURL (u_URL u) = ParseURL url2 → (u_URL u = "" ↔ url2 = "") → alike IsSensitiveHeader (sn_Headers e) hdr2 →
  us_URL (upstream_status ParseURL now id pool u) = sanitizeUpstreamURL ParseURL url2 ∧
  entry_info id includeBody e =
  entry_info id includeBody {| sn_Key := sn_Key e; sn_Status := sn_Status e; sn_Headers := hdr2; sn_Body := sn_Body e;
    sn_BodySize := sn_BodySize e; sn_Created := sn_Created e; sn_Expires := sn_Expires e |}.
Proof.
  intros Hu Hz Hh. split.
  - cbn. unfold sanitizeUpstreamURL. rewrite Hu. destruct (String.eqb_spec (u_URL u) "") as [E|E], (String.eqb_spec url2 ""); tauto || done.
  - unfold entry_info. cbn [sn_Key sn_Status sn_Headers sn_Body sn_BodySize sn_Created sn_Expires].
    rewrite (SanitizeHeaders_alike _ _ Hh), (hdr_get_alike _ _ "Content-Type" Hh); [done|vm_compute; reflexivity].
Qed.
End status_safety.

Module StatusDemo.
Import ConfigDemo ExecDemo BoundsDemo ServeDemo.
#[local] Existing Instance BoundsDemo.DemoNet.

Definition demo_auth : AuthConfig :=
  {| au_Secret := "";
     au_Keys := [{| ak_ID := "ops"; ak_Description := ""; ak_Secret := "s3cr3t"; ak_Tier := ""; ak_RateLimiting := None |}];
     au_Tiers := [] |}.

(** A file with the UI switched on. *)
Definition demo_file_ui : ConfigFile :=
  let c := demo_file [] in
  {| cf_LogLevel := cf_LogLevel c; cf_DebugLogging := cf_DebugLogging c; cf_Server := cf_Server c; cf_Pprof := cf_Pprof c;
     cf_CORS := cf_CORS c; cf_Auth := cf_Auth c; cf_Networks := cf_Networks c; cf_LegacyProjects := cf_LegacyProjects c;
     cf_Failsafe := cf_Failsafe c; cf_RateLimiting := cf_RateLimiting c; cf_Health := cf_Health c; cf_Metrics := cf_Metrics c;
     cf_State := cf_State c; cf_UI := {| ui_Enabled := true; ui_BasePath := ""; ui_Auth := Some demo_auth |} |}.

Definition demo_net2 : Network (RL := ToyRate) (RX := MiniRegexp) := set_cache None demo_net.

Definition demo_status : StatusAPI (RL := ToyRate) (RX := MiniRegexp) :=
  {| sa_Networks := [("mainnet", demo_net); ("hoodi", demo_net2)]; sa_Auth := Some demo_auth |}.

Definition demo_get (path query : string) : Request :=
  {| req_Method := "GET"; req_URL := {| url_Path := path; url_EscapedPath := path; url_RawQuery := query |}; req_Header := ∅ |}.

Lemma dashboard_closed_witness :
  status_handler demo_url "/webui" 5 ∅ (demo_get "/webui/wrong/api/health" "") demo_status = (demo_status, dashboard_refusal ∅) ∧
  (status_handler demo_url "/webui" 5 ∅ (demo_get "/webui/s3cr3t/api/health" "") demo_status).2 =
    handleHealth (sa_Networks demo_status).
Proof.
  split; [|vm_compute; reflexivity].
  assert (Load (RX := MiniRegexp) demo_url id demo_file_ui (DVal demo_file_ui) [] = inr (expandSecrets id (applyDefaults demo_file_ui))) as E
    by (vm_compute; reflexivity).
  destruct (dashboard_closed (RL := ToyRate) demo_url id demo_file_ui (DVal demo_file_ui) [] (expandSecrets id (applyDefaults demo_file_ui))
    demo_status E eq_refl eq_refl) as (a & Ea & _ & H).
  specialize (H 5 ∅ (demo_get "/webui/wrong/api/health" "")).
  change (ui_BasePath (cf_UI (expandSecrets id (applyDefaults demo_file_ui)))) with "/webui" in H.
  destruct (status_handler demo_url "/webui" 5 ∅ (demo_get "/webui/wrong/api/health" "") demo_status) as [s' ans].
  change (parseStatusRoute (TrimRight "/webui" "/") (url_Path (req_URL (demo_get "/webui/wrong/api/health" "")))) with
    (Some ("api/health", "wrong")) in H. destruct H as [H _]. destruct H as [-> ->]; [|reflexivity].
  change (ui_Auth (cf_UI (expandSecrets id (applyDefaults demo_file_ui)))) with (Some demo_auth) in Ea. injection Ea as <-.
  change (presented (demo_get "/webui/wrong/api/health" "") "wrong") with "wrong". intros [_ [Hs|(k & Hk & Hs)]]; [discriminate Hs|].
  apply list_elem_of_singleton in Hk as ->. discriminate Hs.
Defined.

Lemma views_deterministic_witness :
  handleHealth [("mainnet", demo_net); ("hoodi", demo_net2)] = handleHealth [("hoodi", demo_net2); ("mainnet", demo_net)].
Proof.
  refine (proj1 (views_deterministic demo_url 5 [("mainnet", demo_net); ("hoodi", demo_net2)] [("hoodi", demo_net2); ("mainnet", demo_net)] _ _ _)).
  - apply perm_swap.
  - apply (bool_decide_eq_true_1 _). vm_compute. reflexivity.
  - intros i n Hn. apply elem_of_cons in Hn as [[= -> ->]|Hn%list_elem_of_singleton]; [apply demo_world_ids|].
    injection Hn as -> ->. apply demo_world_ids.
Defined.

(** A cached response is deleted. *)
Definition demo_cached : Cache MiniRegexp :=
  Cache_Set 1 "k" 200 ∅ "{}" 0 {| c_store := NewMemoryStore 8; c_policies := [] |}.

Definition demo_full : StatusAPI (RL := ToyRate) (RX := MiniRegexp) :=
  {| sa_Networks := [("mainnet", set_cache (Some demo_cached) demo_net)]; sa_Auth := Some demo_auth |}.

Lemma delete_exact_witness :
  cached 6 "mainnet" "k" (sa_Networks demo_full) ≠ None ∧
  let '(s', ans) := deleteCacheEntry 5 ∅ (demo_get "/webui/api/cache/entries" "network=mainnet&key=k") demo_full in
  ans = JDeleted "mainnet" "k" true ∧ cached 6 "mainnet" "k" (sa_Networks s') = None.
Proof.
  split; [vm_compute; congruence|].
  pose proof (delete_exact 5 ∅ (demo_get "/webui/api/cache/entries" "network=mainnet&key=k") demo_full
    (set_cache (Some demo_cached) demo_net) demo_cached) as H. cbv zeta in H.
  assert (TrimSpace (query_get (demo_get "/webui/api/cache/entries" "network=mainnet&key=k") "network") = "mainnet") as E1 by (vm_compute; reflexivity).
  assert (TrimSpace (query_get (demo_get "/webui/api/cache/entries" "network=mainnet&key=k") "key") = "k") as E2 by (vm_compute; reflexivity).
  rewrite E1, E2 in H.
  assert (bool_decide (is_Some (cached 5 "mainnet" "k" (sa_Networks demo_full))) = true) as E3 by (vm_compute; reflexivity).
  rewrite E3 in H. destruct (deleteCacheEntry _ _ _ _) as [s' ans].
  destruct H as (H1 & _ & _ & H2); [congruence|congruence|reflexivity|reflexivity| |].
  - apply (ms_step_refines (NewMemoryStore 8) (OSet (new_entry 1 "k" 200 ∅ "{}" 0)) (NewMemoryStore_rep 8)).
  - split; [exact H1|]. rewrite H2 by lia. reflexivity.
Defined.
End StatusDemo.
