(* ===== verification/Main.v ===== *)
(** * The program

    [main.go]: from a configuration file to a running server.  [start] is the part of [main] that loads,
    builds the networks and registers the handlers; [App_ServeHTTP] is the handler it passes
    to [http.Server]: CORS around the mux around the proxy, the dashboard and the metrics
    endpoint; [fan_out] is the loop that hands the heads of other instances to the pools.

    [net/http.ServeMux] is modelled for the patterns the program registers: literal paths without
    method and host.  The networks are one map, which the proxy and the dashboard share.  Go iterates over it in
    any order: [iterate].  Listening, signals, the profiler's server and the text of metrics
    are left out.  The goroutines that [Network.Start] launches run loops around single steps; [step] is
    the transition relation of the whole program: one completed step of one of them, or one answered
    request. *)

From S2P Require Import Prelude GoStrings GoFloat Config CircuitBreaker ScoreTracker AutoTuner BlockCache.
From S2P Require Import Upstream Selector PoolOrder Pool PoolState Health MemoryStore Regexp Cache ApiPath Url CacheKey Paths Historical Session HeadWatcher Consensus Routing ConfigFile Headers Exec Ownership ExecSafety ExecBounds Hedge Serve ServeSafety Warm SSE Watch Proxy ProxySafety Cors DebugLog Status.
From Stdlib Require Import Ascii.
#[local] Open Scope string_scope.
#[local] Open Scope Z_scope.

(** ** [http.ServeMux] *)

(** The unescaped segments of a path, and whether it ends with a slash.  A pattern that does matches everything
    below it. *)
Record pattern := { pt_segs : list string; pt_multi : bool }.

#[global] Instance pattern_eq_dec : EqDecision pattern.
Proof. solve_decision. Defined.

(** [pathUnescape]: what cannot be unescaped is kept. *)
Definition unescape_seg (s : string) : string := default s (unescapePath s).

Definition mux_split (path : string) : pattern :=
  let segs := Split (TrimPrefix path "/") "/" in
  let front := take (length segs - 1) segs in
  if String.eqb (List.last segs "") "" then {| pt_segs := unescape_seg <$> front; pt_multi := true |}
  else {| pt_segs := unescape_seg <$> segs; pt_multi := false |}.

Definition is_prefix (p l : list string) : bool := bool_decide (take (length p) l = p).

(** [matchPath] of a pattern, for a path split the same way. *)
Definition pattern_matches (path pat : pattern) : bool :=
  if pt_multi pat
  then is_prefix (pt_segs pat) (pt_segs path) && (pt_multi path || (length (pt_segs pat) <? length (pt_segs path))%nat)
  else negb (pt_multi path) && bool_decide (pt_segs path = pt_segs pat).

Definition exact_match (path pat : pattern) : bool :=
  if pt_multi pat then pt_multi path && (length (pt_segs pat) =? length (pt_segs path))%nat else true.

Definition mux (H : Type) : Type := list (pattern * H).

(** [mux.Handle]; [None] is its panic on a pattern that is registered already. *)
Definition mux_Handle {H} (pat : string) (h : H) (m : mux H) : option (mux H) :=
  let p := mux_split pat in
  if existsb (λ x, bool_decide (x.1 = p)) m then None else Some ((p, h) :: m).

(** The match with the most literal segments. *)
Definition mux_match {H} (path : string) (m : mux H) : option (pattern * H) :=
  let p := mux_split path in
  foldr (λ x best,
    if pattern_matches p x.1 then
      match best with
      | Some y => if (length (pt_segs y.1) <? length (pt_segs x.1))%nat then Some x else best
      | None => Some x
      end
    else best) None m.

(** [cleanPath] of [net/http]. *)
Definition mux_clean (p : string) : string :=
  if String.eqb p "" then "/"
  else
    let p := if HasPrefix p "/" then p else "/" +:+ p in
    let np := Clean p in
    if HasSuffix p "/" && negb (String.eqb np "/") then np +:+ "/" else np.

Inductive mux_answer (H : Type) := MHandler (h : H) | MRedirect (path : string) | MNotFound.
Arguments MHandler {H} _.
Arguments MRedirect {H} _.
Arguments MNotFound {H}.

(** [matchOrRedirect]: a subtree is redirected to if only its path with a slash is registered. *)
Definition matchOrRedirect {H} (path : string) (u : URL) (m : mux H) : string + option (pattern * H) :=
  let n := mux_match path m in
  let exact (n : option (pattern * H)) path := match n with Some x => exact_match (mux_split path) x.1 | None => false end in
  if negb (exact n path) && negb (HasSuffix path "/") && negb (String.eqb path "") then
    let path := path +:+ "/" in
    if exact (mux_match path m) path then inl (mux_clean (url_Path u) +:+ "/") else inr n
  else inr n.

(** [findHandler]; only [CONNECT] requests are not cleaned. *)
Definition findHandler {H} (r : Request) (m : mux H) : mux_answer H :=
  let escaped := url_EscapedPath (req_URL r) in
  let connect := String.eqb (req_Method r) "CONNECT" in
  let path := if connect then escaped else mux_clean escaped in
  match matchOrRedirect path (req_URL r) m with
  | inl target => MRedirect target
  | inr n =>
      if negb connect && negb (String.eqb path escaped) then MRedirect path
      else match n with Some (_, h) => MHandler h | None => MNotFound end
  end.

Inductive endpoint := EProxy | EDashboard | EMetrics.

Section main.
Context `{RL : RateLib} `{RX : RegexpLib} `{NL : NetLib}.
Context (NewRequest_ok : string → string → bool) (gunzip : string → bool → option (string * bool)) (sha : string → string)
  (ParseFloat : string → option float64) (Quote : string → string) (ParseURL : string → option (string * string))
  (ExpandEnv : string → string) (ParseRedisURL : string → option RedisOptions) (oob : float64 → Z).
Context (iterate : gmap string (Network (RL := RL) (RX := RX)) → list (string * Network (RL := RL) (RX := RX))).
Abbreviation Net := (Network (RL := RL) (RX := RX)).

(** ** Starting *)

(** What the program keeps: the networks are those of the proxy. *)
Record App := {
  ap_proxy : Proxy (RL := RL) (RX := RX);
  ap_uiAuth : option AuthConfig;
  ap_uiBase : string;
  ap_mux : mux endpoint;
  ap_cors : option CORSConfig;
  ap_trusted : option (list Prefix);
  ap_logger : option Logger;
  ap_shared : option RedisState;
}.

(** [os.Exit(1)] and a panic are different ends. *)
Inductive started := Exited (message : string) | Panicked | Running (app : App).

(** What the world answers while the program starts: [io_ping] whether the Redis server at these
    options answers, [io_epochs] the finalized epochs it holds and for which networks it can be read,
    [io_id] the random identity of the instance. *)
Record start_io := {
  io_now : Z;
  io_mkdir : string → bool;
  io_ping : RedisOptions → bool;
  io_epochs : redis_store;
  io_reads : string → bool;
  io_id : string;
}.

Definition NewRedisState (io : start_io) (cfg : RedisConfig) : option RedisState :=
  match Redis_Options ParseRedisURL cfg with
  | None => None
  | Some opts => if io_ping io opts then Some {| rs_instanceID := io_id io; rs_finalized := ∅ |} else None
  end.

(** The shared state, if the configuration asks for one. *)
Definition start_state (io : start_io) (c : ConfigFile) : started + option RedisState :=
  if String.eqb (st_Driver (cf_State c)) "redis" then
    match st_Redis (cf_State c) with
    | Some cfg => match NewRedisState io cfg with Some rs => inr (Some rs) | None => inl (Exited "failed to connect to Redis state") end
    | None => inl Panicked
    end
  else inr None.

(** [SetSharedState] and [StartStateSync]. *)
Definition seed_network (io : start_io) (shared : option RedisState) (n : Net) : option RedisState * Net :=
  match shared with
  | None => (None, n)
  | Some rs =>
      let '((rs, _), epoch) := GetFinalized (n_id n) (io_reads io (n_id n)) (rs, io_epochs io) in
      (Some rs, set_world (set_pool (StartStateSync (io_now io / Second) (Some epoch) (n_pool n)) (n_world n)) n)
  end.

(** The loop over the configured networks, up to the first that cannot be created. *)
Fixpoint start_networks (io : start_io) (c : ConfigFile) (ncs : list NetworkConfig) (shared : option RedisState) (networks : gmap string Net)
    : option RedisState * option (gmap string Net) :=
  match ncs with
  | [] => (shared, Some networks)
  | nc :: ncs =>
      match Network_New (io_now io) nc c with
      | None => (shared, None)
      | Some n =>
          let '(shared, n) := seed_network io shared n in
          start_networks io c ncs shared (<[nc_ID nc := n]> networks)
      end
  end.

(** The interval at which idle sessions are evicted. *)
Definition cleanup_interval (timeout : Z) : Z :=
  let interval := Z.quot timeout 2 in if interval <? Minute then Minute else interval.

(** The tickers that [Network.Start] creates: five for every upstream, one for the block cache, two for sessions. *)
Definition ticker_intervals (c : ConfigFile) (nc : NetworkConfig) : list Z :=
  let h := EffectiveHealth (cf_Health c) (nc_Health nc) in
  let routing := nc_Routing nc in
  ((nc_Upstreams nc ≫= λ _, [h_CheckInterval h; h_FinalityInterval h; 5 * Minute; h_CheckInterval h; h_CheckInterval h]) ++
   [30 * Second] ++
   (if bool_decide (is_Some (rl_PerIP (EffectiveRateLimiting (cf_RateLimiting c) (nc_RateLimiting nc)))) || ro_StickySession routing
    then cleanup_interval (ro_StickyTimeout routing) :: if ro_StickySession routing then [ro_RebalanceInterval routing] else []
    else []))%list.

(** [time.NewTicker] panics without a positive interval. *)
Definition tickers_panic (c : ConfigFile) : bool := existsb (λ nc, existsb (λ i, i <=? 0) (ticker_intervals c nc)) (cf_Networks c).

(** The handlers, in the order [main] registers them; [None] is a panic of the mux. *)
Definition start_mux (c : ConfigFile) : option (mux endpoint) :=
  mux_Handle "/" EProxy [] ≫= λ m,
  (if ui_Enabled (cf_UI c) then mux_Handle (status_route (ui_BasePath (cf_UI c))) EDashboard m else Some m) ≫= λ m,
  if me_Enabled (cf_Metrics c) then mux_Handle (me_Path (cf_Metrics c)) EMetrics m else Some m.

Definition start (io : start_io) (zero : ConfigFile) (first : decoded ConfigFile) (rest : list (decoded bool)) : started :=
  match Load ParseURL ExpandEnv zero first rest with
  | inl err => Exited err
  | inr c =>
      match SetTrustedProxies (sv_TrustedProxies (cf_Server c)) with
      | None => Exited "invalid server.trustedProxies"
      | Some trusted =>
          match ConfigureDefault (io_mkdir io) (cf_DebugLogging c) None with
          | (_, None) => Exited "failed to set up debug logging"
          | (logger, Some _) =>
              match start_state io c with
              | inl ended => ended
              | inr shared =>
                  match start_networks io c (cf_Networks c) shared ∅ with
                  | (_, None) => Exited "failed to create network"
                  | (shared, Some networks) =>
                      if tickers_panic c then Panicked
                      else
                      let p := Proxy_New networks in
                      let p := match cf_Auth c with Some a => SetAuth oob (Some a) p | None => p end in
                      match start_mux c with
                      | None => Panicked
                      | Some m =>
                          Running {| ap_proxy := p; ap_uiAuth := ui_Auth (cf_UI c); ap_uiBase := ui_BasePath (cf_UI c);
                                     ap_mux := m; ap_cors := cf_CORS c; ap_trusted := trusted; ap_logger := logger;
                                     ap_shared := shared |}
                      end
                  end
              end
          end
      end
  end.

(** ** Serving *)

Inductive reply :=
  | RServed (s : served)
  | RDashboard (a : answer)
  | RMetrics
  | RRedirect (path query : string)
  | RNotFound.

Definition with_trusted (t : option (list Prefix)) (e : env) : env :=
  {| ev_now := ev_now e; ev_done := ev_done e; ev_duration := ev_duration e; ev_trusted := t; ev_bodyErr := ev_bodyErr e;
     ev_role := ev_role e; ev_cios := ev_cios e; ev_sched := ev_sched e; ev_cancel := ev_cancel e |}.

Definition set_proxy (p : Proxy) (app : App) : App :=
  {| ap_proxy := p; ap_uiAuth := ap_uiAuth app; ap_uiBase := ap_uiBase app; ap_mux := ap_mux app; ap_cors := ap_cors app;
     ap_trusted := ap_trusted app; ap_logger := ap_logger app; ap_shared := ap_shared app |}.

Definition with_networks (networks : gmap string Net) (p : Proxy) : Proxy :=
  {| px_networks := networks; px_auth := px_auth p; px_keyLimiters := px_keyLimiters p; px_tierLimiters := px_tierLimiters p;
     px_single := px_single p |}.

(** The dashboard of the running program. *)
Definition dashboard (app : App) : StatusAPI :=
  {| sa_Networks := iterate (px_networks (ap_proxy app)); sa_Auth := ap_uiAuth app |}.

(** The handler of the server.  The third component is what losing hedged attempts have left to their drainers. *)
Definition App_ServeHTTP (e : env) (wh : Header) (r : Inbound) (app : App) : App * reply * list hres :=
  match WrapWithCORS (ap_cors app) wh (in_req r) with
  | inl w => (app, RServed (SWritten w), [])
  | inr wh =>
      match findHandler (in_req r) (ap_mux app) with
      | MRedirect path => (app, RRedirect path (url_RawQuery (req_URL (in_req r))), [])
      | MNotFound => (app, RNotFound, [])
      | MHandler EMetrics => (app, RMetrics, [])
      | MHandler EDashboard =>
          let '(s, a) := status_handler ParseURL (ap_uiBase app) (ev_now e) wh (in_req r) (dashboard app) in
          (set_proxy (with_networks (list_to_map (sa_Networks s)) (ap_proxy app)) app, RDashboard a, [])
      | MHandler EProxy =>
          let '(p, s, queue) :=
            Proxy_ServeHTTP NewRequest_ok gunzip sha ParseFloat Quote (with_trusted (ap_trusted app) e) wh r (ap_proxy app) in
          (set_proxy p app, RServed s, queue)
      end
  end.

(** One update that [SubscribeHead] delivers. *)
Definition fan_out (now : Z) (update : HeadUpdate) (app : App) : App :=
  match px_networks (ap_proxy app) !! hu_Network update with
  | None => app
  | Some n =>
      let n := set_world (set_pool (RecordRemoteHead (now / Second) (hu_Slot update) (hu_Root update) (n_pool n)) (n_world n)) n in
      set_proxy (set_network (hu_Network update) n (ap_proxy app)) app
  end.

(** A message of the Redis channel, as the subscription of this instance receives it: filtered, then handed on if
    the buffer has room. *)
Definition receive_update (rs : RedisState) (update : HeadUpdate) (ch : list HeadUpdate) : list HeadUpdate :=
  if accept_update rs update then push_update ch update else ch.

(** ** Running *)

(** The steps of [HealthMonitor.start]: the five pollers of an upstream and the cleanup of the block cache. *)
Inductive monitor_step :=
  | MSync (id : string) (maxSyncDistance elapsed : Z) (r : probe_reply syncStatusResponse)
  | MFinality (id : string) (now elapsed : Z) (r : probe_reply finalityCheckpointsResponse)
  | MVersion (id : string) (elapsed : Z) (r : probe_reply nodeVersionResponse)
  | MHead (id : string) (now elapsed : Z) (r : probe_reply beaconHeaderResponse)
  | MNodeHealth (id : string) (elapsed : Z) (r : probe_reply unit)
  | MCleanup.

Definition monitor (shared : bool) (m : monitor_step) (p : Pool RL) : Pool RL :=
  match m with
  | MSync id max elapsed r => update_upstream id (checkSync max elapsed r) p
  | MFinality id now elapsed r => match ByID p id with Some u => checkFinality now elapsed r u p | None => p end
  | MVersion id elapsed r => update_upstream id (checkVersion elapsed r) p
  | MHead id now elapsed r => match ByID p id with Some u => (checkHead now elapsed shared r u p).1 | None => p end
  | MNodeHealth id elapsed r => update_upstream id (checkNodeHealth elapsed r) p
  | MCleanup => set_blockCache (Cleanup (p_blockCache p)) p
  end.

(** What the head watcher shares with the network that starts it. *)
Definition watcher_of (shared : bool) (n : Net) : headWatcher :=
  {| hw_networkID := n_id n; hw_pool := n_pool n; hw_shared := shared; hw_cache := n_cache n |}.

Definition on_watcher (shared : bool) (f : headWatcher → headWatcher) (n : Net) : Net :=
  let w := f (watcher_of shared n) in set_cache (hw_cache w) (set_world (set_pool (hw_pool w) (n_world n)) n).

Definition on_pool (f : Pool RL → Pool RL) (n : Net) : Net := set_world (set_pool (f (n_pool n)) (n_world n)) n.

Definition put_network (id : string) (n : Net) (app : App) : App := set_proxy (set_network id n (ap_proxy app)) app.

Definition App_networks (app : App) : gmap string Net := px_networks (ap_proxy app).

Definition App_shared (app : App) : bool := bool_decide (is_Some (ap_shared app)).

(** One step of the program: an answered request whose hedged losers have been drained, a head of another instance,
    a step of the health monitor, an event of a subscription or its end, a cleanup or a sweep of the sessions, a
    finished warming, a finished relay. *)
Inductive step `{HJ : HeadJSON} (parseOther : string → option URL) : App → App → Prop :=
  | step_request e wh r app app' rep :
      App_ServeHTTP e wh r app = (app', rep, []) → rep ≠ RServed SWaiting → step parseOther app app'
  | step_remote now update app : step parseOther app (fan_out now update app)
  | step_monitor id m n app :
      App_networks app !! id = Some n → step parseOther app (put_network id (on_pool (monitor (App_shared app) m) n) app)
  | step_event id n ops uid app :
      App_networks app !! id = Some n →
      step parseOther app (put_network id (on_watcher (App_shared app)
        (λ w, foldl (λ w ev, (ev_dispatch ev.1 uid ev.2 w).1) w ops) n) app)
  | step_unsubscribed id n uid app :
      App_networks app !! id = Some n → step parseOther app (put_network id (on_watcher (App_shared app) (clear_payload uid) n) app)
  | step_cleanup id n now app :
      App_networks app !! id = Some n → step parseOther app (put_network id (set_sessions (cleanup now <$> n_sessions n) n) app)
  | step_rebalance id n now threshold maxSweep order app :
      App_networks app !! id = Some n →
      step parseOther app (put_network id (set_sessions (rebalance now (n_pool n) threshold maxSweep order <$> n_sessions n) n) app)
  | step_warm id n n' envs source keys results app :
      App_networks app !! id = Some n →
      warmHeadCache NewRequest_ok gunzip sha ParseFloat parseOther envs source keys n = (n', results, []) →
      (∀ kr, kr ∈ results → kr.2 ≠ WWaiting) → step parseOther app (put_network id n' app)
  | step_relay id n flusher wh r prefer required its s res app :
      App_networks app !! id = Some n →
      SSERelay_Serve NewRequest_ok flusher wh r prefer required its (n_world n) = (s, res) → res ≠ RelayRunning →
      step parseOther app (put_network id (set_world (s_w s) n) app).
End main.
