(* ===== verification/MainSafety.v ===== *)
(** * What the running program guarantees

    The composition: a configuration that loads becomes a running server; the server's handler keeps
    every network's invariant and lets nobody in without a credential; and so do all the background
    activities, in any interleaving of completed steps. *)

From S2P Require Import Prelude GoStrings GoFloat Config CircuitBreaker ScoreTracker AutoTuner BlockCache.
From S2P Require Import Upstream Selector PoolOrder Pool PoolState Health MemoryStore Regexp Cache ApiPath Url CacheKey Paths Historical Session HeadWatcher Consensus Routing ConfigFile Headers Exec Ownership ExecSafety ExecBounds Hedge Serve ServeSafety Warm SSE SSESafety Watch Proxy ProxySafety Cors DebugLog Status Main.
From Stdlib Require Import Ascii.
#[local] Open Scope string_scope.
#[local] Open Scope Z_scope.

(** ** The mux *)

Lemma TrimPrefix_slash s : TrimPrefix ("/" +:+ s) "/" = s.
Proof. apply TrimPrefix_app. Qed.

(** A clean path is split into its segments. *)
Lemma mux_split_plain l : Forall plain_seg l → l ≠ [] →
  mux_split ("/" +:+ Join l "/") = {| pt_segs := unescape_seg <$> l; pt_multi := false |}.
Proof.
  intros Hl Hne. unfold mux_split. cbv zeta. rewrite TrimPrefix_slash, Split_Join_plain by done.
  destruct (exists_last Hne) as (l' & x & ->). rewrite List.last_last.
  apply Forall_app in Hl as [_ [(Hx & _) _]%Forall_cons]. by rewrite (proj2 (String.eqb_neq _ _) Hx).
Qed.

Lemma mux_split_subtree l : Forall plain_seg l → l ≠ [] →
  mux_split (("/" +:+ Join l "/") +:+ "/") = {| pt_segs := unescape_seg <$> l; pt_multi := true |}.
Proof.
  intros Hl Hne. unfold mux_split. cbv zeta. rewrite str_app_assoc, TrimPrefix_slash.
  change (Join l "/" +:+ "/") with (Join l "/" +:+ String "/" ""). rewrite Split_snoc, Split_Join_plain by done. rewrite List.last_last. cbn [String.eqb].
  rewrite length_app. cbn [length]. by rewrite Nat.add_sub, take_app_length.
Qed.

Lemma TrimRight_slash s : HasSuffix s "/" = false → TrimRight s "/" = s.
Proof.
  intros Hs. destruct (decide (s = "")) as [-> |Hne]; [done|]. destruct (str_snoc s Hne) as (t & c & ->).
  apply trim_right_snoc_false. unfold in_set. cbn [has_byte]. rewrite orb_false_r. apply not_true_is_false.
  intros ->%Ascii.eqb_eq. apply not_true_iff_false in Hs. apply Hs, HasSuffix_spec. by exists t.
Qed.

Lemma TrimRight_subtree s : TrimRight (s +:+ "/") "/" = TrimRight s "/".
Proof. by apply trim_right_snoc_true. Qed.

Lemma TrimRight_plain l : Forall plain_seg l → l ≠ [] → TrimRight ("/" +:+ Join l "/") "/" = "/" +:+ Join l "/".
Proof. intros Hl Hne. by apply TrimRight_slash, plain_no_suffix. Qed.

(** A path that validation accepts as a pattern, without its trailing slash. *)
Lemma literal_path_plain value :
  validateLiteralServeMuxPath value = None → TrimRight value "/" ≠ "" →
  ∃ l, Forall plain_seg l ∧ l ≠ [] ∧ TrimRight value "/" = "/" +:+ Join l "/" ∧
    (value = "/" +:+ Join l "/" ∨ value = ("/" +:+ Join l "/") +:+ "/").
Proof.
  intros Hv Ht. unfold validateLiteralServeMuxPath in Hv. checks Hv.
  repeat match goal with H : check _ _ = None |- _ => apply check_None in H end.
  match goal with H : negb (HasPrefix value "/") = false |- _ => apply negb_false_iff in H; rename H into Hp end.
  destruct (Clean_rooted value Hp) as (l & Hl & Ec). rewrite Ec in Hv.
  assert (value = "/" +:+ Join l "/" ∨ value = ("/" +:+ Join l "/") +:+ "/") as Hval.
  { apply andb_false_iff in Hv as [H%negb_false_iff%String.eqb_eq|[_ H%String.eqb_eq]%negb_false_iff%andb_true_iff]; auto. }
  assert (l ≠ []) as Hne.
  { intros ->. apply Ht. by destruct Hval as [-> | ->]. }
  exists l. split_and!; [done|done| |done].
  destruct Hval as [-> | ->]; rewrite ?TrimRight_subtree; by apply TrimRight_plain.
Qed.

Lemma Join_plain_inj l k : Forall plain_seg l → Forall plain_seg k → l ≠ [] → k ≠ [] → Join l "/" = Join k "/" → l = k.
Proof. intros Hl Hk Nl Nk E. by rewrite <- (Split_Join_plain l), <- (Split_Join_plain k), E. Qed.

Lemma unescape_plain s : no_byte "%" s → unescape_seg s = s.
Proof.
  unfold unescape_seg. intros H. assert (unescapePath s = Some s) as ->; [|done]. induction s as [|c s IH]; [done|].
  apply no_byte_cons in H as [Hc Hs]. cbn [unescapePath]. rewrite (proj2 (Ascii.eqb_neq c "%")) by congruence. by rewrite (IH Hs).
Qed.

Lemma no_byte_Join c d l : no_byte c (Join l (String d "")) → Forall (no_byte c) l.
Proof.
  induction l as [|x [|y l] IH]; intros H; [constructor|by repeat constructor|].
  change (Join (x :: y :: l) (String d "")) with (x +:+ String d "" +:+ Join (y :: l) (String d "")) in H.
  apply no_byte_app in H as [H1 [_ H2]%no_byte_app]. constructor; [done|by apply IH].
Qed.

Lemma unescape_Join l : no_byte "%" (Join l "/") → unescape_seg <$> l = l.
Proof.
  intros H%no_byte_Join. induction H as [|x l Hx _ IH]; [done|]. cbn. by rewrite (unescape_plain x Hx), IH.
Qed.

Definition root_pattern : pattern := {| pt_segs := []; pt_multi := true |}.

Lemma mux_Handle_fresh {H} pat (h : H) m :
  (∀ x, x ∈ m → x.1 ≠ mux_split pat) → mux_Handle pat h m = Some ((mux_split pat, h) :: m).
Proof.
  intros Hm. unfold mux_Handle. cbv zeta. destruct (existsb _ _) eqn:E; [|done].
  apply existsb_exists in E as (x & Hx%list_elem_of_In & Hd%bool_decide_eq_true). by destruct (Hm x Hx).
Qed.

(** The patterns of the enabled endpoints. *)
Definition registered (c : ConfigFile) (m : mux endpoint) : Prop :=
  m = ((if me_Enabled (cf_Metrics c) then [(mux_split (me_Path (cf_Metrics c)), EMetrics)] else []) ++
       (if ui_Enabled (cf_UI c) then [(mux_split (status_route (ui_BasePath (cf_UI c))), EDashboard)] else []) ++
       [(root_pattern, EProxy)])%list.

(** Registration cannot panic if the configured paths are not written with escapes. *)
Lemma start_mux_succeeds `{RX : RegexpLib} `{NL : NetLib} (ParseURL : string → option (string * string)) c :
  validate ParseURL c = None →
  (ui_Enabled (cf_UI c) = true → no_byte "%" (ui_BasePath (cf_UI c))) →
  (me_Enabled (cf_Metrics c) = true → no_byte "%" (me_Path (cf_Metrics c))) →
  ∃ m, start_mux c = Some m ∧ registered c m.
Proof.
  intros Hv Hu Hm. unfold validate in Hv. checks Hv.
  assert (validate_metrics c = None ∧ validate_ui (cf_UI c) = None) as [Vm Vu] by (split; assumption). clear -Vm Vu Hu Hm.
  assert (ui_Enabled (cf_UI c) = true → ∃ l, Forall plain_seg l ∧ l ≠ [] ∧ TrimRight (ui_BasePath (cf_UI c)) "/" = "/" +:+ Join l "/" ∧
    mux_split (status_route (ui_BasePath (cf_UI c))) = {| pt_segs := l; pt_multi := true |}) as Hui.
  { intros Eu. unfold validate_ui in Vu. rewrite Eu in Vu. checks Vu. apply check_None in Vu. apply String.eqb_neq in Vu.
    destruct (literal_path_plain (ui_BasePath (cf_UI c))) as (l & Hl & Hne & Et & Ev); [done|done|].
    exists l. split_and!; [done|done|done|]. unfold status_route. rewrite Et, mux_split_subtree, unescape_Join; [done| |done|done].
    specialize (Hu Eu). destruct Ev as [Ev|Ev]; rewrite Ev in Hu; [by apply no_byte_app in Hu as [_ ?]|].
    by apply no_byte_app in Hu as [[_ ?]%no_byte_app _]. }
  assert (me_Enabled (cf_Metrics c) = true → ∃ l b, Forall plain_seg l ∧ l ≠ [] ∧ TrimRight (me_Path (cf_Metrics c)) "/" = "/" +:+ Join l "/" ∧
    mux_split (me_Path (cf_Metrics c)) = {| pt_segs := l; pt_multi := b |}) as Hme.
  { intros Em. unfold validate_metrics in Vm. rewrite Em in Vm. cbn [negb] in Vm. cbv zeta in Vm. checks Vm.
    match goal with H : check (String.eqb _ "") _ = None |- _ => apply check_None, String.eqb_neq in H; rename H into Hne0 end.
    destruct (literal_path_plain (me_Path (cf_Metrics c))) as (l & Hl & Hne & Et & Ev); [done|done|]. specialize (Hm Em).
    destruct Ev as [Ev|Ev]; rewrite Ev in Hm; [exists l, false|exists l, true]; (split_and!; [done|done|done|]); rewrite Ev.
    - rewrite mux_split_plain, unescape_Join by (done || by apply no_byte_app in Hm as [_ ?]). done.
    - rewrite mux_split_subtree, unescape_Join by (done || by apply no_byte_app in Hm as [[_ ?]%no_byte_app _]). done. }
  unfold start_mux, registered. rewrite (mux_Handle_fresh "/" EProxy []) by (by intros x ?%not_elem_of_nil).
  change (mux_split "/") with root_pattern. cbn [mbind option_bind].
  destruct (ui_Enabled (cf_UI c)) eqn:Eu.
  - destruct (Hui eq_refl) as (l & Hl & Nl & El & Es).
    rewrite mux_Handle_fresh by (intros x ->%list_elem_of_singleton; rewrite Es; cbn [fst]; unfold root_pattern; congruence). cbn [mbind option_bind].
    destruct (me_Enabled (cf_Metrics c)) eqn:Em; [|by eexists]. destruct (Hme eq_refl) as (k & b & Hk & Nk & Ek & Ek').
    rewrite mux_Handle_fresh; [by eexists|]. intros x [-> | ->%list_elem_of_singleton]%elem_of_cons; rewrite Ek'; cbn [fst]; [|unfold root_pattern; congruence].
    rewrite Es. intros [= -> _]. unfold validate_metrics in Vm. rewrite Em, Eu in Vm. cbn [negb] in Vm. cbv zeta in Vm. checks Vm.
    apply check_None in Vm. rewrite Ek, El, String.eqb_refl in Vm. done.
  - cbn [mbind option_bind]. destruct (me_Enabled (cf_Metrics c)) eqn:Em; [|by eexists]. destruct (Hme eq_refl) as (k & b & Hk & Nk & Ek & Ek').
    rewrite mux_Handle_fresh; [by eexists|]. intros x ->%list_elem_of_singleton. rewrite Ek'. cbn [fst]. unfold root_pattern. congruence.
Qed.

Lemma root_matches path : pattern_matches (mux_split path) root_pattern = true.
Proof.
  unfold pattern_matches, root_pattern. cbn [pt_multi pt_segs is_prefix]. unfold is_prefix, mux_split. cbv zeta.
  destruct (Split (TrimPrefix path "/") "/") as [|x l] eqn:E; [by apply Split_nonempty in E|].
  by destruct (String.eqb _ _); cbn.
Qed.

Lemma mux_match_total {H} path (h : H) m : (root_pattern, h) ∈ m → is_Some (mux_match path m).
Proof.
  unfold mux_match. cbv zeta. induction m as [|x m IH]; [by intros ?%not_elem_of_nil|]. cbn [foldr].
  intros [<- |Hm]%elem_of_cons.
  - cbn [fst]. rewrite root_matches. destruct (foldr _ _ m); [|by eexists]. by destruct (_ <? _)%nat.
  - destruct (IH Hm) as [y Hy]. rewrite Hy. destruct (pattern_matches _ _); [|by eexists]. by destruct (_ <? _)%nat.
Qed.

(** Every request is answered by a handler or redirected. *)
Lemma findHandler_total {H} r (h : H) m : (root_pattern, h) ∈ m → findHandler r m ≠ MNotFound.
Proof.
  intros Hm. unfold findHandler. cbv zeta.
  set (path := if String.eqb _ "CONNECT" then _ else _).
  destruct (mux_match_total path h m Hm) as [x Hx].
  unfold matchOrRedirect. cbv zeta. rewrite Hx. by repeat case_match; simplify_eq.
Qed.

Lemma mux_match_in {H} path x (m : mux H) : mux_match path m = Some x → x ∈ m.
Proof.
  unfold mux_match. cbv zeta. induction m as [|y m IH]; [done|]. cbn [foldr]. intros E. apply elem_of_cons.
  destruct (pattern_matches _ _); [|by right; apply IH]. destruct (foldr _ _ m) as [z|]; [|by left; congruence].
  destruct (_ <? _)%nat; [by left; congruence|]. right. by apply IH.
Qed.

(** ** Handlers reached over the mux see clean paths *)

Lemma findHandler_in {H} r (h : H) m : findHandler r m = MHandler h → ∃ p, (p, h) ∈ m.
Proof.
  intros Hf. unfold findHandler in Hf. cbv zeta in Hf.
  set (path := if String.eqb _ "CONNECT" then _ else _) in Hf. destruct (matchOrRedirect path _ _) as [t|n] eqn:E; [done|].
  destruct (_ && _); [done|]. destruct n as [[p h']|]; [|done]. injection Hf as ->. exists p.
  unfold matchOrRedirect in E. cbv zeta in E. apply (mux_match_in path). by repeat case_match; simplify_eq.
Qed.

(** Every request that is not [CONNECT] and reaches a handler has a clean escaped path: dot segments and doubled slashes
    are redirected before any guard sees them. *)
Lemma handled_path_clean {H} r (h : H) m :
  findHandler r m = MHandler h → req_Method r ≠ "CONNECT" → url_EscapedPath (req_URL r) = mux_clean (url_EscapedPath (req_URL r)).
Proof.
  intros Hf Hm. unfold findHandler in Hf. cbv zeta in Hf. rewrite (proj2 (String.eqb_neq _ _) Hm) in Hf.
  destruct (matchOrRedirect _ _ _) as [t|n] eqn:E; [done|]. cbn [negb andb] in Hf.
  by destruct (String.eqb_spec (mux_clean (url_EscapedPath (req_URL r))) (url_EscapedPath (req_URL r))).
Qed.

(** ** Background updates of a pool *)

Create HintDb background.

Section background.
Context `{RL : RateLib} `{NL : NetLib}.
Implicit Types p : Pool RL.

(** The same upstreams with the same breakers and counters. *)
Definition kept (u u' : Upstream RL) : Prop := u_ID u' = u_ID u ∧ u_cb u' = u_cb u ∧ u_activeConns u' = u_activeConns u.

Definition background p p' : Prop := Forall2 kept (p_upstreams p) (p_upstreams p').

#[global] Instance kept_preorder : PreOrder kept.
Proof. split; [done|]. intros u v w (E1 & E2 & E3) (F1 & F2 & F3). split_and!; congruence. Qed.

#[global] Instance background_preorder : PreOrder background.
Proof. unfold background. split; [by intros p|]. intros p q r H1 H2. by etransitivity. Qed.

Lemma background_same p p' : p_upstreams p' = p_upstreams p → background p p'.
Proof. unfold background. by intros ->. Qed.

Lemma background_update id f p : neutral f → background p (update_upstream id f p).
Proof.
  intros Hf. unfold background, update_upstream. cbn [p_upstreams]. induction (p_upstreams p) as [|u l IH]; constructor; [|done].
  destruct (String.eqb _ _); [apply Hf|done].
Qed.

Lemma background_ids p p' : background p p' → u_ID <$> p_upstreams p' = u_ID <$> p_upstreams p.
Proof. unfold background. induction 1 as [|u u' l l' (E & _) _ IH]; [done|]. cbn. by rewrite E, IH. Qed.

Lemma background_ByID p p' id v' : background p p' → ByID p' id = Some v' → ∃ v, ByID p id = Some v ∧ kept v v'.
Proof.
  unfold background, ByID. induction 1 as [|u u' l l' Hk _ IH]; [done|]. cbn. rewrite (proj1 Hk).
  destruct (String.eqb _ _); [|done]. intros [= <-]. exists u. by split.
Qed.

(** What is held is still held. *)
Lemma holding_background F base O l (w : World RL) p' :
  background (w_pool w) p' → holding F base O l w → holding F base O l (set_pool p' w).
Proof.
  intros Hb [[H1 H2 H3] H4 H5 H6]. constructor; [|done..]. constructor; cbn [set_pool w_pool w_open w_next]; [| |done].
  - intros id v' Hv'. destruct (background_ByID _ _ _ _ Hb Hv') as (v & Hv & _ & -> & _). by apply H1.
  - intros id v' Hv'. destruct (background_ByID _ _ _ _ Hb Hv') as (v & Hv & _ & _ & ->). by apply H2.
Qed.

Lemma background_blockCache bc p : background p (set_blockCache bc p).
Proof. by apply background_same. Qed.

Lemma background_final now epoch p : background p (Pool_UpdateFinalizedEpoch now epoch p).1.
Proof. apply background_same. unfold Pool_UpdateFinalizedEpoch, cas_max. cbn. by repeat case_match. Qed.

Lemma background_seed now epoch p : background p (seedFinalizedEpoch now epoch p).
Proof. apply background_same. unfold seedFinalizedEpoch, cas_max. by repeat case_match. Qed.

Lemma background_sync b p : background p (SyncCanonicalHead b p).1.
Proof. apply background_same. unfold SyncCanonicalHead. by repeat case_match. Qed.
End background.

#[export] Hint Resolve background_update background_blockCache background_final background_seed background_sync : background.
#[export] Hint Extern 2 (background ?p ?p) => reflexivity : background.

Section background_steps.
Context `{RL : RateLib} `{RX : RegexpLib} `{NL : NetLib} `{HJ : HeadJSON}.
Implicit Types p : Pool RL.

Lemma neutral_probe_success elapsed : neutral (recordProbeSuccess (RL := RL) elapsed).
Proof. by intros u. Qed.
Lemma neutral_probe_error : neutral (recordProbeError (RL := RL)).
Proof. by intros u. Qed.
Lemma neutral_checkSync max elapsed r : neutral (checkSync (RL := RL) max elapsed r).
Proof. intros u. unfold checkSync. by repeat case_match. Qed.
Lemma neutral_checkVersion elapsed r : neutral (checkVersion (RL := RL) elapsed r).
Proof. intros u. unfold checkVersion. by repeat case_match. Qed.
Lemma neutral_checkNodeHealth elapsed r : neutral (checkNodeHealth (RL := RL) elapsed r).
Proof. intros u. unfold checkNodeHealth. by repeat case_match. Qed.
Lemma neutral_head slot root : neutral (UpdateHeadBlock (RL := RL) slot root).
Proof. intros u. unfold UpdateHeadBlock. by repeat case_match. Qed.
Lemma neutral_final epoch : neutral (Upstream_UpdateFinalizedEpoch (RL := RL) epoch).
Proof. intros u. unfold Upstream_UpdateFinalizedEpoch. by repeat case_match. Qed.
Lemma neutral_payload root full : neutral (SetHeadPayloadStatus (RL := RL) root full).
Proof. by intros u. Qed.
Lemma neutral_clear : neutral (ClearHeadPayloadStatus (RL := RL)).
Proof. by intros u. Qed.
#[local] Hint Resolve neutral_probe_success neutral_probe_error neutral_checkSync neutral_checkVersion neutral_checkNodeHealth
  neutral_head neutral_final neutral_payload neutral_clear : background.

(** The health monitor does not touch breakers and counters. *)
Lemma background_then p q r : background p q → background q r → background p r.
Proof. intros ? ?. by etransitivity. Qed.

Lemma monitor_background shared m p : background p (monitor shared m p).
Proof.
  destruct m as [id max e r|id now e r|id e r|id now e r|id e r|]; cbn [monitor]; auto with background.
  - destruct (ByID p id) as [u|]; [|done]. unfold checkFinality. destruct (negb _); [done|].
    destruct (_ ≫= _); [|auto with background]. cbv zeta. eapply background_then; [|auto with background].
    eapply background_then; [|auto with background]. auto with background.
  - destruct (ByID p id) as [u|]; [|done]. unfold checkHead. destruct (negb _); [done|].
    destruct (getJSON r) as [bh|]; [|cbn [fst]; auto with background]. destruct (ParseUint _) as [slot|]; [|cbn [fst]; auto with background]. cbv zeta.
    set (q := set_blockCache _ _). assert (background p q) as Hq by (subst q; eapply background_then; [|apply background_blockCache]; auto with background).
    clearbody q. pose proof (background_sync shared q) as Hs. destruct (SyncCanonicalHead shared q) as [q' pub]. cbn [fst] in *.
    eapply background_then; [exact Hq|]. eapply background_then; [exact Hs|]. auto with background.
Qed.

(** Nor do the events of a subscription. *)
Lemma dispatch_background now id h h2 fi ro s data (w : headWatcher (RL := RL) (RX := RX)) :
  background (hw_pool w) (hw_pool (dispatchEvent now id h h2 fi ro s data w).1).
Proof.
  assert (∀ w : headWatcher (RL := RL) (RX := RX), hw_pool (invalidateHeadCache now w).1 = hw_pool w) as Hinv.
  { intros w'. unfold invalidateHeadCache. destruct (hw_cache w'); [|done]. by destruct (PurgeCollect _ _ _) as [[? ?] ?]. }
  unfold dispatchEvent. destruct h2; [|destruct (h || negb s); [|destruct fi; [|destruct ro; [|done]]]]; cbn [fst].
  - unfold recordHeadPayloadStatus. repeat case_match; cbn [hw_pool hw_set_pool]; auto with background.
  - rewrite Hinv. unfold recordHeadSeen. repeat case_match; auto with background. cbn [hw_pool hw_set_pool].
    eapply background_then; [|apply background_sync]. eapply background_then; [|apply background_blockCache]. auto with background.
  - unfold handleFinalizedCheckpoint. repeat case_match; auto with background; cbn [hw_pool hw_set_pool hw_set_cache];
    match goal with H : Pool_UpdateFinalizedEpoch ?a ?b ?c = _ |- _ => pose proof (background_final a b c) as Hb; by rewrite H in Hb end.
  - unfold handleChainReorg. by repeat case_match.
Qed.

Lemma events_background uid ops (w : headWatcher (RL := RL) (RX := RX)) :
  background (hw_pool w) (hw_pool (foldl (λ w ev, (ev_dispatch ev.1 uid ev.2 w).1) w ops)).
Proof.
  revert w. induction ops as [|[now ev] ops IH]; intros w; [done|]. cbn [foldl fst snd].
  eapply background_then; [|apply IH]. unfold ev_dispatch. destruct (ev_sawData ev); [|done]. apply dispatch_background.
Qed.

Lemma clear_background uid (w : headWatcher (RL := RL) (RX := RX)) : background (hw_pool w) (hw_pool (clear_payload uid w)).
Proof. cbn. auto with background. Qed.
End background_steps.

(** ** The dashboard changes caches only *)

Section dashboard_frame.
Context `{RL : RateLib} `{RX : RegexpLib} `{NL : NetLib}.
Context (ParseURL : string → option (string * string)).
Abbreviation Net := (Network (RL := RL) (RX := RX)).

Definition recached (x y : string * Net) : Prop := y.1 = x.1 ∧ ∃ c, y.2 = set_cache c x.2.

Lemma recached_refl x : recached x x.
Proof. split; [done|]. exists (n_cache x.2). by destruct x as [? []]. Qed.

Lemma recached_all l : Forall2 recached l l.
Proof. apply Forall2_same_length_lookup_2; [done|]. intros i x y Hx Hy. simplify_eq. apply recached_refl. Qed.

Lemma list_loop_recached now nf kf ib all nets : Forall2 recached nets (list_loop now nf kf ib all nets).1.
Proof.
  revert all. induction nets as [|[id n] nets IH]; intros all; cbn [list_loop]; [constructor|].
  destruct (_ <=? _)%nat; [apply recached_all|].
  destruct (_ && _); [|destruct (n_cache n) as [c|] eqn:Ec; [destruct (Cache_Entries _ _ _ _) as [c' entries]; cbv zeta|]].
  - specialize (IH all). destruct (list_loop _ _ _ _ _ _). cbn [fst] in *. constructor; [apply recached_refl|done].
  - specialize (IH (all ++ take (maxEntries - length all) (entry_info id ib <$> bfilter (λ e, String.eqb kf "" || String.eqb (sn_Key e) kf) entries))%list).
    destruct (list_loop _ _ _ _ _ _). cbn [fst] in *. constructor; [|done]. split; [done|]. by exists (Some c').
  - specialize (IH all). destruct (list_loop _ _ _ _ _ _). cbn [fst] in *. constructor; [apply recached_refl|done].
Qed.

Lemma update_cache_recached id c (nets : list (string * Net)) : Forall2 recached nets (update_cache id c nets).
Proof.
  unfold update_cache. induction nets as [|x nets IH]; constructor; [|done]. destruct (String.eqb _ _); [|apply recached_refl].
  split; [done|]. by exists (Some c).
Qed.

Lemma dashboard_recached base now wh r s :
  Forall2 recached (sa_Networks s) (sa_Networks (status_handler (RL := RL) (RX := RX) ParseURL base now wh r s).1).
Proof.
  unfold status_handler, status_serve. destruct (parseStatusRoute _ _) as [[target token]|]; [|apply recached_all].
  destruct (status_authenticate _ _ _ _); [apply recached_all|]. cbv zeta.
  destruct (_ || _); [apply recached_all|]. do 3 (destruct (String.eqb _ _); [apply recached_all|]).
  destruct (String.eqb target "api/cache/entries").
  - unfold handleCacheEntries. destruct (String.eqb _ "GET").
    + unfold listCacheEntries. pose proof (list_loop_recached now (TrimSpace (query_get r "network")) (TrimSpace (query_get r "key"))
        (parseBoolQuery (query_get r "includeBody")) [] (sa_Networks s)) as H. by destruct (list_loop _ _ _ _ _ _).
    + destruct (String.eqb _ "DELETE"); [|apply recached_all]. unfold deleteCacheEntry. cbv zeta. destruct (_ || _); [apply recached_all|].
      destruct (find_first _ _) as [[id n]|]; [|apply recached_all]. destruct (n_cache n); [|apply recached_all].
      destruct (Cache_Get _ _ _) as [c' found]. apply update_cache_recached.
  - do 2 (destruct (String.eqb _ _); [apply recached_all|]). apply recached_all.
Qed.

(** The networks after a request to the dashboard, as a map. *)
Lemma recached_map (m : gmap string Net) l l' :
  l ≡ₚ map_to_list m → Forall2 recached l l' →
  (∀ id n', (list_to_map l' : gmap string Net) !! id = Some n' → ∃ n c, m !! id = Some n ∧ n' = set_cache c n) ∧
  (∀ id, is_Some (m !! id) → is_Some ((list_to_map l' : gmap string Net) !! id)).
Proof.
  intros Hp Hf. assert (l'.*1 = l.*1) as Ek.
  { clear Hp. induction Hf as [|x y l l' [E _] _ IH]; [done|]. cbn. by rewrite E, IH. }
  assert (NoDup l'.*1) as Hnd by (rewrite Ek, Hp; apply NoDup_fst_map_to_list). split.
  - intros id n' Hn%elem_of_list_to_map_2. apply list_elem_of_lookup in Hn as [i Hi].
    destruct (Forall2_lookup_r _ _ _ _ _ Hf Hi) as (x & Hx & E & c & Ec). cbn [fst snd] in *. exists x.2, c. split; [|done].
    apply elem_of_map_to_list. rewrite <- Hp, E. destruct x. by apply list_elem_of_lookup_2 with i.
  - intros id [n Hn]. apply not_eq_None_Some. intros HN%not_elem_of_list_to_map. apply HN. rewrite Ek, Hp.
    apply list_elem_of_fmap. exists (id, n). split; [done|]. by apply elem_of_map_to_list.
Qed.
End dashboard_frame.

(** ** The invariant of the program *)

Section system.
Context `{RL : RateLib} `{RX : RegexpLib} `{NL : NetLib} `{HJ : HeadJSON}.
Context (NewRequest_ok : string → string → bool) (gunzip : string → bool → option (string * bool)) (sha : string → string)
  (ParseFloat : string → option float64) (Quote : string → string) (ParseURL : string → option (string * string))
  (ExpandEnv : string → string) (ParseRedisURL : string → option RedisOptions) (oob : float64 → Z).
Context (iterate : gmap string (Network (RL := RL) (RX := RX)) → list (string * Network (RL := RL) (RX := RX)))
  (iterate_all : ∀ m, iterate m ≡ₚ map_to_list m) (parseOther : string → option URL).

Abbreviation Net := (Network (RL := RL) (RX := RX)).
Abbreviation serve := (App_ServeHTTP NewRequest_ok gunzip sha ParseFloat Quote ParseURL iterate).

(** A network at rest: nobody holds a probe or a body. *)
Definition at_rest (n : Net) : Prop := Network_ok n ∧ holding [] (λ _, 0) ∅ [] (n_world n).

Record App_ok (app : App) : Prop := {
  ao_network id n : App_networks app !! id = Some n → at_rest n;
  ao_single id : px_single (ap_proxy app) = Some id → is_Some (App_networks app !! id);
  ao_root : (root_pattern, EProxy) ∈ ap_mux app;
}.

Lemma App_ok_proxy app : App_ok app → Proxy_ok (λ _, []) (λ _ _, 0) (λ _, ∅) (ap_proxy app).
Proof. intros [H1 H2 _]. by split. Qed.

Lemma at_rest_cache c n : at_rest n → at_rest (set_cache c n).
Proof. intros [H1 H2]. split; [|done]. by apply (Network_ok_static n). Qed.

Lemma at_rest_sessions s n : at_rest n → at_rest (set_sessions s n).
Proof. intros [H1 H2]. split; [|done]. by apply (Network_ok_static n). Qed.

Lemma at_rest_pool p n : background (n_pool n) p → at_rest n → at_rest (set_world (set_pool p (n_world n)) n).
Proof.
  intros Hb [H1 H2]. split; [|by apply holding_background]. apply (Network_ok_static n); [done| |done].
  by apply background_ids in Hb.
Qed.

Lemma put_network_ok id n app : is_Some (App_networks app !! id) → at_rest n → App_ok app → App_ok (put_network id n app).
Proof.
  intros Hi Hn [H1 H2 H3]. constructor; [| |done]; unfold App_networks, put_network in *; cbn [set_proxy set_network ap_proxy px_networks px_single].
  - intros id' n'. destruct (decide (id = id')) as [<-|Hne]; [rewrite lookup_insert_eq; by intros [= <-]|].
    rewrite lookup_insert_ne by done. apply H1.
  - intros id' Hs. destruct (decide (id = id')) as [<-|Hne]; [by rewrite lookup_insert_eq|]. rewrite lookup_insert_ne by done. by apply H2.
Qed.

(** Every request is answered, by no panic and by no missing handler, and leaves the program as it should be. *)
Lemma serve_ok e wh r app :
  App_ok app →
  let '(app', rep, queue) := serve e wh r app in
  rep ≠ RServed SPanic ∧ rep ≠ RNotFound ∧ (rep ≠ RServed SWaiting → queue = [] → App_ok app').
Proof.
  intros Hok. unfold App_ServeHTTP. destruct (WrapWithCORS _ _ _) as [w|wh']; [done|].
  pose proof (findHandler_total (in_req r) EProxy (ap_mux app) (ao_root _ Hok)) as Hf.
  destruct (findHandler _ _) as [[| |]|path|]; [| |done|done|done].
  - pose proof (Proxy_ServeHTTP_safe NewRequest_ok gunzip sha ParseFloat Quote _ _ _ (with_trusted (ap_trusted app) e) wh' r
      (ap_proxy app) (App_ok_proxy app Hok)) as H.
    destruct (Proxy_ServeHTTP _ _ _ _ _ _ _ _ _) as [[p s] queue]. destruct H as [H1 H2]. split_and!; [congruence|done|].
    intros Hs Hq. destruct (H2 ltac:(congruence) Hq) as [H3 H4]. constructor; [exact H3|exact H4|apply Hok].
  - pose proof (dashboard_recached ParseURL (ap_uiBase app) (ev_now e) wh' (in_req r) (dashboard iterate app)) as Hd.
    destruct (status_handler _ _ _ _ _ _) as [s a]. cbn [fst dashboard sa_Networks] in Hd. split_and!; [done|done|].
    intros _ _. destruct (recached_map _ _ _ (iterate_all _) Hd) as [H1 H2]. destruct Hok as [H3 H4 H5]. constructor; [| |done].
    + intros id n' Hn. destruct (H1 id n' Hn) as (n & c & Hm & ->). apply at_rest_cache. by eapply H3.
    + intros id Hs. apply H2, H4, Hs.
Qed.

Lemma fan_out_ok now u app : App_ok app → App_ok (fan_out now u app).
Proof.
  intros Hok. unfold fan_out. destruct (px_networks (ap_proxy app) !! hu_Network u) as [n|] eqn:En; [|done].
  apply (put_network_ok (hu_Network u)); [by exists n| |done]. apply at_rest_pool; [apply background_blockCache|by eapply ao_network].
Qed.

Lemma step_ok app app' : step NewRequest_ok gunzip sha ParseFloat Quote ParseURL iterate parseOther app app' → App_ok app → App_ok app'.
Proof.
  intros Hs Hok. assert (∀ id n, App_networks app !! id = Some n → at_rest n) as Hn by apply Hok.
  destruct Hs as [e wh r app app' rep E Hw|now u app|id m n app Hi|id n ops uid app Hi|id n uid app Hi|id n now app Hi
    |id n now th ms order app Hi|id n n' envs source keys results app Hi E Hw|id n fl wh r prefer required its s res app Hi E Hw].
  - pose proof (serve_ok e wh r app Hok) as H. rewrite E in H. by apply H.
  - by apply fan_out_ok.
  - apply put_network_ok; [by exists n| |done]. apply at_rest_pool; [apply monitor_background|by eapply Hn].
  - apply put_network_ok; [by exists n| |done]. apply at_rest_cache, at_rest_pool; [apply (events_background uid ops (watcher_of (App_shared app) n))|by eapply Hn].
  - apply put_network_ok; [by exists n| |done]. apply at_rest_cache, at_rest_pool; [apply (clear_background uid (watcher_of (App_shared app) n))|by eapply Hn].
  - apply put_network_ok; [by exists n| |done]. apply at_rest_sessions. by eapply Hn.
  - apply put_network_ok; [by exists n| |done]. apply at_rest_sessions. by eapply Hn.
  - apply put_network_ok; [by exists n| |done]. destruct (Hn id n Hi) as [H1 H2].
    pose proof (warmHeadCache_gives_back NewRequest_ok gunzip sha ParseFloat parseOther _ _ _ envs source keys n H1 H2) as H.
    rewrite E in H. destruct H as (H3 & _ & _ & _ & H4). split; [done|]. by apply H4.
  - apply put_network_ok; [by exists n| |done]. destruct (Hn id n Hi) as [H1 H2]. unfold SSERelay_Serve in E. cbv zeta in E.
    destruct (negb fl); [injection E as <- <-; by destruct n|].
    set (s0 := {| s_w := n_world n |}) in E.
    pose proof (relay_holds NewRequest_ok _ _ _ r required its prefer [] s0 H2) as Hh.
    pose proof (relay_ids NewRequest_ok r required its prefer s0) as Hids. rewrite E in Hh, Hids. cbn [fst] in Hids.
    split; [by apply (Network_ok_static n)|]. by destruct res.
Qed.

(** ** Starting *)

Lemma trusted_proxies_parse s : validateServer s = None → is_Some (SetTrustedProxies (sv_TrustedProxies s)).
Proof.
  intros H. unfold validateServer in H. checks H. rewrite first_error_None in H. unfold SetTrustedProxies.
  destruct (sv_TrustedProxies s) as [|x l]; [by eexists|]. assert (is_Some (mapM parse_trusted (x :: l))) as [ps ->]; [|by eexists].
  apply mapM_is_Some_2, Forall_forall. intros tp Htp. specialize (H tp Htp). cbv zeta in H. unfold compose, parse_trusted. cbv zeta.
  destruct (ParsePrefix _); [by eexists|]. destruct (ParseAddr _); [by eexists|done].
Qed.

Lemma seed_network_ok io shared n : at_rest n → at_rest (seed_network io shared n).2.
Proof.
  intros H. unfold seed_network. destruct shared as [rs|]; [|done]. destruct (GetFinalized _ _ _) as [[rs' st] epoch].
  apply at_rest_pool; [apply background_seed|done].
Qed.

(** What the configuration and the world have to provide, beyond what the loader checks. *)
Record startable (io : start_io) (c : ConfigFile) : Prop := {
  sb_mkdir d : io_mkdir io d = true;
  sb_redis cfg : st_Driver (cf_State c) = "redis" → st_Redis (cf_State c) = Some cfg →
    ∃ opts, Redis_Options ParseRedisURL cfg = Some opts ∧ io_ping io opts = true;
  sb_policies p : p ∈ defaultPolicies → is_Some (re_Compile (cp_Pattern p));
  sb_prefixes nc cr : nc ∈ cf_Networks c → cr ∈ ro_ClientRoutes (nc_Routing nc) → TrimSpace (cr_PathPrefix cr) ≠ "";
  sb_overrides nc fo : nc ∈ cf_Networks c → fo ∈ nc_FailsafeOverrides nc →
    failsafe_sane (mergeFailsafe (EffectiveFailsafe (cf_Failsafe c) (nc_Failsafe nc)) (fo_Failsafe fo));
  sb_ui : ui_Enabled (cf_UI c) = true → no_byte "%" (ui_BasePath (cf_UI c));
  sb_metrics : me_Enabled (cf_Metrics c) = true → no_byte "%" (me_Path (cf_Metrics c));
}.

Lemma start_networks_ok io c ncs shared (acc : gmap string Net) :
  (∀ nc, nc ∈ ncs → ∃ n, Network_New (RL := RL) (io_now io) nc c = Some n ∧ at_rest n) →
  (∀ id n, acc !! id = Some n → at_rest n) →
  ∃ networks, (start_networks io c ncs shared acc).2 = Some networks ∧ (∀ id n, networks !! id = Some n → at_rest n) ∧
    dom networks = list_to_set (nc_ID <$> ncs) ∪ dom acc.
Proof.
  revert shared acc. induction ncs as [|nc ncs IH]; intros shared acc Hn Ha; cbn [start_networks].
  { exists acc. split_and!; [done|done|]. cbn. by rewrite (left_id_L ∅ (∪)). }
  destruct (Hn nc ltac:(by left)) as (n & -> & Hr). pose proof (seed_network_ok io shared n Hr) as Hs.
  destruct (seed_network io shared n) as [shared' n']. cbn [snd] in Hs.
  destruct (IH shared' (<[nc_ID nc := n']> acc)) as (networks & E & H1 & H2).
  - intros nc' H'. apply Hn. by right.
  - intros id m. destruct (decide (nc_ID nc = id)) as [<-|Hne]; [rewrite lookup_insert_eq; by intros [= <-]|].
    rewrite lookup_insert_ne by done. apply Ha.
  - exists networks. split_and!; [done|done|]. rewrite H2, dom_insert_L. cbn [fmap list_fmap list_to_set].
    by rewrite (assoc_L (∪)), (comm_L (∪) (list_to_set _) {[_]}).
Qed.

Lemma start_state_ok io c : validate ParseURL c = None → startable io c → ∃ shared, start_state ParseRedisURL io c = inr shared.
Proof.
  intros Ev Hs. unfold start_state. destruct (String.eqb_spec (st_Driver (cf_State c)) "redis") as [Ed|]; [|by eexists].
  destruct (st_Redis (cf_State c)) as [cfg|] eqn:Ecfg.
  - destruct (sb_redis _ _ Hs cfg Ed Ecfg) as (opts & E1 & E2). unfold NewRedisState. rewrite E1, E2. by eexists.
  - exfalso. clear -Ev Ed Ecfg. unfold validate in Ev. rewrite Ed, Ecfg in Ev. checks Ev. done.
Qed.

(** The program that a configuration starts. *)
(** No ticker of a configuration that loads lacks a positive interval. *)
Lemma tickers_positive zero first rest c : Load ParseURL ExpandEnv zero first rest = inr c → tickers_panic c = false.
Proof.
  intros HL. destruct (Load_networks ParseURL ExpandEnv zero first rest c HL) as (_ & _ & Hn).
  apply not_true_iff_false. intros (nc & Hnc%list_elem_of_In & Ht)%existsb_exists. destruct (Hn nc Hnc) as [_ [_ _ _ _ _ Hh Hr _ _ _]].
  apply existsb_exists in Ht as (i & Hi%list_elem_of_In & Hle). b2p. unfold ticker_intervals in Hi. cbv zeta in Hi, Hh.
  assert (∀ timeout, 0 < cleanup_interval timeout) as Hc.
  { intros timeout. unfold cleanup_interval, Minute, Second, Millisecond. destruct (Z.ltb_spec (Z.quot timeout 2) (60 * (1000 * 1000000))); lia. }
  apply elem_of_app in Hi as [Hi|[->%list_elem_of_singleton|Hi]%elem_of_app]; [|done|].
  - apply list_elem_of_bind in Hi as (u & Hi & _). repeat (apply elem_of_cons in Hi as [->|Hi]; [first [lia|done]|]). by apply not_elem_of_nil in Hi.
  - destruct (_ || _); [|by apply not_elem_of_nil in Hi]. apply elem_of_cons in Hi as [->|Hi]; [specialize (Hc (ro_StickyTimeout (nc_Routing nc))); lia|].
    destruct (ro_StickySession _); [apply list_elem_of_singleton in Hi as ->; lia|by apply not_elem_of_nil in Hi].
Qed.

Lemma start_runs io zero first rest c :
  Load ParseURL ExpandEnv zero first rest = inr c → startable io c →
  ∃ app, start ParseURL ExpandEnv ParseRedisURL oob io zero first rest = Running app ∧ App_ok app ∧
    dom (App_networks app) = list_to_set (nc_ID <$> cf_Networks c) ∧
    px_auth (ap_proxy app) = cf_Auth c ∧ ap_uiAuth app = ui_Auth (cf_UI c) ∧ ap_uiBase app = ui_BasePath (cf_UI c) ∧
    ap_cors app = cf_CORS c ∧ SetTrustedProxies (sv_TrustedProxies (cf_Server c)) = Some (ap_trusted app) ∧ registered c (ap_mux app).
Proof.
  intros HL Hs. unfold start. rewrite HL. pose proof (Load_validated _ _ _ _ _ _ HL) as Ev.
  destruct (start_mux_succeeds ParseURL c Ev (sb_ui _ _ Hs) (sb_metrics _ _ Hs)) as (m & Em & Hm).
  assert (∀ nc, nc ∈ cf_Networks c → ∃ n, Network_New (RL := RL) (io_now io) nc c = Some n ∧ at_rest n) as Hn.
  { intros nc Hnc. destruct (loaded_network_starts ParseURL ExpandEnv (RL := RL) (io_now io) zero first rest c nc HL Hnc) as (n & E & H1 & H2 & _);
      [apply Hs|intros cr; by apply (sb_prefixes _ _ Hs)|intros fo; by apply (sb_overrides _ _ Hs)|]. by exists n. }
  assert (is_Some (SetTrustedProxies (sv_TrustedProxies (cf_Server c)))) as [trusted Et].
  { clear -Ev. unfold validate in Ev. checks Ev. by apply trusted_proxies_parse. }
  rewrite Et. unfold ConfigureDefault, Logger_New. set (dir := Dir _).
  destruct (if negb (dl_Enabled _) then _ else _) as [[logger closer]|] eqn:El.
  2: { by destruct (dl_Enabled _); cbn [negb] in El; [rewrite (sb_mkdir _ _ Hs), andb_false_r in El|]. }
  destruct (start_state_ok io c Ev Hs) as [shared ->].
  destruct (start_networks_ok io c (cf_Networks c) shared ∅ Hn ltac:(done)) as (networks & E & H1 & H2).
  destruct (start_networks io c (cf_Networks c) shared ∅) as [shared' ns]. cbn [snd] in E. subst ns. rewrite (tickers_positive _ _ _ _ HL), Em. cbv zeta.
  eexists. split; [reflexivity|]. unfold App_networks.
  assert (∀ p : Proxy (RL := RL) (RX := RX), px_networks (match cf_Auth c with Some a => SetAuth oob (Some a) p | None => p end) = px_networks p ∧
    px_single (match cf_Auth c with Some a => SetAuth oob (Some a) p | None => p end) = px_single p) as Ha by (by destruct (cf_Auth c)).
  cbn [ap_proxy ap_uiAuth ap_uiBase ap_cors ap_trusted ap_mux]. destruct (Ha (Proxy_New networks)) as [Ha1 Ha2].
  split_and!; try done.
  - constructor; unfold App_networks; cbn [ap_proxy ap_mux]; rewrite ?Ha1, ?Ha2.
    + exact H1.
    + intros id. cbn [Proxy_New px_single px_networks]. destruct ((map_to_list networks).*1) as [|x [|]] eqn:Ex; [done| |done].
      intros [= ->]. assert (id ∈ (map_to_list networks).*1) as ([k n] & -> & Hk%elem_of_map_to_list)%list_elem_of_fmap by (rewrite Ex; by left).
      by exists n.
    + rewrite Hm. apply elem_of_app. right. apply elem_of_app. right. by left.
  - rewrite Ha1. cbn [Proxy_New px_networks]. by rewrite H2, dom_empty_L, (right_id_L ∅ (∪)).
  - by destruct (cf_Auth c).
Qed.

(** ** What never changes *)

Definition same_settings (app app' : App (RL := RL) (RX := RX)) : Prop :=
  px_auth (ap_proxy app') = px_auth (ap_proxy app) ∧ ap_uiAuth app' = ap_uiAuth app ∧ ap_uiBase app' = ap_uiBase app ∧
  ap_mux app' = ap_mux app ∧ ap_cors app' = ap_cors app ∧ ap_trusted app' = ap_trusted app.

Lemma Proxy_ServeHTTP_auth e wh r (p : Proxy (RL := RL) (RX := RX)) :
  px_auth (Proxy_ServeHTTP NewRequest_ok gunzip sha ParseFloat Quote e wh r p).1.1 = px_auth p.
Proof.
  assert (∀ r id p, px_auth (on_network (RL := RL) (RX := RX) NewRequest_ok gunzip sha ParseFloat e wh r id p).1.1 = px_auth p) as Hon.
  { intros r' id p'. unfold on_network. destruct (px_networks p' !! id); [|done]. by destruct (ServeHTTP _ _ _ _ _ _ _ _ _) as [[? ?] ?]. }
  unfold Proxy_ServeHTTP. cbv zeta. destruct (String.eqb _ _); [done|].
  destruct (routeRequest p _) as [[[[id rest] key] strip]|].
  - pose proof (authenticate_auth (ev_now e) wh (in_req r) key p) as H. destruct (authenticate _ _ _ _ _) as [p' [w|k]]; [done|].
    by rewrite Hon.
  - pose proof (authenticate_auth (ev_now e) wh (in_req r) "" p) as H. destruct (authenticate _ _ _ _ _) as [p' [w|k]]; [done|].
    destruct (px_single p'); [by rewrite Hon|done].
Qed.

Lemma step_settings app app' :
  step NewRequest_ok gunzip sha ParseFloat Quote ParseURL iterate parseOther app app' → same_settings app app'.
Proof.
  intros Hs. destruct Hs as [e wh r app app' rep E Hw|now u app|id m n app Hi|id n ops uid app Hi|id n uid app Hi|id n now app Hi
    |id n now th ms order app Hi|id n n' envs source keys results app Hi E Hw|id n fl wh r prefer required its s res app Hi E Hw];
    [| |by split_and!..].
  - unfold App_ServeHTTP in E. destruct (WrapWithCORS _ _ _) as [w|wh']; [by injection E as <- _|].
    destruct (findHandler _ _) as [[| |]|path|]; [| |by injection E as <- _..].
    + pose proof (Proxy_ServeHTTP_auth (with_trusted (ap_trusted app) e) wh' r (ap_proxy app)) as H.
      destruct (Proxy_ServeHTTP _ _ _ _ _ _ _ _ _) as [[p s] queue]. by injection E as <- _.
    + destruct (status_handler _ _ _ _ _ _) as [s a]. by injection E as <- _.
  - unfold fan_out. by destruct (_ !! _).
Qed.

Abbreviation reachable := (rtc (step NewRequest_ok gunzip sha ParseFloat Quote ParseURL iterate parseOther)).

Lemma reachable_ok app app' : reachable app app' → App_ok app → App_ok app' ∧ same_settings app app'.
Proof.
  induction 1 as [app|app app1 app' Hs _ IH]; intros Hok; [by split|].
  destruct (IH (step_ok _ _ Hs Hok)) as [H1 (E1 & E2 & E3 & E4 & E5 & E6)]. split; [done|].
  destruct (step_settings _ _ Hs) as (F1 & F2 & F3 & F4 & F5 & F6). split_and!; congruence.
Qed.

(** ** Properties *)


(** What anybody may be told. *)
Inductive public (p : Proxy (RL := RL) (RX := RX)) : reply → Prop :=
  | pub_preflight h : public p (RServed (SWritten (no_content h)))
  | pub_refused h : public p (RServed (SWritten (unauthorized h)))
  | pub_health h : public p (RServed (SWritten (proxy_serveHealthz h p)))
  | pub_dashboard_refused h : public p (RDashboard (dashboard_refusal h))
  | pub_dashboard_missing h : public p (RDashboard (notFound h))
  | pub_metrics : public p RMetrics
  | pub_redirect path query : public p (RRedirect path query).

Lemma iterate_map m : list_to_map (iterate m) = m.
Proof.
  rewrite (list_to_map_proper (iterate m) (map_to_list m)); [apply list_to_map_to_list| |apply iterate_all].
  rewrite iterate_all. apply NoDup_fst_map_to_list.
Qed.

Lemma set_proxy_same (app : App (RL := RL) (RX := RX)) : set_proxy (ap_proxy app) app = app.
Proof. by destruct app. Qed.

Lemma same_networks app : set_proxy (with_networks (list_to_map (iterate (px_networks (ap_proxy app)))) (ap_proxy app)) app = app.
Proof. rewrite iterate_map. by destruct app as [[]]. Qed.

(** C5: the program is closed.  With an auth section, at every moment of its life, a request that presents none of the
    configured credentials (for the proxy by header, query or path; for the dashboard likewise) changes nothing at all and is
    told nothing but a refusal, a redirect to the clean path, an answer to a CORS preflight, the aggregate health or the
    metrics. *)
Theorem program_closed io zero first rest c a app0 app e wh r :
  Load ParseURL ExpandEnv zero first rest = inr c → startable io c → cf_Auth c = Some a →
  start ParseURL ExpandEnv ParseRedisURL oob io zero first rest = Running app0 → reachable app0 app →
  (configured a (presented (in_req r) (path_key (ap_proxy app) r)) → False) →
  (∀ b target token, ui_Enabled (cf_UI c) = true → ui_Auth (cf_UI c) = Some b →
     parseStatusRoute (TrimRight (ui_BasePath (cf_UI c)) "/") (url_Path (req_URL (in_req r))) = Some (target, token) →
     configured b (presented (in_req r) token) → False) →
  ∃ rep, serve e wh r app = (app, rep, []) ∧ public (ap_proxy app) rep.
Proof.
  intros HL Hs Ea Est Hr Hv Hui. destruct (start_runs io zero first rest c HL Hs) as (app0' & E & Hok & _ & A1 & A2 & A3 & _ & _ & A4).
  assert (app0' = app0) as -> by congruence. destruct (reachable_ok _ _ Hr Hok) as [Hok' (B1 & B2 & B3 & B4 & _)].
  pose proof (Load_validated _ _ _ _ _ _ HL) as Ev. unfold validate in Ev. checks Ev.
  unfold App_ServeHTTP. destruct (WrapWithCORS _ _ _) as [w|wh'] eqn:Ec.
  { eexists. split; [reflexivity|]. unfold WrapWithCORS in Ec. repeat case_match; simplify_eq; constructor. }
  destruct (findHandler _ _) as [[| |]|path|] eqn:Ef; [| |by eexists; split; [reflexivity|constructor]..|].
  - destruct (decide (url_Path (req_URL (in_req r)) = "/healthz")) as [Eh|Eh].
    { unfold Proxy_ServeHTTP. rewrite Eh. change (String.eqb "/healthz" "/healthz") with true. cbv beta iota zeta. rewrite set_proxy_same. eexists. split; [reflexivity|constructor]. }
    rewrite (Proxy_refuses NewRequest_ok gunzip sha ParseFloat Quote a); [|by rewrite B1, A1|apply validateAuth_sound; by rewrite <- Ea|done|done].
    rewrite set_proxy_same. eexists. split; [reflexivity|constructor].
  - apply findHandler_in in Ef as [q Hq]. rewrite B4, A4 in Hq. apply elem_of_app in Hq as [Hq|[Hq|[= _]%list_elem_of_singleton]%elem_of_app].
    { by destruct (me_Enabled _); [apply list_elem_of_singleton in Hq|apply not_elem_of_nil in Hq]. }
    destruct (ui_Enabled (cf_UI c)) eqn:Eu; [|by apply not_elem_of_nil in Hq].
    match goal with H : validate_ui _ = None |- _ => unfold validate_ui in H; rewrite Eu in H; checks H end.
    destruct (ui_Auth (cf_UI c)) as [b|] eqn:Eb; [|done].
    pose proof (status_serve_auth ParseURL (TrimRight (ui_BasePath (cf_UI c)) "/") (ev_now e) wh' (in_req r) (dashboard iterate app)) as H.
    unfold status_handler. rewrite B3, A3. destruct (status_serve _ _ _ _ _ _) as [s ans].
    destruct (parseStatusRoute _ _) as [[target token]|] eqn:Ep.
    + unfold status_authenticate in H. cbn [dashboard sa_Auth] in H. rewrite B2, A2 in H.
      destruct (ar_Authenticated (AuthenticateRequest (in_req r) (Some b) token)) eqn:Eauth.
      { exfalso. eapply Hui; [done..|]. apply AuthenticateRequest_exact in Eauth; [done|]. by apply validateAuth_sound. }
      destruct H as [-> ->]. eexists. split; [cbn [dashboard sa_Networks]; by rewrite same_networks|constructor].
    + destruct H as [-> ->]. eexists. split; [cbn [dashboard sa_Networks]; by rewrite same_networks|constructor].
  - exfalso. by eapply findHandler_total; [apply Hok'|].
Qed.
End system.

(** ** Witnesses *)

Module MainDemo.
Import ConfigDemo ExecDemo BoundsDemo ServeDemo.
#[local] Existing Instance BoundsDemo.DemoNet.
#[local] Instance DemoJSON : HeadJSON := {| json_head := λ _, None; json_headV2 := λ _, None; json_epoch := λ _, None; json_slot := λ _, None |}.

(** A file with a proxy key, a dashboard key and metrics. *)
Definition demo_file_full (metricsPath basePath : string) : ConfigFile :=
  let c := demo_file [] in
  {| cf_LogLevel := cf_LogLevel c; cf_DebugLogging := cf_DebugLogging c; cf_Server := cf_Server c; cf_Pprof := cf_Pprof c;
     cf_CORS := cf_CORS c; cf_Auth := Some ProxyDemo.demo_auth; cf_Networks := cf_Networks c; cf_LegacyProjects := cf_LegacyProjects c;
     cf_Failsafe := cf_Failsafe c; cf_RateLimiting := cf_RateLimiting c; cf_Health := cf_Health c;
     cf_Metrics := {| me_Enabled := true; me_Path := metricsPath |}; cf_State := cf_State c;
     cf_UI := {| ui_Enabled := true; ui_BasePath := basePath; ui_Auth := Some StatusDemo.demo_auth |} |}.

Definition demo_main (metricsPath basePath : string) : ConfigFile := expandSecrets id (applyDefaults (demo_file_full metricsPath basePath)).

Definition demo_start_io : start_io :=
  {| io_now := 0; io_mkdir := λ _, true; io_ping := λ _, true; io_epochs := ∅; io_reads := λ _, true; io_id := "instance" |}.

Abbreviation demo_start metricsPath basePath :=
  (start (RL := ToyRate) (RX := MiniRegexp) demo_url id (λ _, None) (λ _, 0) demo_start_io (demo_file_full metricsPath basePath)
     (DVal (demo_file_full metricsPath basePath)) []).

(** Two paths that validation tells apart but the mux does not: the configuration loads and
    registering its handlers panics. *)
Lemma escaped_patterns_collide :
  Load (RX := MiniRegexp) demo_url id (demo_file_full "/u%69/" "/ui") (DVal (demo_file_full "/u%69/" "/ui")) [] = inr (demo_main "/u%69/" "/ui") ∧
  start_mux (demo_main "/u%69/" "/ui") = None.
Proof. split; vm_compute; reflexivity. Qed.

Lemma demo_loads :
  Load (RX := MiniRegexp) demo_url id (demo_file_full "/metrics" "/ui") (DVal (demo_file_full "/metrics" "/ui")) [] = inr (demo_main "/metrics" "/ui").
Proof. vm_compute. reflexivity. Qed.

Lemma demo_startable : startable (RX := MiniRegexp) (λ _, None) demo_start_io (demo_main "/metrics" "/ui").
Proof.
  constructor.
  - done.
  - intros cfg. by vm_compute.
  - exact default_patterns.
  - intros nc cr Hnc%list_elem_of_singleton. subst nc. by intros ?%not_elem_of_nil.
  - intros nc fo Hnc%list_elem_of_singleton. subst nc. by intros ?%not_elem_of_nil.
  - intros _. by vm_compute.
  - intros _. by vm_compute.
Qed.


(** A request with a wrong key. *)
Definition demo_request : Inbound :=
  {| in_req := {| req_Method := "GET";
                  req_URL := {| url_Path := "/eth/v1/node/version"; url_EscapedPath := "/eth/v1/node/version"; url_RawQuery := "" |};
                  req_Header := {["X-Api-Key" := ["wrong"]]} |};
     in_Host := ""; in_RemoteAddr := "10.0.0.9:1"; in_Body := None |}.

Lemma wrong_key key : presented (in_req demo_request) key = "wrong".
Proof. vm_compute. reflexivity. Qed.

Lemma program_closed_witness :
  ∃ app0 rep, demo_start "/metrics" "/ui" = Running app0 ∧
    App_ServeHTTP (λ _ _, true) (λ _ _, None) id toy_ParseFloat id demo_url map_to_list demo_lead ∅ demo_request app0 = (app0, rep, []) ∧
    public (ap_proxy app0) rep.
Proof.
  destruct (start_runs (RL := ToyRate) demo_url id (λ _, None) (λ _, 0) demo_start_io _ _ _ _ demo_loads demo_startable) as (app0 & E & _).
  destruct (program_closed (RL := ToyRate) (λ _ _, true) (λ _ _, None) id toy_ParseFloat id demo_url id (λ _, None) (λ _, 0) map_to_list
    (λ _, reflexivity _) (λ _, None) demo_start_io _ _ _ _ ProxyDemo.demo_auth app0 app0 demo_lead ∅ demo_request
    demo_loads demo_startable eq_refl E (rtc_refl _ _)) as (rep & H1 & H2).
  - rewrite wrong_key. intros [_ [Hs|(k & Hk & Hs)]]; [discriminate Hs|]. apply list_elem_of_singleton in Hk as ->. discriminate Hs.
  - intros b target token _ [= <-] _. rewrite wrong_key. intros [_ [Hs|(k & Hk & Hs)]]; [discriminate Hs|].
    apply list_elem_of_singleton in Hk as ->. discriminate Hs.
  - exists app0, rep. split; [exact E|]. split; [exact H1|exact H2].
Defined.
End MainDemo.
