(* ===== verification/Harness.v ===== *)
(** * What the test drivers share

    The programs under [scripts/] drive a running proxy from the outside.  Here is what they use of Go
    beyond the other files ([strconv.Atoi], [math/rand], [time.Duration.Seconds], [bufio.Scanner], the HTTP client) and the
    way their goroutines interact: they only write to shared counters, each write is atomic, so a goroutine is the
    list of its writes and a run is an interleaving of these lists. *)

From S2P Require Import Prelude GoStrings GoFloat Config MemoryStore Url CacheKey Headers SSE.
From Stdlib Require Import Ascii.
#[local] Open Scope string_scope.
#[local] Open Scope Z_scope.

(** ** Numbers and time *)

(** [strconv.Atoi] on a 64-bit [int]. *)
Definition Atoi (s : string) : option Z :=
  let '(neg, digits) :=
    match s with
    | String "-" s => (true, s)
    | String "+" s => (false, s)
    | _ => (false, s)
    end in
  match ParseUint digits with
  | None => None
  | Some n =>
      if neg then if n <=? 2 ^ 63 then Some (- n) else None
      else if n <? 2 ^ 63 then Some n else None
  end.

(** [strconv.Itoa] of any [int], [%d]. *)
Definition FormatInt (z : Z) : string := if z <? 0 then "-" +:+ FormatUint (- z) else FormatUint z.

(** [rand.Intn(n)], from a source [g]: any number below [n] is drawn by some [g]; [None] is its panic. *)
Definition Intn (g n : Z) : option Z := if n <=? 0 then None else Some (g mod n).

(** [time.Duration.Seconds] *)
Definition Seconds (d : Z) : float64 :=
  f64_add (f64_of_Z (Z.quot d Second)) (f64_div (f64_of_Z (Z.rem d Second)) (f64_of_Z 1000000000)).

(** [time.Duration(n) * time.Second] *)
Definition of_seconds (n : Z) : Z := wrap_i64 (n * Second).

(** ** [bufio.Scanner] *)

Inductive scan_end := ScanEOF | ScanErr | ScanTooLong.

(** [dropCR]: one carriage return. *)
Definition dropCR (s : string) : string := TrimSuffix s (String (ascii_of_nat 13) "").

(** The lines of the pieces between newlines.  A line that does not fit into a buffer of [max] bytes together with its
    newline ends the scan; what follows the last newline is a line if it is not empty. *)
Fixpoint scan_pieces (max : Z) (fails eager : bool) (pieces : list string) : list string * scan_end :=
  let at_end := if fails then ScanErr else ScanEOF in
  match pieces with
  | [] => ([], at_end)
  | [last] =>
      if String.eqb last "" then ([], at_end)
      else if (max <? str_len last) || ((max =? str_len last) && negb eager) then ([], ScanTooLong)
      else ([dropCR last], at_end)
  | l :: rest =>
      if max <=? str_len l then ([], ScanTooLong)
      else let '(ls, e) := scan_pieces max fails eager rest in (dropCR l :: ls, e)
  end.

Definition Scan (max : Z) (r : reader) : list string * scan_end :=
  scan_pieces max (rd_fails r) (rd_eager r) (Split (rd_rest r) LF).

(** [bufio.MaxScanTokenSize] *)
Definition MaxScanTokenSize : Z := 64 * 1024.

(** ** The HTTP client *)

(** What [client.Do] returns. *)
Inductive client_reply := CErr | CResp (status : Z) (header : Header) (body : reader).

(** [io.ReadAll] *)
Definition ReadAll (r : reader) : option string := if rd_fails r then None else Some (rd_rest r).

(** The credentials both drivers send with their requests. *)
Definition set_credentials (auth apiKey : string) (h : Header) : Header :=
  let h := if String.eqb auth "" then h else hdr_set "Authorization" ("Bearer " +:+ auth) h in
  if String.eqb apiKey "" then h else hdr_set "X-API-Key" apiKey h.

(** ** Goroutines that write *)

Section interleaving.
#[local] Open Scope list_scope.
Context {A : Type}.
Implicit Types (ls : list (list A)) (l k : list A).

(** [k] is what remains of [ls], one write of one goroutine after the other. *)
Inductive interleaving : list (list A) → list A → Prop :=
  | il_done ls : Forall (λ l, l = []) ls → interleaving ls []
  | il_step ls1 x l ls2 k : interleaving (ls1 ++ l :: ls2) k → interleaving (ls1 ++ (x :: l) :: ls2) (x :: k).

Lemma interleaving_perm ls k : interleaving ls k → k ≡ₚ concat ls.
Proof.
  induction 1 as [ls H|ls1 x l ls2 k _ IH].
  - induction H as [|l ls -> _ IH]; [done|]. by simpl.
  - rewrite IH, !concat_app. simpl. by rewrite Permutation_middle.
Qed.

(** No goroutine's writes are reordered. *)
Lemma interleaving_ordered ls k l : interleaving ls k → l ∈ ls → sublist l k.
Proof.
  intros H. revert l. induction H as [ls H|ls1 x l ls2 k _ IH]; intros l0 Hl.
  - rewrite Forall_forall in H. rewrite (H _ Hl). constructor.
  - apply elem_of_app in Hl as [Hl|[->|Hl]%elem_of_cons].
    + apply sublist_cons, IH. apply elem_of_app. by left.
    + apply sublist_skip, IH. apply elem_of_app. right. by left.
    + apply sublist_cons, IH. apply elem_of_app. right. by right.
Qed.

(** One goroutine after the other is an interleaving. *)
Lemma interleaving_concat ls : interleaving ls (concat ls).
Proof.
  assert (∀ ls1 ls2, Forall (λ l, l = []) ls1 → interleaving (ls1 ++ ls2) (concat ls2)) as H; [|by apply (H [])].
  intros ls1 ls2. revert ls1. induction ls2 as [|l ls2 IH]; intros ls1 H1.
  - rewrite app_nil_r. by constructor.
  - induction l as [|x l IHl]; simpl.
    + replace (ls1 ++ [] :: ls2) with ((ls1 ++ [[]]) ++ ls2) by (by rewrite <- app_assoc).
      apply IH, Forall_app. by repeat constructor.
    + by constructor.
Qed.

End interleaving.

(** How many elements satisfy a test. *)
Definition count {A} (f : A → bool) (l : list A) : Z := Z.of_nat (length (bfilter f l)).

Section count.
#[local] Open Scope list_scope.
Context {A : Type} (f : A → bool).

Lemma count_nil : count f [] = 0.
Proof. done. Qed.

Lemma count_cons x l : count f (x :: l) = (if f x then 1 else 0) + count f l.
Proof. unfold count. simpl. destruct (f x); simpl; lia. Qed.

Lemma count_app l k : count f (l ++ k) = count f l + count f k.
Proof. unfold count. rewrite bfilter_app, length_app. lia. Qed.

Lemma count_perm l k : l ≡ₚ k → count f l = count f k.
Proof. intros H. unfold count. by rewrite (Permutation_length (bfilter_Permutation f _ _ H)). Qed.

Lemma count_nonneg l : 0 <= count f l.
Proof. unfold count. lia. Qed.

Lemma count_zero l : count f l = 0 ↔ ∀ x, x ∈ l → f x = false.
Proof. unfold count. rewrite <- bfilter_nil. split; [|by intros ->]. intros H. apply length_zero_iff_nil. lia. Qed.
End count.

#[export] Hint Rewrite @count_nil @count_cons @count_app : go.

Lemma count_ext {A} (f g : A → bool) l : (∀ x, x ∈ l → f x = g x) → count f l = count g l.
Proof. intros H. unfold count. by rewrite (bfilter_ext f g). Qed.

Lemma count_le {A} (f g : A → bool) l : (∀ x, f x = true → g x = true) → count f l <= count g l.
Proof.
  intros H. induction l as [|x l IH]; [done|]. rewrite !count_cons.
  specialize (H x). destruct (f x); [rewrite H by done|destruct (g x)]; lia.
Qed.

(** A law that every goroutine's writes obey separately, as an equation between counts, holds for the run. *)
Lemma count_concat_eq {A} (f g : A → bool) (ls : list (list A)) :
  (∀ l, l ∈ ls → count f l = count g l) → count f (concat ls) = count g (concat ls).
Proof.
  induction ls as [|l ls IH]; intros H; [done|]. simpl. rewrite !count_app, (H l) by by left.
  rewrite IH; [done|]. intros l' Hl. apply H. by right.
Qed.

(** The sum of what each element contributes. *)
Definition zsum {A} (f : A → Z) (l : list A) : Z := foldr (λ x n, f x + n) 0 l.

Section zsum.
#[local] Open Scope list_scope.
Context {A : Type}.
Implicit Types f : A → Z.

Lemma zsum_cons f x l : zsum f (x :: l) = f x + zsum f l.
Proof. done. Qed.

Lemma zsum_app f l k : zsum f (l ++ k) = zsum f l + zsum f k.
Proof. induction l as [|x l IH]; simpl; [done|]. rewrite IH. lia. Qed.

Lemma zsum_perm f l k : l ≡ₚ k → zsum f l = zsum f k.
Proof. induction 1; simpl; lia. Qed.

Lemma zsum_concat f ls : zsum f (concat ls) = zsum (zsum f) ls.
Proof. induction ls as [|l ls IH]; simpl; [done|]. by rewrite zsum_app, IH. Qed.

Lemma zsum_ext f g l : (∀ x, x ∈ l → f x = g x) → zsum f l = zsum g l.
Proof.
  induction l as [|x l IH]; intros H; simpl; [done|]. rewrite (H x) by by left.
  rewrite IH; [done|]. intros y Hy. apply H. by right.
Qed.

Lemma zsum_zero f l : (∀ x, x ∈ l → f x = 0) → zsum f l = 0.
Proof. intros H. rewrite (zsum_ext _ (λ _, 0)) by done. clear H. induction l; simpl; lia. Qed.

Lemma zsum_fmap {B} (g : B → A) f l : zsum f (g <$> l) = zsum (f ∘ g) l.
Proof. induction l as [|x l IH]; [done|]. change (f (g x) + zsum f (g <$> l) = f (g x) + zsum (f ∘ g) l). by rewrite IH. Qed.

Lemma count_zsum (b : A → bool) l : count b l = zsum (λ x, if b x then 1 else 0) l.
Proof. induction l as [|x l IH]; simpl; [done|]. rewrite count_cons, IH. done. Qed.

(** A number to which every write adds its contribution. *)
Lemma foldl_additive {S} (step : S → A → S) (I : S → Prop) (proj : S → Z) (d : A → Z) l s :
  (∀ s o, I s → I (step s o) ∧ proj (step s o) = proj s + d o) → I s →
  I (foldl step s l) ∧ proj (foldl step s l) = proj s + zsum d l.
Proof.
  intros H. revert s. induction l as [|o l IH]; intros s Hs; simpl; [split; [done|lia]|].
  destruct (H s o Hs) as [H1 H2]. destruct (IH _ H1) as [H3 H4]. split; [done|]. lia.
Qed.
End zsum.

(** Sums can be exchanged, and a sum over distinct keys finds each key once. *)
Lemma zsum_add {A} (f g : A → Z) l : zsum (λ x, f x + g x) l = zsum f l + zsum g l.
Proof. induction l as [|x l IH]; simpl; [done|]. rewrite IH. lia. Qed.

Lemma zsum_swap {A B} (f : A → B → Z) l k : zsum (λ x, zsum (f x) k) l = zsum (λ y, zsum (λ x, f x y) l) k.
Proof.
  induction l as [|x l IH]; simpl; [symmetry; by apply zsum_zero|]. rewrite IH, <- zsum_add. by apply zsum_ext.
Qed.

Lemma zsum_key {A} `{EqDecision A} (x : A) (v : Z) l : NoDup l → x ∈ l → zsum (λ y, if decide (x = y) then v else 0) l = v.
Proof.
  induction 1 as [|y l Hy Hl IH]; intros Hx; [by apply not_elem_of_nil in Hx|]. simpl. destruct (decide (x = y)) as [<-|Hne].
  - rewrite zsum_zero; [lia|]. intros z Hz. destruct (decide (x = z)) as [<-|]; [done|done].
  - rewrite IH; [lia|]. apply elem_of_cons in Hx as [->|Hx]; [done|done].
Qed.

Lemma foldl_zsum {A} (f : A → Z) l n : foldl (λ n x, n + f x) n l = n + zsum f l.
Proof. revert n. induction l as [|x l IH]; intros n; simpl; [lia|]. rewrite IH. lia. Qed.

Lemma elem_of_concat {A} (x : A) ls : x ∈ concat ls ↔ ∃ l, x ∈ l ∧ l ∈ ls.
Proof.
  rewrite list_elem_of_In, in_concat. split; intros (l & H1 & H2); exists l; rewrite ?list_elem_of_In in *; tauto.
Qed.
