(* ===== verification/LoadTest.v ===== *)
(** * The load tester

    [scripts/loadtest/main.go]: its configuration, the mix of endpoints and the weighted choice among them,
    latency samples with percentiles, and the workers that send requests and read event streams.  A worker is the
    list of its writes to the shared statistics (see [Harness]); what it draws, what it is answered
    and when it is told to stop are arguments.  JSON decoding is the class [LoadJSON].  The text of
    reports is left out; the numbers in them are [progress] and [snapshotStats]. *)

From S2P Require Import Prelude GoStrings GoFloat Config MemoryStore Url CacheKey Headers SSE Harness.
From Stdlib Require Import Ascii SpecFloat.
#[local] Open Scope string_scope.
#[local] Open Scope Z_scope.

(** ** Configuration *)

Record config := {
  base : string;
  auth : string;
  apiKey : string;
  concurrency : Z;
  sseWorkers : Z;
  duration : Z;
  errorPct : Z;
  requestTimeout : Z;
  reportInterval : Z;
  maxRPS : Z;
}.

(** The flags, with their defaults filled in by [flag.Parse]; times in seconds. *)
Record flags := {
  f_base : string;
  f_auth : string;
  f_apiKey : string;
  f_concurrency : Z;
  f_sseWorkers : Z;
  f_duration : Z;
  f_errorPct : Z;
  f_requestTimeout : Z;
  f_reportInterval : Z;
  f_maxRPS : Z;
}.

(** A variable that is set replaces the flag. *)
Definition env_string (v old : string) : string := if String.eqb v "" then old else v.

(** So does one that holds a number. *)
Definition env_int (v : string) (old : Z) : Z :=
  if String.eqb v "" then old else match Atoi v with Some n => n | None => old end.

Definition env_seconds (v : string) (old : Z) : Z :=
  if String.eqb v "" then old else match Atoi v with Some n => of_seconds n | None => old end.

Definition loadConfig (Getenv : string → string) (f : flags) : config :=
  let v := Getenv "EBEACON_BASE" in
  let b := if String.eqb v "" then f_base f else TrimRight v "/" in
  {| base := TrimRight b "/";
     auth := env_string (Getenv "EBEACON_AUTH") (f_auth f);
     apiKey := env_string (Getenv "EBEACON_API_KEY") (f_apiKey f);
     concurrency := env_int (Getenv "CONCURRENCY") (f_concurrency f);
     sseWorkers := env_int (Getenv "SSE_WORKERS") (f_sseWorkers f);
     duration := env_seconds (Getenv "DURATION") (of_seconds (f_duration f));
     errorPct := env_int (Getenv "ERROR_PCT") (f_errorPct f);
     requestTimeout := env_seconds (Getenv "REQUEST_TIMEOUT") (of_seconds (f_requestTimeout f));
     reportInterval := env_seconds (Getenv "REPORT_INTERVAL") (of_seconds (f_reportInterval f));
     maxRPS := env_int (Getenv "MAX_RPS") (f_maxRPS f) |}.

(** ** Endpoints *)

Inductive method := methodGET | methodPOST | methodHEAD.

#[global] Instance method_eq_dec : EqDecision method.
Proof. solve_decision. Defined.

Definition method_string (m : method) : string :=
  match m with methodGET => "GET" | methodPOST => "POST" | methodHEAD => "HEAD" end.

Definition endpointHeadersByBlockID : string := "/eth/v1/beacon/headers/{block_id}".
Definition endpointBlocksV2ByBlockID : string := "/eth/v2/beacon/blocks/{block_id}".
Definition endpointBlockRootByBlockID : string := "/eth/v1/beacon/blocks/{block_id}/root".
Definition endpointStateValidator : string := "/eth/v1/beacon/states/{state_id}/validators/{validator_id}".
Definition endpointBeaconBlobs : string := "/eth/v1/beacon/blobs/{block_id}".
Definition endpointNodeSyncing : string := "/eth/v1/node/syncing".
Definition endpointHeadersList : string := "/eth/v1/beacon/headers".
Definition endpointConfigSpec : string := "/eth/v1/config/spec".
Definition endpointFinalityCheckpoints : string := "/eth/v1/beacon/states/{state_id}/finality_checkpoints".
Definition endpointRewardsSyncCommittee : string := "/eth/v1/beacon/rewards/sync_committee/{block_id}".
Definition endpointNodeVersion : string := "/eth/v1/node/version".
Definition endpointRewardsBlocks : string := "/eth/v1/beacon/rewards/blocks/{block_id}".
Definition endpointRewardsAttestations : string := "/eth/v1/beacon/rewards/attestations/{epoch}".
Definition endpointBeaconBlobSidecars : string := "/eth/v1/beacon/blob_sidecars/{block_id}".
Definition endpointNodeHealth : string := "/eth/v1/node/health".
Definition endpointPayloadEnvelopes : string := "/eth/v1/beacon/execution_payload_envelopes/{block_id}".
Definition endpointPostStateValidators : string := "POST /eth/v1/beacon/states/{state_id}/validators".
Definition endpointPostAttesterDuties : string := "POST /eth/v1/validator/duties/attester/{epoch}".

(** The request bodies that occur: a list of strings, or an object with one. *)
Inductive payload := PList (l : list string) | PObject (key : string) (l : list string).

Definition DQ : string := String (ascii_of_nat 34) "".

(** [json.Marshal] of these values, for strings without bytes that JSON escapes. *)
Definition quoted (s : string) : string := DQ +:+ s +:+ DQ.
Definition marshal_list (l : list string) : string := "[" +:+ Join (quoted <$> l) "," +:+ "]".
Definition Marshal (p : payload) : string :=
  match p with
  | PList l => marshal_list l
  | PObject k l => "{" +:+ quoted k +:+ ":" +:+ marshal_list l +:+ "}"
  end.

(** [ep_validate] is the number of entries that [validateDataArrayLen] asks for. *)
Record endpoint := {
  ep_name : string;
  ep_method : method;
  ep_path : string;
  ep_body : option payload;
  ep_weight : Z;
  ep_accept : string;
  ep_validate : option Z;
  ep_expect4xx : bool;
}.

Record chainState := {
  headSlot : Z;
  finalizedEpoch : Z;
  finalizedSlot : Z;
  slotsPerEpoch : Z;
  prevEpoch : Z;
}.

Definition chainState_zero : chainState :=
  {| headSlot := 0; finalizedEpoch := 0; finalizedSlot := 0; slotsPerEpoch := 0; prevEpoch := 0 |}.

(** What the tester decodes; [None] is an error of [json.Unmarshal]. *)
Class LoadJSON := {
  json_finalized_epoch : string → option string;
  json_head_slot : string → option string;
  json_slots_per_epoch : string → option string;
  json_data_len : string → option Z;
}.

Definition get (name path : string) (weight : Z) : endpoint :=
  {| ep_name := name; ep_method := methodGET; ep_path := path; ep_body := None; ep_weight := weight; ep_accept := "";
     ep_validate := None; ep_expect4xx := false |}.

(** A miss is a normal answer. *)
Definition get_miss (name path : string) (weight : Z) : endpoint :=
  {| ep_name := name; ep_method := methodGET; ep_path := path; ep_body := None; ep_weight := weight; ep_accept := "";
     ep_validate := None; ep_expect4xx := true |}.

Definition post (name path : string) (body : payload) (weight n : Z) : endpoint :=
  {| ep_name := name; ep_method := methodPOST; ep_path := path; ep_body := Some body; ep_weight := weight; ep_accept := "";
     ep_validate := Some n; ep_expect4xx := false |}.

Definition buildEndpoints (cs : chainState) : list endpoint :=
  let finalizedSlot := FormatUint (finalizedSlot cs) in
  let prevEpoch := FormatUint (prevEpoch cs) in
  let slotsPerEpoch := if slotsPerEpoch cs =? 0 then 32 else slotsPerEpoch cs in
  [ get endpointHeadersByBlockID "/eth/v1/beacon/headers/head" 20;
    get endpointHeadersByBlockID "/eth/v1/beacon/headers/finalized" 6;
    get endpointHeadersByBlockID ("/eth/v1/beacon/headers/" +:+ finalizedSlot) 6;
    get endpointBlocksV2ByBlockID "/eth/v2/beacon/blocks/head" 14;
    get endpointBlocksV2ByBlockID "/eth/v2/beacon/blocks/finalized" 4;
    get endpointBlocksV2ByBlockID ("/eth/v2/beacon/blocks/" +:+ finalizedSlot) 4;
    get endpointBlockRootByBlockID "/eth/v1/beacon/blocks/head/root" 8;
    get endpointBlockRootByBlockID "/eth/v1/beacon/blocks/finalized/root" 2;
    get endpointBlockRootByBlockID ("/eth/v1/beacon/blocks/" +:+ finalizedSlot +:+ "/root") 2;
    get endpointStateValidator "/eth/v1/beacon/states/head/validators/1" 3;
    get endpointStateValidator "/eth/v1/beacon/states/finalized/validators/1" 2;
    get endpointStateValidator ("/eth/v1/beacon/states/" +:+ finalizedSlot +:+ "/validators/1") 1;
    get endpointBeaconBlobs "/eth/v1/beacon/blobs/head" 2;
    get endpointBeaconBlobs "/eth/v1/beacon/blobs/finalized" 1;
    get endpointBeaconBlobs ("/eth/v1/beacon/blobs/" +:+ finalizedSlot) 1;
    get endpointNodeSyncing "/eth/v1/node/syncing" 3;
    get endpointHeadersList "/eth/v1/beacon/headers" 2;
    get endpointConfigSpec "/eth/v1/config/spec" 1;
    get endpointFinalityCheckpoints "/eth/v1/beacon/states/head/finality_checkpoints" 1;
    get endpointRewardsSyncCommittee ("/eth/v1/beacon/rewards/sync_committee/" +:+ finalizedSlot) 1;
    get endpointNodeVersion "/eth/v1/node/version" 1;
    get endpointRewardsBlocks ("/eth/v1/beacon/rewards/blocks/" +:+ finalizedSlot) 1;
    get endpointRewardsAttestations ("/eth/v1/beacon/rewards/attestations/" +:+ prevEpoch) 1;
    get endpointBeaconBlobSidecars ("/eth/v1/beacon/blob_sidecars/" +:+ finalizedSlot) 1;
    get endpointNodeHealth "/eth/v1/node/health" 1;
    get_miss endpointPayloadEnvelopes "/eth/v1/beacon/execution_payload_envelopes/head" 2;
    get_miss endpointPayloadEnvelopes "/eth/v1/beacon/execution_payload_envelopes/finalized" 1;
    get_miss endpointPayloadEnvelopes ("/eth/v1/beacon/execution_payload_envelopes/" +:+ finalizedSlot) 1;
    post endpointPostStateValidators "/eth/v1/beacon/states/head/validators" (PObject "ids" ["1"; "2"; "3"]) 2 3;
    post endpointPostAttesterDuties ("/eth/v1/validator/duties/attester/" +:+ FormatUint (headSlot cs / slotsPerEpoch)) (PList ["1"; "2"]) 1 2 ].

Definition sseTopics : list string := ["head"; "finalized_checkpoint"; "chain_reorg"; "block"].

(** ** Latencies *)

Record latHist := { lh_total : Z; lh_sum : float64; lh_samples : list float64 }.

Definition latHist_zero : latHist := {| lh_total := 0; lh_sum := f64_zero; lh_samples := [] |}.

Definition reservoir : nat := Z.to_nat 50000.

(** [g] is the source of the draw that a full reservoir makes. *)
Definition observe (g : Z) (ms : float64) (h : latHist) : latHist :=
  let total := lh_total h + 1 in
  let samples :=
    if (length (lh_samples h) <? reservoir)%nat then (lh_samples h ++ [ms])%list
    else
      match Intn g total with
      | Some idx => if idx <? Z.of_nat (length (lh_samples h)) then <[Z.to_nat idx := ms]> (lh_samples h) else lh_samples h
      | None => lh_samples h
      end in
  {| lh_total := total; lh_sum := f64_add (lh_sum h) ms; lh_samples := samples |}.

(** The order of [sort.Float64s]. *)
Definition float_less (x y : float64) : bool := f64_ltb x y || (f64_is_nan x && negb (f64_is_nan y)).

(** The index of a percentile among [n] sorted samples. *)
Definition rank (p : float64) (n : nat) : nat :=
  let idx := f64_ceil_int (f64_mul (f64_div p (f64_of_Z 100)) (f64_of_Z (Z.of_nat n))) - 1 in
  let idx := if idx <? 0 then 0 else idx in
  Z.to_nat (if Z.of_nat n <=? idx then Z.of_nat n - 1 else idx).

Definition percentile (p : float64) (h : latHist) : float64 :=
  match lh_samples h with
  | [] => f64_zero
  | _ =>
      let sorted := stable_sort float_less (lh_samples h) in
      default f64_zero (sorted !! rank p (length sorted))
  end.

Definition mean (h : latHist) : float64 :=
  if lh_total h =? 0 then f64_zero else f64_div (lh_sum h) (f64_of_Z (lh_total h)).

(** ** Statistics *)

Record stats := { st_total : Z; st_errors : Z; st_status4xx : Z; st_vfails : Z; st_lat : latHist }.

Definition stats_zero : stats := {| st_total := 0; st_errors := 0; st_status4xx := 0; st_vfails := 0; st_lat := latHist_zero |}.

Record sseStats := {
  ss_connects : Z;
  ss_reconnects : Z;
  ss_eventsTotal : Z;
  ss_byTopic : gmap string Z;
  ss_errors : Z;
  ss_activeWorkers : Z;
}.

Definition newSSEStats : sseStats :=
  {| ss_connects := 0; ss_reconnects := 0; ss_eventsTotal := 0; ss_byTopic := ∅; ss_errors := 0; ss_activeWorkers := 0 |}.

Definition addEvent (topic : string) (s : sseStats) : sseStats :=
  {| ss_connects := ss_connects s; ss_reconnects := ss_reconnects s; ss_eventsTotal := ss_eventsTotal s + 1;
     ss_byTopic := <[topic := default 0 (ss_byTopic s !! topic) + 1]> (ss_byTopic s);
     ss_errors := ss_errors s; ss_activeWorkers := ss_activeWorkers s |}.

(** The atomic writes of the workers, and the state they write to. *)
Inductive op :=
  | OEnsure (name : string)
  | OTotal (name : string)
  | OError (name : string)
  | O4xx (name : string)
  | OVfail (name : string)
  | OObserve (name : string) (g : Z) (ms : float64)
  | SConnect | SReconnect | SError
  | SEvent (topic : string)
  | SActive (d : Z).

Record load := { statMap : gmap string stats; ss : sseStats }.

Definition on_stats (name : string) (f : stats → stats) (s : load) : load :=
  {| statMap := alter f name (statMap s); ss := ss s |}.

Definition on_sse (f : sseStats → sseStats) (s : load) : load := {| statMap := statMap s; ss := f (ss s) |}.

Definition run_op (s : load) (o : op) : load :=
  match o with
  | OEnsure name =>
      match statMap s !! name with
      | Some _ => s
      | None => {| statMap := <[name := stats_zero]> (statMap s); ss := ss s |}
      end
  | OTotal name => on_stats name (λ t, {| st_total := st_total t + 1; st_errors := st_errors t; st_status4xx := st_status4xx t;
                                          st_vfails := st_vfails t; st_lat := st_lat t |}) s
  | OError name => on_stats name (λ t, {| st_total := st_total t; st_errors := st_errors t + 1; st_status4xx := st_status4xx t;
                                          st_vfails := st_vfails t; st_lat := st_lat t |}) s
  | O4xx name => on_stats name (λ t, {| st_total := st_total t; st_errors := st_errors t; st_status4xx := st_status4xx t + 1;
                                        st_vfails := st_vfails t; st_lat := st_lat t |}) s
  | OVfail name => on_stats name (λ t, {| st_total := st_total t; st_errors := st_errors t; st_status4xx := st_status4xx t;
                                          st_vfails := st_vfails t + 1; st_lat := st_lat t |}) s
  | OObserve name g ms => on_stats name (λ t, {| st_total := st_total t; st_errors := st_errors t; st_status4xx := st_status4xx t;
                                                 st_vfails := st_vfails t; st_lat := observe g ms (st_lat t) |}) s
  | SConnect => on_sse (λ t, {| ss_connects := ss_connects t + 1; ss_reconnects := ss_reconnects t; ss_eventsTotal := ss_eventsTotal t;
                                ss_byTopic := ss_byTopic t; ss_errors := ss_errors t; ss_activeWorkers := ss_activeWorkers t |}) s
  | SReconnect => on_sse (λ t, {| ss_connects := ss_connects t; ss_reconnects := ss_reconnects t + 1; ss_eventsTotal := ss_eventsTotal t;
                                  ss_byTopic := ss_byTopic t; ss_errors := ss_errors t; ss_activeWorkers := ss_activeWorkers t |}) s
  | SError => on_sse (λ t, {| ss_connects := ss_connects t; ss_reconnects := ss_reconnects t; ss_eventsTotal := ss_eventsTotal t;
                              ss_byTopic := ss_byTopic t; ss_errors := ss_errors t + 1; ss_activeWorkers := ss_activeWorkers t |}) s
  | SEvent topic => on_sse (addEvent topic) s
  | SActive d => on_sse (λ t, {| ss_connects := ss_connects t; ss_reconnects := ss_reconnects t; ss_eventsTotal := ss_eventsTotal t;
                                 ss_byTopic := ss_byTopic t; ss_errors := ss_errors t; ss_activeWorkers := ss_activeWorkers t + d |}) s
  end.

Definition run (l : list op) (s : load) : load := foldl run_op s l.

(** ** The weighted choice *)

Record weightedEndpoints := { we_eps : list endpoint; we_weights : list Z; we_total : Z }.

Definition weight_of (e : endpoint) : Z := if ep_weight e <=? 0 then 1 else ep_weight e.

Definition buildWeighted (eps : list endpoint) : weightedEndpoints :=
  foldl (λ w e, {| we_eps := we_eps w; we_weights := (we_weights w ++ [weight_of e])%list; we_total := we_total w + weight_of e |})
    {| we_eps := eps; we_weights := []; we_total := 0 |} eps.

(** The first index at which the running sum exceeds [r]. *)
Fixpoint pick_index (weights : list Z) (r cum : Z) (i : nat) : option nat :=
  match weights with
  | [] => None
  | wt :: weights => if r <? cum + wt then Some i else pick_index weights r (cum + wt) (S i)
  end.

(** [None] is a panic. *)
Definition pick (g : Z) (w : weightedEndpoints) : option endpoint :=
  match Intn g (we_total w) with
  | None => None
  | Some r =>
      match pick_index (we_weights w) r 0 0 with
      | Some i => we_eps w !! i
      | None => last (we_eps w)
      end
  end.

Section driver.
Context `{LJ : LoadJSON}.
(** [http.NewRequestWithContext] accepts this method and URL. *)
Context (NewRequest_ok : string → string → bool).

(** ** The state of the chain *)

(** The closure [doGet]: the request and, for a reply, the body it returns. *)
Definition get_request (cfg : config) (path : string) : option Outbound :=
  if NewRequest_ok "GET" (base cfg +:+ path) then
    Some {| out_Method := "GET"; out_URL := base cfg +:+ path;
            out_Header := set_credentials (auth cfg) (apiKey cfg) (hdr_set "Accept" "application/json" ∅); out_Body := None |}
  else None.

Definition doGet (cfg : config) (path : string) (reply : client_reply) : option string :=
  match get_request cfg path with
  | None => None
  | Some _ =>
      match reply with
      | CErr => None
      | CResp status _ body => if status =? 200 then ReadAll body else None
      end
  end.

(** The three replies are those of finality checkpoints, sync status and specification. *)
Definition fetchChainState (cfg : config) (r1 r2 r3 : client_reply) : string + chainState :=
  match doGet cfg "/eth/v1/beacon/states/head/finality_checkpoints" r1 with
  | None => inl "finality_checkpoints"
  | Some body =>
  match json_finalized_epoch body with
  | None => inl "parse finality_checkpoints"
  | Some epoch =>
  match ParseUint epoch with
  | None => inl "parse finalized epoch"
  | Some finalizedEpoch =>
  match doGet cfg "/eth/v1/node/syncing" r2 with
  | None => inl "node/syncing"
  | Some body =>
  match json_head_slot body with
  | None => inl "parse syncing"
  | Some slot =>
  match ParseUint slot with
  | None => inl "parse head_slot"
  | Some headSlot =>
  match doGet cfg "/eth/v1/config/spec" r3 with
  | None => inl "config/spec"
  | Some body =>
  match json_slots_per_epoch body with
  | None => inl "parse config/spec"
  | Some spe =>
  match ParseUint spe with
  | None => inl "parse SLOTS_PER_EPOCH"
  | Some slotsPerEpoch =>
      if slotsPerEpoch =? 0 then inl "SLOTS_PER_EPOCH is 0"
      else
        inr {| headSlot := headSlot; finalizedEpoch := finalizedEpoch; finalizedSlot := wrap64 (finalizedEpoch * slotsPerEpoch);
               slotsPerEpoch := slotsPerEpoch; prevEpoch := if 1 <? finalizedEpoch then finalizedEpoch - 1 else finalizedEpoch |}
  end end end end end end end end end.

(** Whether a response is what [validateDataArrayLen n] asks for. *)
Definition validateDataArrayLen (n status : Z) (body : string) : bool :=
  if negb (status =? 200) then false
  else match json_data_len body with None => false | Some k => k =? n end.

(** ** HTTP workers *)

(** [coin] is the source of the choice between encodings. *)
Definition buildRequest (cfg : config) (coin : Z) (ep : endpoint) : option Outbound :=
  let url := base cfg +:+ ep_path ep in
  let m := method_string (ep_method ep) in
  if NewRequest_ok m url then
    let h := if bool_decide (is_Some (ep_body ep)) then hdr_set "Content-Type" "application/json" ∅ else ∅ in
    let h := hdr_set "Accept" (if String.eqb (ep_accept ep) "" then "application/json" else ep_accept ep) h in
    let h :=
      if bool_decide (ep_method ep = methodGET) || bool_decide (ep_method ep = methodHEAD) then
        hdr_set "Accept-Encoding" (if coin mod 2 =? 0 then "gzip" else "identity") h
      else h in
    Some {| out_Method := m; out_URL := url; out_Header := set_credentials (auth cfg) (apiKey cfg) h; out_Body := Marshal <$> ep_body ep |}
  else None.

(** One round of a worker: whether it is told to stop, whether the limiter lets it go on, its draws, the reply and how
    long it took. *)
Record round := {
  r_stop : bool;
  r_wait : bool;
  r_pick : Z;
  r_error : Z;
  r_miss : Z;
  r_coin : Z;
  r_reply : client_reply;
  r_elapsed : Z;
  r_sample : Z;
}.

Definition error_endpoint (wid miss : Z) : endpoint :=
  get_miss "_error_path" ("/eth/v1/node/version/ebeacon-loadtest-miss-" +:+ FormatInt wid +:+ "-" +:+ FormatInt miss) 1.

(** The endpoint of a round; [None] is a panic of the weighted choice. *)
Definition choose (cfg : config) (w : weightedEndpoints) (wid : Z) (r : round) : option endpoint :=
  match pick (r_pick r) w with
  | None => None
  | Some ep => Some (if r_error r mod 100 <? errorPct cfg then error_endpoint wid (r_miss r) else ep)
  end.

(** Milliseconds, as the worker computes them. *)
Definition elapsed_ms (d : Z) : float64 := f64_mul (Seconds d) (f64_of_Z 1000).

(** The body that [validate] sees is what could be read of it. *)
Definition classify (ep : endpoint) (status : Z) (body : reader) : list op :=
  ((if 500 <=? status then [OError (ep_name ep)]
    else if (400 <=? status) && negb (ep_expect4xx ep) then [O4xx (ep_name ep)] else [])
   ++ match ep_validate ep with
      | None => []
      | Some n => if validateDataArrayLen n status (rd_rest body) then [] else [OVfail (ep_name ep); OError (ep_name ep)]
      end)%list.

Definition record_request (cfg : config) (ep : endpoint) (r : round) : list op :=
  match buildRequest cfg (r_coin r) ep with
  | None => [OError (ep_name ep); OTotal (ep_name ep)]
  | Some _ =>
      OTotal (ep_name ep) ::
      match r_reply r with
      | CErr => [OError (ep_name ep)]
      | CResp status _ body => (classify ep status body ++ [OObserve (ep_name ep) (r_sample r) (elapsed_ms (r_elapsed r))])%list
      end
  end.

(** A worker runs through its rounds until it is stopped; [limited] if there is a limiter.  It ends with a panic
    ([true]) or not. *)
Fixpoint httpWorker (cfg : config) (w : weightedEndpoints) (limited : bool) (wid : Z) (rounds : list round) : list op * bool :=
  match rounds with
  | [] => ([], false)
  | r :: rounds =>
      if r_stop r then ([], false)
      else if limited && negb (r_wait r) then ([], false)
      else
        match choose cfg w wid r with
        | None => ([], true)
        | Some ep =>
            let '(ops, panics) := httpWorker cfg w limited wid rounds in
            (OEnsure (ep_name ep) :: (record_request cfg ep r ++ ops)%list, panics)
        end
  end.

(** ** Stream workers *)

(** One connection: whether the worker has been told to stop before it, after a failed request, before each line, after
    the stream and while it waits. *)
Record connection := {
  c_stop : bool;
  c_reply : client_reply;
  c_stopErr : bool;
  c_stopLine : list bool;
  c_stopEnd : bool;
  c_stopWait : bool;
}.

Definition sse_request (cfg : config) (topic : string) : option Outbound :=
  let url := base cfg +:+ "/eth/v1/events?topics=" +:+ topic in
  if NewRequest_ok "GET" url then
    Some {| out_Method := "GET"; out_URL := url;
            out_Header := set_credentials (auth cfg) (apiKey cfg)
              (hdr_set "Cache-Control" "no-cache" (hdr_set "Accept" "text/event-stream" ∅));
            out_Body := None |}
  else None.

(** The scanned lines, up to the one before which the worker has been told to stop. *)
Fixpoint count_lines (topic : string) (stops : list bool) (lines : list string) : list op * bool :=
  match lines with
  | [] => ([], false)
  | line :: lines =>
      if default false (head stops) then ([], true)
      else
        let '(ops, stopped) := count_lines topic (tail stops) lines in
        ((if HasPrefix line "data:" then [SEvent topic] else []) ++ ops, stopped)%list
  end.

Definition sse_connection (cfg : config) (topic : string) (c : connection) : list op :=
  SConnect ::
  match sse_request cfg topic with
  | None => [SError]
  | Some _ =>
      match c_reply c with
      | CErr => if c_stopErr c then [] else [SError]
      | CResp status _ body =>
          if negb (status =? 200) then [SError]
          else
            let '(ops, stopped) := count_lines topic (c_stopLine c) (Scan (2 ^ 20) body).1 in
            if stopped || c_stopEnd c then ops else (ops ++ [SReconnect])%list
      end
  end.

Fixpoint sse_loop (cfg : config) (topic : string) (cs : list connection) : list op :=
  match cs with
  | [] => []
  | c :: cs =>
      if c_stop c then []
      else (sse_connection cfg topic c ++ if c_stopWait c then [] else sse_loop cfg topic cs)%list
  end.

Definition sseWorker (cfg : config) (topic : string) (cs : list connection) : list op :=
  (SActive 1 :: sse_loop cfg topic cs ++ [SActive (-1)])%list.

(** ** Reports *)

Record snapshot := {
  sn_name : string;
  sn_total : Z;
  sn_errors : Z;
  sn_status4xx : Z;
  sn_vfails : Z;
  sn_p50 : float64;
  sn_p95 : float64;
  sn_p99 : float64;
  sn_mean : float64;
}.

Definition snapshot_of (x : string * stats) : snapshot :=
  let '(name, st) := x in
  {| sn_name := name; sn_total := st_total st; sn_errors := st_errors st; sn_status4xx := st_status4xx st; sn_vfails := st_vfails st;
     sn_p50 := percentile (f64_of_Z 50) (st_lat st); sn_p95 := percentile (f64_of_Z 95) (st_lat st);
     sn_p99 := percentile (f64_of_Z 99) (st_lat st); sn_mean := mean (st_lat st) |}.

(** [iterate] is the order in which the map of statistics is gone through. *)
Definition snapshotStats (iterate : gmap string stats → list (string * stats)) (s : load) : list snapshot :=
  stable_sort (λ a b, String.ltb (sn_name a) (sn_name b)) (snapshot_of <$> iterate (statMap s)).

(** The line that [printProgress] prints, and the head of the final report. *)
Record progress := { pr_reqs : Z; pr_errs : Z; pr_rps : float64; pr_errRate : float64 }.

Definition printProgress (iterate : gmap string stats → list (string * stats)) (elapsed : Z) (s : load) : progress :=
  let snaps := snapshotStats iterate s in
  let totalReqs := foldl (λ n x, n + sn_total x) 0 snaps in
  let totalErrs := foldl (λ n x, n + sn_errors x) 0 snaps in
  {| pr_reqs := totalReqs; pr_errs := totalErrs; pr_rps := f64_div (f64_of_Z totalReqs) (Seconds elapsed);
     pr_errRate := if 0 <? totalReqs then f64_mul (f64_div (f64_of_Z totalErrs) (f64_of_Z totalReqs)) (f64_of_Z 100) else f64_zero |}.

(** The mark at the end of an endpoint's row. *)
Definition errMark (x : snapshot) : bool := (0 <? sn_errors x) || (0 <? sn_status4xx x).

(** The numbers of the final report: the totals, a marked row per endpoint, and the events by topic. *)
Record final_report := { fr_totals : progress; fr_rows : list (snapshot * bool); fr_topics : list (string * Z) }.

Definition printFinalReport (iterate : gmap string stats → list (string * stats)) (iterate_topics : gmap string Z → list (string * Z))
    (elapsed : Z) (s : load) : final_report :=
  {| fr_totals := printProgress iterate elapsed s;
     fr_rows := (λ x, (x, errMark x)) <$> snapshotStats iterate s;
     fr_topics := stable_sort (λ a b, String.ltb a.1 b.1) (iterate_topics (ss_byTopic (ss s))) |}.

(** ** The run *)

(** The rate and the burst of the limiter. *)
Definition limiter_of (cfg : config) : option (Z * Z) :=
  if 0 <? maxRPS cfg then
    Some (maxRPS cfg, if maxRPS cfg <? concurrency cfg then maxRPS cfg else concurrency cfg)
  else None.

Definition initial (eps : list endpoint) : load :=
  {| statMap := <["_error_path" := stats_zero]> (foldl (λ m ep, <[ep_name ep := stats_zero]> m) ∅ eps); ss := newSSEStats |}.

(** The endpoints of a run: without the state of the chain the zero values are used. *)
Definition endpoints_of (cs : string + chainState) : list endpoint :=
  buildEndpoints (match cs with inl _ => chainState_zero | inr cs => cs end).

(** [for i := range n] *)
Definition indices (n : Z) : list Z := seqZ 0 n.

Definition http_workers (cfg : config) (eps : list endpoint) (rounds : Z → list round) : list (list op * bool) :=
  (λ i, httpWorker cfg (buildWeighted eps) (bool_decide (is_Some (limiter_of cfg))) i (rounds i)) <$> indices (concurrency cfg).

Definition sse_workers (cfg : config) (conns : Z → list connection) : list (list op) :=
  (λ i, sseWorker cfg (default "" (sseTopics !! Z.to_nat (i mod 4))) (conns i)) <$> indices (sseWorkers cfg).

(** The final report of [main] on a run [l], an interleaving of the workers; [None] is a panic, of a worker or of
    the ticker. *)
Definition main_report (cfg : config) (cs : string + chainState) (rounds : Z → list round) (l : list op) : option load :=
  if reportInterval cfg <=? 0 then None
  else if existsb snd (http_workers cfg (endpoints_of cs) rounds) then None
  else Some (run l (initial (endpoints_of cs))).

End driver.
