(* ===== verification/LoadTestSafety.v ===== *)
(** * The load tester: its report

    For [LoadTest]: the weighted choice by intervals ([pick_interval]), samples and percentiles ([percentile_rank]), and
    the accounting of every request by every interleaving of the workers ([loadtest_accounting]). *)

From S2P Require Import Prelude GoStrings GoFloat Config MemoryStore Url CacheKey Headers SSE Harness LoadTest.
From Stdlib Require Import Ascii SpecFloat.
#[local] Open Scope string_scope.
#[local] Open Scope Z_scope.

(** ** The weighted choice: lemmas *)

Definition wsum (eps : list endpoint) : Z := zsum weight_of eps.

Lemma weight_of_pos e : 1 <= weight_of e.
Proof. unfold weight_of. destruct (Z.leb_spec (ep_weight e) 0); lia. Qed.

Lemma wsum_nonneg eps : 0 <= wsum eps.
Proof. unfold wsum. induction eps as [|e eps IH]; simpl; [done|]. pose proof (weight_of_pos e). lia. Qed.

Lemma buildWeighted_from all eps pre n :
  foldl (λ w e, {| we_eps := we_eps w; we_weights := (we_weights w ++ [weight_of e])%list; we_total := we_total w + weight_of e |})
    {| we_eps := all; we_weights := pre; we_total := n |} eps =
  {| we_eps := all; we_weights := (pre ++ (weight_of <$> eps))%list; we_total := n + wsum eps |}.
Proof.
  unfold wsum. revert pre n. induction eps as [|e eps IH]; intros pre n; simpl; [by rewrite app_nil_r, Z.add_0_r|].
  rewrite IH. simpl. rewrite <- app_assoc. simpl. f_equal. lia.
Qed.

Lemma buildWeighted_eq eps :
  buildWeighted eps = {| we_eps := eps; we_weights := weight_of <$> eps; we_total := wsum eps |}.
Proof. unfold buildWeighted. by rewrite buildWeighted_from. Qed.

Lemma pick_index_interval eps r cum i :
  cum <= r < cum + wsum eps →
  ∃ k ep, pick_index (weight_of <$> eps) r cum i = Some (i + k)%nat ∧ eps !! k = Some ep ∧
    cum + wsum (take k eps) <= r < cum + wsum (take k eps) + weight_of ep.
Proof.
  revert cum i. induction eps as [|e eps IH]; intros cum i Hr; [unfold wsum in Hr; simpl in Hr; lia|].
  change (wsum (e :: eps)) with (weight_of e + wsum eps) in Hr. rewrite fmap_cons. cbn [pick_index]. destruct (Z.ltb_spec r (cum + weight_of e)) as [Hl|Hl].
  - exists 0%nat, e. rewrite Nat.add_0_r. split_and!; [done|done|unfold wsum; simpl; lia..].
  - destruct (IH (cum + weight_of e) (S i)) as (k & ep & E & Hk & Hb); [lia|].
    exists (S k), ep. rewrite E. split_and!; [f_equal; lia|done|..]; simpl;
      change (wsum (e :: take k eps)) with (weight_of e + wsum (take k eps)); lia.
Qed.

(** Every draw picks the endpoint in whose interval of the cumulated weights it falls: each endpoint is picked by exactly as
    many of the [wsum eps] draws as its weight says, and the choice never panics. *)
Lemma pick_interval eps g :
  eps ≠ [] →
  ∃ k ep, pick g (buildWeighted eps) = Some ep ∧ eps !! k = Some ep ∧
    wsum (take k eps) <= g mod wsum eps < wsum (take k eps) + weight_of ep.
Proof.
  intros Hne. assert (0 < wsum eps) as Hpos.
  { destruct eps as [|e eps]; [done|]. unfold wsum. simpl. pose proof (weight_of_pos e).
    pose proof (wsum_nonneg eps). unfold wsum in *. lia. }
  rewrite buildWeighted_eq. unfold pick, Intn. cbn [we_total we_weights we_eps].
  rewrite (proj2 (Z.leb_gt _ _)) by lia.
  destruct (pick_index_interval eps (g mod wsum eps) 0 0) as (k & ep & E & Hk & Hb).
  { pose proof (Z.mod_pos_bound g (wsum eps)). lia. }
  rewrite E. simpl. exists k, ep. split_and!; [done|done|lia..].
Qed.

(** ** Samples: lemmas *)

Definition latHist_ok (h : latHist) : Prop :=
  0 <= lh_total h ∧ Z.of_nat (length (lh_samples h)) = Z.min (lh_total h) (Z.of_nat reservoir).

Lemma reservoir_Z : Z.of_nat reservoir = 50000.
Proof. unfold reservoir. by rewrite Z2Nat.id. Qed.

Lemma observe_ok g ms h : latHist_ok h → latHist_ok (observe g ms h).
Proof.
  unfold latHist_ok. rewrite reservoir_Z. intros [Ht Hl]. unfold observe. cbn [lh_total lh_samples].
  destruct (Nat.ltb_spec (length (lh_samples h)) reservoir) as [Hr|Hr].
  - apply inj_lt in Hr. rewrite reservoir_Z in Hr. rewrite length_app. simpl. lia.
  - apply inj_le in Hr. rewrite reservoir_Z in Hr. unfold Intn. rewrite (proj2 (Z.leb_gt _ _)) by lia.
    destruct (_ <? _); rewrite ?length_insert; lia.
Qed.

(** A sample is one of the latencies that were observed. *)
Lemma observe_sample g ms h x : x ∈ lh_samples (observe g ms h) → x = ms ∨ x ∈ lh_samples h.
Proof.
  unfold observe. cbn [lh_samples]. destruct (_ <? _)%nat.
  - intros [H|H%list_elem_of_singleton]%elem_of_app; auto.
  - destruct (Intn _ _) as [idx|]; [|auto]. destruct (_ <? _); [|auto].
    intros [i Hi]%list_elem_of_lookup. destruct (decide (Z.to_nat idx = i)) as [<-|Hne].
    + destruct (decide (Z.to_nat idx < length (lh_samples h))%nat) as [Hlt|Hge].
      * rewrite list_lookup_insert_eq in Hi by done. injection Hi. auto.
      * rewrite list_insert_ge in Hi by lia. right. by eapply list_elem_of_lookup_2.
    + rewrite list_lookup_insert_ne in Hi by done. right. by eapply list_elem_of_lookup_2.
Qed.

Lemma rank_lt p n : (0 < n)%nat → (rank p n < n)%nat.
Proof.
  intros Hn. unfold rank. set (i := f64_ceil_int _ - 1). clearbody i.
  destruct (Z.ltb_spec i 0); [destruct (Z.leb_spec (Z.of_nat n) 0)|destruct (Z.leb_spec (Z.of_nat n) i)]; lia.
Qed.

Lemma float_less_weak : weak_order float_less.
Proof.
  constructor; unfold float_less.
  - intros x y z [H1 H2]%orb_false_iff [H3 H4]%orb_false_iff.
    destruct (f64_is_nan y) eqn:Ey.
    { destruct y; try discriminate. destruct z; try discriminate. by destruct x as [[]|[]| |[] ??]. }
    rewrite (f64_ltb_false_trans x y z) by (try done; intros ->; done). simpl.
    by destruct x.
  - intros x y [H|[H1 H2]%andb_true_iff]%orb_true_iff.
    + rewrite (f64_ltb_asym _ _ H). simpl. apply f64_ltb_num in H as [Hx Hy]. by destruct y.
    + destruct x; try done. destruct y; try done; by destruct s.
Qed.

Section sorted_rank.
Context {A : Type} (R : A → A → Prop) (b : A → bool).

(** In a sorted list the element at an index is not below those before it, nor above those after it. *)
Lemma sorted_count_before l i x :
  StronglySorted R l → l !! i = Some x → (∀ y, R y x → b y = true) → b x = true → Z.of_nat (S i) <= count b l.
Proof.
  intros Hs. revert i. induction Hs as [|y l _ IH Hy]; intros i Hi Hb Hx; [done|]. rewrite count_cons.
  destruct i as [|i]; simpl in Hi.
  - injection Hi as ->. rewrite Hx. pose proof (count_nonneg b l). lia.
  - rewrite (Hb y); [|rewrite Forall_forall in Hy; apply Hy; by eapply list_elem_of_lookup_2].
    specialize (IH i Hi Hb Hx). lia.
Qed.

Lemma sorted_count_after l i x :
  StronglySorted R l → l !! i = Some x → (∀ y, R x y → b y = true) → b x = true → Z.of_nat (length l - i) <= count b l.
Proof.
  intros Hs. revert i. induction Hs as [|y l Hs IH Hy]; intros i Hi Hb Hx; [done|]. rewrite count_cons.
  destruct i as [|i]; simpl in Hi.
  - injection Hi as ->. rewrite Hx. simpl. clear IH.
    assert (count b l = Z.of_nat (length l)) as ->; [|lia].
    unfold count. rewrite bfilter_all; [done|]. intros z Hz. apply Hb. rewrite Forall_forall in Hy. by apply Hy.
  - specialize (IH i Hi Hb Hx). simpl. destruct (b y); lia.
Qed.
End sorted_rank.

(** A percentile is a sample; with [n] samples, at least [rank + 1] are not above it and at least [n - rank] not below. *)
Lemma percentile_rank p h :
  lh_samples h ≠ [] →
  let n := length (lh_samples h) in let v := percentile p h in
  v ∈ lh_samples h ∧ (rank p n < n)%nat ∧
  Z.of_nat (S (rank p n)) <= count (λ x, negb (float_less v x)) (lh_samples h) ∧
  Z.of_nat (n - rank p n) <= count (λ x, negb (float_less x v)) (lh_samples h).
Proof.
  intros Hne n v. set (sorted := stable_sort float_less (lh_samples h)).
  assert (sorted ≡ₚ lh_samples h) as Hp by apply stable_sort_perm.
  assert (length sorted = n) as Hn by (by rewrite Hp).
  assert (0 < n)%nat as Hpos by (unfold n; destruct (lh_samples h); [done|simpl; lia]).
  pose proof (rank_lt p n Hpos) as Hr.
  destruct (lookup_lt_is_Some_2 sorted (rank p n)) as [x Hx]; [lia|].
  assert (v = x) as ->.
  { unfold v, percentile. destruct (lh_samples h) eqn:E; [done|]. cbv zeta. change (default f64_zero (sorted !! rank p (length sorted)) = x). by rewrite Hn, Hx. }
  destruct float_less_weak as [Ht Ha].
  assert (sorted_by float_less sorted) as Hs by (by apply stable_sort_sorted).
  assert (∀ z, float_less z z = false) as Hirr.
  { intros z. destruct (float_less z z) eqn:E; [|done]. by rewrite (Ha _ _ E) in E. }
  split_and!; [|done|..].
  - rewrite <- Hp. by eapply list_elem_of_lookup_2.
  - rewrite <- (count_perm _ _ _ Hp). eapply sorted_count_before; [exact Hs|done|..]; intros; apply negb_true_iff; auto.
  - rewrite <- Hn at 1. rewrite <- (count_perm _ _ _ Hp). eapply sorted_count_after; [exact Hs|done|..]; intros; apply negb_true_iff; auto.
Qed.

(** ** Accounting: lemmas *)

Section accounting.
Context `{LJ : LoadJSON} (NewRequest_ok : string → string → bool).

(** The requests a worker makes, one per round until it is stopped. *)
Fixpoint attempts (cfg : config) (w : weightedEndpoints) (limited : bool) (wid : Z) (rounds : list round) : list (endpoint * round) :=
  match rounds with
  | [] => []
  | r :: rounds =>
      if r_stop r || (limited && negb (r_wait r)) then []
      else match choose cfg w wid r with None => [] | Some ep => (ep, r) :: attempts cfg w limited wid rounds end
  end.

(** How a request went: the status and body of its response, if there is one. *)
Definition response (cfg : config) (a : endpoint * round) : option (Z * string) :=
  match buildRequest NewRequest_ok cfg (r_coin a.2) a.1, r_reply a.2 with
  | Some _, CResp status _ body => Some (status, rd_rest body)
  | _, _ => None
  end.

Definition answered (cfg : config) (a : endpoint * round) : bool := bool_decide (is_Some (response cfg a)).
(** No response, or a server error. *)
Definition failed (cfg : config) (a : endpoint * round) : bool :=
  match response cfg a with Some (status, _) => 500 <=? status | None => true end.
(** A client error where none is expected. *)
Definition rejected (cfg : config) (a : endpoint * round) : bool :=
  match response cfg a with Some (status, _) => negb (500 <=? status) && (400 <=? status) && negb (ep_expect4xx a.1) | None => false end.
(** A response that is not what was asked for. *)
Definition invalid (cfg : config) (a : endpoint * round) : bool :=
  match response cfg a, ep_validate a.1 with
  | Some (status, body), Some n => negb (validateDataArrayLen n status body)
  | _, _ => false
  end.

Definition named (name : string) (f : endpoint * round → bool) (a : endpoint * round) : Z :=
  if String.eqb (ep_name a.1) name && f a then 1 else 0.

(** What a write adds to the counters of one endpoint. *)
Definition d_total (name : string) (o : op) : Z := match o with OTotal n => if String.eqb n name then 1 else 0 | _ => 0 end.
Definition d_errors (name : string) (o : op) : Z := match o with OError n => if String.eqb n name then 1 else 0 | _ => 0 end.
Definition d_4xx (name : string) (o : op) : Z := match o with O4xx n => if String.eqb n name then 1 else 0 | _ => 0 end.
Definition d_vfails (name : string) (o : op) : Z := match o with OVfail n => if String.eqb n name then 1 else 0 | _ => 0 end.
Definition d_lat (name : string) (o : op) : Z := match o with OObserve n _ _ => if String.eqb n name then 1 else 0 | _ => 0 end.
Definition d_active (o : op) : Z := match o with SActive d => d | _ => 0 end.
Definition d_events (o : op) : Z := match o with SEvent _ => 1 | _ => 0 end.

(** An entry that is there stays there. *)
Definition present (name : string) (s : load) : Prop := ∃ st, statMap s !! name = Some st ∧ latHist_ok (st_lat st).

Definition stat (f : stats → Z) (name : string) (s : load) : Z := f (default stats_zero (statMap s !! name)).

(** The function a write applies to the entry of its endpoint. *)
Definition op_stats (name : string) (o : op) (t : stats) : stats :=
  {| st_total := st_total t + d_total name o; st_errors := st_errors t + d_errors name o; st_status4xx := st_status4xx t + d_4xx name o;
     st_vfails := st_vfails t + d_vfails name o;
     st_lat := match o with OObserve n g ms => if String.eqb n name then observe g ms (st_lat t) else st_lat t | _ => st_lat t end |}.

Lemma run_op_stats name s o st :
  statMap s !! name = Some st → statMap (run_op s o) !! name = Some (op_stats name o st).
Proof.
  intros E.
  assert (∀ n f, statMap (on_stats n f s) !! name = Some (if String.eqb n name then f st else st)) as Hon.
  { intros n f. unfold on_stats. cbn [statMap]. destruct (String.eqb_spec n name) as [->|Hn].
    - by rewrite lookup_alter_eq, E.
    - by rewrite lookup_alter_ne. }
  destruct st as [t e x v h], o as [n|n|n|n|n|n g ms| | | |t'|d]; unfold op_stats, run_op, on_sse;
    cbn [d_total d_errors d_4xx d_vfails statMap st_total st_errors st_status4xx st_vfails st_lat];
    rewrite ?Hon, ?Z.add_0_r; try done; try (destruct (String.eqb n name); rewrite ?Z.add_0_r; done).
  destruct (statMap s !! n) eqn:En; [done|]. cbn [statMap]. rewrite lookup_insert_ne; [done|congruence].
Qed.

Lemma run_stats name l s st :
  statMap s !! name = Some st → latHist_ok (st_lat st) →
  ∃ st', statMap (run l s) !! name = Some st' ∧ latHist_ok (st_lat st') ∧
    st_total st' = st_total st + zsum (d_total name) l ∧ st_errors st' = st_errors st + zsum (d_errors name) l ∧
    st_status4xx st' = st_status4xx st + zsum (d_4xx name) l ∧ st_vfails st' = st_vfails st + zsum (d_vfails name) l ∧
    lh_total (st_lat st') = lh_total (st_lat st) + zsum (d_lat name) l.
Proof.
  revert s st. induction l as [|o l IH]; intros s st E Hl.
  { exists st. cbn. split_and!; try done; lia. }
  pose proof (run_op_stats name s o st E) as E'.
  destruct (IH _ _ E') as (st' & H1 & H2 & H3 & H4 & H5 & H6 & H7).
  { unfold op_stats. cbn [st_lat]. destruct o; try done. destruct (String.eqb _ _); [by apply observe_ok|done]. }
  exists st'. cbn [run foldl zsum foldr]. fold (run l (run_op s o)). rewrite H1. split; [done|]. split; [done|].
  rewrite H3, H4, H5, H6, H7. unfold op_stats. cbn [st_total st_errors st_status4xx st_vfails st_lat]. unfold zsum.
  split_and!; try lia. destruct o; cbn [d_lat]; try lia. destruct (String.eqb _ _); cbn [lh_total observe]; lia.
Qed.

(** Writes to entries that exist create none. *)
Lemma run_dom l s : (∀ n, OEnsure n ∈ l → n ∈ dom (statMap s)) → dom (statMap (run l s)) = dom (statMap s).
Proof.
  revert s. induction l as [|o l IH]; intros s H; [done|]. cbn [run foldl]. fold (run l (run_op s o)).
  assert (dom (statMap (run_op s o)) = dom (statMap s)) as E.
  { destruct o; unfold run_op, on_stats, on_sse; cbn [statMap]; rewrite ?dom_alter_L; try done.
    destruct (statMap s !! name) eqn:E; [done|]. apply not_elem_of_dom in E. destruct E. apply H. by left. }
  rewrite IH, E; [done|]. intros n Hn. rewrite E. apply H. by right.
Qed.

(** *** A request is recorded as what it was *)

Definition tally (cfg : config) (name : string) (l : list op) (a : list (endpoint * round)) : Prop :=
  zsum (d_total name) l = zsum (named name (λ _, true)) a ∧
  zsum (d_errors name) l = zsum (named name (failed cfg)) a + zsum (named name (invalid cfg)) a ∧
  zsum (d_4xx name) l = zsum (named name (rejected cfg)) a ∧
  zsum (d_vfails name) l = zsum (named name (invalid cfg)) a ∧
  zsum (d_lat name) l = zsum (named name (answered cfg)) a.

Lemma tally_app cfg name l k a b : tally cfg name l a → tally cfg name k b → tally cfg name (l ++ k)%list (a ++ b)%list.
Proof. unfold tally. rewrite !zsum_app. intros (?&?&?&?&?) (?&?&?&?&?). split_and!; lia. Qed.

Lemma tally_request cfg name ep r : tally cfg name (record_request NewRequest_ok cfg ep r) [(ep, r)].
Proof.
  unfold tally, record_request, named, failed, rejected, invalid, answered, response. cbn [zsum foldr fst snd].
  destruct (buildRequest _ _ _ _); [destruct (r_reply r) as [|status hd body]|]; cbn [zsum foldr];
    cbn [d_total d_errors d_4xx d_vfails d_lat]; try (destruct (String.eqb _ _); cbn; lia).
  unfold classify.
  destruct (500 <=? status), (400 <=? status), (ep_expect4xx ep), (ep_validate ep) as [n|]; try destruct (validateDataArrayLen _ _ _);
    cbn; destruct (String.eqb _ _); cbn; lia.
Qed.

Lemma httpWorker_tally cfg w limited wid rounds name :
  tally cfg name (httpWorker NewRequest_ok cfg w limited wid rounds).1 (attempts cfg w limited wid rounds).
Proof.
  induction rounds as [|r rounds IH]; [by split_and!|]. cbn [httpWorker attempts].
  destruct (r_stop r); [by split_and!|]. cbn [orb]. destruct (limited && negb (r_wait r)); [by split_and!|].
  destruct (choose cfg w wid r) as [ep|]; [|by split_and!].
  destruct (httpWorker _ _ _ _ _ _) as [ops panics]. cbn [fst] in *.
  change (OEnsure ?n :: ?l) with ([OEnsure n] ++ l)%list. apply (tally_app _ _ [OEnsure (ep_name ep)] _ []); [by split_and!|].
  apply (tally_app _ _ _ _ [(ep, r)]); [apply tally_request|done].
Qed.

(** *** Stream workers *)

Definition is_sse (o : op) : bool := match o with SConnect | SReconnect | SError | SEvent _ | SActive _ => true | _ => false end.

Definition d_connects (o : op) : Z := match o with SConnect => 1 | _ => 0 end.
Definition d_ended (o : op) : Z := match o with SReconnect | SError => 1 | _ => 0 end.

(** The writes of a stream worker, without the two around them: streams only, each connection ending at most once. *)
Definition streams (l : list op) : Prop :=
  (∀ o, o ∈ l → is_sse o = true) ∧ zsum d_active l = 0 ∧ zsum d_ended l <= zsum d_connects l.

Lemma streams_app l k : streams l → streams k → streams (l ++ k)%list.
Proof.
  intros (H1 & H2 & H3) (K1 & K2 & K3). unfold streams. rewrite !zsum_app. split; [|lia].
  intros o [?|?]%elem_of_app; auto.
Qed.

Lemma count_lines_streams topic stops lines :
  let l := (count_lines topic stops lines).1 in streams l ∧ zsum d_ended l = 0.
Proof.
  cbv zeta. revert stops. induction lines as [|line lines IH]; intros stops; cbn [count_lines].
  { split; [|done]. split_and!; [|done..]. by intros o ?%not_elem_of_nil. }
  destruct (default false (head stops)); [split; [|done]; split_and!; [|done..]; by intros o ?%not_elem_of_nil|].
  destruct (IH (tail stops)) as [H1 H2]. destruct (count_lines topic (tail stops) lines) as [ops stopped]. cbn [fst] in *.
  destruct (HasPrefix line "data:"); [|done]. split; [|done].
  apply streams_app; [|done]. split_and!; [|done..]. by intros o ->%list_elem_of_singleton.
Qed.

Lemma sse_connection_streams cfg topic c : streams (sse_connection NewRequest_ok cfg topic c).
Proof.
  assert (∀ l, (∀ o, o ∈ l → is_sse o = true) → zsum d_active l = 0 → zsum d_ended l <= 1 + zsum d_connects l → streams (SConnect :: l)) as Hc.
  { intros l H1 H2 H3. split_and!; [|done|done]. intros o [->|?]%elem_of_cons; auto. }
  unfold sse_connection. destruct (sse_request _ _ _); [destruct (c_reply c) as [|status hd body]; [destruct (c_stopErr c)|destruct (negb _)]|];
    try (apply Hc; [|done|cbn; lia]; intros o' Ho; repeat (apply elem_of_cons in Ho as [->|Ho]; [done|]); by apply not_elem_of_nil in Ho).
  destruct (count_lines_streams topic (c_stopLine c) (Scan (2 ^ 20) body).1) as [(H1 & H2 & H3) H4].
  destruct (count_lines _ _ _) as [ops stopped]. cbn [fst] in *. destruct (stopped || c_stopEnd c).
  - apply Hc; [done..|]. lia.
  - apply Hc; rewrite ?zsum_app; cbn; [|lia..]. intros o' [?| ->%list_elem_of_singleton]%elem_of_app; auto.
Qed.

Lemma sseWorker_streams cfg topic cs : streams (sseWorker NewRequest_ok cfg topic cs).
Proof.
  assert (streams (sse_loop NewRequest_ok cfg topic cs)) as H.
  { induction cs as [|c cs IH]; [split_and!; [by intros o ?%not_elem_of_nil|done..]|]. cbn [sse_loop].
    destruct (c_stop c); [split_and!; [by intros o ?%not_elem_of_nil|done..]|].
    apply streams_app; [apply sse_connection_streams|]. destruct (c_stopWait c); [|done]. split_and!; [by intros o ?%not_elem_of_nil|done..]. }
  destruct H as (H1 & H2 & H3). unfold sseWorker. split_and!.
  - intros o [->|[?| ->%list_elem_of_singleton]%elem_of_app]%elem_of_cons; auto.
  - change (1 + zsum d_active (sse_loop NewRequest_ok cfg topic cs ++ [SActive (-1)])%list = 0). rewrite zsum_app, H2. done.
  - change (zsum d_ended (sse_loop NewRequest_ok cfg topic cs ++ [SActive (-1)])%list <= zsum d_connects (sse_loop NewRequest_ok cfg topic cs ++ [SActive (-1)])%list).
    rewrite !zsum_app. cbn. lia.
Qed.

Lemma run_sse l s :
  ss_activeWorkers (ss (run l s)) = ss_activeWorkers (ss s) + zsum d_active l ∧
  ss_connects (ss (run l s)) = ss_connects (ss s) + zsum d_connects l ∧
  ss_reconnects (ss (run l s)) + ss_errors (ss (run l s)) = ss_reconnects (ss s) + ss_errors (ss s) + zsum d_ended l.
Proof.
  assert (∀ (proj : sseStats → Z) d, (∀ s o, proj (ss (run_op s o)) = proj (ss s) + d o) → proj (ss (run l s)) = proj (ss s) + zsum d l) as H.
  { intros proj d Hd. apply (foldl_additive run_op (λ _, True) (λ s, proj (ss s)) d l s); auto. }
  split_and!; [apply H|apply H|apply (H (λ t, ss_reconnects t + ss_errors t))];
    intros s' o; destruct o; cbn; try (destruct (statMap s' !! _)); cbn; lia.
Qed.

(** *** All workers *)

Lemma choose_name cfg eps wid r :
  eps ≠ [] → ∃ ep, choose cfg (buildWeighted eps) wid r = Some ep ∧ (ep ∈ eps ∨ ep_name ep = "_error_path").
Proof.
  intros He. unfold choose. destruct (pick_interval eps (r_pick r) He) as (k & ep & -> & Hk & _).
  eexists. split; [done|]. destruct (_ <? _); [by right|left]. by eapply list_elem_of_lookup_2.
Qed.

Definition all_names (eps : list endpoint) : gset string := {["_error_path"]} ∪ list_to_set (ep_name <$> eps).

Lemma choose_in_names cfg eps wid r :
  eps ≠ [] → ∃ ep, choose cfg (buildWeighted eps) wid r = Some ep ∧ ep_name ep ∈ all_names eps.
Proof.
  intros He. destruct (choose_name cfg eps wid r He) as (ep & E & [H|H]); exists ep; (split; [done|]); unfold all_names.
  - apply elem_of_union_r, elem_of_list_to_set. by apply list_elem_of_fmap_2.
  - rewrite H. by apply elem_of_union_l, elem_of_singleton.
Qed.

Lemma httpWorker_ensures cfg eps limited wid rounds :
  eps ≠ [] →
  let '(ops, panics) := httpWorker NewRequest_ok cfg (buildWeighted eps) limited wid rounds in
  panics = false ∧ (∀ n, OEnsure n ∈ ops → n ∈ all_names eps) ∧ (∀ o, o ∈ ops → is_sse o = false).
Proof.
  intros He. induction rounds as [|r rounds IH]; cbn [httpWorker].
  { split_and!; [done|by intros ? ?%not_elem_of_nil..]. }
  destruct (r_stop r); [split_and!; [done|by intros ? ?%not_elem_of_nil..]|].
  destruct (limited && negb (r_wait r)); [split_and!; [done|by intros ? ?%not_elem_of_nil..]|].
  destruct (choose_in_names cfg eps wid r He) as (ep & -> & Hep).
  destruct (httpWorker _ _ _ _ _ _) as [ops panics]. destruct IH as (H1 & H2 & H3).
  assert (Forall (λ o, (∀ n, o ≠ OEnsure n) ∧ is_sse o = false) (record_request NewRequest_ok cfg ep r)) as Hr.
  { unfold record_request, classify. repeat case_match; cbn [app]; by repeat constructor. }
  rewrite Forall_forall in Hr.
  split_and!; [done|..].
  - intros n [[= ->]|[Ho|Ho]%elem_of_app]%elem_of_cons; [done| |by apply H2]. by destruct (proj1 (Hr _ Ho) n).
  - intros o [->|[Ho|Ho]%elem_of_app]%elem_of_cons; [done| |by apply H3]. by apply Hr.
Qed.

Definition limited (cfg : config) : bool := bool_decide (is_Some (limiter_of cfg)).

(** The writes of all workers, and the requests of all HTTP workers. *)
Definition all_ops (cfg : config) (eps : list endpoint) (rounds : Z → list round) (conns : Z → list connection) : list (list op) :=
  ((http_workers NewRequest_ok cfg eps rounds).*1 ++ sse_workers NewRequest_ok cfg conns)%list.

Definition all_attempts (cfg : config) (eps : list endpoint) (rounds : Z → list round) : list (endpoint * round) :=
  concat ((λ i, attempts cfg (buildWeighted eps) (limited cfg) i (rounds i)) <$> indices (concurrency cfg)).

Lemma no_panics cfg eps rounds : eps ≠ [] → existsb snd (http_workers NewRequest_ok cfg eps rounds) = false.
Proof.
  intros He. apply not_true_iff_false. intros (x & Hx & E)%existsb_exists.
  apply list_elem_of_In, list_elem_of_fmap in Hx as (i & -> & _).
  pose proof (httpWorker_ensures cfg eps (limited cfg) i (rounds i) He) as H. unfold limited in H.
  destruct (httpWorker _ _ _ _ _ _). cbn [snd] in E. destruct H as [H _]. congruence.
Qed.

Lemma all_http cfg eps rounds l :
  eps ≠ [] → l ∈ (http_workers NewRequest_ok cfg eps rounds).*1 →
  (∀ n, OEnsure n ∈ l → n ∈ all_names eps) ∧ (∀ o, o ∈ l → is_sse o = false).
Proof.
  intros He (x & -> & Hx)%list_elem_of_fmap. apply list_elem_of_fmap in Hx as (i & -> & _).
  pose proof (httpWorker_ensures cfg eps (limited cfg) i (rounds i) He) as H. unfold limited in H.
  destruct (httpWorker _ _ _ _ _ _). by destruct H as [_ H].
Qed.

Lemma all_streams cfg conns l : l ∈ sse_workers NewRequest_ok cfg conns → streams l.
Proof. intros (i & -> & _)%list_elem_of_fmap. apply sseWorker_streams. Qed.

Lemma sse_untouched name o : is_sse o = true →
  d_total name o = 0 ∧ d_errors name o = 0 ∧ d_4xx name o = 0 ∧ d_vfails name o = 0 ∧ d_lat name o = 0.
Proof. by destruct o. Qed.

Lemma all_tally cfg eps rounds conns name : tally cfg name (concat (all_ops cfg eps rounds conns)) (all_attempts cfg eps rounds).
Proof.
  unfold all_ops. rewrite concat_app. rewrite <- (app_nil_r (all_attempts cfg eps rounds)). apply tally_app.
  - unfold http_workers, all_attempts. rewrite <- list_fmap_compose. fold (limited cfg).
    induction (indices (concurrency cfg)) as [|i ix IH]; [by split_and!|]. rewrite !fmap_cons. cbn [concat].
    apply tally_app; [apply httpWorker_tally|exact IH].
  - assert (∀ d, (∀ o, is_sse o = true → d o = 0) → zsum d (concat (sse_workers NewRequest_ok cfg conns)) = 0) as H.
    { intros d Hd. apply zsum_zero. intros o (l & Ho & Hl)%elem_of_concat. apply Hd. by apply (all_streams _ _ _ Hl). }
    split_and!; (rewrite H; [done|]); intros o Ho; by destruct (sse_untouched name o Ho) as (? & ? & ? & ? & ?).
Qed.

Lemma initial_stats eps name st : statMap (initial eps) !! name = Some st → st = stats_zero.
Proof.
  unfold initial. cbn [statMap]. assert (∀ m : gmap string stats, (∀ st, m !! name = Some st → st = stats_zero) →
    ∀ st, foldl (λ m ep, <[ep_name ep := stats_zero]> m) m eps !! name = Some st → st = stats_zero) as H.
  { induction eps as [|ep eps IH]; intros m Hm; [done|]. cbn [foldl]. apply IH. intros st' [[_ <-]|[_ ?]]%lookup_insert_Some; auto. }
  intros [[_ <-]|[_ Hl]]%lookup_insert_Some; [done|]. by eapply (H ∅).
Qed.

Lemma initial_dom eps : dom (statMap (initial eps)) = all_names eps.
Proof.
  unfold initial, all_names. cbn [statMap]. rewrite dom_insert_L. f_equal.
  assert (∀ m : gmap string stats, dom (foldl (λ m ep, <[ep_name ep := stats_zero]> m) m eps) = dom m ∪ list_to_set (ep_name <$> eps)) as H.
  { induction eps as [|ep eps IH]; intros m; cbn [foldl]; [cbn; by rewrite union_empty_r_L|].
    rewrite IH, dom_insert_L, fmap_cons. cbn [list_to_set]. set_solver. }
  rewrite H, dom_empty_L. set_solver.
Qed.

(** *** The totals of a report *)

Lemma attempts_named cfg eps rounds a : eps ≠ [] → a ∈ all_attempts cfg eps rounds → ep_name a.1 ∈ all_names eps.
Proof.
  intros He. unfold all_attempts. intros (l & Ha & (i & -> & _)%list_elem_of_fmap)%elem_of_concat.
  revert Ha. induction (rounds i) as [|r rs IH]; cbn [attempts]; [by intros ?%not_elem_of_nil|].
  destruct (_ || _); [by intros ?%not_elem_of_nil|]. destruct (choose_in_names cfg eps i r He) as (ep & -> & Hep).
  intros [->|?]%elem_of_cons; auto.
Qed.

Lemma named_sum f (m : gmap string stats) (l : list (string * stats)) a :
  l ≡ₚ map_to_list m → (∀ x, x ∈ a → ep_name x.1 ∈ dom m) → zsum (λ x, zsum (named x.1 f) a) l = count f a.
Proof.
  intros Hl Ha. rewrite zsum_swap, count_zsum. apply zsum_ext. intros x Hx. unfold named.
  rewrite (zsum_perm _ _ _ Hl). trans (zsum (λ y, if String.eqb (ep_name x.1) y && f x then 1 else 0) (map_to_list m).*1); [by rewrite zsum_fmap|].
  rewrite (zsum_ext _ (λ y, if decide (ep_name x.1 = y) then if f x then 1 else 0 else 0)).
  - apply zsum_key; [apply NoDup_fst_map_to_list|]. specialize (Ha x Hx). apply elem_of_dom in Ha as [st E].
    apply list_elem_of_fmap. exists (ep_name x.1, st). split; [done|]. by apply elem_of_map_to_list.
  - intros y _. destruct (String.eqb_spec (ep_name x.1) y), (decide (ep_name x.1 = y)); try done; by destruct (f x).
Qed.

Lemma report_total iterate s (f : stats → Z) (g : snapshot → Z) :
  (∀ m, iterate m ≡ₚ map_to_list m) → (∀ x, g (snapshot_of x) = f x.2) →
  foldl (λ n x, n + g x) 0 (snapshotStats iterate s) = zsum (λ x, f x.2) (map_to_list (statMap s)).
Proof.
  intros Hi Hg. rewrite foldl_zsum. unfold snapshotStats. rewrite (zsum_perm _ _ _ (stable_sort_perm _ _)), zsum_fmap.
  rewrite (zsum_perm _ _ _ (Hi _)). cbn [Z.add]. apply zsum_ext. intros x _. apply Hg.
Qed.

Lemma buildEndpoints_nonempty cs : buildEndpoints cs ≠ [].
Proof. done. Qed.

(** *** A run *)

Section run.
Context (cfg : config) (eps : list endpoint) (rounds : Z → list round) (conns : Z → list connection) (l : list op).
Context (Heps : eps ≠ []) (Hrun : interleaving (all_ops cfg eps rounds conns) l).

Lemma run_names : dom (statMap (run l (initial eps))) = all_names eps.
Proof.
  rewrite run_dom; [apply initial_dom|]. intros n Hn. rewrite (interleaving_perm _ _ Hrun) in Hn. rewrite initial_dom.
  apply elem_of_concat in Hn as (k & Hn & [Hk|Hk]%elem_of_app); [by apply (all_http _ _ _ _ Heps Hk)|].
  by apply (all_streams _ _ _ Hk) in Hn.
Qed.

Lemma run_rows name st :
  let a := all_attempts cfg eps rounds in
  statMap (run l (initial eps)) !! name = Some st →
  latHist_ok (st_lat st) ∧ st_total st = zsum (named name (λ _, true)) a ∧
  st_errors st = zsum (named name (failed cfg)) a + zsum (named name (invalid cfg)) a ∧
  st_status4xx st = zsum (named name (rejected cfg)) a ∧ st_vfails st = zsum (named name (invalid cfg)) a ∧
  lh_total (st_lat st) = zsum (named name (answered cfg)) a.
Proof.
  intros a E. assert (name ∈ dom (statMap (initial eps))) as [st0 E0]%elem_of_dom.
  { rewrite initial_dom, <- run_names. by eapply elem_of_dom_2. }
  pose proof (initial_stats _ _ _ E0) as ->. destruct (run_stats name l _ _ E0) as (st' & E' & Hok & H); [by split|].
  rewrite E in E'. injection E' as <-. rewrite !(zsum_perm _ _ _ (interleaving_perm _ _ Hrun)) in H. split; [done|].
  destruct (all_tally cfg eps rounds conns name) as (T1 & T2 & T3 & T4 & T5). rewrite T1, T2, T3, T4, T5 in H. exact H.
Qed.

Lemma run_totals iterate elapsed :
  let a := all_attempts cfg eps rounds in let r := printProgress iterate elapsed (run l (initial eps)) in
  (∀ m, iterate m ≡ₚ map_to_list m) →
  pr_reqs r = Z.of_nat (length a) ∧ pr_errs r = count (failed cfg) a + count (invalid cfg) a.
Proof.
  intros a r Hi. unfold r, printProgress. cbv zeta. cbn [pr_reqs pr_errs].
  rewrite (report_total iterate _ st_total sn_total), (report_total iterate _ st_errors sn_errors) by (done || by intros []).
  assert (∀ x, x ∈ a → ep_name x.1 ∈ dom (statMap (run l (initial eps)))) as Ha.
  { intros x Hx. rewrite run_names. by eapply attempts_named. }
  assert (count (λ _, true) a = Z.of_nat (length a)) as <- by (unfold count; by rewrite bfilter_all).
  rewrite <- !(named_sum _ _ _ _ (Permutation_refl _) Ha), <- zsum_add.
  split; apply zsum_ext; intros [name st] Hx%elem_of_map_to_list; apply (run_rows _ _ Hx).
Qed.

Lemma run_streams :
  let s := ss (run l (initial eps)) in ss_activeWorkers s = 0 ∧ ss_reconnects s + ss_errors s <= ss_connects s.
Proof.
  pose proof (run_sse l (initial eps)) as (H1 & H2 & H3). cbn [initial ss newSSEStats ss_activeWorkers ss_connects ss_reconnects ss_errors] in *.
  assert (∀ d, (∀ o, is_sse o = false → d o = 0) → zsum d l = zsum d (concat (sse_workers NewRequest_ok cfg conns))) as Hd.
  { intros d Hdd. rewrite (zsum_perm _ _ _ (interleaving_perm _ _ Hrun)). unfold all_ops. rewrite concat_app, zsum_app.
    rewrite (zsum_zero _ (concat (http_workers _ _ _ _).*1)); [done|].
    intros o (k & Ho & Hk)%elem_of_concat. apply Hdd. by apply (all_http _ _ _ _ Heps Hk). }
  rewrite (Hd d_active) in H1 by by intros []. rewrite (Hd d_connects) in H2 by by intros []. rewrite (Hd d_ended) in H3 by by intros [].
  assert (streams (concat (sse_workers NewRequest_ok cfg conns))) as (_ & S1 & S2); [|cbv zeta; lia].
  clear H1 H2 H3 Hd. generalize (all_streams cfg conns). induction (sse_workers NewRequest_ok cfg conns) as [|k ks IH]; intros Hs.
  - split_and!; [by intros ? ?%not_elem_of_nil|done..].
  - simpl. apply streams_app; [apply Hs; by left|]. apply IH. intros k' Hk. apply Hs. by right.
Qed.
End run.

(** ** Properties *)


End accounting.

(** ** An example *)

Module LoadDemo.

Definition demo_json : LoadJSON :=
  {| json_finalized_epoch := λ _, None; json_head_slot := λ _, None; json_slots_per_epoch := λ _, None; json_data_len := λ _, Some 0 |}.

Definition demo_config : config :=
  {| base := "http://127.0.0.1:5555/mainnet"; auth := ""; apiKey := ""; concurrency := 2; sseWorkers := 1; duration := 60 * Second;
     errorPct := 0; requestTimeout := 60 * Second; reportInterval := 10 * Second; maxRPS := 0 |}.

Definition demo_round (stop : bool) (pick status : Z) : round :=
  {| r_stop := stop; r_wait := true; r_pick := pick; r_error := 0; r_miss := 0; r_coin := 0;
     r_reply := CResp status ∅ {| rd_rest := ""; rd_fails := false; rd_eager := true |}; r_elapsed := 3000000; r_sample := 0 |}.

(** Both workers ask for the duties of validators once, and are answered 500. *)
Definition demo_rounds (i : Z) : list round := [demo_round false (-1) 500; demo_round true 0 200].

Definition demo_conns (i : Z) : list connection :=
  [{| c_stop := false; c_reply := CResp 200 ∅ {| rd_rest := "data: 1" +:+ lf +:+ lf; rd_fails := false; rd_eager := true |};
      c_stopErr := false; c_stopLine := []; c_stopEnd := false; c_stopWait := true |}].

Definition demo_ops : list op := concat (all_ops (LJ := demo_json) (λ _ _, true) demo_config (endpoints_of (inl "")) demo_rounds demo_conns).

Definition demo_final : load :=
  default (initial []) (main_report (LJ := demo_json) (λ _ _, true) demo_config (inl "") demo_rounds demo_ops).


(** A response with status 500 that has to be validated is counted as two errors: two requests, four errors, a rate of 200
    percent. *)
Lemma failed_and_invalid_counted_twice :
  let r := printProgress map_to_list (60 * Second) demo_final in
  pr_reqs r = 2 ∧ pr_errs r = 4 ∧ pr_errRate r = f64_of_Z 200.
Proof. vm_compute. done. Qed.

(** A report interval of zero is accepted and ends the tester with a panic. *)
Lemma zero_interval_panics cfg cs rounds ops :
  reportInterval cfg = 0 → main_report (LJ := demo_json) (λ _ _, true) cfg cs rounds ops = None.
Proof. intros E. unfold main_report. by rewrite E. Qed.

End LoadDemo.
