(* ===== verification/Reliability.v ===== *)
(** * The reliability test

    [scripts/reliability/main.go]: the checkers that compare a running proxy with its upstreams, watch its event
    stream and its metrics, and the verdict of the final report.  The checkers share counters and a log and
    only write to them, so that a checker is the list of its writes (see [Harness]); what is fetched, when,
    and whether the test has been stopped by then is a script.  The checks are written in a small monad
    [M] that reads the script and collects the writes.  JSON, gzip and the parser of URLs are arguments.  The
    text of reports and of ordinary log lines is left out. *)

From S2P Require Import Prelude GoStrings GoFloat Config MemoryStore Url CacheKey Paths Headers SSE Harness.
From Stdlib Require Import Ascii SpecFloat.
#[local] Open Scope string_scope.
#[local] Open Scope Z_scope.

(** ** Configuration *)

Record config := {
  ebeaconBase : string;
  upstreamURLs : list string;
  metricsURL : string;
  pprofAddr : string;
  pprofDir : string;
  pprofEvery : Z;
  duration : Z;
  reportEvery : Z;
  auth : string;
  apiKey : string;
  timeout : Z;
}.

Record flags := {
  f_ebeacon : string;
  f_upstream : string;
  f_metrics : string;
  f_pprof : string;
  f_pprofDir : string;
  f_pprofEvery : Z;
  f_duration : Z;
  f_report : Z;
  f_auth : string;
  f_apiKey : string;
  f_timeout : Z;
}.

(** A parsed URL with the parts that [URL.String] prints around the path; user, host, and fragment as they are
    printed. *)
Record url_parts := {
  up_Scheme : string;
  up_User : option string;
  up_Host : string;
  up_ForceQuery : bool;
  up_RawQuery : string;
  up_Fragment : string;
}.

(** [u.Path = path; u.String()], for a path that starts with a slash and needs no escape. *)
Definition url_with_path (u : url_parts) (path : string) : string :=
  (if String.eqb (up_Scheme u) "" then "" else up_Scheme u +:+ ":") +:+
  (if negb (String.eqb (up_Scheme u) "") || negb (String.eqb (up_Host u) "") || bool_decide (is_Some (up_User u))
   then "//" +:+ match up_User u with Some user => user +:+ "@" | None => "" end +:+ up_Host u else "") +:+
  path +:+
  (if up_ForceQuery u || negb (String.eqb (up_RawQuery u) "") then "?" +:+ up_RawQuery u else "") +:+
  (if String.eqb (up_Fragment u) "" then "" else "#" +:+ up_Fragment u).

(** [ParseURL] is [url.Parse]. *)
Definition loadConfig (ParseURL : string → option url_parts) (Getenv : string → string) (f : flags) : config :=
  let v := Getenv "EBEACON_BASE" in
  let base := TrimRight (if String.eqb v "" then f_ebeacon f else v) "/" in
  let override name old := let v := Getenv name in if String.eqb v "" then old else v in
  {| ebeaconBase := base;
     upstreamURLs := (λ u, TrimRight u "/") <$> bfilter (λ u, negb (String.eqb u "")) (TrimSpace <$> Split (f_upstream f) ",");
     metricsURL :=
       if String.eqb (f_metrics f) "off" then ""
       else if String.eqb (f_metrics f) "" then
         match ParseURL base with
         | Some u => if String.eqb (up_Host u) "" then "" else url_with_path u "/metrics"
         | None => ""
         end
       else f_metrics f;
     pprofAddr := TrimRight (f_pprof f) "/";
     pprofDir := f_pprofDir f;
     pprofEvery := f_pprofEvery f;
     duration := f_duration f;
     reportEvery := f_report f;
     auth := override "EBEACON_AUTH" (f_auth f);
     apiKey := override "EBEACON_API_KEY" (f_apiKey f);
     timeout := f_timeout f |}.

(** ** What the checkers write *)

Inductive counter :=
  | immutableChecks | immutableMismatches
  | cacheHITs | cacheMISSes | cacheAccuracyFails
  | freshnessChecks | freshnessStalls
  | encodingChecks | encodingFailures
  | sseConnects | sseReconnects | sseEvents | sseGaps | sseReorderings
  | pprofSnapshots | pprofErrors
  | upstreamErrors | ebeaconErrors
  | metricsChecks | metricsFails.

#[global] Instance counter_eq_dec : EqDecision counter.
Proof. solve_decision. Defined.

Definition counters : Type := counter → Z.

(** What the text of an entry is made of. *)
Inductive detail :=
  | DText (s : string)
  | DStall (slot staleFor staleAfter : Z)
  | DGap (gap lastSlot missed : Z)
  | DLeak (labels : string) (v : float64).

Record mismatch := { mm_kind : string; mm_endpoint : string; mm_detail : detail }.

Inductive op := OAdd (k : counter) | OLog (m : mismatch) | OFile (path : string).

Definition log_add (kind endpoint : string) (d : detail) : op := OLog {| mm_kind := kind; mm_endpoint := endpoint; mm_detail := d |}.

Record harness := { h_c : counters; h_log : list mismatch; h_files : list string }.

Definition harness_zero : harness := {| h_c := λ _, 0; h_log := []; h_files := [] |}.

Definition run_op (h : harness) (o : op) : harness :=
  match o with
  | OAdd k => {| h_c := λ k', if decide (k = k') then h_c h k' + 1 else h_c h k'; h_log := h_log h; h_files := h_files h |}
  | OLog m => {| h_c := h_c h; h_log := (h_log h ++ [m])%list; h_files := h_files h |}
  | OFile p => {| h_c := h_c h; h_log := h_log h; h_files := (h_files h ++ [p])%list |}
  end.

Definition run (l : list op) : harness := foldl run_op harness_zero l.

(** ** The monad of a check *)

(** One fetch: its reply, and whether the test has been stopped when it is over. *)
Record io := { io_reply : client_reply; io_done : bool }.

(** The script has ended: the test is being stopped. *)
Definition io_end : io := {| io_reply := CErr; io_done := true |}.

Definition M (A : Type) : Type := list io → list op * A * list io.

#[global] Instance M_ret : MRet M := λ A x s, ([], x, s).
#[global] Instance M_bind : MBind M := λ A B f m s,
  let '(o1, x, s) := m s in let '(o2, y, s) := f x s in ((o1 ++ o2)%list, y, s).

Definition tell (ops : list op) : M unit := λ s, (ops, tt, s).
Definition next_io : M io := λ s, ([], default io_end (head s), tail s).

Fixpoint for_each {A} (f : A → M unit) (l : list A) : M unit :=
  match l with
  | [] => mret tt
  | x :: l => f x ≫= λ _, for_each f l
  end.

Definition ops_of {A} (m : M A) (s : list io) : list op := (m s).1.1.

(** JSON as [interface{}] holds it. *)
Inductive json := JNull | JBool (b : bool) | JNumber (f : float64) | JString (s : string) | JArray (l : list json) | JObject (l : list (string * json)).

(** What the test uses of [encoding/json]; [None] is an error. *)
Class JSONLib := {
  json_Unmarshal : string → option json;
  json_Marshal : json → string;
  json_slot_field : string → option string;
  json_epoch_field : string → option string;
}.

(** [m[key]] on a decoded object; [JNull] if it is missing or this is no object. *)
Definition json_get (key : string) (j : json) : json :=
  match j with
  | JObject l => match find_first (λ x, String.eqb x.1 key) l with Some x => x.2 | None => JNull end
  | _ => JNull
  end.

Definition is_object (j : json) : bool := match j with JObject _ => true | _ => false end.

Section checks.
Context `{JL : JSONLib}.
Context (NewRequest_ok : string → string → bool) (gunzip : string → option string) (ParseFloat : string → option float64) (oob : float64 → Z).

(** ** Fetching *)

Record fetchResult := { fr_status : Z; fr_body : string; fr_cacheHit : bool; fr_upstream : string }.

Record fetchOptions := { fo_accept : string; fo_auth : string; fo_apiKey : string; fo_acceptEncoding : string }.

Definition fetch_request (url : string) (opts : fetchOptions) : option Outbound :=
  if NewRequest_ok "GET" url then
    let h := hdr_set "Accept" (if String.eqb (fo_accept opts) "" then "application/json" else fo_accept opts) ∅ in
    let h := if String.eqb (fo_acceptEncoding opts) "" then h else hdr_set "Accept-Encoding" (fo_acceptEncoding opts) h in
    Some {| out_Method := "GET"; out_URL := url; out_Header := set_credentials (fo_auth opts) (fo_apiKey opts) h; out_Body := None |}
  else None.

(** [None] is an error. *)
Definition fetch_reply (reply : client_reply) : option fetchResult :=
  match reply with
  | CErr => None
  | CResp status h body =>
      match ReadAll body with
      | None => None
      | Some body =>
          match (if String.eqb (hdr_get h "Content-Encoding") "gzip" then gunzip body else Some body) with
          | None => None
          | Some body =>
              Some {| fr_status := status; fr_body := body; fr_cacheHit := String.eqb (hdr_get h "X-Ebeacon-Cache") "HIT";
                      fr_upstream := hdr_get h "X-Ebeacon-Upstream" |}
          end
      end
  end.

(** The result with whether the test has been stopped. *)
Definition fetchWithOptions (url : string) (opts : fetchOptions) : M (option fetchResult * bool) :=
  i ← next_io; mret (match fetch_request url opts with None => None | Some _ => fetch_reply (io_reply i) end, io_done i).

Definition fetch (url auth apiKey : string) : M (option fetchResult * bool) :=
  fetchWithOptions url {| fo_accept := "application/json"; fo_auth := auth; fo_apiKey := apiKey; fo_acceptEncoding := "" |}.

(** [err == nil && status == http.StatusOK] *)
Definition ok_result (r : option fetchResult) : option fetchResult :=
  match r with Some x => if fr_status x =? 200 then Some x else None | None => None end.

Definition recordEbeaconError (done : bool) : M unit := if done then mret tt else tell [OAdd ebeaconErrors].

Definition normalizeJSON (b : string) : option string := json_Marshal <$> json_Unmarshal b.

(** [uint64(v)]; [oob] is what the conversion gives for a value out of range. *)
Definition uint64_of (v : float64) : Z :=
  match v with
  | S754_zero _ => 0
  | S754_finite _ _ _ => let z := f64_to_int v in if (0 <=? z) && (z <? 2 ^ 64) then z else oob v
  | _ => oob v
  end.

Definition slot_of (j : json) : option Z :=
  match j with
  | JString s => match ParseUint s with Some n => if 0 <? n then Some n else None | None => None end
  | JNumber v => if 0 <? uint64_of v then Some (uint64_of v) else None
  | _ => None
  end.

Definition extractSlot (body : string) : option Z :=
  match json_Unmarshal body with
  | None => None
  | Some raw =>
      let data := json_get "data" raw in
      if negb (is_object raw) || negb (is_object data) then None
      else
        head (omap slot_of
          [json_get "slot" data; json_get "slot" (json_get "message" (json_get "header" data)); json_get "slot" (json_get "message" data)])
  end.

(** ** Immutable data *)

Definition immutableEndpoints : list string := ["/eth/v1/beacon/genesis"].

Definition compare_immutable (ep ebNorm upURL : string) : M unit :=
  '(upRes, _) ← fetch (upURL +:+ ep) "" "";
  match ok_result upRes with
  | None => tell [OAdd upstreamErrors]
  | Some upRes =>
      match normalizeJSON (fr_body upRes) with
      | None => mret tt
      | Some upNorm =>
          tell (OAdd immutableChecks ::
                if String.eqb ebNorm upNorm then []
                else [OAdd immutableMismatches; log_add "immutable-mismatch" ep (DText ("eBeacon vs " +:+ upURL +:+ " differ"))])
      end
  end.

Definition check_immutable_endpoint (cfg : config) (ep : string) : M unit :=
  '(ebRes, done) ← fetch (ebeaconBase cfg +:+ ep) (auth cfg) (apiKey cfg);
  match ok_result ebRes with
  | None => recordEbeaconError done
  | Some ebRes =>
      match normalizeJSON (fr_body ebRes) with
      | None => mret tt
      | Some ebNorm => for_each (compare_immutable ep ebNorm) (upstreamURLs cfg)
      end
  end.

Definition check_immutable (cfg : config) : M unit := for_each (check_immutable_endpoint cfg) immutableEndpoints.

(** A checker that runs at once and then at every tick, until the test is stopped. *)
Definition rounds (check : M unit) (scripts : list (list io)) : list op := concat (ops_of check <$> scripts).

Definition runImmutableChecks (cfg : config) (scripts : list (list io)) : list op := rounds (check_immutable cfg) scripts.

(** ** Cache accuracy *)

(** [fmt.Sprintf] of a format with one [%s]. *)
Definition Sprintf_s (fmt s : string) : string :=
  match Index fmt "%s" with
  | Some i => str_take i fmt +:+ s +:+ str_drop (i + 2) fmt
  | None => fmt
  end.

(** The path asked of the proxy, and the format of the path asked of the upstream. *)
Definition cacheAccuracyEndpoints : list (string * string) :=
  [("/eth/v1/beacon/headers/head", "/eth/v1/beacon/headers/%s");
   ("/eth/v1/beacon/blocks/head/root", "/eth/v1/beacon/blocks/%s/root");
   ("/eth/v1/beacon/states/head/root", "/eth/v1/beacon/states/%s/root");
   ("/eth/v1/beacon/states/head/finality_checkpoints", "/eth/v1/beacon/states/%s/finality_checkpoints")].

Definition compare_slot (upURL : string) (ep : string * string) (ebRes : fetchResult) : M unit :=
  match extractSlot (fr_body ebRes) with
  | None => mret tt
  | Some slot =>
      '(upRes, _) ← fetch (upURL +:+ Sprintf_s ep.2 (FormatUint slot)) "" "";
      match ok_result upRes with
      | None => tell [OAdd upstreamErrors]
      | Some upRes =>
          match normalizeJSON (fr_body ebRes), normalizeJSON (fr_body upRes) with
          | Some ebNorm, Some upNorm =>
              if String.eqb ebNorm upNorm then mret tt
              else
                tell [OAdd cacheAccuracyFails;
                      log_add "cache-accuracy" ep.1
                        (DText ("slot=" +:+ FormatUint slot +:+ " cache=" +:+ (if fr_cacheHit ebRes then "HIT" else "MISS") +:+
                                " eBeacon≠upstream(" +:+ upURL +:+ ")"))]
          | _, _ => mret tt
          end
      end
  end.

Definition hit_or_miss (r : fetchResult) : op := OAdd (if fr_cacheHit r then cacheHITs else cacheMISSes).

Definition check_accuracy_endpoint (cfg : config) (upURL : string) (ep : string * string) : M unit :=
  '(ebRes, done) ← fetch (ebeaconBase cfg +:+ ep.1) (auth cfg) (apiKey cfg);
  match ok_result ebRes with
  | None => recordEbeaconError done
  | Some ebRes =>
      _ ← tell [hit_or_miss ebRes];
      '(ebRes2, done) ← fetch (ebeaconBase cfg +:+ ep.1) (auth cfg) (apiKey cfg);
      match ok_result ebRes2 with
      | None => recordEbeaconError done
      | Some ebRes2 =>
          _ ← tell (hit_or_miss ebRes2 ::
                    if fr_cacheHit ebRes2 then []
                    else [log_add "cache-miss-after-miss" ep.1
                            (DText "immediate re-fetch was not a HIT; cache may not be enabled or entry was evicted")]);
          compare_slot upURL ep ebRes
      end
  end.

Definition runCacheAccuracyChecks (cfg : config) (scripts : list (list io)) : list op :=
  match upstreamURLs cfg with
  | [] => []
  | upURL :: _ => rounds (for_each (check_accuracy_endpoint cfg upURL) cacheAccuracyEndpoints) scripts
  end.

(** ** Cache freshness *)

Definition freshness_endpoint : string := "/eth/v1/beacon/headers/head".
Definition staleAfter : Z := 3 * 12 * Second.

(** The slot seen last and when it was first seen. *)
Record observation := { ob_slot : Z; ob_seenAt : Z }.

Definition observe_slot (now slot : Z) (last : observation) : observation * list op :=
  if ob_slot last =? 0 then ({| ob_slot := slot; ob_seenAt := now |}, [OAdd freshnessChecks])
  else if ob_slot last <? slot then ({| ob_slot := slot; ob_seenAt := now |}, [OAdd freshnessChecks])
  else
    let staleFor := now - ob_seenAt last in
    (last, OAdd freshnessChecks ::
           if staleAfter <? staleFor then
             [OAdd freshnessStalls; log_add "cache-freshness" freshness_endpoint (DStall slot staleFor staleAfter)]
           else []).

(** One tick at which the test goes on: the fetch, and the time after it. *)
Definition freshness_tick (cfg : config) (last : observation) (i : io) (now : Z) : observation * list op :=
  let '(ops, (res, done), _) := fetch (ebeaconBase cfg +:+ freshness_endpoint) (auth cfg) (apiKey cfg) [i] in
  match ok_result res with
  | None => (last, ops_of (recordEbeaconError done) [])
  | Some res => match extractSlot (fr_body res) with None => (last, []) | Some slot => observe_slot now slot last end
  end.

Fixpoint freshness_loop (cfg : config) (last : observation) (ticks : list (io * Z)) : list op :=
  match ticks with
  | [] => []
  | (i, now) :: ticks => let '(last, ops) := freshness_tick cfg last i now in (ops ++ freshness_loop cfg last ticks)%list
  end.

Definition runCacheFreshnessChecks (cfg : config) (ticks : list (io * Z)) : list op :=
  freshness_loop cfg {| ob_slot := 0; ob_seenAt := 0 |} ticks.

(** ** Encodings *)

Definition sequences : list (string * string) := [("gzip", "identity"); ("identity", "gzip")].

Definition check_sequence (cfg : config) (label path accept : string) (seq : string * string) : M unit :=
  let opts enc := {| fo_accept := accept; fo_auth := auth cfg; fo_apiKey := apiKey cfg; fo_acceptEncoding := enc |} in
  '(first, done) ← fetchWithOptions (ebeaconBase cfg +:+ path) (opts seq.1);
  match ok_result first with
  | None => recordEbeaconError done
  | Some first =>
      '(second, done) ← fetchWithOptions (ebeaconBase cfg +:+ path) (opts seq.2);
      match ok_result second with
      | None => recordEbeaconError done
      | Some second =>
          tell (OAdd encodingChecks ::
                if negb (String.eqb (fr_body first) (fr_body second)) then
                  [OAdd encodingFailures;
                   log_add "encoding-compat" label (DText ("decoded body mismatch for " +:+ seq.1 +:+ " -> " +:+ seq.2))]
                else if negb (fr_cacheHit second) then
                  [OAdd encodingFailures;
                   log_add "encoding-compat" label (DText ("expected cache HIT for " +:+ seq.1 +:+ " -> " +:+ seq.2 +:+ " sequence"))]
                else [])
      end
  end.

Definition checkPath (cfg : config) (label path accept : string) : M unit := for_each (check_sequence cfg label path accept) sequences.

Definition resolveStableBinaryPath (cfg : config) : M (option string) :=
  '(res, _) ← fetch (ebeaconBase cfg +:+ "/eth/v1/beacon/headers/finalized") (auth cfg) (apiKey cfg);
  mret (match ok_result res with
        | None => None
        | Some res => (λ slot, "/eth/v2/beacon/blocks/" +:+ FormatUint slot) <$> extractSlot (fr_body res)
        end).

Definition check_encodings (cfg : config) : M unit :=
  _ ← checkPath cfg "json:/eth/v1/node/version" "/eth/v1/node/version" "application/json";
  path ← resolveStableBinaryPath cfg;
  match path with
  | Some path => checkPath cfg ("binary:" +:+ path) path "application/octet-stream"
  | None => mret tt
  end.

Definition runEncodingCompatibilityChecks (cfg : config) (scripts : list (list io)) : list op := rounds (check_encodings cfg) scripts.

(** ** The event stream *)

Record sseEvent := { se_type : string; se_data : string }.

Definition sse_field (ev : sseEvent) (line : string) : sseEvent :=
  let line := TrimRight line (String (ascii_of_nat 13) "") in
  if HasPrefix line "event:" then {| se_type := TrimSpace (TrimPrefix line "event:"); se_data := se_data ev |}
  else if HasPrefix line "data:" then {| se_type := se_type ev; se_data := TrimSpace (TrimPrefix line "data:") |}
  else ev.

Definition parseSseEvent (raw : string) : sseEvent := foldl sse_field {| se_type := ""; se_data := "" |} (Split raw LF).

(** The events that [streamSSE] hands to [onEvent], from the scanned lines; [buf] holds the lines of the current one. *)
Fixpoint stream_lines (buf : string) (lines : list string) : list sseEvent :=
  match lines with
  | [] => []
  | line :: lines =>
      if String.eqb line "" then
        if String.eqb buf "" then stream_lines buf lines else parseSseEvent buf :: stream_lines "" lines
      else stream_lines (buf +:+ line +:+ lf) lines
  end.

Definition sse_url (cfg : config) : string := ebeaconBase cfg +:+ "/eth/v1/events?topics=head,finalized_checkpoint,chain_reorg".

Definition sse_request (cfg : config) : option Outbound :=
  if NewRequest_ok "GET" (sse_url cfg) then
    Some {| out_Method := "GET"; out_URL := sse_url cfg;
            out_Header := set_credentials (auth cfg) (apiKey cfg)
              (hdr_set "Cache-Control" "no-cache" (hdr_set "Accept" "text/event-stream" ∅)); out_Body := None |}
  else None.

Definition streamSSE (cfg : config) (reply : client_reply) : list sseEvent :=
  match sse_request cfg, reply with
  | Some _, CResp status _ body => if status =? 200 then stream_lines "" (Scan MaxScanTokenSize body).1 else []
  | _, _ => []
  end.

Definition slotDuration : Z := 12 * Second.
Definition maxHeadInterval : Z := 3 * slotDuration.
Definition head_topic : string := "/eth/v1/events?topics=head".

(** What [runSSEMonitor] remembers; [None] is the zero time. *)
Record monitor := { mo_slot : Z; mo_at : option Z; mo_epoch : Z }.

Definition monitor_head (now slot : Z) (m : monitor) : list op :=
  match mo_at m with
  | None => []
  | Some at' =>
      let gap := now - at' in
      ((if maxHeadInterval <? gap then
          [OAdd sseGaps; log_add "sse-gap" head_topic (DGap gap (mo_slot m) (Z.quot gap slotDuration - 1))] else []) ++
       (if slot <? mo_slot m then
          [OAdd sseReorderings; log_add "sse-reorder" head_topic (DText ("slot went " +:+ FormatUint (mo_slot m) +:+ " → " +:+ FormatUint slot))]
        else []))%list
  end.

Definition monitor_finalized (epoch : Z) (m : monitor) : list op :=
  if epoch <? mo_epoch m then
    [log_add "sse-finality-reorder" "/eth/v1/events?topics=finalized_checkpoint"
       (DText ("finalized epoch went " +:+ FormatUint (mo_epoch m) +:+ " → " +:+ FormatUint epoch))]
  else [].

(** The callback; [now] is the time at which it runs. *)
Definition on_event (now : Z) (ev : sseEvent) (m : monitor) : monitor * list op :=
  if String.eqb (se_type ev) "head" then
    match json_slot_field (se_data ev) ≫= ParseUint with
    | None => (m, [OAdd sseEvents])
    | Some slot => ({| mo_slot := slot; mo_at := Some now; mo_epoch := mo_epoch m |}, OAdd sseEvents :: monitor_head now slot m)
    end
  else if String.eqb (se_type ev) "finalized_checkpoint" then
    match json_epoch_field (se_data ev) ≫= ParseUint with
    | None => (m, [OAdd sseEvents])
    | Some epoch => ({| mo_slot := mo_slot m; mo_at := mo_at m; mo_epoch := epoch |}, OAdd sseEvents :: monitor_finalized epoch m)
    end
  else (m, [OAdd sseEvents]).

(** The events of a connection; the [i]th arrives at [now i]. *)
Fixpoint on_events (now : nat → Z) (i : nat) (evs : list sseEvent) (m : monitor) : monitor * list op :=
  match evs with
  | [] => (m, [])
  | ev :: evs =>
      let '(m, ops) := on_event (now i) ev m in
      let '(m, ops') := on_events now (S i) evs m in
      (m, (ops ++ ops')%list)
  end.

(** One connection: the reply, when its events arrive, whether the test is stopped before, after or while waiting. *)
Record connection := { cn_stop : bool; cn_reply : client_reply; cn_times : nat → Z; cn_stopEnd : bool; cn_stopWait : bool }.

Fixpoint monitor_loop (cfg : config) (m : monitor) (cs : list connection) : list op :=
  match cs with
  | [] => []
  | c :: cs =>
      if cn_stop c then []
      else
        let '(m, ops) := on_events (cn_times c) 0 (streamSSE cfg (cn_reply c)) m in
        (OAdd sseConnects :: ops ++
         (if cn_stopEnd c then []
          else OAdd sseReconnects :: if cn_stopWait c then [] else monitor_loop cfg m cs))%list
  end.

Definition runSSEMonitor (cfg : config) (cs : list connection) : list op :=
  monitor_loop cfg {| mo_slot := 0; mo_at := None; mo_epoch := 0 |} cs.

(** ** Metrics *)

Definition active_metric : string := "ebeacon_upstream_active_connections{".

(** A line of the metric: its labels and value. *)
Definition scrape_line (line : string) : option (string * float64) :=
  if negb (HasPrefix line active_metric) then None
  else
    match CutByte "}" line with
    | None => None
    | Some (labels, value) => (λ v, (TrimPrefix labels active_metric, v)) <$> ParseFloat (TrimSpace value)
    end.

Definition scrapeActiveConns (cfg : config) (reply : client_reply) : option (gmap string float64) :=
  if NewRequest_ok "GET" (metricsURL cfg) then
    match reply with
    | CErr => None
    | CResp status _ body =>
        if negb (status =? 200) then None
        else
          match Scan MaxScanTokenSize body with
          | (lines, ScanEOF) => Some (foldl (λ m x, <[x.1 := x.2]> m) ∅ (omap scrape_line lines))
          | _ => None
          end
    end
  else None.

(** One reply per tick. *)
Definition runMetricsWatchdog (cfg : config) (replies : list client_reply) : list op :=
  if String.eqb (metricsURL cfg) "" then []
  else replies ≫= λ reply, match scrapeActiveConns cfg reply with Some _ => [OAdd metricsChecks] | None => [] end.

(** [iterate] is the order in which the scraped map is gone through. *)
Definition checkQuiescedActiveConns (iterate : gmap string float64 → list (string * float64)) (cfg : config) (reply : client_reply) : list op :=
  if String.eqb (metricsURL cfg) "" then []
  else
    match scrapeActiveConns cfg reply with
    | None => []
    | Some conns =>
        OAdd metricsChecks ::
        (iterate conns ≫= λ x,
           if f64_eqb x.2 f64_zero then []
           else [OAdd metricsFails; log_add "metrics-active-conns-leak" "ebeacon_upstream_active_connections" (DLeak x.1 x.2)])
    end.

(** ** Profiles *)

(** [filepath.Join] of a directory and a name. *)
Definition join_path (dir name : string) : string := Clean (if String.eqb dir "" then name else dir +:+ "/" +:+ name).

(** [%02d] *)
Definition two_digits (n : Z) : string := (if (0 <=? n) && (n <? 10) then "0" else "") +:+ FormatInt n.

(** Whether the file has been written; [written] is the outcome of [os.WriteFile]. *)
Definition fetchPprofProfile (url : string) (reply : client_reply) (written : bool) : bool :=
  NewRequest_ok "GET" url &&
  match reply with
  | CErr => false
  | CResp status _ body => (status =? 200) && bool_decide (is_Some (ReadAll body)) && written
  end.

(** The same with another timeout. *)
Definition fetchPprofText (url : string) (reply : client_reply) (written : bool) : bool :=
  NewRequest_ok "GET" url &&
  match reply with
  | CErr => false
  | CResp status _ body => (status =? 200) && bool_decide (is_Some (ReadAll body)) && written
  end.

(** What a capture meets: the time stamp, the reply, whether the file can be written. *)
Record capture := { ca_tag : string; ca_reply : client_reply; ca_written : bool }.

Definition captureHeap (cfg : config) (c : capture) : list op :=
  let path := join_path (pprofDir cfg) ("heap-" +:+ ca_tag c +:+ ".pprof") in
  if fetchPprofProfile (pprofAddr cfg +:+ "/debug/pprof/heap") (ca_reply c) (ca_written c)
  then [OFile path; OAdd pprofSnapshots] else [OAdd pprofErrors].

Definition captureCPU (cfg : config) (seconds snap : Z) (c : capture) : list op :=
  let path := join_path (pprofDir cfg) ("cpu-" +:+ ca_tag c +:+ "-snap" +:+ two_digits snap +:+ ".pprof") in
  if fetchPprofProfile (pprofAddr cfg +:+ "/debug/pprof/profile?seconds=" +:+ FormatInt seconds) (ca_reply c) (ca_written c)
  then [OFile path; OAdd pprofSnapshots] else [OAdd pprofErrors].

Definition captureEBeaconGoroutines (cfg : config) (tag : string) (c : capture) : list op :=
  let path := join_path (pprofDir cfg) ("goroutines-ebeacon-" +:+ tag +:+ ".txt") in
  if fetchPprofText (pprofAddr cfg +:+ "/debug/pprof/goroutine?debug=1") (ca_reply c) (ca_written c)
  then [OFile path] else [OAdd pprofErrors].

Definition captureSelf (cfg : config) (tag : string) (written : bool) : list op :=
  if written then [OFile (join_path (pprofDir cfg) ("goroutines-self-" +:+ tag +:+ ".txt"))] else [].

(** The captures of one snapshot. *)
Record captures := { cs_heap : capture; cs_cpu : capture; cs_goroutines : capture; cs_self : bool }.

Definition capture_snapshot (cfg : config) (seconds snap : Z) (tag : string) (c : captures) : list op :=
  (captureHeap cfg (cs_heap c) ++ captureCPU cfg seconds snap (cs_cpu c) ++
   captureEBeaconGoroutines cfg tag (cs_goroutines c) ++ captureSelf cfg tag (cs_self c))%list.

(** The snapshots of the ticks, then the one at the end. *)
Fixpoint capture_loop (cfg : config) (snap : Z) (ticks : list captures) (final : option captures) : list op :=
  match ticks with
  | [] => match final with Some c => capture_snapshot cfg 5 snap "shutdown" c | None => [] end
  | c :: ticks => (capture_snapshot cfg 30 snap ("snap" +:+ two_digits snap) c ++ capture_loop cfg (snap + 1) ticks final)%list
  end.

Definition runPprofCollector (cfg : config) (mkdir : bool) (first : captures) (ticks : list captures) (final : option captures) : list op :=
  if negb mkdir then []
  else
    (captureHeap cfg (cs_heap first) ++ captureEBeaconGoroutines cfg "startup" (cs_goroutines first) ++
     captureSelf cfg "startup" (cs_self first) ++ capture_loop cfg 1 ticks final)%list.

(** ** The report *)

Inductive headline := HZeroActivity (checkers : list string) | HIssues (n : Z) | HErrors (n : Z) | HNone.

Record report := {
  rp_total : Z;
  rp_headline : headline;
  rp_passed : bool;
  rp_hitRate : option float64;
  rp_issues : list (string * list mismatch);
  rp_files : list (bool * string);
}.

(** The counters that make up the total. *)
Definition total_issues (c : counters) : Z :=
  c immutableMismatches + c cacheAccuracyFails + c encodingFailures + c freshnessStalls + c sseGaps + c sseReorderings + c metricsFails.

Definition zero_activity (cfg : config) (c : counters) (elapsed : Z) : list string :=
  if 2 * Minute <=? elapsed then
    ((if (0 <? length (upstreamURLs cfg))%nat then
        (if c immutableChecks =? 0 then ["immutable"] else []) ++ (if c cacheHITs + c cacheMISSes =? 0 then ["cache-accuracy"] else [])
      else []) ++
     (if c encodingChecks =? 0 then ["encoding"] else []) ++
     (if c freshnessChecks =? 0 then ["freshness"] else []) ++
     (if c sseEvents =? 0 then ["sse"] else []))%list
  else [].

(** The entries grouped by kind, the kinds sorted. *)
Definition group_issues (log : list mismatch) : list (string * list mismatch) :=
  (λ k, (k, bfilter (λ m, String.eqb (mm_kind m) k) log)) <$> stable_sort String.ltb (remove_dups (mm_kind <$> log)).

(** [elapsed] has been rounded to seconds. *)
Definition printFinalReport (cfg : config) (h : harness) (elapsed : Z) : report :=
  let c := h_c h in
  let total := total_issues c in
  let zero := zero_activity cfg c elapsed in
  let total_cache := c cacheHITs + c cacheMISSes in
  {| rp_total := total;
     rp_headline :=
       match zero with
       | _ :: _ => HZeroActivity zero
       | [] => if 0 <? total then HIssues total else if 0 <? c ebeaconErrors then HErrors (c ebeaconErrors) else HNone
       end;
     rp_passed := (total =? 0) && (length zero =? 0)%nat && (c ebeaconErrors =? 0);
     rp_hitRate :=
       if 0 <? total_cache then Some (f64_div (f64_mul (f64_of_Z (c cacheHITs)) (f64_of_Z 100)) (f64_of_Z total_cache)) else None;
     rp_issues := group_issues (h_log h);
     rp_files := (λ p, (HasSuffix p ".pprof", p)) <$> h_files h |}.

(** ** The run *)

(** Everything the world does to a run. *)
Record world := {
  w_probe : client_reply;
  w_immutable : list (list io);
  w_accuracy : list (list io);
  w_freshness : list (io * Z);
  w_encoding : list (list io);
  w_stream : list connection;
  w_mkdir : bool;
  w_first : captures;
  w_ticks : list captures;
  w_final : option captures;
  w_watchdog : list client_reply;
  w_quiesce : client_reply;
}.

Definition goroutines (cfg : config) (w : world) : list (list op) :=
  [ runImmutableChecks cfg (w_immutable w);
    runCacheAccuracyChecks cfg (w_accuracy w);
    runCacheFreshnessChecks cfg (w_freshness w);
    runEncodingCompatibilityChecks cfg (w_encoding w);
    runSSEMonitor cfg (w_stream w);
    runPprofCollector cfg (w_mkdir w) (w_first w) (w_ticks w) (w_final w);
    runMetricsWatchdog cfg (w_watchdog w) ].

(** Whether the proxy can be reached at the start. *)
Definition reachable (cfg : config) (probe : client_reply) : bool :=
  bool_decide (is_Some (ok_result
    ((fetch (ebeaconBase cfg +:+ "/eth/v1/node/version") (auth cfg) (apiKey cfg) [{| io_reply := probe; io_done := false |}]).1.2.1))).

(** A ticker without a positive interval panics. *)
Definition tickers_ok (cfg : config) (w : world) : bool := (0 <? reportEvery cfg) && (negb (w_mkdir w) || (0 <? pprofEvery cfg)).

(** The exit code of [main], for an interleaving [l] of the goroutines. *)
Definition main_exit (iterate : gmap string float64 → list (string * float64)) (cfg : config) (w : world) (elapsed : Z) (l : list op) : Z :=
  if negb (reachable cfg (w_probe w)) then 1
  else if negb (tickers_ok cfg w) then 2
  else
    let h := run (l ++ checkQuiescedActiveConns iterate cfg (w_quiesce w))%list in
    if rp_passed (printFinalReport cfg h elapsed) then 0 else 1.

End checks.
