(* ===== verification/ReliabilitySafety.v ===== *)
(** * The reliability test: what its verdict means

    For [Reliability]: every issue that counts is logged, by composition of the checks ([balanced]); the
    verdict in terms of what the checkers have seen ([reliability_verdict]); and the stream monitor on events in
    the wire format ([monitor_exact]). *)

From S2P Require Import Prelude GoStrings GoFloat Config MemoryStore Url CacheKey Paths Headers SSE SSESafety Watch Harness Reliability.
From Stdlib Require Import Ascii SpecFloat.
#[local] Open Scope string_scope.
#[local] Open Scope Z_scope.

(** ** Counters and log: lemmas *)

Definition is_add (k : counter) (o : op) : bool := match o with OAdd k' => bool_decide (k' = k) | _ => false end.
Definition is_log (kind : string) (o : op) : bool := match o with OLog m => String.eqb (mm_kind m) kind | _ => false end.
Definition log_of (o : op) : option mismatch := match o with OLog m => Some m | _ => None end.

Lemma run_from l h : let h' := foldl run_op h l in
  (∀ k, h_c h' k = h_c h k + count (is_add k) l) ∧ h_log h' = (h_log h ++ omap log_of l)%list.
Proof.
  cbv zeta. revert h. induction l as [|o l IH]; intros h; cbn [foldl].
  { split; [intros k; rewrite count_nil; lia|]. cbn. by rewrite app_nil_r. }
  destruct (IH (run_op h o)) as [H1 H2]. split.
  - intros k. rewrite H1, count_cons. destruct o as [k'| |]; cbn [run_op h_c is_add]; try lia.
    destruct (decide (k' = k)), (bool_decide_reflect (k' = k)); first [lia|done].
  - rewrite H2. destruct o; cbn; by rewrite <- ?app_assoc.
Qed.

Lemma run_counter l k : h_c (run l) k = count (is_add k) l.
Proof. unfold run. rewrite (proj1 (run_from l harness_zero)). cbn. lia. Qed.

Lemma run_log l : h_log (run l) = omap log_of l.
Proof. unfold run. by rewrite (proj2 (run_from l harness_zero)). Qed.

Lemma added l k : 0 < count (is_add k) l ↔ OAdd k ∈ l.
Proof.
  split.
  - unfold count. intros H. destruct (bfilter (is_add k) l) as [|o l'] eqn:E; [simpl in H; lia|].
    assert (o ∈ bfilter (is_add k) l) as [Ho Hk]%elem_of_bfilter by (rewrite E; by left).
    destruct o as [k'| |]; try done. apply bool_decide_eq_true in Hk as ->. done.
  - intros H. pose proof (count_nonneg (is_add k) l). destruct (Z.eq_dec (count (is_add k) l) 0) as [E|]; [|lia].
    rewrite count_zero in E. specialize (E _ H). cbn in E. by apply bool_decide_eq_false in E.
Qed.

Lemma logged l kind : count (is_log kind) l = 0 ↔ ∀ m, m ∈ omap log_of l → mm_kind m ≠ kind.
Proof.
  rewrite count_zero. split.
  - intros H m Hm. apply list_elem_of_omap in Hm as (o & Ho & E). destruct o; try done. injection E as ->.
    specialize (H _ Ho). cbn in H. by apply String.eqb_neq.
  - intros H o Ho. destruct o as [|m|]; try done. cbn. apply String.eqb_neq, H, list_elem_of_omap. by exists (OLog m).
Qed.

(** ** Every issue that counts is logged: lemmas *)

(** The counters of the total, each with the kind of its log entries. *)
Definition issue_kinds : list (counter * string) :=
  [(immutableMismatches, "immutable-mismatch"); (cacheAccuracyFails, "cache-accuracy"); (encodingFailures, "encoding-compat");
   (freshnessStalls, "cache-freshness"); (sseGaps, "sse-gap"); (sseReorderings, "sse-reorder");
   (metricsFails, "metrics-active-conns-leak")].

Definition balance (p : counter * string) (o : op) : Z := (if is_add p.1 o then 1 else 0) - (if is_log p.2 o then 1 else 0).

Definition balanced (l : list op) : Prop := ∀ p, p ∈ issue_kinds → zsum (balance p) l = 0.

Lemma balanced_nil : balanced [].
Proof. by intros p _. Qed.

Lemma balanced_app l k : balanced l → balanced k → balanced (l ++ k)%list.
Proof. intros Hl Hk p Hp. rewrite zsum_app, Hl, Hk by done. done. Qed.

Lemma balanced_concat ls : (∀ l, l ∈ ls → balanced l) → balanced (concat ls).
Proof.
  induction ls as [|l ls IH]; intros H; [apply balanced_nil|]. simpl. apply balanced_app; [apply H; by left|].
  apply IH. intros k Hk. apply H. by right.
Qed.

Lemma balanced_bind {A} (f : A → list op) (l : list A) : (∀ x, balanced (f x)) → balanced (l ≫= f).
Proof. intros H. induction l as [|x l IH]; [apply balanced_nil|]. cbn. by apply balanced_app. Qed.

(** For a list of writes whose counters and kinds are known. *)
Ltac balance_list := intros p Hp; unfold issue_kinds in Hp; repeat (apply elem_of_cons in Hp as [->|Hp]; [reflexivity|]); by apply not_elem_of_nil in Hp.

Definition balanced_M {A} (m : M A) : Prop := ∀ s, balanced (ops_of m s).

Lemma balanced_mret {A} (x : A) : balanced_M (mret x).
Proof. intros s. apply balanced_nil. Qed.

Lemma balanced_mbind {A B} (m : M A) (f : A → M B) : balanced_M m → (∀ x, balanced_M (f x)) → balanced_M (m ≫= f).
Proof.
  intros Hm Hf s. unfold ops_of, mbind, M_bind. specialize (Hm s). unfold ops_of in Hm. destruct (m s) as [[o1 x] s1].
  specialize (Hf x s1). unfold ops_of in Hf. destruct (f x s1) as [[o2 y] s2]. by apply balanced_app.
Qed.

Lemma balanced_tell ops : balanced ops → balanced_M (tell ops).
Proof. by intros H s. Qed.

Lemma balanced_next : balanced_M next_io.
Proof. intros s. apply balanced_nil. Qed.

Lemma balanced_for_each {A} (f : A → M unit) l : (∀ x, balanced_M (f x)) → balanced_M (for_each f l).
Proof. intros H. induction l as [|x l IH]; cbn; [apply balanced_mret|]. by apply balanced_mbind. Qed.

Lemma balanced_rounds check scripts : balanced_M check → balanced (rounds check scripts).
Proof. intros H. apply balanced_concat. intros l (s & -> & _)%list_elem_of_fmap. apply H. Qed.

(** A check is balanced if its writes are, along every path. *)
Ltac balance_check :=
  repeat first
    [ apply balanced_mret | apply balanced_next | apply balanced_tell | apply balanced_for_each; intros ?
    | apply balanced_mbind; [|intros ?]
    | match goal with |- balanced_M (match ?x with _ => _ end) => destruct x end ];
  try done; repeat case_match; try apply balanced_nil; balance_list.

Section balance.
Context `{JL : JSONLib}.
Context (NewRequest_ok : string → string → bool) (gunzip : string → option string) (ParseFloat : string → option float64) (oob : float64 → Z).
Context (iterate : gmap string float64 → list (string * float64)).

Lemma balanced_immutable cfg scripts : balanced (runImmutableChecks NewRequest_ok gunzip cfg scripts).
Proof.
  apply balanced_rounds. unfold check_immutable, check_immutable_endpoint, compare_immutable, fetch, fetchWithOptions, recordEbeaconError.
  balance_check.
Qed.

Lemma balanced_accuracy cfg scripts : balanced (runCacheAccuracyChecks NewRequest_ok gunzip oob cfg scripts).
Proof.
  unfold runCacheAccuracyChecks. destruct (upstreamURLs cfg); [apply balanced_nil|]. apply balanced_rounds.
  unfold check_accuracy_endpoint, compare_slot, fetch, fetchWithOptions, recordEbeaconError, hit_or_miss. balance_check.
Qed.

Lemma balanced_encoding cfg scripts : balanced (runEncodingCompatibilityChecks NewRequest_ok gunzip oob cfg scripts).
Proof.
  apply balanced_rounds. unfold check_encodings, checkPath, check_sequence, resolveStableBinaryPath, fetch, fetchWithOptions, recordEbeaconError.
  balance_check.
Qed.

Lemma balanced_freshness cfg ticks : balanced (runCacheFreshnessChecks NewRequest_ok gunzip oob cfg ticks).
Proof.
  unfold runCacheFreshnessChecks. generalize {| ob_slot := 0; ob_seenAt := 0 |}. induction ticks as [|[i now] ticks IH]; intros last; [apply balanced_nil|].
  cbn [freshness_loop]. destruct (freshness_tick _ _ _ _ _ _ _) as [last' ops] eqn:E. apply balanced_app; [|apply IH].
  unfold freshness_tick, observe_slot, recordEbeaconError in E. repeat case_match; simplify_eq; try apply balanced_nil; balance_list.
Qed.

Lemma balanced_event now ev m : balanced (on_event now ev m).2.
Proof.
  unfold on_event, monitor_head, monitor_finalized.
  repeat case_match; cbn [snd]; try apply balanced_nil; balance_list.
Qed.

Lemma balanced_stream cfg cs : balanced (runSSEMonitor NewRequest_ok cfg cs).
Proof.
  assert (∀ now evs i m, balanced (on_events now i evs m).2) as Hev.
  { intros now evs. induction evs as [|ev evs IH]; intros i m; [apply balanced_nil|]. cbn [on_events].
    pose proof (balanced_event (now i) ev m). destruct (on_event _ _ _) as [m1 ops]. specialize (IH (S i) m1).
    destruct (on_events _ _ _ _) as [m2 ops']. by apply balanced_app. }
  unfold runSSEMonitor. generalize {| mo_slot := 0; mo_at := None; mo_epoch := 0 |}. induction cs as [|c cs IH]; intros m; [apply balanced_nil|].
  cbn [monitor_loop]. destruct (cn_stop c); [apply balanced_nil|]. specialize (Hev (cn_times c) (streamSSE NewRequest_ok cfg (cn_reply c)) 0%nat m).
  destruct (on_events _ _ _ _) as [m' ops]. apply (balanced_app [OAdd sseConnects]); [balance_list|]. apply balanced_app; [done|].
  destruct (cn_stopEnd c); [apply balanced_nil|]. apply (balanced_app [OAdd sseReconnects]); [balance_list|].
  destruct (cn_stopWait c); [apply balanced_nil|apply IH].
Qed.

Lemma balanced_pprof cfg mkdir first ticks final : balanced (runPprofCollector NewRequest_ok cfg mkdir first ticks final).
Proof.
  assert (∀ c, balanced (captureHeap NewRequest_ok cfg c)) as H1 by (intros c; unfold captureHeap; case_match; balance_list).
  assert (∀ sec snap c, balanced (captureCPU NewRequest_ok cfg sec snap c)) as H2 by (intros; unfold captureCPU; case_match; balance_list).
  assert (∀ tag c, balanced (captureEBeaconGoroutines NewRequest_ok cfg tag c)) as H3
    by (intros; unfold captureEBeaconGoroutines; case_match; balance_list).
  assert (∀ tag b, balanced (captureSelf cfg tag b)) as H4 by (intros; unfold captureSelf; case_match; [balance_list|apply balanced_nil]).
  unfold runPprofCollector. destruct (negb mkdir); [apply balanced_nil|]. repeat apply balanced_app; try done.
  generalize 1. induction ticks as [|c ticks IH]; intros snap; cbn [capture_loop].
  - destruct final; [|apply balanced_nil]. unfold capture_snapshot. by repeat apply balanced_app.
  - apply balanced_app; [|apply IH]. unfold capture_snapshot. by repeat apply balanced_app.
Qed.

Lemma balanced_watchdog cfg replies : balanced (runMetricsWatchdog NewRequest_ok ParseFloat cfg replies).
Proof.
  unfold runMetricsWatchdog. case_match; [apply balanced_nil|]. apply balanced_bind. intros r. case_match; [balance_list|apply balanced_nil].
Qed.

Lemma balanced_quiesce cfg reply : balanced (checkQuiescedActiveConns NewRequest_ok ParseFloat iterate cfg reply).
Proof.
  unfold checkQuiescedActiveConns. case_match; [apply balanced_nil|]. case_match; [|apply balanced_nil].
  apply (balanced_app [OAdd metricsChecks]); [balance_list|]. apply balanced_bind. intros x. case_match; [apply balanced_nil|balance_list].
Qed.

Lemma balance_counts p l : zsum (balance p) l = count (is_add p.1) l - count (is_log p.2) l.
Proof. induction l as [|o l IH]; [done|]. rewrite !count_cons. change (zsum (balance p) (o :: l)) with (balance p o + zsum (balance p) l). rewrite IH. unfold balance. lia. Qed.

Lemma balanced_total l : balanced l → total_issues (h_c (run l)) = zsum (λ p, count (is_log p.2) l) issue_kinds.
Proof.
  intros Hb. unfold total_issues. rewrite !run_counter.
  transitivity (zsum (λ p, count (is_add p.1) l) issue_kinds); [cbn; lia|].
  apply zsum_ext. intros p Hp. specialize (Hb p Hp). rewrite balance_counts in Hb. lia.
Qed.

(** The total is zero exactly when the log has no entry of a kind that counts. *)
Lemma no_issues l : balanced l →
  total_issues (h_c (run l)) = 0 ↔ ∀ m, m ∈ h_log (run l) → mm_kind m ∉ issue_kinds.*2.
Proof.
  intros Hb. rewrite (balanced_total l Hb), run_log. split.
  - intros H m Hm [p [E Hp]]%list_elem_of_fmap.
    assert (∀ q, q ∈ issue_kinds → count (is_log q.2) l = 0) as Hz.
    { revert H. generalize issue_kinds. intros ks. induction ks as [|q ks IH]; intros H r Hr; [by apply not_elem_of_nil in Hr|].
      cbn in H. pose proof (count_nonneg (is_log q.2) l). assert (0 <= zsum (λ p, count (is_log p.2) l) ks) as Hk.
      { clear. induction ks as [|q ks IH]; [done|]. cbn. pose proof (count_nonneg (is_log q.2) l). unfold zsum in IH. lia. }
      unfold zsum in Hk. apply elem_of_cons in Hr as [->|Hr]; [lia|]. apply IH; [unfold zsum; lia|done]. }
    by apply (proj1 (logged l p.2) (Hz p Hp) m Hm).
  - intros H. apply zsum_zero. intros p Hp. apply logged. intros m Hm E. apply (H m Hm). apply list_elem_of_fmap. by exists p.
Qed.

Lemma balanced_run cfg w l :
  interleaving (goroutines NewRequest_ok gunzip ParseFloat oob cfg w) l →
  balanced (l ++ checkQuiescedActiveConns NewRequest_ok ParseFloat iterate cfg (w_quiesce w))%list.
Proof.
  intros Hl. apply balanced_app; [|apply balanced_quiesce]. intros p Hp. rewrite (zsum_perm _ _ _ (interleaving_perm _ _ Hl)).
  revert p Hp. apply balanced_concat. intros k Hk. unfold goroutines in Hk.
  repeat (apply elem_of_cons in Hk as [->|Hk];
    [eauto using balanced_immutable, balanced_accuracy, balanced_freshness, balanced_encoding, balanced_stream, balanced_pprof, balanced_watchdog|]).
  by apply not_elem_of_nil in Hk.
Qed.

(** Each checker has completed something. *)
Definition active (cfg : config) (l : list op) : Prop :=
  (upstreamURLs cfg ≠ [] → OAdd immutableChecks ∈ l ∧ (OAdd cacheHITs ∈ l ∨ OAdd cacheMISSes ∈ l)) ∧
  OAdd encodingChecks ∈ l ∧ OAdd freshnessChecks ∈ l ∧ OAdd sseEvents ∈ l.

Lemma activity cfg l elapsed :
  zero_activity cfg (h_c (run l)) elapsed = [] ↔ (2 * Minute <= elapsed → active cfg l).
Proof.
  unfold zero_activity, active. rewrite !run_counter, <- !added.
  pose proof (count_nonneg (is_add immutableChecks) l). pose proof (count_nonneg (is_add cacheHITs) l).
  pose proof (count_nonneg (is_add cacheMISSes) l). pose proof (count_nonneg (is_add encodingChecks) l).
  pose proof (count_nonneg (is_add freshnessChecks) l). pose proof (count_nonneg (is_add sseEvents) l).
  destruct (Z.leb_spec (2 * Minute) elapsed); [|split; [lia|done]].
  destruct (upstreamURLs cfg) as [|u us]; cbn [length Nat.ltb Nat.leb];
    repeat match goal with |- context [?a =? 0] => destruct (Z.eqb_spec a 0) end; cbn [app];
    (split; [intros E; try discriminate E; intros _; split_and!; try lia; try done; intros _; lia|]);
    intros Hact; try done; destruct (Hact ltac:(done)) as (K1 & K2 & K3 & K4); try lia;
    specialize (K1 ltac:(done)); lia.
Qed.

(** ** Properties *)

End balance.

(** ** The stream monitor: lemmas *)

Definition CR : ascii := ascii_of_nat 13.

Lemma TrimRight_id c s : no_byte c s → TrimRight s (String c "") = s.
Proof.
  intros H. destruct (decide (s = "")) as [->|Hne]; [done|]. destruct (str_snoc s Hne) as (t & d & ->).
  apply no_byte_app in H as [_ [Hd _]%no_byte_cons]. unfold TrimRight. apply trim_right_snoc_false.
  unfold in_set. cbn. rewrite orb_false_r. apply Ascii.eqb_neq. congruence.
Qed.

Lemma dropCR_id s : no_byte CR s → dropCR s = s.
Proof.
  intros H. unfold dropCR, TrimSuffix. destruct (HasSuffix s _) eqn:E; [|done].
  apply HasSuffix_spec in E as [t ->]. by apply no_byte_app in H as [_ [? _]%no_byte_cons].
Qed.

(** A text of short lines without carriage returns is scanned into its lines. *)
Lemma Scan_lines max ls fails eager :
  Forall (λ l, no_byte LF l ∧ no_byte CR l ∧ str_len l < max) ls →
  Scan max {| rd_rest := printed_lines ls; rd_fails := fails; rd_eager := eager |} = (ls, if fails then ScanErr else ScanEOF).
Proof.
  intros H. unfold Scan. cbn [rd_rest rd_fails rd_eager].
  assert (Split (printed_lines ls) LF = (ls ++ [""])%list) as ->.
  { induction H as [|l ls (Hl & _) _ IH]; [done|]. cbn [printed_lines foldr]. fold (printed_lines ls). by rewrite Split_app, IH. }
  induction H as [|l ls (_ & Hc & Hm) Hls IH]; [done|]. cbn [app].
  change (scan_pieces max fails eager (l :: ls ++ [""])) with
    (match (ls ++ [""])%list with
     | [] => scan_pieces max fails eager [l]
     | _ => if max <=? str_len l then ([], ScanTooLong) else let '(k, e) := scan_pieces max fails eager (ls ++ [""]) in (dropCR l :: k, e)
     end).
  rewrite IH, (dropCR_id l Hc), (proj2 (Z.leb_gt _ _)) by lia. by destruct ls.
Qed.

(** An event as the relay writes it: the lines of its two fields and an empty one. *)
Definition wire (e : sseEvent) : list string := ["event: " +:+ se_type e; "data: " +:+ se_data e; ""].

(** A field that one line can hold. *)
Definition field_ok (s : string) : Prop := unspaced s ∧ no_byte LF s ∧ no_byte CR s ∧ str_len s < MaxScanTokenSize - 7.

Lemma parse_wire t d : field_ok t → field_ok d →
  parseSseEvent (("" +:+ ("event: " +:+ t) +:+ lf) +:+ ("data: " +:+ d) +:+ lf) = {| se_type := t; se_data := d |}.
Proof.
  intros (Ht & Lt & Ct & _) (Hd & Ld & Cd & _). unfold parseSseEvent.
  change ("" +:+ ("event: " +:+ t) +:+ lf) with (("event: " +:+ t) +:+ lf). rewrite str_app_assoc.
  change (lf +:+ ("data: " +:+ d) +:+ lf) with (String LF (("data: " +:+ d) +:+ lf)).
  rewrite Split_app by (apply no_byte_app; by split). change (("data: " +:+ d) +:+ lf) with (("data: " +:+ d) +:+ String LF "").
  rewrite Split_app by (apply no_byte_app; by split). cbn [foldl Split]. unfold sse_field.
  fold CR. rewrite !TrimRight_id by first [done|apply no_byte_app; by split].
  change ("event: " +:+ t) with ("event:" +:+ (" " +:+ t)). change ("data: " +:+ d) with ("data:" +:+ (" " +:+ d)).
  rewrite HasPrefix_app, TrimPrefix_app, (TrimSpace_unspaced t Ht).
  change (HasPrefix ("data:" +:+ (" " +:+ d)) "event:") with false. cbn iota.
  rewrite HasPrefix_app, TrimPrefix_app, (TrimSpace_unspaced d Hd). done.
Qed.

Lemma stream_wire es : Forall (λ e, field_ok (se_type e) ∧ field_ok (se_data e)) es → stream_lines "" (es ≫= wire) = es.
Proof.
  induction 1 as [|[t d] es [Ht Hd] _ IH]; [done|]. cbn [se_type se_data] in *.
  change (({| se_type := t; se_data := d |} :: es) ≫= wire) with (["event: " +:+ t; "data: " +:+ d; ""] ++ (es ≫= wire))%list.
  cbn [app stream_lines]. change (String.eqb ("event: " +:+ t) "") with false. change (String.eqb ("data: " +:+ d) "") with false. cbn iota.
  change (String.eqb "" "") with true. cbn iota. rewrite parse_wire by done.
  change (String.eqb (("" +:+ ("event: " +:+ t) +:+ lf) +:+ ("data: " +:+ d) +:+ lf) "") with false. cbn iota. by rewrite IH.
Qed.

Section monitor.
Context `{JL : JSONLib}.
Context (NewRequest_ok : string → string → bool).

(** Events on the wire are handed on exactly. *)
Lemma streamSSE_wire cfg h es fails eager :
  NewRequest_ok "GET" (sse_url cfg) = true →
  Forall (λ e, field_ok (se_type e) ∧ field_ok (se_data e)) es →
  streamSSE NewRequest_ok cfg (CResp 200 h {| rd_rest := printed_lines (es ≫= wire); rd_fails := fails; rd_eager := eager |}) = es.
Proof.
  intros Hr Hes. unfold streamSSE, sse_request. rewrite Hr. cbn [Z.eqb Pos.eqb]. rewrite Scan_lines; [by apply stream_wire|].
  induction Hes as [|e es [(_ & L1 & C1 & S1) (_ & L2 & C2 & S2)] _ IH]; [constructor|].
  change ((e :: es) ≫= wire) with (wire e ++ (es ≫= wire))%list. apply Forall_app. split; [|done].
  unfold wire, MaxScanTokenSize, str_len in *. repeat constructor; try (apply no_byte_app; by split); rewrite ?str_length_app; cbn; lia.
Qed.

(** The time and slot of a head event that can be read. *)
Definition head_of (now : Z) (ev : sseEvent) : option (Z * Z) :=
  if String.eqb (se_type ev) "head" then (λ slot, (now, slot)) <$> (json_slot_field (se_data ev) ≫= ParseUint) else None.

Fixpoint heads (now : nat → Z) (i : nat) (evs : list sseEvent) : list (Z * Z) :=
  match evs with
  | [] => []
  | ev :: evs => (match head_of (now i) ev with Some x => [x] | None => [] end ++ heads now (S i) evs)%list
  end.

(** The pairs of consecutive heads, the first after [prev]. *)
Fixpoint steps (prev : option (Z * Z)) (l : list (Z * Z)) : list ((Z * Z) * (Z * Z)) :=
  match l with
  | [] => []
  | x :: l => (match prev with Some p => [(p, x)] | None => [] end ++ steps (Some x) l)%list
  end.

Definition backward (s : (Z * Z) * (Z * Z)) : bool := s.2.2 <? s.1.2.
Definition silent (s : (Z * Z) * (Z * Z)) : bool := maxHeadInterval <? s.2.1 - s.1.1.

Definition seen (m : monitor) : option (Z * Z) := (λ t, (t, mo_slot m)) <$> mo_at m.

Lemma steps_app prev l k : steps prev (l ++ k)%list = (steps prev l ++ steps (match last l with Some x => Some x | None => prev end) k)%list.
Proof.
  revert prev. induction l as [|x l IH]; intros prev; [done|]. cbn [app steps]. rewrite IH, <- app_assoc. do 2 f_equal.
  rewrite last_cons. by destruct (last l).
Qed.

(** What is counted of a stretch of the stream, and what is remembered. *)
Definition counted (l : list op) (ss : list ((Z * Z) * (Z * Z))) : Prop :=
  count (is_add sseReorderings) l = count backward ss ∧ count (is_add sseGaps) l = count silent ss.

Lemma counted_app l k s t : counted l s → counted k t → counted (l ++ k)%list (s ++ t)%list.
Proof. intros [H1 H2] [K1 K2]. unfold counted. rewrite !count_app. lia. Qed.

Lemma on_event_counted now ev m :
  let '(m', ops) := on_event now ev m in
  counted ops (steps (seen m) (match head_of now ev with Some x => [x] | None => [] end)) ∧
  seen m' = match head_of now ev with Some x => Some x | None => seen m end.
Proof.
  unfold on_event, head_of. destruct (String.eqb (se_type ev) "head").
  - destruct (json_slot_field (se_data ev) ≫= ParseUint) as [slot|]; [|done]. split; [|done].
    unfold monitor_head, seen. cbn [fmap option_fmap option_map steps]. destruct (mo_at m) as [t|]; [|done].
    cbn [fmap option_fmap option_map app]. unfold counted. rewrite !count_cons, !count_nil. unfold backward, silent. cbn [fst snd is_add].
    destruct (maxHeadInterval <? now - t), (slot <? mo_slot m); done.
  - destruct (String.eqb (se_type ev) "finalized_checkpoint"); [|done].
    destruct (json_epoch_field (se_data ev) ≫= ParseUint) as [e|]; [|done]. split; [|done]. unfold monitor_finalized. by destruct (e <? mo_epoch m).
Qed.

Lemma on_events_counted now i evs m :
  let '(m', ops) := on_events now i evs m in
  counted ops (steps (seen m) (heads now i evs)) ∧
  seen m' = match last (heads now i evs) with Some x => Some x | None => seen m end.
Proof.
  revert i m. induction evs as [|ev evs IH]; intros i m; [done|]. cbn [on_events heads].
  pose proof (on_event_counted (now i) ev m) as H. destruct (on_event _ _ _) as [m1 ops]. destruct H as [H1 H2].
  specialize (IH (S i) m1). destruct (on_events _ _ _ _) as [m2 ops']. destruct IH as [I1 I2]. rewrite steps_app. split.
  - apply counted_app; [done|]. rewrite H2 in I1. by destruct (head_of (now i) ev).
  - rewrite I2, last_app, H2. destruct (last (heads now (S i) evs)); [done|]. by destruct (head_of (now i) ev).
Qed.

(** A connection that carries these events and then ends. *)
Record session := { sn_events : list sseEvent; sn_times : nat → Z; sn_fails : bool; sn_eager : bool }.

Definition session_ok (s : session) : Prop := Forall (λ e, field_ok (se_type e) ∧ field_ok (se_data e)) (sn_events s).

Definition session_conn (s : session) : connection :=
  {| cn_stop := false;
     cn_reply := CResp 200 ∅ {| rd_rest := printed_lines (sn_events s ≫= wire); rd_fails := sn_fails s; rd_eager := sn_eager s |};
     cn_times := sn_times s; cn_stopEnd := false; cn_stopWait := false |}.

Lemma monitor_loop_counted cfg ss m :
  NewRequest_ok "GET" (sse_url cfg) = true → Forall session_ok ss →
  let l := monitor_loop NewRequest_ok cfg m (session_conn <$> ss) in
  counted l (steps (seen m) (ss ≫= λ s, heads (sn_times s) 0 (sn_events s))) ∧
  count (is_add sseEvents) l = zsum (λ s, Z.of_nat (length (sn_events s))) ss.
Proof.
  intros Hr Hss. cbv zeta. revert m. induction Hss as [|s ss Hs _ IH]; intros m; [done|]. rewrite fmap_cons.
  cbn [monitor_loop session_conn cn_stop cn_reply cn_times cn_stopEnd cn_stopWait]. rewrite streamSSE_wire by done.
  pose proof (on_events_counted (sn_times s) 0 (sn_events s) m) as H.
  assert (∀ now evs i m, count (is_add sseEvents) (on_events now i evs m).2 = Z.of_nat (length evs)) as He.
  { clear. intros now evs. induction evs as [|ev evs IH]; intros i m; [done|]. cbn [on_events].
    assert (count (is_add sseEvents) (on_event (now i) ev m).2 = 1) as E.
    { unfold on_event, monitor_head, monitor_finalized. repeat case_match; done. }
    destruct (on_event _ _ _) as [m1 ops]. specialize (IH (S i) m1). destruct (on_events _ _ _ _) as [m2 ops']. cbn [snd length] in *.
    rewrite count_app. lia. }
  specialize (He (sn_times s) (sn_events s) 0%nat m). destruct (on_events _ _ _ _) as [m1 ops]. cbn [snd] in He. destruct H as [H1 H2].
  destruct (IH m1) as [I1 I2].
  change ((s :: ss) ≫= λ s, heads (sn_times s) 0 (sn_events s))
    with (heads (sn_times s) 0 (sn_events s) ++ (ss ≫= λ s, heads (sn_times s) 0 (sn_events s)))%list.
  rewrite steps_app. rewrite <- H2. split.
  - apply (counted_app [OAdd sseConnects] _ []); [done|]. apply counted_app; [done|]. by apply (counted_app [OAdd sseReconnects] _ []).
  - rewrite count_cons, count_app, count_cons, I2, He. change (is_add sseEvents (OAdd sseConnects)) with false.
    change (is_add sseEvents (OAdd sseReconnects)) with false. cbn iota. rewrite !Z.add_0_l. done.
Qed.

(** The stream monitor of the reliability test counts exactly.  Over connections that carry any events in the wire format, each
    ending in any way, it counts every event once, one reordering for every head event whose slot is below that of the head event before
    it, and one gap for every two consecutive head events more than three slots apart, also across a reconnection. *)
Theorem monitor_exact cfg ss :
  NewRequest_ok "GET" (sse_url cfg) = true → Forall session_ok ss →
  let h := run (runSSEMonitor NewRequest_ok cfg (session_conn <$> ss)) in
  let s := steps None (ss ≫= λ s, heads (sn_times s) 0 (sn_events s)) in
  h_c h sseReorderings = count backward s ∧ h_c h sseGaps = count silent s ∧
  h_c h sseEvents = zsum (λ s, Z.of_nat (length (sn_events s))) ss.
Proof.
  intros Hr Hss h s. unfold h. rewrite !run_counter.
  destruct (monitor_loop_counted cfg ss {| mo_slot := 0; mo_at := None; mo_epoch := 0 |} Hr Hss) as [[H1 H2] H3]. by split_and!.
Qed.
End monitor.

(** A response whose data has no slot is never compared with an upstream, whatever it says: as for the roots and the finality
    checkpoints, three of the four endpoints of the cache accuracy check. *)
Lemma slotless_not_compared `{JL : JSONLib} NewRequest_ok gunzip oob upURL ep res fields data s :
  json_Unmarshal (fr_body res) = Some (JObject fields) → json_get "data" (JObject fields) = JObject data →
  Forall (λ x, x.1 ≠ "slot" ∧ x.1 ≠ "header" ∧ x.1 ≠ "message") data →
  compare_slot NewRequest_ok gunzip oob upURL ep res s = ([], tt, s).
Proof.
  intros Hj Hd Hf. unfold compare_slot, extractSlot. rewrite Hj. cbv zeta. rewrite Hd. cbn [is_object negb orb].
  assert (∀ key, key ∈ ["slot"; "header"; "message"] → json_get key (JObject data) = JNull) as Hn.
  { intros key Hk. cbn [json_get]. destruct (find_first _ data) as [x|] eqn:E; [|done].
    apply find_first_Some in E as [Hx E%String.eqb_eq]. rewrite Forall_forall in Hf. destruct (Hf x Hx) as (H1 & H2 & H3).
    repeat (apply elem_of_cons in Hk as [->|Hk]; [done|]). by apply not_elem_of_nil in Hk. }
  rewrite !Hn by (repeat constructor). done.
Qed.

(** ** Examples *)

Module RelDemo.

Definition demo_json : JSONLib :=
  {| json_Unmarshal := λ _, None; json_Marshal := λ _, ""; json_slot_field := λ s, Some s; json_epoch_field := λ s, Some s |}.

Definition demo_config : config :=
  {| ebeaconBase := "http://127.0.0.1:5555/mainnet"; upstreamURLs := ["http://localhost:5052"]; metricsURL := ""; pprofAddr := "";
     pprofDir := "/tmp"; pprofEvery := 10 * Minute; duration := 30 * Minute; reportEvery := Minute; auth := ""; apiKey := ""; timeout := 15 * Second |}.

Definition no_reply : capture := {| ca_tag := ""; ca_reply := CErr; ca_written := false |}.
Definition no_captures : captures := {| cs_heap := no_reply; cs_cpu := no_reply; cs_goroutines := no_reply; cs_self := false |}.

Definition ok_body (s : string) : client_reply := CResp 200 ∅ {| rd_rest := s; rd_fails := false; rd_eager := true |}.

Definition demo_world (stream : list connection) : world :=
  {| w_probe := ok_body ""; w_immutable := []; w_accuracy := []; w_freshness := []; w_encoding := []; w_stream := stream; w_mkdir := false;
     w_first := no_captures; w_ticks := []; w_final := None; w_watchdog := []; w_quiesce := CErr |}.

(** Two finalized checkpoints, the second below the first. *)
Definition demo_session : session :=
  {| sn_events := [{| se_type := "finalized_checkpoint"; se_data := "5" |}; {| se_type := "finalized_checkpoint"; se_data := "4" |}];
     sn_times := λ i, Z.of_nat i * Second; sn_fails := false; sn_eager := false |}.

Definition demo_ops : list op :=
  concat (goroutines (JL := demo_json) (λ _ _, true) Some (λ _, None) (λ _, 0) demo_config (demo_world [session_conn demo_session])).

Definition demo_exit : Z :=
  main_exit (λ _ _, true) Some (λ _, None) map_to_list demo_config (demo_world [session_conn demo_session]) Minute demo_ops.

(** A finalized epoch that goes backwards is logged as an issue, and the test passes. *)
Lemma finality_regression_passes :
  demo_exit = 0 ∧ mm_kind <$> h_log (run demo_ops) = ["sse-finality-reorder"].
Proof. by vm_compute. Qed.


(** Three heads over two connections: one step back, one silence. *)
Definition demo_heads : list session :=
  [{| sn_events := [{| se_type := "head"; se_data := "100" |}; {| se_type := "head"; se_data := "99" |}];
      sn_times := λ i, Z.of_nat i * Second; sn_fails := false; sn_eager := false |};
   {| sn_events := [{| se_type := "head"; se_data := "104" |}]; sn_times := λ _, 60 * Second; sn_fails := true; sn_eager := true |}].

Lemma monitor_exact_witness :
  let h := run (runSSEMonitor (JL := demo_json) (λ _ _, true) demo_config (session_conn <$> demo_heads)) in
  h_c h sseReorderings = 1 ∧ h_c h sseGaps = 1 ∧ h_c h sseEvents = 3.
Proof.
  destruct (monitor_exact (JL := demo_json) (λ _ _, true) demo_config demo_heads) as (H1 & H2 & H3).
  - done.
  - unfold demo_heads, session_ok, field_ok, unspaced. repeat constructor.
  - cbv zeta. rewrite H1, H2, H3. clear H1 H2 H3. by vm_compute.
Defined.

(** The relay's keep-alive is an event for the monitor: a stream without events passes for an active one. *)
Lemma ping_is_counted :
  let h := run (runSSEMonitor (JL := demo_json) (λ _ _, true) demo_config
    [{| cn_stop := false; cn_reply := ok_body (": ping" +:+ lf +:+ lf); cn_times := λ _, 0; cn_stopEnd := true; cn_stopWait := false |}]) in
  h_c h sseEvents = 1.
Proof. by vm_compute. Qed.

End RelDemo.
