(* ===== verification/UpstreamGauges.v ===== *)
(** * The series of an upstream

    [upstream/upstream.go]: the gauges and counters that the operations of an upstream write beside its fields.
    [gauge_op] are the operations, [do_op] one of them on the upstream and its series, in the order of the code.  The operations come one
    after the other: several set their gauge after they have released the lock, and what interleaving does to such a gauge
    is the subject of [ActiveGauge]. *)

From S2P Require Import Prelude GoStrings GoFloat Config CircuitBreaker ScoreTracker AutoTuner Upstream Harness.
#[local] Open Scope Z_scope.

(** The series of one upstream; [us_headPayloadFull] may be deleted. *)
Record series := {
  us_health : float64;
  us_cbState : float64;
  us_activeConns : float64;
  us_headSlot : float64;
  us_headPayloadFull : option float64;
  us_syncDistance : float64;
  us_finalizedEpoch : float64;
  us_archive : float64;
  us_requests : Z;
  us_errors : Z;
}.

Definition cb_val (s : CBState) : Z := match s with CBClosed => 0 | CBOpen => 1 | CBHalfOpen => 2 end.

Definition set_health_gauge (h : HealthStatus) (g : series) : series :=
  {| us_health := f64_of_Z (hs_val h); us_cbState := us_cbState g; us_activeConns := us_activeConns g; us_headSlot := us_headSlot g;
     us_headPayloadFull := us_headPayloadFull g; us_syncDistance := us_syncDistance g; us_finalizedEpoch := us_finalizedEpoch g;
     us_archive := us_archive g; us_requests := us_requests g; us_errors := us_errors g |}.
Definition set_cb_gauge (s : CBState) (g : series) : series :=
  {| us_health := us_health g; us_cbState := f64_of_Z (cb_val s); us_activeConns := us_activeConns g; us_headSlot := us_headSlot g;
     us_headPayloadFull := us_headPayloadFull g; us_syncDistance := us_syncDistance g; us_finalizedEpoch := us_finalizedEpoch g;
     us_archive := us_archive g; us_requests := us_requests g; us_errors := us_errors g |}.
Definition set_active_gauge (v : Z) (requests : Z) (g : series) : series :=
  {| us_health := us_health g; us_cbState := us_cbState g; us_activeConns := f64_of_Z v; us_headSlot := us_headSlot g;
     us_headPayloadFull := us_headPayloadFull g; us_syncDistance := us_syncDistance g; us_finalizedEpoch := us_finalizedEpoch g;
     us_archive := us_archive g; us_requests := us_requests g + requests; us_errors := us_errors g |}.
Definition set_head_gauge (slot : Z) (g : series) : series :=
  {| us_health := us_health g; us_cbState := us_cbState g; us_activeConns := us_activeConns g; us_headSlot := f64_of_Z slot;
     us_headPayloadFull := us_headPayloadFull g; us_syncDistance := us_syncDistance g; us_finalizedEpoch := us_finalizedEpoch g;
     us_archive := us_archive g; us_requests := us_requests g; us_errors := us_errors g |}.
Definition set_payload_gauge (v : option float64) (g : series) : series :=
  {| us_health := us_health g; us_cbState := us_cbState g; us_activeConns := us_activeConns g; us_headSlot := us_headSlot g;
     us_headPayloadFull := v; us_syncDistance := us_syncDistance g; us_finalizedEpoch := us_finalizedEpoch g;
     us_archive := us_archive g; us_requests := us_requests g; us_errors := us_errors g |}.
Definition set_sync_gauge (dist : Z) (g : series) : series :=
  {| us_health := us_health g; us_cbState := us_cbState g; us_activeConns := us_activeConns g; us_headSlot := us_headSlot g;
     us_headPayloadFull := us_headPayloadFull g; us_syncDistance := f64_of_Z dist; us_finalizedEpoch := us_finalizedEpoch g;
     us_archive := us_archive g; us_requests := us_requests g; us_errors := us_errors g |}.
Definition set_finalized_gauge (epoch : Z) (g : series) : series :=
  {| us_health := us_health g; us_cbState := us_cbState g; us_activeConns := us_activeConns g; us_headSlot := us_headSlot g;
     us_headPayloadFull := us_headPayloadFull g; us_syncDistance := us_syncDistance g; us_finalizedEpoch := f64_of_Z epoch;
     us_archive := us_archive g; us_requests := us_requests g; us_errors := us_errors g |}.
Definition count_error (g : series) : series :=
  {| us_health := us_health g; us_cbState := us_cbState g; us_activeConns := us_activeConns g; us_headSlot := us_headSlot g;
     us_headPayloadFull := us_headPayloadFull g; us_syncDistance := us_syncDistance g; us_finalizedEpoch := us_finalizedEpoch g;
     us_archive := us_archive g; us_requests := us_requests g; us_errors := us_errors g + 1 |}.

Section gauges.
Context `{RL : RateLib}.
Implicit Types u : Upstream RL.

(** The end of [New]. *)
Definition initial_series u : series :=
  {| us_health := f64_of_Z (hs_val HealthUp); us_cbState := f64_of_Z 0; us_activeConns := f64_of_Z 0; us_headSlot := f64_of_Z 0;
     us_headPayloadFull := None; us_syncDistance := f64_of_Z 0; us_finalizedEpoch := f64_of_Z 0;
     us_archive := f64_of_Z (if u_Archive u then 1 else 0); us_requests := 0; us_errors := 0 |}.

Definition syncPayloadGaugeLocked u (g : series) : series :=
  let s := u_state u in
  if String.eqb (hs_payloadRoot s) "" || negb (String.eqb (hs_payloadRoot s) (hs_headRoot s)) then set_payload_gauge None g
  else set_payload_gauge (Some (f64_of_Z (if hs_payloadFull s then 1 else 0))) g.

(** [cbTransitionLocked] writes the gauge exactly when it changes the state; every operation of the breaker calls it at most once. *)
Definition cb_gauge (before after : Upstream RL) (g : series) : series :=
  if decide (cbState (u_cb before) = cbState (u_cb after)) then g else set_cb_gauge (cbState (u_cb after)) g.

Inductive gauge_op :=
  | GSetHealth (h : HealthStatus)
  | GNodeVerdict (v : HealthStatus)
  | GSyncVerdict (v : HealthStatus)
  | GSyncStatus (isSyncing : bool) (headSlot syncDistance : Z)
  | GFinalized (epoch : Z)
  | GHead (slot : Z) (root : string)
  | GPayload (root : string) (full : bool)
  | GClearPayload
  | GDo (now : Z) (r : transport_result)
  | GClose
  | GSettle (t : CBToken) (o : cbOutcome) (now : Z)
  | GCBFailure (now : Z)
  | GRecordError.

Definition do_op (s : Upstream RL * series) (o : gauge_op) : Upstream RL * series :=
  let '(u, g) := s in
  match o with
  | GSetHealth h => let u := SetHealth h u in (u, set_health_gauge (Upstream_Health u) g)
  | GNodeVerdict v => let u := setNodeVerdict v u in (u, set_health_gauge (Upstream_Health u) g)
  | GSyncVerdict v => let u := setSyncVerdict v u in (u, set_health_gauge (Upstream_Health u) g)
  | GSyncStatus isSyncing headSlot syncDistance =>
      let u := UpdateSyncStatus isSyncing headSlot syncDistance u in
      (u, set_sync_gauge syncDistance (set_head_gauge headSlot (set_health_gauge (Upstream_Health u) g)))
  | GFinalized epoch =>
      (Upstream_UpdateFinalizedEpoch epoch u, if Upstream_FinalizedEpoch u <? epoch then set_finalized_gauge epoch g else g)
  | GHead slot root => let u := UpdateHeadBlock slot root u in (u, set_head_gauge slot (syncPayloadGaugeLocked u g))
  | GPayload root full => let u := SetHeadPayloadStatus root full u in (u, syncPayloadGaugeLocked u g)
  | GClearPayload => let u := ClearHeadPayloadStatus u in (u, syncPayloadGaugeLocked u g)
  | GDo now r =>
      let '(u', res, _) := Upstream_Do now r u in
      let g := cb_gauge u u' g in
      (u', match res with
           | DoRefused => g
           | _ =>
               let g := set_active_gauge (wrap_i64 (u_activeConns u + 1)) 1 g in
               match r with
               | TransportResp _ true => g
               | _ => set_active_gauge (u_activeConns u') 0 g
               end
           end)
  | GClose => let u := DecrActive u in (u, set_active_gauge (u_activeConns u) 0 g)
  | GSettle t o now => let u' := Upstream_settle t o now u in (u', cb_gauge u u' g)
  | GCBFailure now => let u' := with_cb (CBFailure now) u in (u', cb_gauge u u' g)
  | GRecordError => (u, count_error g)
  end.

(** ** The gauges show the fields *)

Record in_sync u (g : series) : Prop := {
  sync_health : us_health g = f64_of_Z (hs_val (Upstream_Health u));
  sync_cb : us_cbState g = f64_of_Z (cb_val (cbState (u_cb u)));
  sync_active : us_activeConns g = f64_of_Z (u_activeConns u);
  sync_head : us_headSlot g = f64_of_Z (HeadSlot u);
  sync_payload : us_headPayloadFull g =
    if String.eqb (HeadPayloadStatus u) "unknown" then None
    else Some (f64_of_Z (if String.eqb (HeadPayloadStatus u) "full" then 1 else 0));
  sync_distance : us_syncDistance g = f64_of_Z (SyncDistance u);
  sync_finalized : us_finalizedEpoch g = f64_of_Z (Upstream_FinalizedEpoch u);
  sync_archive : us_archive g = f64_of_Z (if u_Archive u then 1 else 0);
}.

Lemma payload_gauge u g :
  us_headPayloadFull (syncPayloadGaugeLocked u g) =
    if String.eqb (HeadPayloadStatus u) "unknown" then None
    else Some (f64_of_Z (if String.eqb (HeadPayloadStatus u) "full" then 1 else 0)).
Proof. unfold syncPayloadGaugeLocked, HeadPayloadStatus. cbv zeta. destruct (_ || _); [done|]. by destruct (hs_payloadFull _). Qed.

Lemma sync_payload_other u g :
  let g' := syncPayloadGaugeLocked u g in
  us_health g' = us_health g ∧ us_cbState g' = us_cbState g ∧ us_activeConns g' = us_activeConns g ∧ us_headSlot g' = us_headSlot g ∧
  us_syncDistance g' = us_syncDistance g ∧ us_finalizedEpoch g' = us_finalizedEpoch g ∧ us_archive g' = us_archive g.
Proof. unfold syncPayloadGaugeLocked. cbv zeta. by destruct (_ || _). Qed.

(** An operation of the breaker. *)
Lemma in_sync_cb u c g : in_sync u g → in_sync (with_cb c u) (cb_gauge u (with_cb c u) g).
Proof.
  intros [H1 H2 H3 H4 H5 H6 H7 H8]. unfold cb_gauge. destruct (decide _) as [E|]; split; try done. cbn [u_cb with_cb] in *. by rewrite <- E.
Qed.

Lemma in_sync_payload u g (f : HealthState → HealthState) :
  Upstream_Health (with_state f u) = Upstream_Health u → HeadSlot (with_state f u) = HeadSlot u →
  SyncDistance (with_state f u) = SyncDistance u → Upstream_FinalizedEpoch (with_state f u) = Upstream_FinalizedEpoch u →
  in_sync u g → in_sync (with_state f u) (syncPayloadGaugeLocked (with_state f u) g).
Proof.
  intros E1 E2 E3 E4 [H1 H2 H3 H4 _ H6 H7 H8]. destruct (sync_payload_other (with_state f u) g) as (G1 & G2 & G3 & G4 & G6 & G7 & G8).
  split; [by rewrite G1, E1|by rewrite G2|by rewrite G3|by rewrite G4, E2|apply payload_gauge|by rewrite G6, E3|by rewrite G7, E4|by rewrite G8].
Qed.

Lemma in_sync_active u v g requests : in_sync u g → in_sync (with_active v u) (set_active_gauge v requests g).
Proof. by intros []; split. Qed.

Lemma in_sync_limiter u l g : in_sync u g → in_sync (with_limiter l u) g.
Proof. by intros []; split. Qed.

Lemma in_sync_do now r u g : in_sync u g → in_sync (do_op (u, g) (GDo now r)).1 (do_op (u, g) (GDo now r)).2.
Proof.
  intros H. cbn [do_op]. unfold Upstream_Do. destruct (CBTryAcquire _ _ _) as [[c tok] ok].
  apply (in_sync_cb u (λ _, c)) in H. set (u1 := with_cb _ u) in *. destruct ok; cbn [negb]; [|done].
  unfold ConsumeRateToken, IncrActive, TrackResponse, DecrActive.
  apply (in_sync_limiter _ (AutoTuner_Consume now <$> u_rateLimiter u1)), (in_sync_active _ (wrap_i64 (u_activeConns u + 1)) _ 1) in H.
  destruct r as [err|status []]; cbn [fst snd]; [|exact H|]; by apply (in_sync_active _ (wrap_i64 (wrap_i64 (u_activeConns u + 1) - 1)) _ 0) in H.
Qed.

Lemma in_sync_step s o : in_sync s.1 s.2 → in_sync (do_op s o).1 (do_op s o).2.
Proof.
  destruct s as [u g]. cbn [fst snd]. intros H. destruct o as [| | | |epoch|slot root|root full| |now r| |t o now|now|].
  1-4: by destruct H; split.
  - cbn [do_op fst snd]. unfold Upstream_UpdateFinalizedEpoch. unfold Upstream_FinalizedEpoch. destruct (_ <? epoch) eqn:E; destruct H; split; try done; unfold Upstream_Health, HeadSlot, SyncDistance, HeadPayloadStatus, Upstream_FinalizedEpoch in *; cbn [u_state with_state]; by rewrite ?E.
  - cbn [do_op fst snd]. destruct H as [H1 H2 H3 _ _ H6 H7 H8].
    destruct (sync_payload_other (UpdateHeadBlock slot root u) g) as (G1 & G2 & G3 & G4 & G6 & G7 & G8).
    split; cbn [set_head_gauge us_health us_cbState us_activeConns us_headSlot us_headPayloadFull us_syncDistance us_finalizedEpoch us_archive];
      [by rewrite G1|by rewrite G2|by rewrite G3|done|apply payload_gauge|by rewrite G6|by rewrite G7|by rewrite G8].
  - by apply in_sync_payload.
  - by apply in_sync_payload.
  - by apply in_sync_do.
  - by apply in_sync_active.
  - by apply in_sync_cb.
  - by apply in_sync_cb.
  - by destruct H; split.
Qed.

(** Whatever operations an upstream has seen since it was made, one after the other, its gauges show its fields; the payload gauge is exposed exactly
    while the payload of the current head is known. *)
Theorem series_in_sync now networkID cfg defaultCB window ops :
  let u0 := Upstream_New now networkID cfg defaultCB window in
  let '(u, g) := foldl do_op (u0, initial_series u0) ops in in_sync u g.
Proof.
  cbv zeta. set (u0 := Upstream_New _ _ _ _ _). assert (in_sync u0 (initial_series u0)) as H by (by split). revert H.
  generalize (initial_series u0). generalize u0. induction ops as [|o ops IH]; intros u g H; [done|].
  cbn [foldl]. pose proof (in_sync_step (u, g) o H) as H'. destruct (do_op (u, g) o) as [u' g']. by apply IH.
Qed.
End gauges.
