(* ===== verification/ActiveGauge.v ===== *)
(** * The gauge of active connections

    [upstream/upstream.go]: [IncrActive] and [DecrActive] change the counter of an upstream's requests in flight and then
    set a Prometheus gauge to the value they got.  The counter is one atomic addition, but addition and
    setting are two steps, and other goroutines run in between.  Here the two steps are apart ([gauge_step], along a
    schedule of goroutines); elsewhere in this development only the counter is kept. *)

From S2P Require Import Prelude GoFloat Config Harness.
From Stdlib Require Import SpecFloat.
#[local] Open Scope Z_scope.

(** Where a goroutine is in [IncrActive] ([PAdd 1]) or [DecrActive] ([PAdd (-1)]). *)
Inductive pc := PAdd (d : Z) | PSet (v : Z) | PDone.

Record gauge := { g_active : Z; g_gauge : float64; g_pcs : list pc }.

(** One step of the [i]th goroutine. *)
Definition gauge_step (g : gauge) (i : nat) : gauge :=
  match g_pcs g !! i with
  | Some (PAdd d) =>
      let v := wrap_i64 (g_active g + d) in
      {| g_active := v; g_gauge := g_gauge g; g_pcs := <[i := PSet v]> (g_pcs g) |}
  | Some (PSet v) => {| g_active := g_active g; g_gauge := f64_of_Z v; g_pcs := <[i := PDone]> (g_pcs g) |}
  | _ => g
  end.

Definition gauge_run (sched : list nat) (g : gauge) : gauge := foldl gauge_step g sched.

(** Goroutines that are about to change the counter. *)
Definition gauge_start (active : Z) (ds : list Z) : gauge :=
  {| g_active := active; g_gauge := f64_of_Z active; g_pcs := PAdd <$> ds |}.

(** ** The counter *)

(** What a goroutine has still to add. *)
Definition owed (p : pc) : Z := match p with PAdd d => d | _ => 0 end.

Lemma zsum_insert {A} (f : A → Z) (l : list A) i x y : l !! i = Some x → zsum f (<[i := y]> l) = zsum f l - f x + f y.
Proof.
  revert i. induction l as [|z l IH]; intros [|i] Hi; try done; cbn in Hi.
  - injection Hi as ->. cbn. lia.
  - change (f z + zsum f (<[i := y]> l) = f z + zsum f l - f x + f y). rewrite (IH i Hi). lia.
Qed.

Lemma gauge_step_counter g i :
  (g_active (gauge_step g i) + zsum owed (g_pcs (gauge_step g i))) mod u64_modulus = (g_active g + zsum owed (g_pcs g)) mod u64_modulus.
Proof.
  unfold gauge_step. destruct (g_pcs g !! i) as [[d|v|]|] eqn:E; cbn [g_active g_pcs]; try done; rewrite (zsum_insert _ _ _ _ _ E); cbn [owed].
  - rewrite Zplus_mod, wrap_i64_congr, <- Zplus_mod. f_equal. lia.
  - f_equal. lia.
Qed.

(** The counter is exact under every schedule: it lacks only what goroutines have still to add. *)
Lemma gauge_counter_exact sched active ds :
  let g := gauge_run sched (gauge_start active ds) in
  (g_active g + zsum owed (g_pcs g)) mod u64_modulus = (active + zsum id ds) mod u64_modulus.
Proof.
  cbv zeta. assert (∀ g, (g_active (gauge_run sched g) + zsum owed (g_pcs (gauge_run sched g))) mod u64_modulus =
    (g_active g + zsum owed (g_pcs g)) mod u64_modulus) as H.
  { induction sched as [|i sched IH]; intros g; [done|]. cbn [gauge_run foldl]. fold (gauge_run sched (gauge_step g i)).
    by rewrite IH, gauge_step_counter. }
  rewrite H. cbn [gauge_start g_active g_pcs]. by rewrite zsum_fmap.
Qed.

(** ** The gauge *)

(** Goroutines that finish before the next one starts leave the gauge at the counter. *)
Definition in_turn (n : nat) : list nat := seq 0 n ≫= λ i, [i; i].

Lemma gauge_step_twice finished rest active v d :
  let i := length finished in
  gauge_step (gauge_step {| g_active := active; g_gauge := v; g_pcs := finished ++ PAdd d :: rest |} i) i =
  {| g_active := wrap_i64 (active + d); g_gauge := f64_of_Z (wrap_i64 (active + d)); g_pcs := finished ++ PDone :: rest |}.
Proof.
  intros i. assert (∀ x y, <[i := y]> (finished ++ x :: rest) = finished ++ y :: rest) as Hi.
  { intros x y. unfold i. rewrite insert_app_r_alt by done. by rewrite Nat.sub_diag. }
  assert (∀ x, (finished ++ x :: rest) !! i = Some x) as Hl by (intros x; by apply list_lookup_middle).
  unfold gauge_step at 2. cbn [g_pcs g_active g_gauge]. rewrite Hl, Hi. unfold gauge_step. cbn [g_pcs g_active g_gauge]. by rewrite Hl, Hi.
Qed.

Lemma in_turn_from finished active ds :
  let g := gauge_run (seq (length finished) (length ds) ≫= λ i, [i; i])
             {| g_active := active; g_gauge := f64_of_Z active; g_pcs := finished ++ (PAdd <$> ds) |} in
  g_gauge g = f64_of_Z (g_active g).
Proof.
  cbv zeta. revert finished active. induction ds as [|d ds IH]; intros finished active; [done|]. rewrite fmap_cons.
  specialize (IH (finished ++ [PDone]) (wrap_i64 (active + d))). rewrite length_app, Nat.add_1_r, <- app_assoc in IH.
  pose proof (gauge_step_twice finished (PAdd <$> ds) active (f64_of_Z active) d) as E. cbv zeta in E.
  change (seq (length finished) (length (d :: ds)) ≫= λ i, [i; i])
    with (length finished :: length finished :: (seq (S (length finished)) (length ds) ≫= λ i, [i; i])).
  cbn [gauge_run foldl]. rewrite E. exact IH.
Qed.

Lemma gauge_in_turn active ds :
  let g := gauge_run (in_turn (length ds)) (gauge_start active ds) in g_gauge g = f64_of_Z (g_active g).
Proof. apply (in_turn_from []). Qed.

(** Two requests that end at the same time: the second to subtract sets the gauge first.  Both are over, the counter is
    zero, and the gauge stays at one. *)
Lemma gauge_stale :
  let g := gauge_run [0; 1; 1; 0]%nat (gauge_start 2 [-1; -1]) in
  g_pcs g = [PDone; PDone] ∧ g_active g = 0 ∧ g_gauge g = f64_of_Z 1.
Proof. by vm_compute. Qed.
