(* ===== verification/Metrics.v ===== *)
(** * Metrics of a request

    [network/request_metrics.go] and the places of [network/network.go] and [upstream/pool.go] that write to its
    series.  [ServeHTTP_metrics] follows [ServeHTTP] and is the list of writes a request makes; [Proxy_metrics] adds the
    identity that [proxy/proxy.go] stores in the request's context ([reqctx/reqctx.go]).

    The series of a [Network] are curried with its name, so that the name is not repeated here.  A histogram is written by an
    observation, of which only the labels are kept. *)

From S2P Require Import Prelude GoStrings GoFloat Config CircuitBreaker ScoreTracker AutoTuner BlockCache.
From S2P Require Import Upstream Selector PoolOrder Pool PoolState Health MemoryStore Regexp Cache ApiPath Url CacheKey Paths Historical Session HeadWatcher Consensus Routing ConfigFile Headers Exec Ownership ExecSafety ExecBounds Hedge Serve ServeSafety Proxy ProxySafety Harness.
#[local] Open Scope string_scope.
#[local] Open Scope Z_scope.

(** ** The request's context *)

(** A chain of [context.WithValue]; a key is its type and its value, a value may be of any type. *)
Inductive ctx_value := VString (s : string) | VOther.
Inductive Context_ := Background | WithValue (parent : Context_) (key : string * Z) (v : ctx_value).

Fixpoint Value (c : Context_) (key : string * Z) : option ctx_value :=
  match c with
  | Background => None
  | WithValue parent k v => if bool_decide (k = key) then Some v else Value parent key
  end.

Definition apiKeyIDKey : string * Z := ("reqctx.contextKey", 0).
Definition WithAPIKeyID (c : Context_) (keyID : string) : Context_ := WithValue c apiKeyIDKey (VString keyID).
Definition APIKeyIDFromRequest (c : Context_) : string :=
  match Value c apiKeyIDKey with Some (VString v) => v | _ => "" end.

(** ** Series *)

(** The gauges of scores ([upstream/upstream.go]). *)
Definition metricRoutingScore : string := "ebeacon_upstream_score".
Definition metricRoutingScoreErrorRate : string := "ebeacon_upstream_score_error_rate".
Definition metricRoutingScoreP90Latency : string := "ebeacon_upstream_score_p90_latency_seconds".
Definition metricRoutingScoreHeadLag : string := "ebeacon_upstream_score_head_lag".
Definition metricRoutingScoreSamples : string := "ebeacon_upstream_score_samples".
Definition metricRoutingScoreByPath : string := "ebeacon_upstream_score_by_path".
Definition metricRoutingScoreErrorRateByPath : string := "ebeacon_upstream_score_error_rate_by_path".
Definition metricRoutingScoreP90LatencyByPath : string := "ebeacon_upstream_score_p90_latency_seconds_by_path".
Definition metricRoutingScoreSamplesByPath : string := "ebeacon_upstream_score_samples_by_path".

(** One write: an increment of a counter, an observation of a histogram, or a gauge that is set. *)
Inductive metric_write :=
  | ReqTotal (upstream status_class : string)
  | ReqDuration (upstream : string)
  | ReqDurationByMethod (method : string)
  | ReqDurationByPath (upstream api_path : string)
  | ReqByMethod (method status_class : string)
  | ReqByPath (api_path status_class : string)
  | ReqByAPIKey (api_key method status_class : string)
  | ReqByAPIKeyPath (api_key api_path status_class : string)
  | CacheByMethod (method cache_result : string)
  | CacheByPath (api_path cache_result : string)
  | CacheServed
  | MultiplexedTotal
  | Score (metric upstream : string) (v : float64)
  | ScoreByPath (metric upstream api_path : string) (v : float64).

Definition observeMethodStatus (method apiPath : string) (statusCode : Z) : list metric_write :=
  [ReqByMethod (ToUpper method) (httpStatusClass statusCode); ReqByPath apiPath (httpStatusClass statusCode)].

Definition observeAPIKey (apiKey method apiPath : string) (statusCode : Z) : list metric_write :=
  if String.eqb apiKey "" then []
  else [ReqByAPIKey apiKey (ToUpper method) (httpStatusClass statusCode); ReqByAPIKeyPath apiKey apiPath (httpStatusClass statusCode)].

Definition observeCacheByMethod (method apiPath result : string) : list metric_write :=
  [CacheByMethod (ToUpper method) result; CacheByPath apiPath result].

Section metrics.
Context `{RL : RateLib} `{RX : RegexpLib} `{NL : NetLib}.
Implicit Types n : Network (RL := RL) (RX := RX).
Implicit Types p : Pool RL.
Implicit Types u : Upstream RL.

(** ** Scores *)

Definition setScoreMetrics u (d : UpstreamScoreDetails) : list metric_write :=
  [Score metricRoutingScore (u_ID u) (d_Score d);
   Score metricRoutingScoreErrorRate (u_ID u) (d_ErrorRate d);
   Score metricRoutingScoreP90Latency (u_ID u) (Seconds (d_P90Latency d));
   Score metricRoutingScoreHeadLag (u_ID u) (f64_of_Z (d_HeadLag d));
   Score metricRoutingScoreSamples (u_ID u) (f64_of_Z (d_Samples d))].

(** [None] is the nil upstream. *)
Definition RefreshUpstreamScoreMetrics p (u : option (Upstream RL)) : list metric_write :=
  match u with
  | None => []
  | Some u => setScoreMetrics u (scoreDetailsWithWeights p u (MaxSlot (p_blockCache p)) (effectiveScoreWeights p) "")
  end.

Definition RefreshUpstreamPathScoreMetrics p (u : option (Upstream RL)) (apiPath : string) : list metric_write :=
  match u with
  | None => []
  | Some u =>
      if String.eqb apiPath "" then []
      else
        let d := rawPathScoreDetailsWithWeights p u (MaxSlot (p_blockCache p)) (effectiveScoreWeights p) apiPath in
        [ScoreByPath metricRoutingScoreByPath (u_ID u) apiPath (d_Score d);
         ScoreByPath metricRoutingScoreErrorRateByPath (u_ID u) apiPath (d_ErrorRate d);
         ScoreByPath metricRoutingScoreP90LatencyByPath (u_ID u) apiPath (Seconds (d_P90Latency d));
         ScoreByPath metricRoutingScoreSamplesByPath (u_ID u) apiPath (f64_of_Z (d_Samples d))]
  end.

Definition RefreshScoreMetrics p : list metric_write :=
  let weights := effectiveScoreWeights p in
  let canonicalSlot := MaxSlot (p_blockCache p) in
  mjoin ((λ u, setScoreMetrics u (scoreDetailsWithWeights p u canonicalSlot weights "")) <$> p_upstreams p).

(** ** [ServeHTTP] *)

Context (NewRequest_ok : string → string → bool) (gunzip : string → bool → option (string * bool)) (sha : string → string)
  (escape : string → string) (ParseFloat : string → option float64).

(** The closure [observe]. *)
Definition observe_status (apiKey : string) (req : Request) (apiPath : string) (status : Z) : list metric_write :=
  (observeMethodStatus (req_Method req) apiPath status ++ observeAPIKey apiKey (req_Method req) apiPath status)%list.

Definition durations (req : Request) (apiPath uid : string) : list metric_write :=
  [ReqDuration uid; ReqDurationByMethod (ToUpper (req_Method req)); ReqDurationByPath uid apiPath].

(** The gauges that are refreshed for the upstream that answered, after its sample has been recorded. *)
Definition refreshed (e : env) (apiPath : string) (resp : Response) (uid : string) (n : Network) : list metric_write :=
  let w := if (rs_Status resp <? 500) && negb (shouldTreatStatusAsPathError apiPath (rs_Status resp))
           then on_upstream uid (RecordSuccessForPath apiPath (ev_duration e)) (n_world n)
           else on_upstream uid (RecordScoreErrorForPath apiPath) (n_world n) in
  let u := ByID (w_pool w) uid in
  (RefreshUpstreamScoreMetrics (w_pool w) u ++ RefreshUpstreamPathScoreMetrics (w_pool w) u apiPath)%list.

(** From the end of the execution on. *)
Definition conclude_metrics (apiKey : string) (e : env) (r : Inbound) (apiPath : string) (o : outcome) (n : Network) : list metric_write :=
  let req := in_req r in
  match o with
  | OErr (XSelected _ _) => ReqTotal "none" "error" :: observe_status apiKey req apiPath 503
  | OErr _ | OBodyErr => ReqTotal "none" "error" :: observe_status apiKey req apiPath 502
  | OOk resp uid tok buffered handle =>
      let '(resp, body) :=
        match buffered with
        | Some b => (resp, Some b)
        | None => readAndFinalizeResponseBody resp (n_maxResponseBytes n)
        end in
      match body with
      | None => ReqTotal uid "error" :: (observe_status apiKey req apiPath 502 ++ durations req apiPath uid)%list
      | Some b =>
          let n := set_world (settle_token tok (if 500 <=? rs_Status resp then cbSettleFailure else cbSettleSuccess) (ev_done e) (n_world n)) n in
          ReqTotal uid (httpStatusClass (rs_Status resp)) ::
            (observe_status apiKey req apiPath (rs_Status resp) ++ durations req apiPath uid ++ refreshed e apiPath resp uid n)%list
      end
  end.

(** The flag of the multiplexer's result that it went to several callers; [shared] is the leader's. *)
Definition res_Shared (shared : bool) (e : env) (method : string) : bool :=
  multiplexed method && match ev_role e with MuxFollow _ => true | _ => shared end.

Definition uncached_metrics (apiKey : string) (shared : bool) (e : env) (r : Inbound) (apiPath preferID : string) (required : Selector)
    (n : Network) : list metric_write :=
  let req := in_req r in
  let path := url_Path (req_URL req) in
  if bool_decide (is_Some (in_Body r)) && ev_bodyErr e then observe_status apiKey req apiPath 400
  else if maxRequestBody <? str_len (default "" (in_Body r)) then observe_status apiKey req apiPath 413
  else
    match execute NewRequest_ok gunzip sha e n r preferID required (effectiveFailsafe n (req_Method req) path) apiPath with
    | (w, inl SGone, _) => observe_status apiKey req apiPath 499
    | (w, inl _, _) => []
    | (w, inr o, _) =>
        ((if res_Shared shared e (req_Method req) then [MultiplexedTotal] else []) ++
         conclude_metrics apiKey e r apiPath o (set_world w n))%list
    end.

Definition serve_metrics (apiKey : string) (shared : bool) (e : env) (r : Inbound) (apiPath preferID : string) (required : Selector)
    (cacheScope : string) (n : Network) : list metric_write :=
  let req := in_req r in
  let path := url_Path (req_URL req) in
  let '(n, hit, result) :=
    match n_cache n with
    | Some c =>
        if String.eqb (req_Method req) "GET" then
          match Cache_Policy c (req_Method req) path with
          | Some p =>
              let '(c, entry) := Cache_Get (ev_now e) (buildCacheKey ParseFloat (n_id n) req cacheScope) c in
              (set_cache (Some c) n, entry, observeCacheByMethod (req_Method req) apiPath (match entry with Some _ => "hit" | None => "miss" end))
          | None => (n, None, observeCacheByMethod (req_Method req) apiPath "bypass_policy")
          end
        else (n, None, observeCacheByMethod (req_Method req) apiPath "bypass_method")
    | None => (n, None, [])
    end in
  (result ++
   match hit with
   | Some entry => CacheServed :: observe_status apiKey req apiPath (e_status entry)
   | None => uncached_metrics apiKey shared e r apiPath preferID required n
   end)%list.

(** All a request to a network writes; [c] is its context. *)
Definition ServeHTTP_metrics (c : Context_) (shared : bool) (e : env) (wh : Header) (r : Inbound) (n : Network) : list metric_write :=
  let apiKey := APIKeyIDFromRequest c in
  let '(r, clientUpstream) := rewritten escape n r in
  let req := in_req r in
  let path := url_Path (req_URL req) in
  let apiPath := normalizeAPIPath path in
  if String.eqb path "/eth/v1/node/health" then []
  else if String.eqb path "/healthz" then []
  else
    match guard_request e wh r n with
    | (n, inl (SWritten w)) => observe_status apiKey req apiPath (wr_Status w)
    | (n, inl _) => []
    | (n, inr (ruleUpstream, ruleHit, ip)) =>
        let '(preferID, required, cacheScope) := route n req clientUpstream ruleUpstream ruleHit ip in
        if isEventStream req then []
        else serve_metrics apiKey shared e r apiPath preferID required cacheScope n
    end.

(** ** What a request accounts for *)

Definition is_status (s : metric_write) : bool :=
  match s with ReqByMethod _ _ | ReqByPath _ _ | ReqByAPIKey _ _ _ | ReqByAPIKeyPath _ _ _ => true | _ => false end.
Definition is_total (s : metric_write) : bool := match s with ReqTotal _ _ => true | _ => false end.
Definition is_cache (s : metric_write) : bool := match s with CacheByMethod _ _ | CacheByPath _ _ => true | _ => false end.
Definition is_served (s : metric_write) : bool := match s with CacheServed => true | _ => false end.
Definition is_duration (s : metric_write) : bool :=
  match s with ReqDuration _ | ReqDurationByMethod _ | ReqDurationByPath _ _ => true | _ => false end.

(** The health answers are not counted. *)
Definition health_path (path : string) : bool := String.eqb path "/eth/v1/node/health" || String.eqb path "/healthz".

(** The status a request is counted under. *)
Definition counted_status (path : string) (s : served) : option Z :=
  match s with
  | SWritten w => if health_path path then None else Some (wr_Status w)
  | SGone => Some 499
  | _ => None
  end.

(** The samples [ms] of a request that ends with [s]. *)
Record accounted (apiKey : string) (req : Request) (apiPath : string) (status : option Z) (ms : list metric_write) : Prop := {
  acc_status : bfilter is_status ms = default [] (observe_status apiKey req apiPath <$> status);
  acc_cache : bfilter is_cache ms = [] ∧ bfilter is_served ms = [] ∨
    ∃ result, result ∈ ["hit"; "miss"; "bypass_policy"; "bypass_method"] ∧
      bfilter is_cache ms = observeCacheByMethod (req_Method req) apiPath result ∧
      bfilter is_served ms = if String.eqb result "hit" then [CacheServed] else [];
  acc_total : bfilter is_total ms = [] ∧ bfilter is_duration ms = [] ∨
    bfilter is_served ms = [] ∧ is_Some status ∧
    ∃ uid class, bfilter is_total ms = [ReqTotal uid class] ∧
      (class = "error" ∨ Some class = httpStatusClass <$> status) ∧
      (bfilter is_duration ms = durations req apiPath uid ∨
       uid = "none" ∧ class = "error" ∧ bfilter is_duration ms = []);
}.

Lemma observe_filters apiKey req apiPath st :
  let ms := observe_status apiKey req apiPath st in
  bfilter is_status ms = ms ∧ bfilter is_cache ms = [] ∧ bfilter is_served ms = [] ∧ bfilter is_total ms = [] ∧ bfilter is_duration ms = [].
Proof. unfold observe_status, observeAPIKey. by destruct (String.eqb _ _). Qed.

Lemma cache_filters method apiPath result :
  let ms := observeCacheByMethod method apiPath result in
  bfilter is_status ms = [] ∧ bfilter is_cache ms = ms ∧ bfilter is_served ms = [] ∧ bfilter is_total ms = [] ∧ bfilter is_duration ms = [].
Proof. done. Qed.

Lemma refreshed_filters e apiPath resp uid n :
  let ms := refreshed e apiPath resp uid n in
  bfilter is_status ms = [] ∧ bfilter is_cache ms = [] ∧ bfilter is_served ms = [] ∧ bfilter is_total ms = [] ∧ bfilter is_duration ms = [].
Proof.
  unfold refreshed. destruct (ByID _ uid) as [u|]; [|done].
  unfold RefreshUpstreamPathScoreMetrics. by destruct (String.eqb _ _).
Qed.

(** What concluding a request adds: it is counted under the status it is answered with. *)
Definition concluded_samples (apiKey : string) (req : Request) (apiPath : string) (st : Z) (ms : list metric_write) : Prop :=
  bfilter is_status ms = observe_status apiKey req apiPath st ∧ bfilter is_cache ms = [] ∧ bfilter is_served ms = [] ∧
  ∃ uid class, bfilter is_total ms = [ReqTotal uid class] ∧ (class = "error" ∨ class = httpStatusClass st) ∧
    (bfilter is_duration ms = durations req apiPath uid ∨ uid = "none" ∧ class = "error" ∧ bfilter is_duration ms = []).

Lemma concluded_failed apiKey req apiPath st :
  concluded_samples apiKey req apiPath st (ReqTotal "none" "error" :: observe_status apiKey req apiPath st).
Proof.
  destruct (observe_filters apiKey req apiPath st) as (E1 & E2 & E3 & E4 & E5). unfold concluded_samples.
  cbn [bfilter is_status is_cache is_served is_total is_duration]. rewrite E1, E2, E3, E4, E5. split_and!; [done..|].
  exists "none", "error". split_and!; [done|by left|by right].
Qed.

Lemma concluded_read apiKey req apiPath st uid class ms :
  class = "error" ∨ class = httpStatusClass st →
  bfilter is_status ms = [] ∧ bfilter is_cache ms = [] ∧ bfilter is_served ms = [] ∧ bfilter is_total ms = [] ∧ bfilter is_duration ms = [] →
  concluded_samples apiKey req apiPath st
    (ReqTotal uid class :: (observe_status apiKey req apiPath st ++ durations req apiPath uid ++ ms)%list).
Proof.
  intros Hc (F1 & F2 & F3 & F4 & F5). destruct (observe_filters apiKey req apiPath st) as (E1 & E2 & E3 & E4 & E5).
  unfold concluded_samples. cbn [bfilter is_status is_cache is_served is_total is_duration].
  rewrite !bfilter_app, E1, E2, E3, E4, E5, F1, F2, F3, F4, F5. cbn [durations bfilter is_status is_cache is_served is_total is_duration app].
  rewrite !app_nil_r. split_and!; [done..|]. exists uid, class. split_and!; [done..|by left].
Qed.

Lemma conclude_counts apiKey e wh r apiPath ip cache acceptBinary o n :
  ∃ wr, (conclude e wh r apiPath ip cache acceptBinary o n).2 = SWritten wr ∧
    concluded_samples apiKey (in_req r) apiPath (wr_Status wr) (conclude_metrics apiKey e r apiPath o n).
Proof.
  destruct o as [err| |resp uid tok buffered handle]; cbn [conclude conclude_metrics].
  - exists (exec_failed wh err). split; [done|]. destruct err; apply concluded_failed.
  - eexists. split; [done|]. apply concluded_failed.
  - set (n1 := match ip with Some _ => _ | None => n end).
    assert (n_maxResponseBytes n1 = n_maxResponseBytes n) as ->.
    { subst n1. destruct ip, (n_sessions n); try done. destruct (n_stickySession n); [|done]. by destruct (_ !! _). }
    destruct (match buffered with Some _ => _ | None => _ end) as [resp' [b|]].
    + unfold deliver. cbv zeta. eexists. split; [done|]. rewrite (proj1 (writeBody_spec _ _ _ _ _ _)).
      apply concluded_read; [by right|]. apply refreshed_filters.
    + eexists. split; [done|]. rewrite <- (app_nil_r (durations _ _ _)). apply concluded_read; [by left|done].
Qed.

Lemma accounted_observe apiKey req apiPath st : accounted apiKey req apiPath (Some st) (observe_status apiKey req apiPath st).
Proof.
  destruct (observe_filters apiKey req apiPath st) as (E1 & E2 & E3 & E4 & E5). split; [by rewrite E1|by left|by left].
Qed.

Lemma accounted_nil apiKey req apiPath : accounted apiKey req apiPath None [].
Proof. split; [done|by left..]. Qed.
Lemma accounted_concluded apiKey req apiPath st pre ms :
  bfilter is_status pre = [] ∧ bfilter is_cache pre = [] ∧ bfilter is_served pre = [] ∧ bfilter is_total pre = [] ∧ bfilter is_duration pre = [] →
  concluded_samples apiKey req apiPath st ms → accounted apiKey req apiPath (Some st) (pre ++ ms)%list.
Proof.
  intros (F1 & F2 & F3 & F4 & F5) (E1 & E2 & E3 & uid & class & E4 & Hc & E5).
  split; rewrite !bfilter_app, ?F1, ?F2, ?F3, ?F4, ?F5; cbn [app].
  - done.
  - by left.
  - right. split; [done|]. split; [by eexists|]. exists uid, class. split; [done|]. split; [|done].
    destruct Hc as [->| ->]; [by left|by right].
Qed.

(** What is accounted apart from the cache. *)
Definition uncached_accounted (apiKey : string) (req : Request) (apiPath : string) (status : option Z) (ms : list metric_write) : Prop :=
  accounted apiKey req apiPath status ms ∧ bfilter is_cache ms = [] ∧ bfilter is_served ms = [].

Lemma observe_uncached apiKey req apiPath st : uncached_accounted apiKey req apiPath (Some st) (observe_status apiKey req apiPath st).
Proof. destruct (observe_filters apiKey req apiPath st) as (_ & ? & ? & _). split; [apply accounted_observe|done]. Qed.

(** An execution that does not end in an outcome writes nothing. *)
Lemma execute_unwritten e n r preferID required fs apiPath w s q wr :
  execute NewRequest_ok gunzip sha e n r preferID required fs apiPath = (w, inl s, q) → s ≠ SWritten wr.
Proof. unfold execute, lead. repeat case_match; intros; by simplify_eq. Qed.

(** The part of [serve_proxied] that follows the cache lookup. *)
Lemma uncached_counts apiKey shared e wh r apiPath preferID required ip cache acceptBinary n :
  let path := url_Path (req_URL (in_req r)) in
  health_path path = false →
  uncached_accounted apiKey (in_req r) apiPath
    (counted_status path
      (if bool_decide (is_Some (in_Body r)) && ev_bodyErr e
       then (n, SWritten (http_Error wh 400 "failed to read request body"), [])
       else if maxRequestBody <? str_len (default "" (in_Body r))
       then (n, SWritten (http_Error wh 413 "request body too large"), [])
       else match execute NewRequest_ok gunzip sha e n r preferID required (effectiveFailsafe n (req_Method (in_req r)) path) apiPath with
            | (w, inl s, queue) => (set_world w n, s, queue)
            | (w, inr o, queue) => let '(n2, s) := conclude e wh r apiPath ip cache acceptBinary o (set_world w n) in (n2, s, queue)
            end).1.2)
    (uncached_metrics apiKey shared e r apiPath preferID required n).
Proof.
  intros path Hp. unfold uncached_metrics. cbv zeta. fold path.
  assert (∀ st msg, uncached_accounted apiKey (in_req r) apiPath (counted_status path (SWritten (http_Error wh st msg)))
    (observe_status apiKey (in_req r) apiPath st)) as Ho.
  { intros st msg. cbn [counted_status]. rewrite Hp. apply observe_uncached. }
  destruct (_ && _); [apply Ho|]. destruct (_ <? _); [apply Ho|]. destruct (execute _ _ _ _ _ _ _ _ _ _) as [[w [s|o]] q] eqn:Ex.
  - destruct s as [wr| | | |]; try (split; [apply accounted_nil|done]); [by destruct (execute_unwritten _ _ _ _ _ _ _ _ _ _ wr Ex)|].
    apply observe_uncached.
  - destruct (conclude_counts apiKey e wh r apiPath ip cache acceptBinary o (set_world w n)) as (wr & Ew & H).
    destruct (conclude _ _ _ _ _ _ _ _ _) as [n2 s]. cbn [fst snd] in *. rewrite Ew. cbn [counted_status]. rewrite Hp.
    set (pre := if res_Shared _ _ _ then _ else _).
    assert (bfilter is_status pre = [] ∧ bfilter is_cache pre = [] ∧ bfilter is_served pre = [] ∧ bfilter is_total pre = [] ∧
      bfilter is_duration pre = []) as F by (subst pre; by destruct (res_Shared _ _ _)).
    split; [by apply accounted_concluded|]. destruct F as (_ & F2 & F3 & _), H as (_ & H2 & H3 & _).
    by rewrite !bfilter_app, F2, F3, H2, H3.
Qed.

Lemma accounted_missed apiKey req apiPath status result ms :
  String.eqb result "hit" = false → result ∈ ["hit"; "miss"; "bypass_policy"; "bypass_method"] →
  uncached_accounted apiKey req apiPath status ms →
  accounted apiKey req apiPath status (observeCacheByMethod (req_Method req) apiPath result ++ ms)%list.
Proof.
  intros Hh Hr ([H1 _ H3] & Hc & Hs). split.
  - by rewrite bfilter_app.
  - right. exists result. split; [done|]. by rewrite !bfilter_app, Hc, Hs, Hh.
  - by rewrite !bfilter_app.
Qed.

Lemma proxied_accounted apiKey shared e wh r apiPath preferID required cacheScope ip n :
  let path := url_Path (req_URL (in_req r)) in
  health_path path = false →
  accounted apiKey (in_req r) apiPath
    (counted_status path (serve_proxied NewRequest_ok gunzip sha ParseFloat e wh r apiPath preferID required cacheScope ip n).1.2)
    (serve_metrics apiKey shared e r apiPath preferID required cacheScope n).
Proof.
  intros path Hp. unfold serve_proxied, serve_metrics. cbv zeta. fold path. set (ab := acceptPrefersSSZ _ _).
  destruct (n_cache n) as [c|]; [|by apply uncached_counts].
  assert (∀ n1 cache result, String.eqb result "hit" = false → result ∈ ["hit"; "miss"; "bypass_policy"; "bypass_method"] →
    accounted apiKey (in_req r) apiPath _ (observeCacheByMethod (req_Method (in_req r)) apiPath result ++ _)%list) as Hmiss
    by (intros n1 cache result Hh Hr; exact (accounted_missed _ _ _ _ _ _ Hh Hr (uncached_counts apiKey shared e wh r apiPath preferID required ip cache ab n1 Hp))).
  destruct (String.eqb _ "GET"); [|apply Hmiss; [done|set_solver]].
  destruct (Cache_Policy _ _ _) as [pol|]; [|apply Hmiss; [done|set_solver]].
  destruct (Cache_Get _ _ _) as [c' [entry|]]; [|apply Hmiss; [done|set_solver]].
  cbn [fst snd counted_status]. rewrite Hp, (proj1 (writeBody_spec _ _ _ _ _ _)).
  destruct (observe_filters apiKey (in_req r) apiPath (e_status entry)) as (O1 & O2 & O3 & O4 & O5).
  split; rewrite !bfilter_app; cbn [bfilter is_cache is_served is_status is_total is_duration observeCacheByMethod app];
    rewrite ?O1, ?O2, ?O3, ?O4, ?O5; [done| |by left].
  right. exists "hit". split; [set_solver|done].
Qed.

Lemma request_counts c shared e wh r n :
  let r' := (rewritten escape n r).1 in
  let path := url_Path (req_URL (in_req r')) in
  accounted (APIKeyIDFromRequest c) (in_req r') (normalizeAPIPath path)
    (counted_status path (ServeHTTP NewRequest_ok gunzip sha escape ParseFloat e wh r n).1.2) (ServeHTTP_metrics c shared e wh r n).
Proof.
  unfold ServeHTTP, ServeHTTP_metrics. destruct (rewritten escape n r) as [r' client]. cbn [fst].
  destruct (String.eqb _ "/eth/v1/node/health") eqn:E1.
  { cbn [counted_status fst snd]. unfold health_path. rewrite E1. apply accounted_nil. }
  destruct (String.eqb _ "/healthz") eqn:E2.
  { cbn [counted_status fst snd]. unfold health_path. rewrite E1, E2. apply accounted_nil. }
  assert (health_path (url_Path (req_URL (in_req r'))) = false) as Hp by (unfold health_path; by rewrite E1, E2).
  pose proof (guard_request_spec e wh r' n) as Hg. destruct (guard_request e wh r' n) as [n1 [s|[[ru hit] ip]]].
  - destruct Hg as (_ & _ & _ & wr & ->). cbn [counted_status fst snd]. rewrite Hp. apply accounted_observe.
  - destruct (route _ _ _ _ _ _) as [[pref req] scope]. destruct (isEventStream _); [apply accounted_nil|]. by apply proxied_accounted.
Qed.

End metrics.

(** ** The proxy *)

Section proxy_metrics.
Context `{RL : RateLib} `{RX : RegexpLib} `{NL : NetLib}.
Context (NewRequest_ok : string → string → bool) (gunzip : string → bool → option (string * bool)) (sha : string → string)
  (ParseFloat : string → option float64) (Quote : string → string).
Implicit Types p : Proxy (RL := RL) (RX := RX).

(** The context of an authenticated request. *)
Definition authenticated_context (keyID : string) : Context_ :=
  if negb (String.eqb keyID "") then WithAPIKeyID Background keyID else Background.

Definition network_metrics (c : Context_) (shared : bool) (e : env) (wh : Header) (r : Inbound) (id : string) p : list (string * metric_write) :=
  match px_networks p !! id with
  | None => []
  | Some n => pair id <$> ServeHTTP_metrics NewRequest_ok gunzip sha escapePath ParseFloat c shared e wh r n
  end.

(** What a request to the proxy writes, with the label of the network, which is its key in the proxy's map. *)
Definition Proxy_metrics (shared : bool) (e : env) (wh : Header) (r : Inbound) p : list (string * metric_write) :=
  let req := in_req r in
  let path := url_Path (req_URL req) in
  if String.eqb path "/healthz" then []
  else
    match routeRequest p path with
    | None =>
        match authenticate (ev_now e) wh req "" p with
        | (p, inl _) => []
        | (p, inr keyID) =>
            match px_single p with
            | Some id => network_metrics (authenticated_context keyID) shared e wh r id p
            | None => []
            end
        end
    | Some (networkID, rest, pathKey, strip) =>
        match authenticate (ev_now e) wh req pathKey p with
        | (p, inl _) => []
        | (p, inr keyID) => network_metrics (authenticated_context keyID) shared e wh (strip_prefix r rest strip) networkID p
        end
    end.

(** A run of the proxy: what it has written after the requests. *)
Fixpoint proxy_samples (reqs : list (bool * env * Header * Inbound)) p : list (string * metric_write) :=
  match reqs with
  | [] => []
  | (shared, e, wh, r) :: reqs =>
      (Proxy_metrics shared e wh r p ++ proxy_samples reqs (Proxy_ServeHTTP NewRequest_ok gunzip sha ParseFloat Quote e wh r p).1.1)%list
  end.

(** ** Labels *)

Definition status_classes : list string := ["0xx"; "1xx"; "2xx"; "3xx"; "4xx"; "5xx"].

(** The identities of a configuration; the shared secret is "default". *)
Definition key_ids (auth : option AuthConfig) : list string :=
  match auth with Some a => "default" :: (ak_ID <$> au_Keys a) | None => [] end.

Definition by_path (x : string * metric_write) : option (string * string * string) :=
  match x.2 with ReqByPath path class => Some (x.1, path, class) | _ => None end.
Definition by_key_path (x : string * metric_write) : option (string * string * string * string) :=
  match x.2 with ReqByAPIKeyPath key path class => Some (x.1, path, class, key) | _ => None end.

Lemma httpStatusClass_bounded code : httpStatusClass code ∈ status_classes.
Proof. unfold httpStatusClass. cbv zeta. repeat destruct (_ =? _); set_solver. Qed.

Lemma APIKeyID_authenticated keyID : APIKeyIDFromRequest (authenticated_context keyID) = keyID.
Proof. unfold authenticated_context. by destruct (String.eqb_spec keyID "") as [->|]. Qed.

Lemma authenticate_key now wh r pathKey p keyID :
  (authenticate now wh r pathKey p).2 = inr keyID → keyID = "" ∨ keyID ∈ key_ids (px_auth p).
Proof.
  unfold authenticate. destruct (px_auth p) as [a|]; [|intros [= <-]; by left]. cbv zeta.
  destruct (negb _); [done|]. destruct (applyAuthRateLimits _ _ _ _ _) as [[k t] [w|]]; [done|]. intros [= <-].
  unfold AuthenticateRequest. cbv zeta. cbn [key_ids]. destruct (find_first _ _) as [x|] eqn:E.
  - apply find_first_Some in E as [Hx _]. right. cbn [ar_KeyID]. apply elem_of_cons. right. by apply list_elem_of_fmap_2.
  - destruct (String.eqb _ _); [destruct (au_Keys a); by left|]. destruct (constantTimeEquals _ _); [right|by left]. set_solver.
Qed.

(** The labels of one request. *)
Definition labels_ok (ids keys : list string) (x : string * metric_write) : Prop :=
  x.1 ∈ ids ∧
  match x.2 with
  | ReqByPath path class => path ∈ api_templates ∧ class ∈ status_classes
  | ReqByAPIKeyPath key path class => key ∈ keys ∧ path ∈ api_templates ∧ class ∈ status_classes
  | _ => True
  end.

Lemma network_labels keyID shared e wh r id p keys x :
  keyID = "" ∨ keyID ∈ keys →
  x ∈ network_metrics (authenticated_context keyID) shared e wh r id p →
  labels_ok (map_to_list (px_networks p)).*1 keys x.
Proof.
  intros Hk. unfold network_metrics. destruct (px_networks p !! id) as [n|] eqn:En; [|by intros ?%elem_of_nil].
  intros (s & -> & Hs)%list_elem_of_fmap. split; [apply list_elem_of_fmap; exists (id, n); split; [done|by apply elem_of_map_to_list]|].
  pose proof (acc_status _ _ _ _ _ (request_counts NewRequest_ok gunzip sha escapePath ParseFloat (authenticated_context keyID) shared e wh r n)) as H.
  assert (is_status s = true → s ∈ bfilter is_status (ServeHTTP_metrics NewRequest_ok gunzip sha escapePath ParseFloat (authenticated_context keyID) shared e wh r n)) as Hf
    by (intros; by apply elem_of_bfilter).
  rewrite H, APIKeyID_authenticated in Hf. cbn [snd]. clear H Hs.
  destruct (counted_status _ _) as [st|]; cbn [fmap option_fmap option_map default from_option Datatypes.id] in Hf.
  2: { destruct s; try done; specialize (Hf eq_refl); by apply elem_of_nil in Hf. }
  unfold observe_status, observeMethodStatus, observeAPIKey in Hf.
  assert (∀ path, normalizeAPIPath path ∈ api_templates) as Ht by apply normalizeAPIPath_bounded.
  destruct s; try done; specialize (Hf eq_refl); destruct (String.eqb_spec keyID "") as [->|Hne]; cbn [app] in Hf;
    rewrite ?elem_of_cons, ?elem_of_nil in Hf; destruct_or?; simplify_eq; try done;
    split_and?; first [apply Ht|apply httpStatusClass_bounded|done].
Qed.

Lemma proxy_labels shared e wh r p x :
  x ∈ Proxy_metrics shared e wh r p → labels_ok (map_to_list (px_networks p)).*1 (key_ids (px_auth p)) x.
Proof.
  unfold Proxy_metrics. cbv zeta. destruct (String.eqb _ _); [by intros ?%elem_of_nil|].
  destruct (routeRequest p _) as [[[[id rest] key] strip]|].
  - pose proof (authenticate_key (ev_now e) wh (in_req r) key p) as Hk. destruct (authenticate_networks (ev_now e) wh (in_req r) key p) as [Hn _].
    destruct (authenticate _ _ _ key p) as [p' [w|keyID]]; [by intros ?%elem_of_nil|]. cbn [fst snd] in *. rewrite <- Hn.
    apply network_labels. by apply Hk.
  - pose proof (authenticate_key (ev_now e) wh (in_req r) "" p) as Hk. destruct (authenticate_networks (ev_now e) wh (in_req r) "" p) as [Hn _].
    destruct (authenticate _ _ _ "" p) as [p' [w|keyID]]; [by intros ?%elem_of_nil|]. cbn [fst snd] in *. rewrite <- Hn.
    destruct (px_single p'); [|by intros ?%elem_of_nil]. apply network_labels. by apply Hk.
Qed.

Lemma on_network_dom e wh r id p :
  let p' := (on_network NewRequest_ok gunzip sha ParseFloat e wh r id p).1.1 in
  dom (px_networks p') = dom (px_networks p) ∧ px_auth p' = px_auth p.
Proof.
  unfold on_network. destruct (px_networks p !! id) as [n|] eqn:E; [|done].
  destruct (ServeHTTP _ _ _ _ _ _ _ _ _) as [[n' s] q]. cbn [fst set_network px_networks px_auth]. split; [|done].
  apply dom_insert_lookup_L. by eexists.
Qed.

Lemma Proxy_ServeHTTP_dom e wh r p :
  let p' := (Proxy_ServeHTTP NewRequest_ok gunzip sha ParseFloat Quote e wh r p).1.1 in
  dom (px_networks p') = dom (px_networks p) ∧ px_auth p' = px_auth p.
Proof.
  unfold Proxy_ServeHTTP. cbv zeta. destruct (String.eqb _ _); [done|].
  destruct (routeRequest p _) as [[[[id rest] key] strip]|].
  - destruct (authenticate_networks (ev_now e) wh (in_req r) key p) as [<- _]. rewrite <- (authenticate_auth (ev_now e) wh (in_req r) key p).
    destruct (authenticate _ _ _ key p) as [p' [w|keyID]]; [done|]. apply on_network_dom.
  - destruct (authenticate_networks (ev_now e) wh (in_req r) "" p) as [<- _]. rewrite <- (authenticate_auth (ev_now e) wh (in_req r) "" p).
    destruct (authenticate _ _ _ "" p) as [p' [w|keyID]]; [done|]. destruct (px_single p'); [apply on_network_dom|done].
Qed.

Lemma samples_labels reqs p x :
  x ∈ proxy_samples reqs p → labels_ok (elements (dom (px_networks p))) (key_ids (px_auth p)) x.
Proof.
  revert p. induction reqs as [|[[[shared e] wh] r] reqs IH]; intros p; [by intros ?%elem_of_nil|]. cbn [proxy_samples].
  intros [[Hid Hx]%proxy_labels|H%IH]%elem_of_app.
  - split; [|done]. apply list_elem_of_fmap in Hid as ([id n] & -> & Hn). apply elem_of_elements, elem_of_dom. exists n. by apply elem_of_map_to_list.
  - destruct (Proxy_ServeHTTP_dom e wh r p) as [E1 E2]. by rewrite E1, E2 in H.
Qed.

Lemma NoDup_bounded {A} (l k : list A) : NoDup l → (∀ x, x ∈ l → x ∈ k) → (length l ≤ length k)%nat.
Proof. intros. by apply submseteq_length, NoDup_submseteq. Qed.

(** The series by route are bounded by the configuration.  Whatever clients send and however many requests they make, the proxy exposes at most 5898
    (template, status class) series per network, and as many per network and identity; the labels are templates of the fixed
    list, networks and identities of the configuration. *)
Theorem route_series_bounded reqs p :
  let series := remove_dups (omap by_path (proxy_samples reqs p)) in
  let key_series := remove_dups (omap by_key_path (proxy_samples reqs p)) in
  (length series ≤ size (px_networks p) * 983 * 6)%nat ∧
  (length key_series ≤ size (px_networks p) * 983 * 6 * length (key_ids (px_auth p)))%nat.
Proof.
  cbv zeta. set (all := list_prod (list_prod (elements (dom (px_networks p))) api_templates) status_classes).
  assert (length all = (size (px_networks p) * 983 * 6)%nat) as Hl.
  { subst all. rewrite !length_prod, (proj2 (proj2 normalizeAPIPath_bounded)).
    change (length (elements (dom (px_networks p)))) with (size (dom (px_networks p))). by rewrite size_dom. }
  rewrite <- Hl, <- length_prod.
  split; (apply NoDup_bounded; [apply NoDup_remove_dups|]); intros x; rewrite elem_of_remove_dups; intros Hx; apply list_elem_of_omap in Hx as ([id s] & Hin%samples_labels & Hs);
    destruct s; try discriminate; injection Hs as <-; destruct Hin as [Hid Hin]; cbn [fst snd] in *; subst all;
    rewrite ?list_elem_of_In in *; destruct_and!; rewrite ?list_elem_of_In in *; repeat apply in_prod; done.
Qed.
End proxy_metrics.

Module MetricsDemo.
Import ExecDemo BoundsDemo ServeDemo ProxyDemo.
#[local] Existing Instance DemoNet.

Definition demo_method (method path : string) : Inbound :=
  {| in_req := {| req_Method := method;
                  req_URL := {| url_Path := path; url_EscapedPath := escapePath path; url_RawQuery := "" |}; req_Header := ∅ |};
     in_Host := "proxy"; in_RemoteAddr := "10.0.0.1:99"; in_Body := None |}.

Definition demo_samples (method path : string) : list (string * metric_write) :=
  Proxy_metrics (λ _ _, true) (λ _ _, None) id toy_ParseFloat false demo_lead ∅ (demo_method method path) demo_proxy.

(** One request, answered by the upstream "a". *)
Lemma request_samples :
  omap (λ x, match x.2 with Score _ _ _ | ScoreByPath _ _ _ _ => None | _ => Some x.2 end) (demo_samples "GET" "/s3cr3t/mainnet/eth/v1/node/version") =
  [CacheByMethod "GET" "miss"; CacheByPath "/eth/v1/node/version" "miss"; ReqTotal "a" "2xx"; ReqByMethod "GET" "2xx";
   ReqByPath "/eth/v1/node/version" "2xx"; ReqByAPIKey "indexer" "GET" "2xx"; ReqByAPIKeyPath "indexer" "/eth/v1/node/version" "2xx";
   ReqDuration "a"; ReqDurationByMethod "GET"; ReqDurationByPath "a" "/eth/v1/node/version"].
Proof. vm_compute. reflexivity. Qed.

(** The method is not reduced to a known one: every word a client sends as its method becomes a label. *)
Lemma method_labels_unbounded c shared method :
  ReqByMethod (ToUpper method) "4xx" ∈
  ServeHTTP_metrics (λ _ _, true) (λ _ _, None) id escapePath toy_ParseFloat c shared demo_lead ∅ (demo_method method "/eth/../x") demo_net.
Proof.
  unfold ServeHTTP_metrics.
  assert (rewritten escapePath demo_net (demo_method method "/eth/../x") = (demo_method method "/eth/../x", "")) as -> by (vm_compute; reflexivity).
  cbv zeta. cbn [demo_method in_req req_URL url_Path]. unfold guard_request. cbv zeta. cbn [in_req req_URL url_Path].
  replace (isCleanPath "/eth/../x") with false by (vm_compute; reflexivity). apply elem_of_cons. by left.
Qed.
End MetricsDemo.
