(* ===== verification/FailureLog.v ===== *)
(** * What is reported about failures

    [network/network.go] and [network/archive_metrics.go]: the events that the execution of a request hands to the debug log
    ([logFailure]) and the counters of archive promotions.  [ServeHTTP_events] follows [ServeHTTP], [executeFS] and
    [executeHedgeFS] and lists what they report, in order.  The sequential loop is instrumented ([seq_loop_log]) and
    shown to compute what [seq_loop] computes.

    The text of an error is the argument [render]: it comes from [net/http] and the transport. *)

From S2P Require Import Prelude GoStrings GoFloat Config CircuitBreaker ScoreTracker AutoTuner BlockCache.
From S2P Require Import Upstream Selector PoolOrder Pool PoolState Health MemoryStore Regexp Cache ApiPath Url CacheKey Paths Historical Session HeadWatcher Consensus Routing ConfigFile Headers Exec Ownership ExecSafety ExecBounds Hedge Serve ServeSafety DebugLog Metrics Harness.
#[local] Open Scope string_scope.
#[local] Open Scope Z_scope.

(** ** Events *)

(** The error of a failure: of [forward], of reading a response, of the execution, or of reading the client's body. *)
Inductive failure_error :=
  | FEForward (e : fwd_error)
  | FERead
  | FEExec (e : exec_error)
  | FELeaderRead
  | FERequestBody.

(** The arguments of [logFailure] other than the request and its template. *)
Record failure := {
  fl_kind : string;
  fl_reqBody : string;
  fl_upstream : string;
  fl_status : Z;
  fl_header : Header;
  fl_body : string;
  fl_err : option failure_error;
  fl_duration : Z;
  fl_selector : string;
  fl_attempt : Z;
}.

Definition archivePromotionProactive : string := "proactive".
Definition archivePromotionOnError : string := "pruning_error".

(** A call of [logFailure], [metricArchivePromotion] with its reason, or [metricPruningErrorNoArchive]. *)
Inductive failure_report :=
  | Failed (f : failure)
  | ArchivePromotion (reason : string)
  | PruningErrorNoArchive.

(** A failed attempt: without a response, or with a server error whose body is read for the log. *)
Definition attempt_failed (kind : string) (r : Inbound) (id : string) (attempt duration : Z) (e : fwd_error) : failure :=
  {| fl_kind := kind; fl_reqBody := default "" (in_Body r); fl_upstream := id; fl_status := 0; fl_header := ∅; fl_body := "";
     fl_err := Some (FEForward e); fl_duration := duration; fl_selector := ""; fl_attempt := attempt |}.

Definition attempt_status (kind : string) (r : Inbound) (id : string) (attempt duration maxResponseBytes : Z) (resp : Response) : failure :=
  let '(resp, body) := readAndFinalizeResponseBody resp maxResponseBytes in
  {| fl_kind := kind; fl_reqBody := default "" (in_Body r); fl_upstream := id; fl_status := rs_Status resp; fl_header := rs_Header resp;
     fl_body := default "" body; fl_err := match body with None => Some FERead | Some _ => None end; fl_duration := duration;
     fl_selector := ""; fl_attempt := attempt |}.

Section failure_log.
Context `{RL : RateLib} `{RX : RegexpLib} `{NL : NetLib}.
Context (NewRequest_ok : string → string → bool) (gunzip : string → bool → option (string * bool)) (sha : string → string)
  (escape : string → string) (ParseFloat : string → option float64).
Implicit Types n : Network (RL := RL) (RX := RX).
Implicit Types w : World RL.

(** [logFailure]: the event it builds, and what the logger makes of it. *)
Definition failure_event (render : failure_error → goerror) (trusted : option (list Prefix)) (network : string) (r : Inbound)
    (apiPath : string) (f : failure) : Event :=
  {| Kind := fl_kind f; evt_Network := network; APIPath := apiPath; Method := req_Method (in_req r);
     Path := url_Path (req_URL (in_req r)); RawQuery := url_RawQuery (req_URL (in_req r));
     evt_ClientIP := ClientIP trusted (req_Header (in_req r)) (in_RemoteAddr r); evt_Upstream := fl_upstream f;
     evt_Selector := fl_selector f; Status := fl_status f; Attempt := fl_attempt f; Duration := fl_duration f;
     Err := render <$> fl_err f; RequestHeaders := req_Header (in_req r); RequestBody := fl_reqBody f;
     ResponseHeaders := fl_header f; ResponseBody := fl_body f; Note := "" |}.

Definition logFailure (inflate : string → string + (Z → string + string)) (Quote : string → string) (render : failure_error → goerror)
    (trusted : option (list Prefix)) (network : string) (logger : option Logger) (r : Inbound) (apiPath : string) (f : failure)
    : option (list (string * logval)) :=
  let logger := Some (Default logger) in
  if negb (Logger_Enabled logger) then None
  else LogEvent inflate Quote logger (failure_event render trusted network r apiPath f).

(** ** The sequential loop *)

Definition emit {A} (ev : list failure_report) (res : A * list failure_report) : A * list failure_report := (res.1, (ev ++ res.2)%list).

(** [seq_loop] with what it reports. *)
Fixpoint seq_loop_log (fuel : nat) (gz : bool) (maxResponseBytes : Z) (r : Inbound) (fs : FailsafeConfig) (target : HistoricalTarget)
    (apiPath : string) (maxAttempts : Z) (i : nat) (rest tried : list string) (archiveBiased : bool)
    (lastErr : option exec_cause) w : World RL * (exec_error + Exec) * list failure_report :=
  match fuel with
  | O => (w, inl XOutOfFuel, [])
  | S fuel =>
      match rest with
      | [] => (w, inl (XAllFailed i lastErr), [])
      | id :: rest =>
          let continue := seq_loop_log fuel gz maxResponseBytes r fs target apiPath maxAttempts (S i) in
          if bool_decide (id ∈ tried) then continue rest tried archiveBiased lastErr w
          else
            let tried := id :: tried in
            if (0 <? i)%nat && bool_decide (is_Some (fs_Retry fs)) && io_ctxDone (next_io w) then (w, inl XContext, [])
            else
              match forward NewRequest_ok gunzip gz id r w with
              | (o, w, tok, inl e) =>
                  let duration := io_done o - io_now o in
                  if isClientCancel o e then (settle_token tok cbSettleRelease (io_done o) w, inl XCanceled, [])
                  else if bool_decide (e = FGated) then continue rest tried archiveBiased (Some (CForward e)) w
                  else emit [Failed (attempt_failed "upstream_attempt_failed" r id (Z.of_nat i + 1) duration e)]
                         (continue rest tried archiveBiased (Some (CForward e)) (recordUpstreamFailure id tok apiPath (io_done o) w))
              | (o, w, tok, inr (h, resp)) =>
                  let duration := io_done o - io_now o in
                  if rs_Status resp <? 500 then
                    let '(peeked, _, resp) := peekBodyForPruning resp target in
                    let e := {| ex_handle := Some h; ex_resp := resp; ex_uid := id; ex_tok := tok |} in
                    if negb archiveBiased && isPruningError (rs_Status resp) peeked target then
                      if negb (HasArchive (w_pool w)) then (w, inr e, [PruningErrorNoArchive])
                      else
                        let remaining := Z.max (maxAttempts - (Z.of_nat i + 1)) 1 in
                        let '(p, archiveUps) := SelectForPathArchive (io_done o) (w_pool w) apiPath (Z.to_nat remaining) in
                        let w := set_pool p w in
                        match archiveUps with
                        | [] => (w, inr e, [])
                        | _ =>
                            let w := settle_token tok cbSettleRelease (io_done o) (close_body h w) in
                            let w := on_upstream id (RecordResponseStatus (io_done o) (rs_Status resp)) w in
                            emit [ArchivePromotion archivePromotionOnError]
                              (continue (u_ID <$> archiveUps) tried true (Some (CPruned (rs_Status resp))) w)
                        end
                    else (w, inr e, [])
                  else emit [Failed (attempt_status "upstream_attempt_failed" r id (Z.of_nat i + 1) duration maxResponseBytes resp)]
                         (continue rest tried archiveBiased (Some (CStatus (rs_Status resp)))
                            (recordUpstreamFailure id tok apiPath (io_done o) (close_body h w)))
              end
      end
  end.

(** ** [executeFS] *)

Definition sequential_events (gz : bool) (maxResponseBytes now : Z) (r : Inbound) (preferID : string) (fs : FailsafeConfig) (apiPath : string)
    (target : HistoricalTarget) (proactiveArchive preferCanonicalHead : bool) w : list failure_report :=
  let maxAttempts := MaxAttempts fs in
  let '(p, ups) := selectForPath proactiveArchive preferCanonicalHead now (w_pool w) apiPath (Z.to_nat maxAttempts) in
  let w := set_pool p w in
  match ups with
  | [] => []
  | _ =>
      let ids := ensurePreferredUpstreamFirst now (w_pool w) (u_ID <$> ups) preferID maxAttempts in
      (seq_loop_log (seq_fuel w ids) gz maxResponseBytes r fs target apiPath maxAttempts 0 ids [] proactiveArchive None w).2
  end.

Definition execute_rest_events (gz : bool) (maxResponseBytes now : Z) (r : Inbound) (preferID : string) (fs : FailsafeConfig) (apiPath : string)
    (target : HistoricalTarget) (proactiveArchive preferCanonicalHead : bool) w : list failure_report :=
  let sequential := sequential_events gz maxResponseBytes now r preferID fs apiPath target proactiveArchive preferCanonicalHead in
  match fs_Hedge fs with
  | Some hedge =>
      let '(p, ups) := selectForPath proactiveArchive preferCanonicalHead now (w_pool w) apiPath (Z.to_nat (hg_MaxCount hedge + 1)) in
      let w := set_pool p w in
      if (1 <? length ups)%nat then [] else sequential w
  | None => sequential w
  end.

Definition executeFS_events (consensus : option ConsensusPolicy) (gz : bool) (maxResponseBytes now : Z) (r : Inbound) (preferID : string)
    (required : Selector) (fs : FailsafeConfig) (apiPath : string) (cios : list participant_io) w : list failure_report :=
  if Selector_Enabled required then []
  else
    let path := url_Path (req_URL (in_req r)) in
    let preferCanonicalHead := pathHasNamedSlotID path in
    let target := classifyHistoricalTarget path in
    let proactiveArchive := HasArchive (w_pool w) &&
      RequiresArchive target (MaxSlot (p_blockCache (w_pool w))) (SlotsPerEpoch (w_pool w)) in
    let preferID :=
      if proactiveArchive && negb (String.eqb preferID "") then
        match ByID (w_pool w) preferID with
        | Some pu => if IsArchive pu then preferID else ""
        | None => ""
        end
      else preferID in
    let rest := execute_rest_events gz maxResponseBytes now r preferID fs apiPath target proactiveArchive preferCanonicalHead in
    ((if proactiveArchive then [ArchivePromotion archivePromotionProactive] else []) ++
     match consensus with
     | None => rest w
     | Some cp =>
         let '(p, ups) := selectForPath proactiveArchive preferCanonicalHead now (w_pool w) apiPath
                            (Z.to_nat (cp_MaxParticipants cp)) in
         let w := set_pool p w in
         if cp_AgreementThreshold cp <=? Z.of_nat (length ups) then
           let '(ups, res) := Consensus_Execute sha now cp ups cios in
           match res with
           | inl (EUnavailable _ _ _) => rest (write_back ups w)
           | _ => []
           end
         else rest w
     end)%list.

(** ** Hedged execution *)

Section hedged.
Context (gz : bool) (r : Inbound) (fs : FailsafeConfig) (apiPath : string) (target : HistoricalTarget)
  (archiveBiased : bool) (maxResponseBytes : Z).

(** [res.idx]: attempts are fired in the order of the slice. *)
Definition attempt_index (s : hedge_state (RL := RL)) (id : string) : Z :=
  match list_find (λ x, x = id) (h_ups s) with Some (i, _) => Z.of_nat i | None => 0 end.

Definition receive_events (res : hres) (s : hedge_state (RL := RL)) : list failure_report :=
  let id := hr_uid res in
  let duration := io_done (hr_io res) - io_now (hr_io res) in
  match hr_res res with
  | inr (_, resp) =>
      if rs_Status resp <? 500 then []
      else [Failed (attempt_status "hedged_attempt_failed" r id (attempt_index s id + 1) duration maxResponseBytes resp)]
  | inl e =>
      if isClientCancel (hr_io res) e || bool_decide (e = FGated) then []
      else [Failed (attempt_failed "hedged_attempt_failed" r id (attempt_index s id + 1) duration e)]
  end.

Definition finish_events (now : Z) (s : hedge_state (RL := RL)) : list failure_report :=
  match h_pruning s with
  | None => []
  | Some p =>
      let '(resp, body) := readAndFinalizeResponseBody (ex_resp p) maxResponseBytes in
      let w := close_opt (ex_handle p) (h_w s) in
      let w := settle_token (ex_tok p) (match body with None => cbSettleFailure | Some _ => cbSettleSuccess end) now w in
      match (promoteToArchive NewRequest_ok gunzip gz now apiPath r (h_tried s)
               (Z.max (Z.of_nat (h_maxFire s)) (MaxAttempts fs)) target w).2 with
      | inr _ => [ArchivePromotion archivePromotionOnError]
      | inl _ => []
      end
  end.

Definition loop_check_events (now : Z) (s : hedge_state (RL := RL)) : list failure_report :=
  match h_result s with
  | Some _ => []
  | None => if (0 <? h_inflight s)%nat || (h_fired s <? h_maxFire s)%nat then [] else finish_events now s
  end.

Definition hedge_step_events (s : hedge_state (RL := RL)) (ev : hedge_event) : list failure_report :=
  match ev, h_result s with
  | HRecv now, None =>
      match h_chan s with
      | [] => []
      | res :: rest =>
          (receive_events res s ++ loop_check_events now (hedge_receive apiPath target archiveBiased res (take_result s rest)))%list
      end
  | _, _ => []
  end.

Fixpoint hedge_events (s : hedge_state (RL := RL)) (sched : list hedge_event) : list failure_report :=
  match sched with
  | [] => []
  | ev :: sched =>
      (hedge_step_events s ev ++
       hedge_events (hedge_step NewRequest_ok gunzip gz r fs apiPath target archiveBiased maxResponseBytes s ev) sched)%list
  end.
End hedged.

(** ** The handler *)

Definition run_exec_events (e : env) n (r : Inbound) (preferID : string) (required : Selector) (fs : FailsafeConfig) (apiPath : string)
    : list failure_report :=
  (executeFS_events (n_consensus n) (n_gzipEnabled n) (n_maxResponseBytes n) (ev_now e) r preferID required fs apiPath (ev_cios e) (n_world n) ++
   match executeFS NewRequest_ok gunzip sha (n_consensus n) (n_gzipEnabled n) (ev_now e) r preferID required fs apiPath
           (ev_cios e) (n_world n) with
   | (w, XHedge ups preferID target archiveBiased) =>
       match fs_Hedge fs ≫= λ hedge, hedge_init (ev_now e) hedge ups preferID w with
       | None => []
       | Some s => hedge_events (n_gzipEnabled n) r fs apiPath target archiveBiased (n_maxResponseBytes n) s (ev_sched e)
       end
   | _ => []
   end)%list.

(** Only the caller that leads a multiplexed request executes it. *)
Definition execute_events (e : env) n (r : Inbound) (preferID : string) (required : Selector) (fs : FailsafeConfig) (apiPath : string)
    : list failure_report :=
  if multiplexed (req_Method (in_req r)) then
    match ev_role e with
    | MuxLead | MuxLeadGone => run_exec_events e n r preferID required fs apiPath
    | _ => []
    end
  else run_exec_events e n r preferID required fs apiPath.

(** A failure of the request as a whole. *)
Definition request_failed (kind : string) (r : Inbound) (upstream : string) (status : Z) (hdr : Header) (body : string)
    (err : option failure_error) (duration : Z) (selector : string) : failure :=
  {| fl_kind := kind; fl_reqBody := default "" (in_Body r); fl_upstream := upstream; fl_status := status; fl_header := hdr;
     fl_body := body; fl_err := err; fl_duration := duration; fl_selector := selector; fl_attempt := 0 |}.

Definition conclude_events (e : env) (r : Inbound) (o : outcome) n : list failure_report :=
  match o with
  | OErr (XSelected selector _ as err) =>
      [Failed (request_failed "selected_upstream_unavailable" r "" 503 ∅ "" (Some (FEExec err)) (ev_duration e) selector)]
  | OErr err => [Failed (request_failed "all_upstreams_failed" r "" 502 ∅ "" (Some (FEExec err)) (ev_duration e) "")]
  | OBodyErr => [Failed (request_failed "all_upstreams_failed" r "" 502 ∅ "" (Some FELeaderRead) (ev_duration e) "")]
  | OOk resp uid tok buffered handle =>
      let '(resp, body) :=
        match buffered with
        | Some b => (resp, Some b)
        | None => readAndFinalizeResponseBody resp (n_maxResponseBytes n)
        end in
      match body with
      | None => [Failed (request_failed "upstream_response_read_error" r uid 502 (rs_Header resp) "" (Some FERead) (ev_duration e) "")]
      | Some b =>
          if 400 <=? rs_Status resp
          then [Failed (request_failed "proxied_error_response" r uid (rs_Status resp) (rs_Header resp) b None (ev_duration e) "")]
          else []
      end
  end.

(** A request that is not answered from the cache; [partial] is what was read of a client's body before reading failed. *)
Definition uncached_events (partial : string) (e : env) (r : Inbound) (apiPath preferID : string) (required : Selector) n : list failure_report :=
  let fs := effectiveFailsafe n (req_Method (in_req r)) (url_Path (req_URL (in_req r))) in
  if bool_decide (is_Some (in_Body r)) && ev_bodyErr e then
    [Failed {| fl_kind := "request_body_read_error"; fl_reqBody := partial; fl_upstream := ""; fl_status := 400; fl_header := ∅;
               fl_body := ""; fl_err := Some FERequestBody; fl_duration := 0; fl_selector := ""; fl_attempt := 0 |}]
  else if maxRequestBody <? str_len (default "" (in_Body r)) then
    [Failed {| fl_kind := "request_body_too_large"; fl_reqBody := ""; fl_upstream := ""; fl_status := 413; fl_header := ∅;
               fl_body := ""; fl_err := None; fl_duration := 0; fl_selector := ""; fl_attempt := 0 |}]
  else
    (execute_events e n r preferID required fs apiPath ++
     match execute NewRequest_ok gunzip sha e n r preferID required fs apiPath with
     | (w, inl _, _) => []
     | (w, inr o, _) => conclude_events e r o (set_world w n)
     end)%list.

(** From the cache lookup on. *)
Definition serve_events (partial : string) (e : env) (r : Inbound) (apiPath preferID : string) (required : Selector)
    (cacheScope : string) n : list failure_report :=
  let req := in_req r in
  let path := url_Path (req_URL req) in
  let '(n, hit) :=
    match n_cache n with
    | Some c =>
        if String.eqb (req_Method req) "GET" then
          match Cache_Policy c (req_Method req) path with
          | Some p =>
              let '(c, entry) := Cache_Get (ev_now e) (buildCacheKey ParseFloat (n_id n) req cacheScope) c in (set_cache (Some c) n, entry)
          | None => (n, None)
          end
        else (n, None)
    | None => (n, None)
    end in
  match hit with
  | Some _ => []
  | None => uncached_events partial e r apiPath preferID required n
  end.

Definition ServeHTTP_events (partial : string) (e : env) (wh : Header) (r : Inbound) n : list failure_report :=
  let '(r, clientUpstream) := rewritten escape n r in
  let req := in_req r in
  let path := url_Path (req_URL req) in
  let apiPath := normalizeAPIPath path in
  if String.eqb path "/eth/v1/node/health" then []
  else if String.eqb path "/healthz" then []
  else
    match guard_request e wh r n with
    | (n, inl _) => []
    | (n, inr (ruleUpstream, ruleHit, ip)) =>
        let '(preferID, required, cacheScope) := route n req clientUpstream ruleUpstream ruleHit ip in
        if isEventStream req then []
        else serve_events partial e r apiPath preferID required cacheScope n
    end.

(** ** The instrumented loop *)

Lemma emit_fst {A} ev (res : A * list failure_report) : (emit ev res).1 = res.1.
Proof. done. Qed.

Lemma seq_loop_log_erases fuel gz maxBytes r fs target apiPath maxAttempts i rest tried biased lastErr w :
  (seq_loop_log fuel gz maxBytes r fs target apiPath maxAttempts i rest tried biased lastErr w).1 =
  seq_loop NewRequest_ok gunzip fuel gz r fs target apiPath maxAttempts i rest tried biased lastErr w.
Proof.
  revert i rest tried biased lastErr w. induction fuel as [|fuel IH]; intros i rest tried biased lastErr w; [done|].
  cbn [seq_loop_log seq_loop]. destruct rest as [|id rest]; [done|]. case_bool_decide; [apply IH|]. destruct (_ && io_ctxDone _); [done|].
  destruct (forward _ _ _ _ _ _) as [[[o w1] tok] [e|[h resp]]]; cbv zeta.
  - destruct (isClientCancel o e); [done|]. case_bool_decide; [apply IH|]. rewrite emit_fst. apply IH.
  - destruct (_ <? 500); [|rewrite emit_fst; apply IH]. destruct (peekBodyForPruning _ _) as [[peeked err] resp'].
    destruct (negb biased && _); [|done]. destruct (negb _); [done|]. destruct (SelectForPathArchive _ _ _ _) as [p [|u ups]]; [done|].
    rewrite emit_fst. apply IH.
Qed.

(** ** Projections of a report *)

Definition is_archive (x : failure_report) : bool := match x with Failed _ => false | _ => true end.
Definition failed_of (x : failure_report) : option failure := match x with Failed f => Some f | _ => None end.

(** Failures of attempts, with the upstream and the number of the attempt, and of the request as a whole. *)
Definition attempt_of (x : failure_report) : option (string * Z) :=
  match x with Failed f => if fl_attempt f =? 0 then None else Some (fl_upstream f, fl_attempt f) | _ => None end.
Definition own_of (x : failure_report) : option failure :=
  match x with Failed f => if fl_attempt f =? 0 then Some f else None | _ => None end.

Lemma status_attempt kind r id k d max resp :
  fl_attempt (attempt_status kind r id k d max resp) = k ∧ fl_upstream (attempt_status kind r id k d max resp) = id.
Proof. unfold attempt_status. by destruct (readAndFinalizeResponseBody _ _). Qed.

(** What the sequential loop reports from index [i] on. *)
Record seq_reported (i : nat) (tried : list string) (biased : bool) (res : exec_error + Exec) (evs : list failure_report) : Prop := {
  rep_distinct : NoDup (omap attempt_of evs).*1;
  rep_untried id : id ∈ (omap attempt_of evs).*1 → id ∉ tried;
  rep_later x : x ∈ omap attempt_of evs → Z.of_nat i < x.2;
  rep_ordered : StronglySorted Z.lt (omap attempt_of evs).*2;
  rep_winner e : res = inr e → ex_uid e ∉ tried ∧ ex_uid e ∉ (omap attempt_of evs).*1;
  rep_own : omap own_of evs = [];
  rep_archive : count is_archive evs <= if biased then 0 else 1;
}.

Lemma reported_nil i tried biased res : (∀ e, res = inr e → ex_uid e ∉ tried) → seq_reported i tried biased res [].
Proof.
  intros H. split; cbn [omap list_omap fmap list_fmap]; [constructor|by intros ? ?%elem_of_nil..|constructor| |done|].
  - intros e He. split; [by apply H|by intros ?%elem_of_nil].
  - rewrite count_nil. by destruct biased.
Qed.

Lemma reported_weaken i tried biased res evs id :
  seq_reported (S i) (id :: tried) biased res evs → seq_reported i tried biased res evs.
Proof.
  intros [H1 H2 H3 H4 H5 H6 H7]. split; try done.
  - intros x Hx. specialize (H2 x Hx). set_solver.
  - intros x Hx. specialize (H3 x Hx). lia.
  - intros e He. specialize (H5 e He). set_solver.
Qed.

Lemma reported_skip i tried biased res evs : seq_reported (S i) tried biased res evs → seq_reported i tried biased res evs.
Proof. intros [H1 H2 H3 H4 H5 H6 H7]. split; try done. intros x Hx. specialize (H3 x Hx). lia. Qed.

(** The attempt at index [i] failed. *)
Lemma reported_failed i tried biased res evs id f :
  id ∉ tried → fl_attempt f = Z.of_nat i + 1 → fl_upstream f = id →
  seq_reported (S i) (id :: tried) biased res evs → seq_reported i tried biased res (Failed f :: evs).
Proof.
  intros Hid Ha Hu [H1 H2 H3 H4 H5 H6 H7]. assert (omap attempt_of (Failed f :: evs) = (id, Z.of_nat i + 1) :: omap attempt_of evs) as E.
  { cbn. rewrite Ha, Hu. by destruct (Z.eqb_spec (Z.of_nat i + 1) 0) as [|_]; [lia|]. }
  split; rewrite ?E; cbn [fmap list_fmap fst snd].
  - constructor; [|done]. intros Hx. apply (H2 id Hx). set_solver.
  - intros x [->|Hx]%elem_of_cons; [done|]. specialize (H2 x Hx). set_solver.
  - intros x [->|Hx]%elem_of_cons; [cbn; lia|]. specialize (H3 x Hx). lia.
  - constructor; [done|]. apply Forall_forall. intros k (x & -> & Hx)%list_elem_of_fmap. specialize (H3 x Hx). lia.
  - intros e He. specialize (H5 e He). set_solver.
  - cbn. rewrite Ha. by destruct (Z.eqb_spec (Z.of_nat i + 1) 0) as [|_]; [lia|].
  - rewrite count_cons. cbn [is_archive]. lia.
Qed.

(** A promotion, after which there is none. *)
Lemma reported_promoted i tried res evs id :
  seq_reported (S i) (id :: tried) true res evs → seq_reported i tried false res (ArchivePromotion archivePromotionOnError :: evs).
Proof.
  intros H%reported_weaken. destruct H as [H1 H2 H3 H4 H5 H6 H7]. split; try done. rewrite count_cons. cbn [is_archive]. lia.
Qed.

Lemma seq_loop_reports fuel gz maxBytes r fs target apiPath maxAttempts i rest tried biased lastErr w :
  let '(_, res, evs) := seq_loop_log fuel gz maxBytes r fs target apiPath maxAttempts i rest tried biased lastErr w in
  seq_reported i tried biased res evs.
Proof.
  revert i rest tried biased lastErr w. induction fuel as [|fuel IH]; intros i rest tried biased lastErr w; [by apply reported_nil|].
  cbn [seq_loop_log]. destruct rest as [|id rest]; [by apply reported_nil|]. case_bool_decide as Hid.
  { specialize (IH (S i) rest tried biased lastErr w). destruct (seq_loop_log _ _ _ _ _ _ _ _ _ _ _ _ _ _) as [[w' res] evs]. by apply reported_skip. }
  destruct (_ && io_ctxDone _); [by apply reported_nil|].
  destruct (forward _ _ _ _ _ _) as [[[o w1] tok] [e|[h resp]]]; cbv zeta.
  - destruct (isClientCancel o e); [by apply reported_nil|]. case_bool_decide.
    + specialize (IH (S i) rest (id :: tried) biased (Some (CForward e)) w1). destruct (seq_loop_log _ _ _ _ _ _ _ _ _ _ _ _ _ _) as [[w' res] evs].
      by apply reported_weaken in IH.
    + specialize (IH (S i) rest (id :: tried) biased (Some (CForward e)) (recordUpstreamFailure id tok apiPath (io_done o) w1)).
      destruct (seq_loop_log _ _ _ _ _ _ _ _ _ _ _ _ _ _) as [[w' res] evs]. by eapply reported_failed.
  - destruct (_ <? 500).
    + destruct (peekBodyForPruning _ _) as [[peeked err] resp']. destruct biased; cbn [negb andb].
      { apply reported_nil. by intros e [= <-]. }
      destruct (isPruningError _ _ _); [|apply reported_nil; by intros e [= <-]]. destruct (negb _).
      { pose proof (reported_nil i tried false (inr {| ex_handle := Some h; ex_resp := resp'; ex_uid := id; ex_tok := tok |})) as [].
        - by intros e [= <-].
        - by split. }
      destruct (SelectForPathArchive _ _ _ _) as [p [|u ups]]; [apply reported_nil; by intros e [= <-]|].
      match goal with |- context [seq_loop_log _ _ _ _ _ _ _ _ _ ?l _ _ ?le ?w'] => specialize (IH (S i) l (id :: tried) true le w') end.
      destruct (seq_loop_log _ _ _ _ _ _ _ _ _ _ _ _ _ _) as [[w' res] evs]. by apply reported_promoted in IH.
    + match goal with |- context [seq_loop_log _ _ _ _ _ _ _ _ _ ?l _ _ ?le ?w'] => specialize (IH (S i) l (id :: tried) biased le w') end.
      destruct (seq_loop_log _ _ _ _ _ _ _ _ _ _ _ _ _ _) as [[w' res] evs]. cbn [emit fst snd app].
      eapply reported_failed; [done|apply status_attempt|apply status_attempt|done].
Qed.

(** ** Hedged attempts *)

Section hedged_reports.
Context (gz : bool) (r : Inbound) (fs : FailsafeConfig) (apiPath : string) (target : HistoricalTarget)
  (archiveBiased : bool) (maxResponseBytes : Z).
Abbreviation step := (hedge_step NewRequest_ok gunzip gz r fs apiPath target archiveBiased maxResponseBytes).
Abbreviation events := (hedge_events gz r fs apiPath target archiveBiased maxResponseBytes).
Implicit Types s : hedge_state (RL := RL).

Lemma hedge_step_decided s ev : is_Some (h_result s) → is_Some (h_result (step s ev)).
Proof.
  intros [x E]. exists x. unfold hedge_step. destruct ev as [k| | | |]; rewrite ?E; try done.
  - unfold hedge_run. destruct (h_pending s !! k); [|done]. by destruct (forward _ _ _ _ _ _) as [[[? ?] ?] ?].
  - destruct (h_chan s); [done|]. by destruct (0 <? _)%nat.
Qed.

Lemma hedge_events_decided s sched : is_Some (h_result s) → events s sched = [].
Proof.
  revert s. induction sched as [|ev sched IH]; intros s H; [done|]. cbn [hedge_events]. rewrite IH by (by apply hedge_step_decided).
  destruct H as [x E]. unfold hedge_step_events. rewrite E. by destruct ev.
Qed.

Lemma receive_events_attempts res s :
  omap own_of (receive_events r maxResponseBytes res s) = [] ∧ count is_archive (receive_events r maxResponseBytes res s) = 0.
Proof.
  assert (∀ f, 0 < fl_attempt f → omap own_of [Failed f] = [] ∧ count is_archive [Failed f] = 0) as H.
  { intros f Hf. split; [|done]. cbn. destruct (Z.eqb_spec (fl_attempt f) 0); [lia|done]. }
  assert (∀ id, 0 <= attempt_index s id) as Hi.
  { intros id. unfold attempt_index. destruct (list_find _ _) as [[? ?]|]; lia. }
  unfold receive_events. cbv zeta. destruct (hr_res res) as [e|[h resp]].
  - destruct (_ || _); [done|]. apply H. cbn [fl_attempt attempt_failed]. specialize (Hi (hr_uid res)). lia.
  - destruct (_ <? 500); [done|]. apply H. rewrite (proj1 (status_attempt _ _ _ _ _ _ _)). specialize (Hi (hr_uid res)). lia.
Qed.

Lemma loop_check_reports now s :
  let evs := loop_check_events gz r fs apiPath target maxResponseBytes now s in
  omap own_of evs = [] ∧ (evs = [] ∨ count is_archive evs = 1 ∧ is_Some (h_pruning s) ∧
    is_Some (h_result (hedge_loop_check NewRequest_ok gunzip gz r fs apiPath target maxResponseBytes now s))).
Proof.
  unfold loop_check_events, hedge_loop_check. destruct (h_result s); [by split; [|left]|]. destruct (_ || _); [by split; [|left]|].
  unfold finish_events, hedge_finish. destruct (h_pruning s) as [p|]; [|by split; [|left]].
  destruct (readAndFinalizeResponseBody _ _) as [resp body]. cbv zeta. destruct (promoteToArchive _ _ _ _ _ _ _ _ _ _) as [w [?|?]].
  - split; [done|by left].
  - split; [done|right]. by split_and!.
Qed.

(** Nothing is kept for promotion if the candidates are archive upstreams already. *)
Lemma receive_unpruned res s : archiveBiased = true → h_pruning s = None → h_pruning (hedge_receive apiPath target archiveBiased res s) = None.
Proof.
  intros Hb Hp. unfold hedge_receive. cbv zeta. rewrite Hb. destruct (hr_res res) as [e|[h resp]].
  - destruct (isClientCancel _ _); [done|]. by case_bool_decide.
  - destruct (_ <? 500); [|done]. by destruct (peekBodyForPruning _ _) as [[? ?] ?].
Qed.

Lemma finish_unpruned now s :
  h_pruning s = None → h_pruning (hedge_finish NewRequest_ok gunzip gz r fs apiPath target maxResponseBytes now s) = None.
Proof. intros Hp. unfold hedge_finish. by rewrite Hp. Qed.

Lemma step_unpruned s ev : archiveBiased = true → h_pruning s = None → h_pruning (step s ev) = None.
Proof.
  intros Hb Hp. unfold hedge_step. destruct ev as [k|now| |now|now], (h_result s) eqn:Er; try done.
  - unfold hedge_run. destruct (h_pending s !! k); [|done]. by destruct (forward _ _ _ _ _ _) as [[[? ?] ?] ?].
  - unfold hedge_run. destruct (h_pending s !! k); [|done]. by destruct (forward _ _ _ _ _ _) as [[[? ?] ?] ?].
  - destruct (h_chan s) as [|res rest]; [done|]. pose proof (receive_unpruned res (take_result s rest) Hb Hp) as H. revert H.
    generalize (hedge_receive apiPath target archiveBiased res (take_result s rest)). intros s1 H. unfold hedge_loop_check.
    destruct (h_result s1); [done|]. case_match; [done|]. by apply finish_unpruned.
  - destruct (_ <? _)%nat; [|done]. unfold hedge_fire. by destruct (h_ups s !! h_fired s).
  - destruct (h_chan s); [done|]. by destruct (0 <? _)%nat.
Qed.

Lemma hedge_reports s sched :
  (archiveBiased = true → h_pruning s = None) →
  omap own_of (events s sched) = [] ∧ count is_archive (events s sched) <= if archiveBiased then 0 else 1.
Proof.
  revert s. induction sched as [|ev sched IH]; intros s Hp.
  { split; [done|]. cbn [hedge_events]. rewrite count_nil. by destruct archiveBiased. }
  cbn [hedge_events]. specialize (IH (step s ev)). destruct IH as [I1 I2]; [intros Hb; by apply step_unpruned; auto|].
  rewrite omap_app, count_app, I1, app_nil_r.
  assert (hedge_step_events gz r fs apiPath target archiveBiased maxResponseBytes s ev = [] ∨
    ∃ now res rest, ev = HRecv now ∧ h_result s = None ∧ h_chan s = res :: rest) as [->|(now & res & rest & -> & Er & Ec)].
  { unfold hedge_step_events. destruct ev as [|now| | |], (h_result s) eqn:Er; try by left. destruct (h_chan s) as [|res rest] eqn:Ec; [by left|]. right. eauto 10. }
  { split; [done|]. rewrite count_nil. lia. }
  cbn [hedge_step_events hedge_step] in *. rewrite Er, Ec in *. destruct (receive_events_attempts res s) as [R1 R2].
  pose proof (loop_check_reports now (hedge_receive apiPath target archiveBiased res (take_result s rest))) as [L1 L2].
  rewrite omap_app, count_app, R1, R2, L1. split; [done|]. destruct L2 as [->|(-> & [p Hpr] & Hd)]; [rewrite count_nil; lia|].
  rewrite (hedge_events_decided _ sched Hd), count_nil. destruct (decide (archiveBiased = true)) as [Hb|Hb%not_true_is_false]; [|rewrite Hb; lia].
  by rewrite (receive_unpruned res (take_result s rest) Hb (Hp Hb)) in Hpr.
Qed.
End hedged_reports.

(** ** One execution *)

(** What an execution reports, with the candidates archive upstreams from the start or not. *)
Definition exec_reported (biased : bool) (evs : list failure_report) : Prop :=
  omap own_of evs = [] ∧ count is_archive evs <= if biased then 0 else 1.

Lemma exec_reported_nil biased : exec_reported biased [].
Proof. split; [done|]. rewrite count_nil. by destruct biased. Qed.

Lemma sequential_reports gz maxBytes now r preferID fs apiPath target proactive prefer w :
  exec_reported proactive (sequential_events gz maxBytes now r preferID fs apiPath target proactive prefer w).
Proof.
  unfold sequential_events. cbv zeta. destruct (selectForPath _ _ _ _ _ _) as [p [|u ups]]; [apply exec_reported_nil|].
  set (ids := ensurePreferredUpstreamFirst _ _ _ _ _). set (w1 := set_pool p w).
  pose proof (seq_loop_reports (seq_fuel w1 ids) gz maxBytes r fs target apiPath (MaxAttempts fs) 0 ids [] proactive None w1) as H.
  destruct (seq_loop_log _ _ _ _ _ _ _ _ _ _ _ _ _ _) as [[w2 res] evs]. by destruct H.
Qed.

(** Control passes to the hedged execution before anything is reported. *)
Lemma rest_reports gz maxBytes now r preferID fs apiPath target proactive prefer w :
  let evs := execute_rest_events gz maxBytes now r preferID fs apiPath target proactive prefer w in
  exec_reported proactive evs ∧
  ∀ w' ups pid t biased, execute_rest NewRequest_ok gunzip gz now r preferID fs apiPath target proactive prefer w = (w', XHedge ups pid t biased) →
    evs = [] ∧ biased = proactive.
Proof.
  unfold execute_rest_events, execute_rest. cbv zeta.
  assert (∀ w, ¬ ∃ w' ups pid t biased,
    (let '(p, ups) := selectForPath proactive prefer now (w_pool w) apiPath (Z.to_nat (MaxAttempts fs)) in
     let w := set_pool p w in
     match ups with
     | [] => (w, XDone (inl XNoUpstreams))
     | _ =>
         let ids := ensurePreferredUpstreamFirst now (w_pool w) (u_ID <$> ups) preferID (MaxAttempts fs) in
         let '(w, res) := seq_loop NewRequest_ok gunzip (seq_fuel w ids) gz r fs target apiPath (MaxAttempts fs) 0 ids [] proactive None w in
         (w, XDone res)
     end) = (w', XHedge ups pid t biased)) as Hd.
  { intros w0 (w' & ups & pid & t & biased & E). destruct (selectForPath _ _ _ _ _ _) as [p [|u l]]; [done|]. cbv zeta in E.
    by destruct (seq_loop _ _ _ _ _ _ _ _ _ _ _ _ _ _ _). }
  destruct (fs_Hedge fs) as [hedge|].
  2: { split; [apply sequential_reports|]. intros w' ups pid t biased E. exfalso. eapply (Hd w). eauto 10. }
  destruct (selectForPath _ _ _ _ _ (Z.to_nat (hg_MaxCount hedge + 1))) as [p ups]. destruct (_ <? _)%nat.
  - split; [apply exec_reported_nil|]. by intros w' ups' pid t biased [= <- <- <- <- <-].
  - split; [apply sequential_reports|]. intros w' ups' pid t biased E. exfalso. eapply (Hd (set_pool p w)). eauto 10.
Qed.

Lemma executeFS_reports consensus gz maxBytes now r preferID required fs apiPath cios w :
  let evs := executeFS_events consensus gz maxBytes now r preferID required fs apiPath cios w in
  exec_reported false evs ∧
  ∀ w' ups pid t biased, executeFS NewRequest_ok gunzip sha consensus gz now r preferID required fs apiPath cios w = (w', XHedge ups pid t biased) →
    count is_archive evs = if biased then 1 else 0.
Proof.
  unfold executeFS_events, executeFS. cbv zeta. destruct (Selector_Enabled required).
  { split; [apply exec_reported_nil|]. intros w' ups pid t biased. by destruct (executeSelectedFS _ _ _ _ _ _ _ _ _). }
  set (proactive := HasArchive _ && _). set (prefer := pathHasNamedSlotID _). set (target := classifyHistoricalTarget _).
  set (pid0 := if proactive && _ then _ else _).
  assert (∀ evs, exec_reported proactive evs → exec_reported false ((if proactive then [ArchivePromotion archivePromotionProactive] else []) ++ evs)%list) as Hpre.
  { intros evs [H1 H2]. split; [by destruct proactive|]. rewrite count_app. destruct proactive; rewrite ?count_cons, ?count_nil; cbn [is_archive]; lia. }
  assert (∀ w0, let evs := execute_rest_events gz maxBytes now r pid0 fs apiPath target proactive prefer w0 in
    exec_reported false ((if proactive then [ArchivePromotion archivePromotionProactive] else []) ++ evs)%list ∧
    ∀ w' ups pid t biased, execute_rest NewRequest_ok gunzip gz now r pid0 fs apiPath target proactive prefer w0 = (w', XHedge ups pid t biased) →
      count is_archive ((if proactive then [ArchivePromotion archivePromotionProactive] else []) ++ evs)%list = if biased then 1 else 0) as Hrest.
  { intros w0. cbv zeta. destruct (rest_reports gz maxBytes now r pid0 fs apiPath target proactive prefer w0) as [H1 H2]. split; [by apply Hpre|].
    intros w' ups pid t biased E. destruct (H2 _ _ _ _ _ E) as [-> ->]. by destruct proactive. }
  destruct consensus as [cp|]; [|apply Hrest]. destruct (selectForPath _ _ _ _ _ _) as [p ups]. destruct (_ <=? _); [|apply Hrest].
  destruct (Consensus_Execute _ _ _ _ _) as [ups' [[]|c]]; try apply Hrest; (split; [apply Hpre, exec_reported_nil|done]).
Qed.

Lemma run_exec_reports e n r preferID required fs apiPath :
  exec_reported false (run_exec_events e n r preferID required fs apiPath).
Proof.
  unfold run_exec_events. destruct (executeFS_reports (n_consensus n) (n_gzipEnabled n) (n_maxResponseBytes n) (ev_now e) r preferID required fs apiPath
    (ev_cios e) (n_world n)) as [[H1 H2] H3]. destruct (executeFS _ _ _ _ _ _ _ _ _ _ _ _ _) as [w [res|ups pid target biased]].
  { by rewrite app_nil_r. }
  specialize (H3 _ _ _ _ _ eq_refl). destruct (_ ≫= _) as [s|] eqn:Es; [|by rewrite app_nil_r].
  assert (h_pruning s = None) as Hp.
  { apply bind_Some in Es as (hedge & _ & Es). unfold hedge_init, hedge_fire in Es. cbn [h_ups h_fired] in Es.
    destruct (_ !! _); [|done]. by injection Es as <-. }
  destruct (hedge_reports (n_gzipEnabled n) r fs apiPath target biased (n_maxResponseBytes n) s (ev_sched e)) as [G1 G2]; [done|].
  split; [by rewrite omap_app, H1, G1|]. rewrite count_app, H3. destruct biased; lia.
Qed.

(** ** The request *)

(** The request as a whole is reported at most once, under the status it is answered with. *)
Definition own_reported (s : served) (evs : list failure_report) : Prop :=
  omap own_of evs = [] ∨
  ∃ f wr, omap own_of evs = [f] ∧ s = SWritten wr ∧ fl_status f = wr_Status wr ∧ 400 <= fl_status f.

Lemma conclude_reports e wh r apiPath ip cache acceptBinary o n :
  let s := (conclude e wh r apiPath ip cache acceptBinary o n).2 in
  let evs := conclude_events e r o n in
  own_reported s evs ∧ count is_archive evs = 0 ∧ ∀ wr, s = SWritten wr → 400 <= wr_Status wr → omap own_of evs ≠ [].
Proof.
  assert (∀ s f wr, s = SWritten wr → fl_attempt f = 0 → fl_status f = wr_Status wr → 400 <= fl_status f →
    own_reported s [Failed f] ∧ count is_archive [Failed f] = 0 ∧ ∀ wr, s = SWritten wr → 400 <= wr_Status wr → omap own_of [Failed f] ≠ []) as Hf.
  { intros s f wr -> Ha Hs H4. unfold own_reported. cbn [omap list_omap own_of]. rewrite Ha. cbn [Z.eqb].
    split_and!; [right; by exists f, wr|done|done]. }
  destruct o as [err| |resp uid tok buffered handle]; cbn [conclude conclude_events].
  - destruct err; eapply Hf; try reflexivity; done.
  - eapply Hf; try reflexivity; done.
  - set (n1 := match ip with Some _ => _ | None => n end).
    assert (n_maxResponseBytes n1 = n_maxResponseBytes n) as ->.
    { subst n1. destruct ip, (n_sessions n); try done. destruct (n_stickySession n); [|done]. by destruct (_ !! _). }
    destruct (match buffered with Some _ => _ | None => _ end) as [resp' [b|]]; [|eapply Hf; try reflexivity; done].
    unfold deliver. cbv zeta. cbn [fst snd]. destruct (400 <=? rs_Status resp') eqn:E.
    + eapply Hf; [reflexivity|done| |by apply Z.leb_le]. by rewrite (proj1 (writeBody_spec _ _ _ _ _ _)).
    + split; [by left|]. split; [done|]. intros wr [= <-]. rewrite (proj1 (writeBody_spec _ _ _ _ _ _)). apply Z.leb_gt in E. lia.
Qed.

Lemma execute_reports e n r preferID required fs apiPath : exec_reported false (execute_events e n r preferID required fs apiPath).
Proof.
  unfold execute_events. destruct (multiplexed _); [|apply run_exec_reports].
  destruct (ev_role e); first [apply run_exec_reports|apply exec_reported_nil].
Qed.

(** What [uncached_counts] shows of metrics, for reports. *)
Lemma uncached_reports partial e wh r apiPath preferID required ip cache acceptBinary n :
  let path := url_Path (req_URL (in_req r)) in
  let s := (if bool_decide (is_Some (in_Body r)) && ev_bodyErr e
            then (n, SWritten (http_Error wh 400 "failed to read request body"), [])
            else if maxRequestBody <? str_len (default "" (in_Body r))
            then (n, SWritten (http_Error wh 413 "request body too large"), [])
            else match execute NewRequest_ok gunzip sha e n r preferID required (effectiveFailsafe n (req_Method (in_req r)) path) apiPath with
                 | (w, inl s, queue) => (set_world w n, s, queue)
                 | (w, inr o, queue) => let '(n2, s) := conclude e wh r apiPath ip cache acceptBinary o (set_world w n) in (n2, s, queue)
                 end).1.2 in
  let evs := uncached_events partial e r apiPath preferID required n in
  own_reported s evs ∧ count is_archive evs <= 1 ∧ ∀ wr, s = SWritten wr → 400 <= wr_Status wr → omap own_of evs ≠ [].
Proof.
  cbv zeta. unfold uncached_events. cbv zeta.
  destruct (_ && ev_bodyErr e). { split; [right; eexists _, _; by split_and!|by split]. }
  destruct (_ <? _). { split; [right; eexists _, _; by split_and!|by split]. }
  destruct (execute_reports e n r preferID required (effectiveFailsafe n (req_Method (in_req r)) (url_Path (req_URL (in_req r)))) apiPath) as [E1 E2].
  set (evs := execute_events _ _ _ _ _ _ _) in *. destruct (execute _ _ _ _ _ _ _ _ _ _) as [[w [s|o]] q] eqn:Ex; cbn [fst snd].
  - rewrite app_nil_r. split_and!; [by left|done|]. intros wr ->. by destruct (execute_unwritten _ _ _ _ _ _ _ _ _ _ _ _ _ wr Ex).
  - pose proof (conclude_reports e wh r apiPath ip cache acceptBinary o (set_world w n)) as (C1 & C2 & C3).
    destruct (conclude _ _ _ _ _ _ _ _ _) as [n2 s]. cbn [fst snd] in *. unfold own_reported. rewrite omap_app, E1, count_app, C2. cbn [app].
    split_and!; [done|lia|done].
Qed.

Lemma reported_uncached s evs (ms : string → bool → list metric_write) :
  own_reported s evs ∧ count is_archive evs <= 1 ∧ (∀ wr, s = SWritten wr → 400 <= wr_Status wr → omap own_of evs ≠ []) →
  own_reported s evs ∧ count is_archive evs <= 1 ∧
  ∀ apiKey shared wr, s = SWritten wr → 400 <= wr_Status wr → bfilter is_served (ms apiKey shared) = [] → omap own_of evs ≠ [].
Proof. intros (H1 & H2 & H3). split_and!; [done..|]. intros _ _ wr Hs H4 _. by eapply H3. Qed.

Lemma serve_reports partial e wh r apiPath preferID required cacheScope ip n :
  let s := (serve_proxied NewRequest_ok gunzip sha ParseFloat e wh r apiPath preferID required cacheScope ip n).1.2 in
  let evs := serve_events partial e r apiPath preferID required cacheScope n in
  own_reported s evs ∧ count is_archive evs <= 1 ∧
  ∀ apiKey shared wr, s = SWritten wr → 400 <= wr_Status wr →
    bfilter is_served (serve_metrics NewRequest_ok gunzip sha ParseFloat apiKey shared e r apiPath preferID required cacheScope n) = [] →
    omap own_of evs ≠ [].
Proof.
  unfold serve_proxied, serve_events, serve_metrics. cbv zeta. set (ab := acceptPrefersSSZ _ _).
  destruct (n_cache n) as [c|]; [|exact (reported_uncached _ _ _ (uncached_reports partial e wh r apiPath preferID required ip None ab n))].
  destruct (String.eqb _ "GET"); [|exact (reported_uncached _ _ _ (uncached_reports partial e wh r apiPath preferID required ip None ab n))].
  destruct (Cache_Policy _ _ _) as [pol|]; [|exact (reported_uncached _ _ _ (uncached_reports partial e wh r apiPath preferID required ip None ab n))].
  destruct (Cache_Get _ _ _) as [c' [entry|]];
    [|exact (reported_uncached _ _ _ (uncached_reports partial e wh r apiPath preferID required ip
        (Some (buildCacheKey ParseFloat (n_id n) (in_req r) cacheScope, policy_TTL pol)) ab (set_cache (Some c') n)))].
  split; [by left|]. split; [done|]. intros apiKey shared wr _ _. rewrite bfilter_app. by cbn.
Qed.

(** C39: failures are reported once.  The debug log gets at most one event about a request as a whole, under the status the client is answered with, and only for an error status; a
    request that was executed (it is counted for an upstream) and answered with an error status gets one.  However its attempts were made, sequentially, hedged or after a
    consensus round, a request is counted at most once as promoted to archive upstreams or as lacking one. *)
Theorem failures_reported partial c shared e wh r n :
  let s := (ServeHTTP NewRequest_ok gunzip sha escape ParseFloat e wh r n).1.2 in
  let evs := ServeHTTP_events partial e wh r n in
  own_reported s evs ∧ count is_archive evs <= 1 ∧
  ∀ wr, s = SWritten wr → 400 <= wr_Status wr →
    bfilter is_total (ServeHTTP_metrics NewRequest_ok gunzip sha escape ParseFloat c shared e wh r n) ≠ [] → omap own_of evs ≠ [].
Proof.
  unfold ServeHTTP, ServeHTTP_events, ServeHTTP_metrics. cbv zeta. destruct (rewritten escape n r) as [r' client].
  destruct (String.eqb _ "/eth/v1/node/health") eqn:E1; [by split; [left|]|]. destruct (String.eqb _ "/healthz") eqn:E2; [by split; [left|]|].
  assert (health_path (url_Path (req_URL (in_req r'))) = false) as Hp by (unfold health_path; by rewrite E1, E2).
  destruct (guard_request e wh r' n) as [n1 [s|[[ru hit] ip]]].
  { split; [by left|]. split; [done|]. cbn [fst snd]. intros wr -> _ Ht. destruct Ht. apply observe_filters. }
  destruct (route _ _ _ _ _ _) as [[pref req] scope]. destruct (isEventStream _); [by split; [left|]|].
  destruct (serve_reports partial e wh r' (normalizeAPIPath (url_Path (req_URL (in_req r')))) pref req scope ip n1) as (H1 & H2 & H3).
  split_and!; [done..|]. intros wr Hs H4 Ht. refine (H3 (APIKeyIDFromRequest c) shared wr Hs H4 _).
  destruct (acc_total _ _ _ _ _ (proxied_accounted NewRequest_ok gunzip sha escape ParseFloat (APIKeyIDFromRequest c) shared e wh r'
    (normalizeAPIPath (url_Path (req_URL (in_req r')))) pref req scope ip n1 Hp)) as [[? _]|[? _]]; done.
Qed.

(** Failed attempts of a sequential execution that ended with [res]. *)
Definition attempts_distinct (res : exec_error + Exec) (evs : list failure_report) : Prop :=
  NoDup (omap attempt_of evs).*1 ∧ StronglySorted Z.lt (omap attempt_of evs).*2 ∧ ∀ e, res = inr e → ex_uid e ∉ (omap attempt_of evs).*1.

Lemma attempts_nil res : attempts_distinct res [].
Proof. split_and!; [constructor|constructor|]. by intros e _ ?%elem_of_nil. Qed.

Lemma rest_attempts gz maxBytes now r preferID fs apiPath target proactive prefer w w' res :
  execute_rest NewRequest_ok gunzip gz now r preferID fs apiPath target proactive prefer w = (w', XDone res) →
  attempts_distinct res (execute_rest_events gz maxBytes now r preferID fs apiPath target proactive prefer w).
Proof.
  unfold execute_rest, execute_rest_events. cbv zeta.
  assert (∀ w, (let '(p, ups) := selectForPath proactive prefer now (w_pool w) apiPath (Z.to_nat (MaxAttempts fs)) in
     let w := set_pool p w in
     match ups with
     | [] => (w, XDone (inl XNoUpstreams))
     | _ =>
         let ids := ensurePreferredUpstreamFirst now (w_pool w) (u_ID <$> ups) preferID (MaxAttempts fs) in
         let '(w, res) := seq_loop NewRequest_ok gunzip (seq_fuel w ids) gz r fs target apiPath (MaxAttempts fs) 0 ids [] proactive None w in
         (w, XDone res)
     end) = (w', XDone res) → attempts_distinct res (sequential_events gz maxBytes now r preferID fs apiPath target proactive prefer w)) as Hs.
  { intros w0. unfold sequential_events. cbv zeta. destruct (selectForPath _ _ _ _ _ _) as [p [|u ups]]; [intros; apply attempts_nil|].
    set (ids := ensurePreferredUpstreamFirst _ _ _ _ _). set (w1 := set_pool p w0).
    pose proof (seq_loop_reports (seq_fuel w1 ids) gz maxBytes r fs target apiPath (MaxAttempts fs) 0 ids [] proactive None w1) as H.
    rewrite <- (seq_loop_log_erases _ _ maxBytes). destruct (seq_loop_log _ _ _ _ _ _ _ _ _ _ _ _ _ _) as [[w2 res'] evs]. cbn [fst snd].
    intros [= <- <-]. destruct H as [H1 _ _ H4 H5 _ _]. split_and!; [done..|]. intros e He. by apply H5. }
  destruct (fs_Hedge fs) as [hedge|]; [|apply Hs]. destruct (selectForPath _ _ _ _ _ (Z.to_nat (hg_MaxCount hedge + 1))) as [p ups].
  destruct (_ <? _)%nat; [done|apply Hs].
Qed.

(** A sequential execution reports each failed attempt once: of distinct upstreams, with increasing numbers, and never of the upstream
    whose response it returns. *)
Theorem attempts_reported consensus gz maxBytes now r preferID required fs apiPath cios w w' res :
  executeFS NewRequest_ok gunzip sha consensus gz now r preferID required fs apiPath cios w = (w', XDone res) →
  attempts_distinct res (executeFS_events consensus gz maxBytes now r preferID required fs apiPath cios w).
Proof.
  unfold executeFS, executeFS_events. cbv zeta. destruct (Selector_Enabled required); [intros; apply attempts_nil|].
  set (proactive := HasArchive _ && _). set (pid := if proactive && _ then _ else _).
  assert (∀ evs, attempts_distinct res evs → attempts_distinct res ((if proactive then [ArchivePromotion archivePromotionProactive] else []) ++ evs)%list) as Hpre
    by (intros evs H; by destruct proactive).
  destruct consensus as [cp|]; [|intros E; by eapply Hpre, rest_attempts].
  destruct (selectForPath _ _ _ _ _ _) as [p ups]. destruct (_ <=? _); [|intros E; by eapply Hpre, rest_attempts].
  destruct (Consensus_Execute _ _ _ _ _) as [ups' [[]|c]]; intros E; apply Hpre; try apply attempts_nil; by eapply rest_attempts.
Qed.
End failure_log.

Module FailureDemo.
Import ExecDemo BoundsDemo ServeDemo.
#[local] Existing Instance DemoNet.

(** The demonstration network, its archive upstream up as well, when the attempts are answered so. *)
Definition failing_net (statuses : list Z) : Network (RL := ToyRate) (RX := MiniRegexp) :=
  set_world (on_upstream "b" (SetHealth HealthUp) (demo_world (demo_io <$> statuses))) demo_net.

Definition demo_get (path : string) : Inbound :=
  {| in_req := {| req_Method := "GET"; req_URL := {| url_Path := path; url_EscapedPath := path; url_RawQuery := "" |}; req_Header := ∅ |};
     in_Host := "proxy"; in_RemoteAddr := "10.0.0.1:99"; in_Body := None |}.

Definition summary (x : failure_report) : string * string * Z * Z :=
  match x with
  | Failed f => (fl_kind f, fl_upstream f, fl_status f, fl_attempt f)
  | ArchivePromotion reason => ("promotion", reason, 0, 0)
  | PruningErrorNoArchive => ("no_archive", "", 0, 0)
  end.

Definition demo_reports (path : string) (statuses : list Z) : list (string * string * Z * Z) :=
  summary <$> ServeHTTP_events (λ _ _, true) (λ _ _, None) id id toy_ParseFloat "" demo_lead ∅ (demo_get path) (failing_net statuses).

(** Two failed attempts and the request; a failure that another upstream makes good; an answer that is passed on; a promotion. *)
Lemma demo_reported :
  demo_reports "/eth/v1/node/version" [503; 503] =
    [("upstream_attempt_failed", "a", 503, 1); ("upstream_attempt_failed", "b", 503, 2); ("all_upstreams_failed", "", 502, 0)] ∧
  demo_reports "/eth/v1/node/version" [503; 200] = [("upstream_attempt_failed", "a", 503, 1)] ∧
  demo_reports "/eth/v1/node/version" [404] = [("proxied_error_response", "a", 404, 0)] ∧
  demo_reports "/eth/v1/beacon/blocks/5/root" [404; 200] = [("promotion", "pruning_error", 0, 0)].
Proof. by vm_compute. Qed.

Definition is_done (o : exec_step) : bool := match o with XDone _ => true | _ => false end.

Definition demo_executed : World ToyRate * exec_step :=
  executeFS (λ _ _, true) (λ _ _, None) id None false 1 (demo_get "/eth/v1/node/version") "" (ParseSelector "")
    demo_failsafe "/eth/v1/node/version" [] (n_world (failing_net [503; 503])).

Lemma demo_is_done : is_done demo_executed.2 = true.
Proof. by vm_compute. Qed.

Lemma attempts_reported_witness :
  let evs := executeFS_events (λ _ _, true) (λ _ _, None) id None false 1024 1 (demo_get "/eth/v1/node/version") "" (ParseSelector "")
               demo_failsafe "/eth/v1/node/version" [] (n_world (failing_net [503; 503])) in
  (omap attempt_of evs).*1 = ["a"; "b"] ∧ StronglySorted Z.lt (omap attempt_of evs).*2.
Proof.
  split; [by vm_compute|]. pose proof demo_is_done as Hd. destruct demo_executed as [w' [res|]] eqn:E; [|discriminate Hd].
  exact (proj1 (proj2 (attempts_reported (λ _ _, true) (λ _ _, None) id id toy_ParseFloat None false 1024 1 _ _ _ _ _ _ _ w' res E))).
Defined.

(** An upstream says 404 for a historical block, the archive upstream that is asked next fails: the client is not told the
    404 but a bad gateway. *)
Lemma archive_failure_hides_answer :
  match (ServeHTTP (λ _ _, true) (λ _ _, None) id id toy_ParseFloat demo_lead ∅ (demo_get "/eth/v1/beacon/blocks/5/root") (failing_net [404; 503])).1.2 with
  | SWritten wr => wr_Status wr
  | _ => 0
  end = 502.
Proof. by vm_compute. Qed.
End FailureDemo.
