(* ===== verification/Bodies.v ===== *)
(** * Response bodies

    The wrappers that [upstream/upstream.go] and [network/network.go] put around the body of an upstream's response: [trackedBody]
    gives back the active connection, [cancelOnCloseBody] cancels the context of the attempt, [gzipReadCloser] decodes, and
    [peekedBody] puts bytes back that have been looked at.  A body is the list of its wrappers, the outermost first, around the
    body of the transport.  The rest of this development closes a body by its handle, once; here is why that may be
    done: whatever is called and however often, a closed body has given back its connection exactly once. *)

From S2P Require Import Prelude Harness.
#[local] Open Scope Z_scope.

(** The wrappers; [fired] is the state of their [sync.Once]. *)
Inductive layer := LTracked (fired : bool) | LCancel (fired : bool) | LPeeked | LGzip.

(** What a call does: it closes the transport's body or the decoder, calls [DecrActive], calls the cancel function. *)
Inductive effect := ERawClose | EGzipClose | EDone | ECancel.

(** What a call leaves behind and does; the boolean is the error of [Close], the end of the body for [Read]. *)
Definition result : Type := list layer * list effect * bool.

(** The methods of the wrappers, given the result of the wrapped body. *)
Definition tracked_Close (fired : bool) (inner : result) : result :=
  let '(b, e, err) := inner in (LTracked true :: b, e ++ (if fired then [] else [EDone]), err).

Definition cancelOnCloseBody_Close (fired : bool) (inner : result) : result :=
  let '(b, e, err) := inner in (LCancel true :: b, e ++ (if fired then [] else [ECancel]), err).

Definition cancelOnCloseBody_Read (fired : bool) (inner : result) : result :=
  let '(b, e, eof) := inner in (LCancel (fired || eof) :: b, e ++ (if eof && negb fired then [ECancel] else []), eof).

Definition peekedBody_Close (inner : result) : result := let '(b, e, err) := inner in (LPeeked :: b, e, err).

(** The error of the wrapped body comes first. *)
Definition gzipReadCloser_Close (gzErr : bool) (inner : result) : result :=
  let '(b, e, err) := inner in (LGzip :: b, EGzipClose :: e, err || gzErr).

(** [Close] of the outermost wrapper; [gzErr] and [rawErr] are the errors of the decoder and the transport. *)
Fixpoint Close (gzErr rawErr : bool) (b : list layer) : result :=
  match b with
  | [] => ([], [ERawClose], rawErr)
  | LTracked fired :: b => tracked_Close fired (Close gzErr rawErr b)
  | LCancel fired :: b => cancelOnCloseBody_Close fired (Close gzErr rawErr b)
  | LPeeked :: b => peekedBody_Close (Close gzErr rawErr b)
  | LGzip :: b => gzipReadCloser_Close gzErr (Close gzErr rawErr b)
  end.

(** [Read] of the outermost wrapper.  The script says what the transport, a decoder and a buffer of peeked bytes do: whether
    they read on from below, and whether they report the end. *)
Fixpoint Read (script : list bool) (b : list layer) : result :=
  match b with
  | [] => ([], [], default false (head script))
  | LTracked fired :: b => let '(b, e, eof) := Read script b in (LTracked fired :: b, e, eof)
  | LCancel fired :: b => cancelOnCloseBody_Read fired (Read script b)
  | (LPeeked | LGzip) as l :: b =>
      match script with
      | true :: eof :: script => let '(b, e, _) := Read script b in (l :: b, e, eof)
      | false :: eof :: _ => (l :: b, [], eof)
      | _ => (l :: b, [], false)
      end
  end.

Inductive call := CRead (script : list bool) | CClose (gzErr rawErr : bool).

Definition do_call (s : list layer * list effect) (c : call) : list layer * list effect :=
  let '(b, e, _) := match c with CRead script => Read script s.1 | CClose gzErr rawErr => Close gzErr rawErr s.1 end in (b, s.2 ++ e).

(** The wrapper of [wrapResponseBodyCancel]: none if there is nothing to wrap or nothing to cancel. *)
Definition wrapResponseBodyCancel (cancel : bool) (b : option (list layer)) : option (list layer) :=
  match b with
  | Some b => Some (if cancel then LCancel false :: b else b)
  | None => None
  end.

(** ** Once *)

Definition is_close (c : call) : bool := match c with CClose _ _ => true | _ => false end.
Definition is_effect (x : effect) (e : effect) : bool :=
  match x, e with ERawClose, ERawClose | EGzipClose, EGzipClose | EDone, EDone | ECancel, ECancel => true | _, _ => false end.

(** The connections and the contexts a body has still to give back, and all it has had. *)
Definition pending_done (l : layer) : Z := match l with LTracked false => 1 | _ => 0 end.
Definition pending_cancel (l : layer) : Z := match l with LCancel false => 1 | _ => 0 end.

Lemma Close_effects gzErr rawErr b :
  let '(b', e, _) := Close gzErr rawErr b in
  count (is_effect EDone) e = zsum pending_done b ∧ count (is_effect ECancel) e = zsum pending_cancel b ∧
  count (is_effect ERawClose) e = 1 ∧ zsum pending_done b' = 0 ∧ zsum pending_cancel b' = 0.
Proof.
  induction b as [|l b IH]; [done|]. cbn [Close]. destruct (Close gzErr rawErr b) as [[b' e] err]. destruct IH as (H1 & H2 & H3 & H4 & H5).
  unfold tracked_Close, cancelOnCloseBody_Close, peekedBody_Close, gzipReadCloser_Close. destruct l as [[]|[]| |]; rewrite ?count_app, ?count_cons, !zsum_cons, ?count_cons, ?count_nil;
    cbn [is_effect pending_done pending_cancel]; lia.
Qed.

Lemma pending_nonneg b : 0 <= zsum pending_cancel b.
Proof. induction b as [|l b IH]; [done|]. rewrite zsum_cons. destruct l as [[]|[]| |]; cbn [pending_cancel]; lia. Qed.

Lemma Read_effects script b :
  let '(b', e, _) := Read script b in
  count (is_effect EDone) e = 0 ∧ zsum pending_done b' = zsum pending_done b ∧
  count (is_effect ECancel) e = zsum pending_cancel b - zsum pending_cancel b' ∧ count (is_effect ERawClose) e = 0.
Proof.
  revert script. induction b as [|l b IH]; intros script; [by split_and!|].
  assert (∀ l : layer, pending_done l = 0 → pending_cancel l = 0 →
    let '(b', e, _) := match script with
      | true :: eof :: script => let '(b', e, _) := Read script b in (l :: b', e, eof)
      | false :: eof :: _ => (l :: b, [], eof)
      | _ => (l :: b, [], false)
      end in
    count (is_effect EDone) e = 0 ∧ zsum pending_done b' = zsum pending_done (l :: b) ∧
    count (is_effect ECancel) e = zsum pending_cancel (l :: b) - zsum pending_cancel b' ∧ count (is_effect ERawClose) e = 0) as Hl.
  { intros l' H1 H2. destruct script as [|[] [|eof script]]; try (rewrite ?count_nil; lia).
    specialize (IH script). destruct (Read script b) as [[b' e] ?]. rewrite !zsum_cons. lia. }
  specialize (IH script). destruct l as [f|f| |]; cbn [Read]; [| |by apply Hl..]; unfold cancelOnCloseBody_Read;
    destruct (Read script b) as [[b' e] eof]; rewrite !zsum_cons.
  - destruct f; cbn [pending_done pending_cancel]; lia.
  - rewrite !count_app. destruct f, eof; cbn [orb andb negb pending_done pending_cancel]; rewrite ?count_cons, !count_nil; cbn [is_effect]; lia.
Qed.

(** C25: a response body gives back what it holds exactly once.  Whatever is called on it, and in whatever order: each [Close] closes the transport's body; the connection is given back by the first
    [Close] and by nothing else; the context is cancelled at most once, and it has been once the body is closed. *)
Theorem body_settles_once b cs :
  let '(b', e) := foldl do_call (b, []) cs in
  count (is_effect ERawClose) e = count is_close cs ∧
  count (is_effect EDone) e = (if existsb is_close cs then zsum pending_done b else 0) ∧
  count (is_effect ECancel) e + zsum pending_cancel b' = zsum pending_cancel b ∧
  (existsb is_close cs = true → zsum pending_cancel b' = 0).
Proof.
  assert (∀ e0, let '(b', e) := foldl do_call (b, e0) cs in
    count (is_effect ERawClose) e = count (is_effect ERawClose) e0 + count is_close cs ∧
    count (is_effect EDone) e = count (is_effect EDone) e0 + (if existsb is_close cs then zsum pending_done b else 0) ∧
    count (is_effect ECancel) e + zsum pending_cancel b' = count (is_effect ECancel) e0 + zsum pending_cancel b ∧
    0 <= zsum pending_cancel b' <= zsum pending_cancel b ∧ (existsb is_close cs = true → zsum pending_cancel b' = 0)) as H.
  { revert b. induction cs as [|c cs IH]; intros b e0.
    { cbn [foldl existsb]. rewrite count_nil. pose proof (pending_nonneg b). split_and!; [lia..|done]. }
    cbn [foldl existsb]. rewrite count_cons. unfold do_call at 2. cbn [fst snd]. destruct c as [script|gzErr rawErr]; cbn [is_close orb].
    - pose proof (Read_effects script b) as Hr. destruct (Read script b) as [[b1 e1] eof]. specialize (IH b1 (e0 ++ e1)).
      destruct (foldl do_call (b1, e0 ++ e1) cs) as [b' e]. rewrite !count_app in IH. destruct Hr as (R1 & R2 & R3 & R4).
      rewrite R2 in IH. destruct IH as (I1 & I2 & I3 & I4 & I5). pose proof (count_nonneg (is_effect ECancel) e1). split_and!; [lia..|done].
    - pose proof (Close_effects gzErr rawErr b) as Hc. destruct (Close gzErr rawErr b) as [[b1 e1] err]. specialize (IH b1 (e0 ++ e1)).
      destruct (foldl do_call (b1, e0 ++ e1) cs) as [b' e]. rewrite !count_app in IH. destruct Hc as (C1 & C2 & C3 & C4 & C5).
      rewrite C4, C5 in IH. destruct IH as (I1 & I2 & I3 & I4 & I5). pose proof (count_nonneg (is_effect ECancel) e1).
      destruct (existsb is_close cs); split_and!; intros; lia. }
  specialize (H []). destruct (foldl do_call (b, []) cs) as [b' e]. rewrite !count_nil in H. destruct H as (H1 & H2 & H3 & _ & H5). by split_and!.
Qed.
