(* ===== verification/EndToEnd.v ===== *)
(** * The program under its reliability test

    The leak check of the reliability test ([Reliability.checkQuiescedActiveConns]) applied to the running program of
    [Main]: the metrics endpoint is scraped while no request is being answered.  Rendering metrics is the work of the
    Prometheus client library, of which only the lines of the one gauge are described, by its documented
    text format: [labels] renders the labels of a child, [show] a value. *)

From S2P Require Import Prelude GoStrings GoFloat Config CircuitBreaker ScoreTracker AutoTuner BlockCache.
From S2P Require Import Upstream Selector PoolOrder Pool PoolState Health MemoryStore Regexp Cache ApiPath Url CacheKey Paths Historical Session HeadWatcher Consensus Routing ConfigFile Headers Exec Ownership ExecSafety ExecBounds Hedge Serve ServeSafety Warm SSE SSESafety Watch Proxy ProxySafety Cors DebugLog Status Main MainSafety Harness Reliability ReliabilitySafety ActiveGauge.
From Stdlib Require Import Ascii SpecFloat.
#[local] Open Scope string_scope.
#[local] Open Scope Z_scope.

Section end_to_end.
Context `{RL : RateLib} `{RX : RegexpLib} `{NL : NetLib} `{HJ : HeadJSON}.
Context (NewRequest_ok : string → string → bool) (gunzip : string → bool → option (string * bool)) (sha : string → string)
  (ParseFloat : string → option float64) (Quote : string → string) (ParseURL : string → option (string * string))
  (ExpandEnv : string → string) (ParseRedisURL : string → option RedisOptions) (oob : float64 → Z).
Context (iterate : gmap string (Network (RL := RL) (RX := RX)) → list (string * Network (RL := RL) (RX := RX)))
  (iterate_all : ∀ m, iterate m ≡ₚ map_to_list m) (parseOther : string → option URL).
Context (iterate_conns : gmap string float64 → list (string * float64)) (iterate_conns_all : ∀ m, iterate_conns m ≡ₚ map_to_list m).
Context (labels : string → string → string) (show : float64 → string).

(** The line of an upstream: the gauge has the value of the counter. *)
Definition gauge_line (network : string) (u : Upstream RL) : string :=
  active_metric +:+ labels network (u_ID u) +:+ "} " +:+ show (f64_of_Z (u_activeConns u)).

(** The lines of the gauge in a scraped text are those of the upstreams of the program. *)
Definition scraped (app : App (RL := RL) (RX := RX)) (lines : list string) : Prop :=
  ∀ line, line ∈ lines → HasPrefix line active_metric = true →
  ∃ id n u, App_networks app !! id = Some n ∧ u ∈ p_upstreams (n_pool n) ∧ line = gauge_line id u.

(** A text that has them all. *)
Definition exposition (app : App (RL := RL) (RX := RX)) : list string :=
  map_to_list (App_networks app) ≫= λ x, gauge_line x.1 <$> p_upstreams (n_pool x.2).

Lemma exposition_scraped app : scraped app (exposition app).
Proof.
  intros line Hline _. unfold exposition in Hline. apply list_elem_of_bind in Hline as ([id n] & Hin & Hx).
  apply list_elem_of_fmap in Hin as (u & -> & Hu). exists id, n, u. split_and!; [by apply elem_of_map_to_list|done|done].
Qed.

(** A network at rest has no active connection. *)
Lemma at_rest_inactive (n : Network (RL := RL) (RX := RX)) u : at_rest n → u ∈ p_upstreams (n_pool n) → u_activeConns u = 0.
Proof.
  intros [[Hids _ _] [[_ Ha _] Ho _ _]] Hu.
  assert (ByID (n_pool n) (u_ID u) = Some u) as E.
  { unfold pool_ids in Hids. change (w_pool (n_world n)) with (n_pool n) in Hids. unfold ByID. clear -Hids Hu. revert Hids.
    induction Hu as [us|u v us Hu IH]; cbn [fmap list_fmap find_first]; intros Hnd; [by rewrite String.eqb_refl|].
    apply NoDup_cons in Hnd as [Hv Hnd]. rewrite (proj2 (String.eqb_neq (u_ID v) (u_ID u))); [by apply IH|].
    intros Ee. apply Hv. rewrite Ee. by apply list_elem_of_fmap_2. }
  rewrite (Ha (u_ID u) u E), Ho. done.
Qed.

Lemma scrape_gauge_line id (u : Upstream RL) :
  no_byte "}" (labels id (u_ID u)) → ParseFloat (TrimSpace (" " +:+ show f64_zero)) = Some f64_zero → u_activeConns u = 0 →
  scrape_line ParseFloat (gauge_line id u) = Some (labels id (u_ID u), f64_zero).
Proof.
  intros Hl Hs Hu. unfold scrape_line, gauge_line. rewrite Hu, HasPrefix_app. cbn [negb]. change (f64_of_Z 0) with f64_zero.
  assert (active_metric +:+ labels id (u_ID u) +:+ "} " +:+ show f64_zero =
    (active_metric +:+ labels id (u_ID u)) +:+ String "}" (" " +:+ show f64_zero)) as -> by (by rewrite str_app_assoc).
  rewrite CutByte_app by (apply no_byte_app; by split). cbv beta iota. rewrite TrimPrefix_app, Hs. done.
Qed.


End end_to_end.

(** ** Examples *)

Module EndDemo.
Import ConfigDemo ExecDemo BoundsDemo ServeDemo MainDemo.
#[local] Existing Instance BoundsDemo.DemoNet.
#[local] Existing Instance MainDemo.DemoJSON.

Definition zero_ParseFloat (s : string) : option float64 := if String.eqb s "0" then Some f64_zero else toy_ParseFloat s.

Definition demo_harness : Reliability.config :=
  {| ebeaconBase := "http://127.0.0.1:5555/mainnet"; upstreamURLs := []; metricsURL := "http://127.0.0.1:5555/metrics"; pprofAddr := "";
     pprofDir := "/tmp"; pprofEvery := 10 * Minute; Reliability.duration := 30 * Minute; reportEvery := Minute; Reliability.auth := "";
     Reliability.apiKey := ""; timeout := 15 * Second |}.

Definition text (lines : list string) : client_reply :=
  CResp 200 ∅ {| rd_rest := printed_lines lines; rd_fails := false; rd_eager := false |}.


(** The hypothesis on the gauges matters: the race of [ActiveGauge.gauge_stale] leaves a gauge at one with no request in
    flight, and the check reports a leak. *)
Lemma stale_gauge_fails :
  let g := gauge_run [0; 1; 1; 0]%nat (gauge_start 2 [-1; -1]) in
  g_active g = 0 ∧ g_gauge g = f64_one ∧
  OAdd metricsFails ∈ checkQuiescedActiveConns (λ _ _, true) (λ _, Some (g_gauge g)) map_to_list demo_harness (text [active_metric +:+ "x} 1"]).
Proof. cbv zeta. split; [by vm_compute|]. split; [by vm_compute|]. vm_compute. right. by left. Qed.

End EndDemo.
